(** * chous: rules-language parser and rule evaluation engine

    A shallow embedding of the core of the file-structure linter: the naming
    style checker (src/utils/naming.ts), the condition evaluator
    (rules/validators/conditions), the rules-language parser (src/parser.ts)
    and the rule evaluation engine (src/rules/lint.ts).

    JavaScript strings are modelled as [string] (a sequence of 8-bit
    characters); every character class the sources use ([\w], [\d], [\s],
    letters, punctuation) is decided on ASCII characters only, so the model
    coincides with the source on ASCII text and treats every other byte as an
    ordinary non-word, non-space character. *)

From Stdlib Require Import String Ascii List ZArith QArith Lia Bool Arith PeanoNat
  Permutation.
Import ListNotations.
Close Scope Q_scope.
Open Scope string_scope.
Open Scope list_scope.

(** ** String primitives of the host language *)

Module Str.

Definition code (c : ascii) : nat := nat_of_ascii c.

Definition between (lo hi : nat) (c : ascii) : bool :=
  Nat.leb lo (code c) && Nat.leb (code c) hi.

Definition is_digit (c : ascii) : bool := between 48 57 c.
Definition is_lower (c : ascii) : bool := between 97 122 c.
Definition is_upper (c : ascii) : bool := between 65 90 c.
Definition is_alpha (c : ascii) : bool := is_lower c || is_upper c.
Definition is_alnum (c : ascii) : bool := is_alpha c || is_digit c.
(** [\w] *)
Definition is_word (c : ascii) : bool := is_alnum c || Nat.eqb (code c) 95.
(** [\s], restricted to the ASCII white space characters *)
Definition is_space (c : ascii) : bool := between 9 13 c || Nat.eqb (code c) 32.
(** the characters [.] does not match *)
Definition is_newline (c : ascii) : bool := Nat.eqb (code c) 10 || Nat.eqb (code c) 13.

Definition ch (a : ascii) (c : ascii) : bool := Ascii.eqb a c.

Fixpoint rev_acc (s acc : string) : string :=
  match s with
  | EmptyString => acc
  | String c s' => rev_acc s' (String c acc)
  end.

Definition rev (s : string) : string := rev_acc s EmptyString.

Fixpoint dropWhile (p : ascii -> bool) (s : string) : string :=
  match s with
  | EmptyString => EmptyString
  | String c s' => if p c then dropWhile p s' else s
  end.

Definition trimStart (s : string) : string := dropWhile is_space s.
Definition trimEnd (s : string) : string := rev (dropWhile is_space (rev s)).
Definition trim (s : string) : string := trimEnd (trimStart s).

Definition startsWith (s p : string) : bool := String.prefix p s.

Definition endsWith (s p : string) : bool := String.prefix (rev p) (rev s).

Fixpoint includes (s p : string) : bool :=
  if String.prefix p s then true
  else match s with
       | EmptyString => false
       | String _ s' => includes s' p
       end.

(** [s.indexOf(p)], for a [p] that occurs in [s] *)
Fixpoint indexOf (s p : string) : nat :=
  if String.prefix p s then 0
  else match s with
       | EmptyString => 0
       | String _ s' => S (indexOf s' p)
       end.

(** [s.slice(n)] for [0 <= n] *)
Fixpoint drop (n : nat) (s : string) : string :=
  match n, s with
  | O, _ => s
  | S n', String _ s' => drop n' s'
  | S _, EmptyString => EmptyString
  end.

(** [s.slice(0, n)] for [0 <= n] *)
Fixpoint take (n : nat) (s : string) : string :=
  match n, s with
  | O, _ => EmptyString
  | S n', String c s' => String c (take n' s')
  | S _, EmptyString => EmptyString
  end.

(** [s.slice(0, -n)] for [0 < n] *)
Definition dropEnd (n : nat) (s : string) : string :=
  take (String.length s - n) s.

(** [s.lastIndexOf(c)] for a one-character needle *)
Fixpoint lastIndexOf_from (c : ascii) (s : string) (i : nat) (found : option nat)
  : option nat :=
  match s with
  | EmptyString => found
  | String d s' =>
      lastIndexOf_from c s' (S i) (if Ascii.eqb c d then Some i else found)
  end.

Definition lastIndexOf (c : ascii) (s : string) : option nat :=
  lastIndexOf_from c s 0 None.

(** [s.split(c)] for a one-character separator: never the empty list *)
Fixpoint split_acc (c : ascii) (s : string) (cur : string) : list string :=
  match s with
  | EmptyString => [rev cur]
  | String d s' =>
      if Ascii.eqb c d then rev cur :: split_acc c s' EmptyString
      else split_acc c s' (String d cur)
  end.

Definition split (c : ascii) (s : string) : list string :=
  split_acc c s EmptyString.

Definition join (sep : string) (l : list string) : string := String.concat sep l.

Definition lower_char (c : ascii) : ascii :=
  if is_upper c then ascii_of_nat (code c + 32) else c.

Definition upper_char (c : ascii) : ascii :=
  if is_lower c then ascii_of_nat (code c - 32) else c.

Fixpoint map (f : ascii -> ascii) (s : string) : string :=
  match s with
  | EmptyString => EmptyString
  | String c s' => String (f c) (map f s')
  end.

Definition toLowerCase : string -> string := map lower_char.
Definition toUpperCase : string -> string := map upper_char.

Fixpoint all (p : ascii -> bool) (s : string) : bool :=
  match s with
  | EmptyString => true
  | String c s' => p c && all p s'
  end.

Definition isEmpty (s : string) : bool :=
  match s with EmptyString => true | _ => false end.

Definition mem (x : string) (l : list string) : bool :=
  existsb (String.eqb x) l.

End Str.

(** ** A backtracking matcher for the regular expressions of the sources

    Alternatives are tried in the host language's priority order: the left
    branch of [|] first, one more iteration of a greedy quantifier before its
    continuation and the continuation of a lazy quantifier before one more
    iteration.  An iteration of a quantifier has to consume input.

    The comments quote the source's regular expressions; a star that is
    followed by a closing parenthesis is written {0,} there. *)

Module Regex.

Inductive re : Type :=
| Eps
| Chr (p : ascii -> bool)
| Seq (a b : re)
| Alt (a b : re)
| Star (greedy : bool) (a : re)
| Grp (n : nat) (a : re)
| Bol
| Eol
| Ahead (a : re).

Record mstate : Type := MState {
  pos : nat;
  rest : string;
  caps : list (nat * string)
}.

(** The iterations of a quantifier: [step] matches the quantified expression
    once, [n] bounds the number of iterations by the length of the input. *)
Fixpoint starLoop (step : (mstate -> option mstate) -> mstate -> option mstate)
    (g : bool) (k : mstate -> option mstate) (n : nat) (st0 : mstate)
  : option mstate :=
  match n with
  | O => k st0
  | S n' =>
      if g then
        match step (fun st' => if Nat.ltb (pos st0) (pos st')
                               then starLoop step g k n' st' else None) st0 with
        | Some x => Some x
        | None => k st0
        end
      else
        match k st0 with
        | Some x => Some x
        | None => step (fun st' => if Nat.ltb (pos st0) (pos st')
                                   then starLoop step g k n' st' else None) st0
        end
  end.

Fixpoint run (r : re) (k : mstate -> option mstate) (st : mstate)
  : option mstate :=
  match r with
  | Eps => k st
  | Chr p =>
      match rest st with
      | String c s' => if p c then k (MState (S (pos st)) s' (caps st)) else None
      | EmptyString => None
      end
  | Seq a b => run a (fun st' => run b k st') st
  | Alt a b =>
      match run a k st with
      | Some x => Some x
      | None => run b k st
      end
  | Star g a => starLoop (run a) g k (S (String.length (rest st))) st
  | Grp n a =>
      run a (fun st' =>
               k (MState (pos st') (rest st')
                    ((n, Str.take (pos st' - pos st) (rest st)) :: caps st'))) st
  | Bol => if Nat.eqb (pos st) 0 then k st else None
  | Eol => match rest st with EmptyString => k st | _ => None end
  | Ahead a =>
      match run a (fun st' => Some st') st with
      | Some st' => k (MState (pos st) (rest st) (caps st'))
      | None => None
      end
  end.

(** A successful match: where it starts, the text before it, the text it
    covers, the text after it and its capture groups. *)
Record rmatch : Type := RMatch {
  m_index : nat;
  m_before : string;
  m_text : string;
  m_after : string;
  m_caps : list (nat * string)
}.

Fixpoint search (r : re) (i : nat) (before_rev : string) (s : string)
  : option rmatch :=
  match run r (fun st => Some st) (MState i s []) with
  | Some st =>
      Some (RMatch i (Str.rev before_rev) (Str.take (pos st - i) s) (rest st)
              (caps st))
  | None =>
      match s with
      | EmptyString => None
      | String c s' => search r (S i) (String c before_rev) s'
      end
  end.

(** [s.match(r)] without the [g] flag *)
Definition exec (r : re) (s : string) : option rmatch := search r 0 EmptyString s.

(** [r.test(s)] *)
Definition test (r : re) (s : string) : bool :=
  match exec r s with Some _ => true | None => false end.

(** capture group [n] of a match; [None] when the group took no part *)
Fixpoint lookup (n : nat) (l : list (nat * string)) : option string :=
  match l with
  | [] => None
  | (m, v) :: l' => if Nat.eqb n m then Some v else lookup n l'
  end.

Definition group (m : rmatch) (n : nat) : option string := lookup n (m_caps m).

(** [s.replace(r, by)] without the [g] flag *)
Definition replace (r : re) (s by_ : string) : string :=
  match exec r s with
  | Some m => (m_before m ++ by_ ++ m_after m)%string
  | None => s
  end.

(** Derived forms *)
Definition plus (g : bool) (a : re) : re := Seq a (Star g a).
Definition opt (a : re) : re := Alt a Eps.
Definition c (a : ascii) : re := Chr (Str.ch a).

Fixpoint lit (s : string) : re :=
  match s with
  | EmptyString => Eps
  | String a s' => Seq (c a) (lit s')
  end.

Fixpoint alts (l : list re) : re :=
  match l with
  | [] => Chr (fun _ => false)
  | [a] => a
  | a :: l' => Alt a (alts l')
  end.

Fixpoint seqs (l : list re) : re :=
  match l with
  | [] => Eps
  | [a] => a
  | a :: l' => Seq a (seqs l')
  end.

Definition space : re := Chr Str.is_space.
Definition nonspace : re := Chr (fun x => negb (Str.is_space x)).
Definition dot : re := Chr (fun x => negb (Str.is_newline x)).
Definition any : re := Chr (fun _ => true).
Definition digit : re := Chr Str.is_digit.

End Regex.

(** ** Naming style checker (src/utils/naming.ts) *)

Module Naming.
Import Regex.

Inductive NamingStyle : Type :=
| PascalCase | camelCase | kebab_case | snake_case | SCREAMING_SNAKE_CASE
| flatcase.

Inductive NamingCheckResult : Type :=
| Valid
| InvalidPrefix (pattern : string)
| InvalidSuffix (pattern : string)
| InvalidStyle (style : NamingStyle).

Definition valid (r : NamingCheckResult) : bool :=
  match r with Valid => true | _ => false end.

Definition compoundExtensions : list string :=
  [".d.ts"; ".min.js"; ".min.css";
   ".test.ts"; ".test.js"; ".test.tsx"; ".test.jsx";
   ".spec.ts"; ".spec.js"; ".spec.tsx"; ".spec.jsx";
   ".stories.ts"; ".stories.js"; ".stories.tsx"; ".stories.jsx"].

Definition getNameWithoutExtension (name : string) : string :=
  match find (Str.endsWith name) compoundExtensions with
  | Some ext => Str.dropEnd (String.length ext) name
  | None =>
      match Str.lastIndexOf "." name with
      | Some lastDotIndex => Str.take lastDotIndex name
      | None => name
      end
  end.

Definition is_flag (x : ascii) : bool :=
  Str.mem (String x EmptyString) ["g"; "i"; "m"; "u"; "y"].

(** regex "/^\/(.+)\/([gimuy]{0,})$/" *)
Definition reDelimited : re :=
  seqs [Bol; c "/"; Grp 1 (plus true dot); c "/";
        Grp 2 (Star true (Chr is_flag)); Eol].

(** regex "/^\([^)]+\)\?/" *)
Definition reLeadingOptionalGroup : re :=
  seqs [Bol; c "("; plus true (Chr (fun x => negb (Str.ch ")" x))); c ")"; c "?"].

Definition isOptionalPattern (pattern : string) : bool :=
  match exec reDelimited pattern with
  | None => false
  | Some m =>
      match group m 1 with
      | None => false
      | Some regexBody =>
          if Str.endsWith regexBody ")?" then true
          else test reLeadingOptionalGroup regexBody
      end
  end.

(** regex "/^[\w._-]+$/" *)
Definition rePlainName : re :=
  seqs [Bol;
        plus true (Chr (fun x => Str.is_word x || Str.ch "." x || Str.ch "_" x
                                 || Str.ch "-" x));
        Eol].

(** regex "/^\d+$/" *)
Definition reNumeric : re := seqs [Bol; plus true digit; Eol].

Definition lowerOrDigit (x : ascii) : bool := Str.is_lower x || Str.is_digit x.
Definition upperOrDigit (x : ascii) : bool := Str.is_upper x || Str.is_digit x.

(** regex "/^[A-Z][a-zA-Z0-9]*$/" *)
Definition rePascal : re :=
  seqs [Bol; Chr Str.is_upper; Star true (Chr Str.is_alnum); Eol].
(** regex "/^[a-z][a-zA-Z0-9]*$/" *)
Definition reCamel : re :=
  seqs [Bol; Chr Str.is_lower; Star true (Chr Str.is_alnum); Eol].
(** regex "/^[a-z0-9][a-z0-9]*(-[a-z0-9]+)*$/" *)
Definition kebabCasePattern : re :=
  seqs [Bol; Chr lowerOrDigit; Star true (Chr lowerOrDigit);
        Star true (Grp 1 (Seq (c "-") (plus true (Chr lowerOrDigit)))); Eol].
(** regex "/^[a-z0-9]$/" *)
Definition reKebabSingle : re := seqs [Bol; Chr lowerOrDigit; Eol].
(** regex "/^_{2,}$/" *)
Definition reDunder : re := seqs [Bol; c "_"; c "_"; Star true (c "_"); Eol].
(** regex "/^_*[a-z0-9]+[a-z0-9_]*$/" *)
Definition reSnake : re :=
  seqs [Bol; Star true (c "_"); plus true (Chr lowerOrDigit);
        Star true (Chr (fun x => lowerOrDigit x || Str.ch "_" x)); Eol].
(** regex "/^[A-Z][A-Z0-9]*(_[A-Z0-9]+)*$/" *)
Definition reScreaming : re :=
  seqs [Bol; Chr Str.is_upper; Star true (Chr upperOrDigit);
        Star true (Grp 1 (Seq (c "_") (plus true (Chr upperOrDigit)))); Eol].
(** regex "/^[a-z0-9]+$/" *)
Definition reFlat : re := seqs [Bol; plus true (Chr lowerOrDigit); Eol].

Definition checkStem (stem : string) (style : NamingStyle) : bool :=
  match style with
  | PascalCase => test rePascal stem
  | camelCase => test reCamel stem
  | kebab_case =>
      let parts := Str.split "." stem in
      forallb (fun part =>
                 if Nat.eqb (String.length part) 1 && test reKebabSingle part
                 then true
                 else test kebabCasePattern part) parts
  | snake_case =>
      if test reDunder stem then true else test reSnake stem
  | SCREAMING_SNAKE_CASE => test reScreaming stem
  | flatcase => test reFlat stem
  end.

Section WithHostRegExp.

(** The [prefix] and [suffix] of a rule are regular expressions written by the
    user and compiled by the host ([new RegExp(body, flags)]); the checker is
    parametric in what they match. *)
Variable HostRe : Type.
(** [new RegExp(body, flags)]; [None] when the constructor throws *)
Variable hostRegExp : string -> string -> option HostRe.
(** [r.test(s)] *)
Variable hostTest : HostRe -> string -> bool.
(** [s.replace(r, "")] evaluated after a successful [r.test(s)] *)
Variable hostStrip : HostRe -> string -> string.

Definition parseRegexPattern (pattern : string) : option HostRe :=
  match exec reDelimited pattern with
  | None => None
  | Some m =>
      match group m 1, group m 2 with
      | Some body, Some flags => hostRegExp body flags
      | _, _ => None
      end
  end.

(** The suffix block and the prefix block of [checkNamingStyle]: the stem
    after the affix is removed, or the failure of a required affix. *)
Definition stripAffix (fail : string -> NamingCheckResult)
    (affix : option string) (nameWithoutExt : string)
  : NamingCheckResult + string :=
  match affix with
  | None => inr nameWithoutExt
  | Some pattern =>
      if Str.isEmpty pattern then inr nameWithoutExt
      else
        match parseRegexPattern pattern with
        | None => inr nameWithoutExt
        | Some affixRegex =>
            let isOptional := isOptionalPattern pattern in
            let matched := hostTest affixRegex nameWithoutExt in
            if negb matched && negb isOptional then inl (fail pattern)
            else if matched then inr (hostStrip affixRegex nameWithoutExt)
            else inr nameWithoutExt
        end
  end.

Definition checkNamingStyle (name : string) (style : NamingStyle)
    (prefix suffix : option string) : NamingCheckResult :=
  let nameWithoutExt := getNameWithoutExtension name in
  if negb (test rePlainName nameWithoutExt) then Valid
  else
    match stripAffix InvalidSuffix suffix nameWithoutExt with
    | inl failure => failure
    | inr afterSuffix =>
        match stripAffix InvalidPrefix prefix afterSuffix with
        | inl failure => failure
        | inr stem =>
            if test reNumeric stem then Valid
            else if checkStem stem style then Valid
            else InvalidStyle style
        end
    end.

(** The stem that is left when the stripping of the extension, the suffix and
    the prefix has gone through: the string the style validators see. *)
Definition remainingStem (name : string) (prefix suffix : option string)
  : option string :=
  match stripAffix InvalidSuffix suffix (getNameWithoutExtension name) with
  | inl _ => None
  | inr afterSuffix =>
      match stripAffix InvalidPrefix prefix afterSuffix with
      | inl _ => None
      | inr stem => Some stem
      end
  end.

End WithHostRegExp.

End Naming.

(** ** The data model (src/types.ts) *)

Module Types.
Export Naming.

Inductive FileType : Type := files | dirs.
Inductive Mode : Type := strict | permissive.
Inductive NamingTarget : Type := target_in | target_those.

Record NamingRule : Type := mkNamingRule {
  n_target : NamingTarget;
  n_pattern : string;
  n_style : NamingStyle;
  n_fileType : option FileType;
  n_prefix : option string;
  n_suffix : option string;
  n_except : option (list string);
  n_ifContains : option string;
  n_ifParentStyle : option NamingStyle
}.

Record InDirOnlyRule : Type := mkInDirOnly {
  d_dir : string;
  d_only : list string;
  d_mode : option Mode;
  d_fileType : option FileType
}.

Inductive Rule : Type :=
| Move (from toDir : string)
| ThoseOnly (pattern : string) (only : list string)
| RenameDir (fromNames : list string) (toName : string)
| RenameGlob (from to : string)
| InDirOnly (r : InDirOnlyRule)
| NamingR (r : NamingRule)
| NoFiles (names : list string)
| HasFile (names : list string)
| Allow (names : list string)
| Optional (names : list string).

Inductive RuleKind : Type :=
| k_move | k_thoseOnly | k_renameDir | k_renameGlob | k_inDirOnly | k_naming
| k_no | k_has | k_allow | k_optional.

(** the [kind] tag of a rule as the source spells it *)
Definition kindName (k : RuleKind) : string :=
  match k with
  | k_move => "move" | k_thoseOnly => "thoseOnly" | k_renameDir => "renameDir"
  | k_renameGlob => "renameGlob" | k_inDirOnly => "inDirOnly"
  | k_naming => "naming" | k_no => "no" | k_has => "has" | k_allow => "allow"
  | k_optional => "optional"
  end.

Definition kindOf (r : Rule) : RuleKind :=
  match r with
  | Move _ _ => k_move | ThoseOnly _ _ => k_thoseOnly
  | RenameDir _ _ => k_renameDir | RenameGlob _ _ => k_renameGlob
  | InDirOnly _ => k_inDirOnly | NamingR _ => k_naming | NoFiles _ => k_no
  | HasFile _ => k_has | Allow _ => k_allow | Optional _ => k_optional
  end.

Definition kind_eqb (a b : RuleKind) : bool := String.eqb (kindName a) (kindName b).

Inductive WhereDirective : Type :=
| w_config
| w_cwd
| w_glob (patterns : list string)
| w_paths (paths : list string).

Record FsLintConfig : Type := mkConfig {
  cfg_where : WhereDirective;
  cfg_rules : list Rule;
  cfg_imports : list string
}.

Inductive IssueMessage : Type :=
| move_shouldMoveToDir (dir : string)
| move_destMustBeDir (from toDir : string)
| move_unsafeManual (dir : string)
| thoseOnly_forbiddenOnlyAllowed (only : list string) (pattern : string)
| renameDir_shouldRenameTo (to : string)
| renameDir_shouldMigrateTo (to : string)
| renameDir_removeEmptyDir (dir to : string)
| renameGlob_shouldRenameTo (to : string)
| renameGlob_targetExistsManual (to : string)
| renameGlob_cannotInferTarget
| inDirOnly_dirMustExist (only : list string)
| inDirOnly_forbiddenOnlyAllowed (dir : string) (only : list string)
| no_forbidden (name : string)
| has_mustExist (name : string)
| naming_invalid (style : NamingStyle)
| naming_invalidPrefix (pattern : string)
| naming_invalidSuffix (pattern : string).

Inductive Category : Type := missing | forbidden.
Inductive Severity : Type := error | warn.

Record Issue : Type := mkIssue {
  ruleKind : RuleKind;
  path : string;
  displayPath : string;
  message : IssueMessage;
  category : Category;
  severity : Severity
}.

End Types.

(** ** The collaborators the core consumes (filesystem, glob, ignore rules,
    path arithmetic, the host's regular expressions)

    One lint run sees one immutable snapshot of the project, so every
    collaborator is a function.  [glob patterns cwd onlyFiles] is the source's
    [globScan] for the root and the ignore matcher of the run.  The ignore
    matcher is partial: [ig.ignores(p)] throws for the paths it does not take
    (the empty path, a path that is not relative), which [ignoresThrows]
    decides; [ignores] is its answer for the others.  The final filter asks
    the matcher about the path of every issue raised, and [Lint.lintRun]
    follows that step with its failure.  The scans ([glob], [walkFiles]) ask
    it about their matches: they stand for scans that return, and a run in
    which a scan meets a path the matcher does not take has no result to
    speak of. *)

Module Host.

Record Entry : Type := mkEntry {
  e_name : string;
  e_abs : string;
  e_isDir : bool
}.

Record t : Type := mk {
  (* node:path *)
  resolve : string -> string;
  resolve2 : string -> string -> string;
  relative : string -> string -> string;
  basename : string -> string;
  dirname : string -> string;
  (* filesystem *)
  existsSync : string -> bool;
  isDirectory : string -> bool;
  listTopLevel : string -> list Entry;
  walkFiles : string -> list string;
  readdirIsEmpty : string -> bool;
  statSize : string -> option Z;
  readFileSync : string -> option string;
  presetCandidate : string -> string;
  (* glob and ignore *)
  glob : list string -> string -> bool -> list string;
  ignores : string -> bool;
  ignoresThrows : string -> bool;
  (* new RegExp, test, replace *)
  HostRe : Type;
  hostRegExp : string -> string -> option HostRe;
  hostTest : HostRe -> string -> bool;
  hostStrip : HostRe -> string -> string
}.

End Host.

(** ** Condition evaluator (rules/validators/conditions) *)

Module Conditions.
Import Regex Types.

(** Modelled from the spec: the declaration of the [Condition] type is not
    part of the sources at hand; its five kinds and their fields are the ones
    [evaluateCondition] dispatches on and reads. *)
Inductive Condition : Type :=
| isEmpty
| contains (pattern : string)
| exists_ (pattern : string)
| parentMatches (style : NamingStyle)
| fileSize (op : string) (value : string).

(** regex "/^(\d+(?:\.\d+)?)\s*(B|KB|MB|GB|TB)$/" *)
Definition reSize : re :=
  seqs [Bol;
        Grp 1 (Seq (plus true digit) (opt (Seq (c ".") (plus true digit))));
        Star true space;
        Grp 2 (alts [lit "B"; lit "KB"; lit "MB"; lit "GB"; lit "TB"]);
        Eol].

Fixpoint digitsValue (s : string) (acc : Z) : Z :=
  match s with
  | EmptyString => acc
  | String d s' => digitsValue s' (10 * acc + Z.of_nat (Str.code d - 48))%Z
  end.

(** [parseFloat] on a literal of the shape digits or digits.digits, as an
    exact rational: the rounding of the host's floating point numbers is not
    modelled. *)
Definition parseFloat (s : string) : Q :=
  match Str.split "." s with
  | [whole] => inject_Z (digitsValue whole 0)
  | whole :: frac :: _ =>
      Qmake (digitsValue frac (digitsValue whole 0))
            (Pos.pow 10 (Pos.of_nat (String.length frac)))
  | [] => 0%Q
  end.

Definition unitFactor (sizeUnit : string) : option Q :=
  if String.eqb sizeUnit "B" then Some 1%Q
  else if String.eqb sizeUnit "KB" then Some (inject_Z 1024)
  else if String.eqb sizeUnit "MB" then Some (inject_Z (1024 * 1024))
  else if String.eqb sizeUnit "GB" then Some (inject_Z (1024 * 1024 * 1024))
  else if String.eqb sizeUnit "TB" then Some (inject_Z (1024 * 1024 * 1024 * 1024))
  else None.

Definition Qlt_bool (a b : Q) : bool := negb (Qle_bool b a).

(** The size literal of a [fileSize] condition in bytes; [None] when the
    literal does not have the shape number-unit. *)
Definition parseSizeLiteral (value : string) : option Q :=
  let sizeStr := Str.toUpperCase value in
  match exec reSize sizeStr with
  | None => None
  | Some sizeMatch =>
      match group sizeMatch 1, group sizeMatch 2 with
      | Some num, Some sizeUnit =>
          match unitFactor sizeUnit with
          | Some f => Some (parseFloat num * f)%Q
          | None => None
          end
      | _, _ => None
      end
  end.

Section WithHost.
Variable h : Host.t.
Variable root : string.

Definition checkStyleOf (name : string) (style : NamingStyle)
    (prefix suffix : option string) : NamingCheckResult :=
  checkNamingStyle (Host.HostRe h) (Host.hostRegExp h) (Host.hostTest h)
    (Host.hostStrip h) name style prefix suffix.

Definition evaluateCondition (condition : Condition) (targetPath : string)
  : bool :=
  match condition with
  | isEmpty =>
      let isDir := Host.isDirectory h targetPath in
      if negb isDir then false
      else
        let entries := Host.listTopLevel h targetPath in
        Nat.eqb (List.length entries) 0
  | contains pattern =>
      let isDir := Host.isDirectory h targetPath in
      if negb isDir then false
      else
        let entries := Host.listTopLevel h targetPath in
        let exactMatch :=
          existsb (fun e => String.eqb (Host.e_name e) pattern) entries in
        if exactMatch then true
        else
          let matches := Host.glob h [pattern] targetPath true in
          Nat.ltb 0 (List.length matches)
  | exists_ pattern =>
      let matches := Host.glob h [pattern] root false in
      Nat.ltb 0 (List.length matches)
  | parentMatches style =>
      let parentDirPath := Host.dirname h targetPath in
      let parentDirName := Host.basename h parentDirPath in
      valid (checkStyleOf parentDirName style None None)
  | fileSize op value =>
      let isDir := Host.isDirectory h targetPath in
      if isDir then false
      else
        match Host.statSize h targetPath with
        | None => false
        | Some sizeBytes =>
            match parseSizeLiteral value with
            | None => false
            | Some sizeInBytes =>
                if String.eqb op ">" then Qlt_bool sizeInBytes (inject_Z sizeBytes)
                else if String.eqb op "<" then Qlt_bool (inject_Z sizeBytes) sizeInBytes
                else false
            end
        end
  end.

Fixpoint allConditions (when : list Condition) (targetPath : string) : bool :=
  match when with
  | [] => true
  | condition :: when' =>
      if negb (evaluateCondition condition targetPath) then false
      else allConditions when' targetPath
  end.

Definition evaluateWhenConditions (when : option (list Condition))
    (targetPath : string) : bool :=
  match when with
  | None => true
  | Some conditions =>
      if Nat.eqb (List.length conditions) 0 then true
      else allConditions conditions targetPath
  end.

End WithHost.

End Conditions.

(** ** Rule evaluation engine (src/rules/lint.ts) *)

Module Lint.
Import Regex Types.

(** [Array.prototype.sort] without a comparator, on strings *)
Fixpoint insertSorted (x : string) (l : list string) : list string :=
  match l with
  | [] => [x]
  | y :: l' => if String.leb x y then x :: l else y :: insertSorted x l'
  end.

Definition sortStrings (l : list string) : list string :=
  fold_right insertSorted [] l.

(** [s.replace(r, f)] with the [g] flag, for an expression without anchors *)
Fixpoint replaceAll (fuel : nat) (r : re) (f : rmatch -> string) (s : string)
  : string :=
  match fuel with
  | O => s
  | S fuel' =>
      match exec r s with
      | None => s
      | Some m =>
          match m_text m, m_after m with
          | EmptyString, String x after' =>
              (m_before m ++ f m ++ String x (replaceAll fuel' r f after'))%string
          | EmptyString, EmptyString => (m_before m ++ f m)%string
          | _, after => (m_before m ++ f m ++ replaceAll fuel' r f after)%string
          end
      end
  end.

Definition is_glob_meta (x : ascii) : bool :=
  Str.mem (String x EmptyString) ["*"; "?"; "{"; "}"; "["; "]"].

(** regex "/[*?{}[\]]/" *)
Definition reGlobMeta : re := Chr is_glob_meta.

Definition isGlobPattern (name : string) : bool :=
  test reGlobMeta name || Str.includes name "**".

(** regex "/\{([^}]+)\}/g" *)
Definition reBraces : re :=
  seqs [c "{"; Grp 1 (plus true (Chr (fun x => negb (Str.ch "}" x)))); c "}"].

(** regex "/,\s+/g" *)
Definition reCommaSpaces : re := Seq (c ",") (plus true space).

(** regex "/\/+$/" *)
Definition reTrailingSlashes : re := Seq (plus true (c "/")) Eol.

Definition cleanPattern (dir pattern : string) : string :=
  let cleaned :=
    replaceAll (S (String.length pattern)) reBraces
      (fun m =>
         match group m 1 with
         | Some content =>
             ("{" ++ replaceAll (S (String.length content)) reCommaSpaces
                       (fun _ => ",") content ++ "}")%string
         | None => m_text m
         end) pattern in
  if negb (Str.startsWith cleaned "**") && Str.startsWith cleaned (dir ++ "/")
  then Str.drop (String.length dir + 1) cleaned
  else if negb (Str.startsWith cleaned "**")
          && Str.startsWith cleaned ("./" ++ dir ++ "/")
  then Str.drop (String.length ("./" ++ dir ++ "/")) cleaned
  else cleaned.

Definition isStrictOrUnset (r : InDirOnlyRule) : bool :=
  match d_mode r with
  | Some strict => true
  | None => true
  | Some permissive => false
  end.

Definition isPermissive (r : InDirOnlyRule) : bool :=
  match d_mode r with Some permissive => true | _ => false end.

Definition isStrictFor (ft : FileType) (r : InDirOnlyRule) : bool :=
  match d_mode r, d_fileType r, ft with
  | Some strict, Some files, files => true
  | Some strict, Some dirs, dirs => true
  | _, _, _ => false
  end.

Definition fileType_eqb (a b : option FileType) : bool :=
  match a, b with
  | None, None => true
  | Some files, Some files => true
  | Some dirs, Some dirs => true
  | _, _ => false
  end.

(** A [Map] in insertion order: [get] and the [set] of a [Map] whose keys are
    compared by [eqb]. *)
Section OrderedMap.
Context {K V : Type} (eqb : K -> K -> bool).

Fixpoint mapGet (k : K) (m : list (K * V)) : option V :=
  match m with
  | [] => None
  | (k', v) :: m' => if eqb k k' then Some v else mapGet k m'
  end.

Fixpoint mapSet (k : K) (v : V) (m : list (K * V)) : list (K * V) :=
  match m with
  | [] => [(k, v)]
  | (k', v') :: m' => if eqb k k' then (k', v) :: m' else (k', v') :: mapSet k v m'
  end.

End OrderedMap.

Definition Groups : Type := list (string * list InDirOnlyRule).

Definition groupPush (r : InDirOnlyRule) (dir : string) (groups : Groups)
  : Groups :=
  let list := match mapGet String.eqb dir groups with
              | Some l => l
              | None => []
              end in
  mapSet String.eqb dir (list ++ [r]) groups.

Fixpoint pushToFirstPermissive (names : list string) (g : list InDirOnlyRule)
  : list InDirOnlyRule :=
  match g with
  | [] => []
  | r :: g' =>
      if isPermissive r
      then mkInDirOnly (d_dir r) (d_only r ++ names) (d_mode r) (d_fileType r) :: g'
      else r :: pushToFirstPermissive names g'
  end.

Section WithHost.
Variable h : Host.t.
Variable root : string.

Definition toDisplayPath (absPath rootDir : string) : string :=
  let rel := Host.relative h rootDir absPath in
  if Str.isEmpty rel then "." else rel.

(** [cachedGlobScan] for one pattern and for an array of patterns: the cache
    key sorts an array in place before the scan sees it. *)
Definition scanOne (pattern cwd : string) (onlyFiles : bool) : list string :=
  Host.glob h [pattern] cwd onlyFiles.

Definition scanMany (patterns : list string) (cwd : string) (onlyFiles : bool)
  : list string :=
  Host.glob h (sortStrings patterns) cwd onlyFiles.

Definition checkStyle (name : string) (style : NamingStyle)
    (prefix suffix : option string) : NamingCheckResult :=
  checkNamingStyle (Host.HostRe h) (Host.hostRegExp h) (Host.hostTest h)
    (Host.hostStrip h) name style prefix suffix.

Definition inDirRules (rules : list Rule) : list InDirOnlyRule :=
  flat_map (fun r => match r with InDirOnly d => [d] | _ => [] end) rules.

Definition allowRules (rules : list Rule) : list (list string) :=
  flat_map (fun r => match r with Allow names => [names] | _ => [] end) rules.

Definition hasRules (rules : list Rule) : list (list string) :=
  flat_map (fun r => match r with HasFile names => [names] | _ => [] end) rules.

Definition moveRules (rules : list Rule) : list (string * string) :=
  flat_map (fun r => match r with Move f t => [(f, t)] | _ => [] end) rules.

Definition filesMatchedByMoveRules (rules : list Rule) : list string :=
  flat_map (fun '(from, toDir) =>
              filter (fun abs =>
                        negb (Str.startsWith (toDisplayPath abs root)
                                (toDir ++ "/")))
                     (scanOne from root true))
           (moveRules rules).

Definition requiredNamesOf (rules : list Rule) : list string :=
  flat_map (fun names =>
              flat_map (fun name =>
                          if negb (isGlobPattern name) then [name]
                          else List.map (fun m => toDisplayPath m root)
                                 (scanOne name root true)) names)
           (hasRules rules).

(** Grouping of the [inDirOnly] rules by directory, with the root-level
    [allow] rules and the names of the [has] rules folded into the group of
    the root directory.  The lists of the rules of a configuration are taken
    to be arrays of their own; the one array the engine itself shares, the
    names of an [allow] rule with the rule of the group made of it, is
    followed by [sharedNames] below. *)
Definition buildGroups (rules : list Rule) : Groups :=
  let g0 := fold_left (fun g r => groupPush r (d_dir r) g) (inDirRules rules) [] in
  let g1 := fold_left (fun g names =>
                         groupPush (mkInDirOnly "." names (Some permissive) None) "." g)
                      (allowRules rules) g0 in
  let requiredNames := requiredNamesOf rules in
  match hasRules rules, requiredNames with
  | _ :: _, _ :: _ =>
      let rootGroup := match mapGet String.eqb "." g1 with
                       | Some l => l
                       | None => []
                       end in
      if existsb isPermissive rootGroup
      then mapSet String.eqb "." (pushToFirstPermissive requiredNames rootGroup) g1
      else mapSet String.eqb "."
             (rootGroup ++ [mkInDirOnly "." requiredNames (Some permissive) None]) g1
  | _, _ => g1
  end.

Definition AllowedSets : Type := list (option FileType * list string).

(** The rules of a group by [fileType], in the order the buckets appear *)
Definition rulesByFileType (group : list InDirOnlyRule)
  : list (option FileType * list InDirOnlyRule) :=
  fold_left (fun m rule =>
               let list := match mapGet fileType_eqb (d_fileType rule) m with
                           | Some l => l
                           | None => []
                           end in
               mapSet fileType_eqb (d_fileType rule) (list ++ [rule]) m)
            group [].

Definition allowedSetOf (dir dirAbs : string) (rules : list InDirOnlyRule)
  : list string :=
  flat_map (fun rule =>
              let cleanedPatterns := List.map (cleanPattern dir) (d_only rule) in
              List.map (fun p => toDisplayPath p dirAbs)
                (scanMany cleanedPatterns dirAbs false))
           rules.

(** The allowed sets of the buckets; the set of the bucket without a
    [fileType] of the root directory becomes the root's allowed set. *)
Fixpoint mergedAllowedSets (dir dirAbs : string)
    (buckets : list (option FileType * list InDirOnlyRule))
    (rootAllowedSet : option (list string))
  : AllowedSets * option (list string) :=
  match buckets with
  | [] => ([], rootAllowedSet)
  | (fileType, rules) :: buckets' =>
      let allowedSet := allowedSetOf dir dirAbs rules in
      let rootAllowedSet' :=
        if String.eqb dir "." && fileType_eqb fileType None
        then Some allowedSet else rootAllowedSet in
      let '(sets, ra) := mergedAllowedSets dir dirAbs buckets' rootAllowedSet' in
      ((fileType, allowedSet) :: sets, ra)
  end.

(** The root's allowed set is added to the [files] and [dirs] sets of the
    root directory. *)
Definition mergeRootInto (dir : string) (rootAllowedSet : option (list string))
    (sets : AllowedSets) : AllowedSets :=
  match rootAllowedSet with
  | Some ra =>
      if String.eqb dir "."
      then List.map (fun '(ft, set) =>
                       match ft with
                       | Some _ => (ft, set ++ ra)
                       | None => (ft, set)
                       end) sets
      else sets
  | None => sets
  end.

Definition inRoot (rootAllowedSet : option (list string)) (rel : string) : bool :=
  match rootAllowedSet with
  | Some ra => Str.mem rel ra
  | None => false
  end.

Definition isAllowedBy (sets : AllowedSets) (rootAllowedSet : option (list string))
    (rel : string) (isDir : bool) : bool :=
  if inRoot rootAllowedSet rel then true
  else
    existsb (fun '(fileType, allowedSet) =>
               match fileType with
               | Some files =>
                   if isDir then false
                   else Str.mem rel allowedSet || inRoot rootAllowedSet rel
               | Some dirs =>
                   if negb isDir then false else Str.mem rel allowedSet
               | None => Str.mem rel allowedSet || inRoot rootAllowedSet rel
               end) sets.

(** The strict-mode check of one entry of a directory: the issue it raises,
    if any. *)
Definition checkEntry (dir dirAbs : string) (group : list InDirOnlyRule)
    (moved : list string) (sets : AllowedSets)
    (rootAllowedSet : option (list string)) (rel : string) : list Issue :=
  let hasStrictDirs := existsb (isStrictFor dirs) group in
  let hasStrictFiles := existsb (isStrictFor files) group in
  let hasBothFileTypes := hasStrictDirs && hasStrictFiles in
  let allOnly := flat_map d_only group in
  if Str.startsWith rel "." then []
  else
    let abs := Host.resolve2 h dirAbs rel in
    let isDir := Host.isDirectory h abs in
    if negb isDir && Str.mem abs moved then []
    else if negb hasBothFileTypes && hasStrictDirs && negb isDir then []
    else if negb hasBothFileTypes && hasStrictFiles && isDir then []
    else if isAllowedBy sets rootAllowedSet rel isDir then []
    else [mkIssue k_inDirOnly abs (toDisplayPath abs root)
            (inDirOnly_forbiddenOnlyAllowed (dir ++ "/") allOnly)
            forbidden error].

(** One iteration of the loop over the directory groups: the issues it
    pushes and the root's allowed set after it. *)
Definition processGroup (forceStrict : bool) (moved : list string)
    (rootAllowedSet : option (list string)) (dir : string)
    (group : list InDirOnlyRule) : list Issue * option (list string) :=
  let dirAbs := Host.resolve2 h root dir in
  let isRecursive :=
    existsb (fun r => existsb (fun p => Str.includes p "**") (d_only r)) group in
  let dirExists := Host.isDirectory h dirAbs in
  let allOnly := flat_map d_only group in
  let hasStrictMode := forceStrict || existsb isStrictOrUnset group in
  let hasExplicitStrictMode := existsb isStrictOrUnset group in
  if negb dirExists && hasExplicitStrictMode
  then ([mkIssue k_inDirOnly dirAbs (toDisplayPath dirAbs root)
           (inDirOnly_dirMustExist allOnly) missing error], rootAllowedSet)
  else if negb dirExists then ([], rootAllowedSet)
  else
    let allPathsRel :=
      if isRecursive
      then List.map (fun p => toDisplayPath p dirAbs) (Host.walkFiles h dirAbs)
      else List.map Host.e_name (Host.listTopLevel h dirAbs) in
    let '(sets0, ra) :=
      mergedAllowedSets dir dirAbs (rulesByFileType group) rootAllowedSet in
    let sets := mergeRootInto dir ra sets0 in
    if hasStrictMode
    then (flat_map (checkEntry dir dirAbs group moved sets ra) allPathsRel, ra)
    else ([], ra).

Fixpoint processGroups (forceStrict : bool) (moved : list string)
    (groups : Groups) (rootAllowedSet : option (list string))
  : list Issue * option (list string) :=
  match groups with
  | [] => ([], rootAllowedSet)
  | (dir, group) :: groups' =>
      let '(issues, ra) := processGroup forceStrict moved rootAllowedSet dir group in
      let '(issues', ra') := processGroups forceStrict moved groups' ra in
      (issues ++ issues', ra')
  end.

(** *** The handlers of the remaining rule kinds *)

Record LintState : Type := mkState {
  rawIssues : list Issue;
  processedThoseOnlyPatterns : list string;
  rootAllowedSet : option (list string);
  matchedGlobFiles : list string
}.

Definition pushIssues (st : LintState) (new : list Issue) : LintState :=
  mkState (rawIssues st ++ new) (processedThoseOnlyPatterns st)
    (rootAllowedSet st) (matchedGlobFiles st).

(** The backward [splice] loops: every issue of kind [k] whose resolved path
    is in [paths] is removed. *)
Definition removeIssues (k : RuleKind) (paths : list string) (st : LintState)
  : LintState :=
  mkState
    (filter (fun issue =>
               negb (kind_eqb (ruleKind issue) k
                     && negb (Str.isEmpty (path issue))
                     && Str.mem (Host.resolve h (path issue)) paths))
            (rawIssues st))
    (processedThoseOnlyPatterns st) (rootAllowedSet st) (matchedGlobFiles st).

Definition handleMove (from toDir : string) (st : LintState) : LintState :=
  let destDirAbs := Host.resolve2 h root toDir in
  let destDirExists := Host.existsSync h destDirAbs in
  let destDirIsDir := Host.isDirectory h destDirAbs in
  let destIssue :=
    if destDirExists && negb destDirIsDir
    then [mkIssue k_move destDirAbs (toDisplayPath destDirAbs root)
            (move_destMustBeDir from toDir) forbidden warn]
    else [] in
  let matches := scanOne from root true in
  let safeDestDir := destDirIsDir || negb destDirExists in
  pushIssues st
    (destIssue ++
     flat_map (fun abs =>
                 let base := Host.basename h abs in
                 let target := Host.resolve2 h (Host.resolve2 h root toDir) base in
                 if Str.startsWith (toDisplayPath abs root) (toDir ++ "/") then []
                 else
                   let targetExists := Host.existsSync h target in
                   let safeToFix := safeDestDir && negb targetExists in
                   [mkIssue k_move abs (toDisplayPath abs root)
                      (if safeToFix then move_shouldMoveToDir (toDir ++ "/")
                       else move_unsafeManual (toDir ++ "/"))
                      forbidden (if safeToFix then error else warn)])
              matches).

Definition thoseOnlyIssue (pattern : string) (only : list string)
    (absPath : string) : Issue :=
  mkIssue k_thoseOnly absPath (toDisplayPath absPath root)
    (thoseOnly_forbiddenOnlyAllowed (sortStrings only) pattern) forbidden error.

(** the issues a [thoseOnly] rule raises: the files its pattern matches that
    none of its [only] patterns matches *)
Definition thoseOnlyIssuesOf (pattern : string) (only : list string)
  : list Issue :=
  let all := scanOne pattern root true in
  let allowed := List.map (Host.resolve2 h root) (scanMany only root true) in
  flat_map (fun abs =>
              let absPath := Host.resolve2 h root abs in
              if Str.mem absPath allowed then []
              else [thoseOnlyIssue pattern only absPath])
           all.

Definition markProcessed (pattern : string) (st : LintState) : LintState :=
  mkState (rawIssues st)
    (if Str.mem pattern (processedThoseOnlyPatterns st)
     then processedThoseOnlyPatterns st
     else processedThoseOnlyPatterns st ++ [pattern])
    (rootAllowedSet st) (matchedGlobFiles st).

Definition handleThoseOnly (pattern : string) (only : list string)
    (st : LintState) : LintState :=
  let st1 :=
    if Str.mem pattern (processedThoseOnlyPatterns st)
    then
      let allFiles := scanOne pattern root true in
      removeIssues k_thoseOnly (List.map (Host.resolve2 h root) allFiles) st
    else st in
  pushIssues (markProcessed pattern st1) (thoseOnlyIssuesOf pattern only).

Definition handleRenameDir (fromNames : list string) (toName : string)
    (st : LintState) : LintState :=
  pushIssues st
    (flat_map (fun name =>
                 let abs := Host.resolve2 h root name in
                 if negb (Host.existsSync h abs) then []
                 else
                   let dest := Host.resolve2 h root toName in
                   let destExists := Host.existsSync h dest in
                   let safeToRename := negb destExists in
                   let srcIsDir := Host.isDirectory h abs in
                   let srcIsEmptyDir :=
                     if srcIsDir then Host.readdirIsEmpty h abs else false in
                   [mkIssue k_renameDir abs (toDisplayPath abs root)
                      (if safeToRename
                       then renameDir_shouldRenameTo (toName ++ "/")
                       else if srcIsEmptyDir
                       then renameDir_removeEmptyDir
                              (Regex.replace (Seq (c "/") Eol) name "" ++ "/")
                              (toName ++ "/")
                       else renameDir_shouldMigrateTo (toName ++ "/"))
                      forbidden (if safeToRename then error else warn)])
              fromNames).

(** regex "/\.spec\.ts$/" and "/\.tests\.ts$/" *)
Definition reSpecTs : re := Seq (lit ".spec.ts") Eol.
Definition reTestsTs : re := Seq (lit ".tests.ts") Eol.

Definition computeRenameDest (fromAbs from to : string) : option string :=
  let rel := toDisplayPath fromAbs root in
  if Str.endsWith to ".test.ts" && Str.endsWith rel ".spec.ts"
  then Some (Host.resolve2 h root (Regex.replace reSpecTs rel ".test.ts"))
  else if Str.endsWith to ".test.ts" && Str.endsWith rel ".tests.ts"
  then Some (Host.resolve2 h root (Regex.replace reTestsTs rel ".test.ts"))
  else if negb (test reGlobMeta to) && negb (Str.includes to "**")
  then Some (Host.resolve2 h root to)
  else None.

Definition handleRenameGlob (from to : string) (st : LintState) : LintState :=
  let matches := scanOne from root true in
  pushIssues st
    (List.map (fun abs =>
                 match computeRenameDest abs from to with
                 | Some dest =>
                     let destExists := Host.existsSync h dest in
                     let safeToFix :=
                       negb (Str.isEmpty dest) && negb destExists in
                     mkIssue k_renameGlob abs (toDisplayPath abs root)
                       (if Str.isEmpty dest then renameGlob_cannotInferTarget
                        else if safeToFix
                        then renameGlob_shouldRenameTo (toDisplayPath dest root)
                        else renameGlob_targetExistsManual (toDisplayPath dest root))
                       forbidden (if safeToFix then error else warn)
                 | None =>
                     mkIssue k_renameGlob abs (toDisplayPath abs root)
                       renameGlob_cannotInferTarget forbidden warn
                 end)
              matches).

(** The files the patterns of a [no], [allow] or [optional] rule match *)
Definition matchedFiles (names : list string) : list string :=
  flat_map (fun name => List.map (Host.resolve2 h root) (scanOne name root true))
           names.

Definition noIssue (name abs : string) : Issue :=
  mkIssue k_no abs (toDisplayPath abs root) (no_forbidden name) forbidden error.

Definition noIssuesOf (names : list string) : list Issue :=
  flat_map (fun name =>
              flat_map (fun m =>
                          let abs := Host.resolve2 h root m in
                          if negb (Host.existsSync h abs) then []
                          else [noIssue name abs])
                       (scanOne name root true))
           names.

Definition handleNo (names : list string) (st : LintState) : LintState :=
  let currentRuleFiles := matchedFiles names in
  pushIssues (removeIssues k_no currentRuleFiles st) (noIssuesOf names).

Definition hasIssue (name : string) : Issue :=
  let abs := Host.resolve2 h root name in
  mkIssue k_has abs (toDisplayPath abs root) (has_mustExist name) missing error.

Definition addToRoot (st : LintState) (rels tops : list string) : LintState :=
  mkState (rawIssues st) (processedThoseOnlyPatterns st)
    (match rootAllowedSet st with
     | Some ra => Some (ra ++ rels)
     | None => None
     end)
    (matchedGlobFiles st ++ tops).

(** regex "/^\.\//" *)
Definition reDotSlash : re := seqs [Bol; c "."; c "/"].

Definition pickTopLevelName (rel : string) : string :=
  let cleaned := Regex.replace reDotSlash rel "" in
  match Str.split "/" cleaned with
  | seg :: _ =>
      if negb (Str.isEmpty seg) && negb (String.eqb seg ".") then seg else "."
  | [] => "."
  end.

Definition handleHasName (st : LintState) (name : string) : LintState :=
  if isGlobPattern name
  then
    let matches := scanOne name root true in
    match matches with
    | _ :: _ =>
        let rels := List.map (fun m => toDisplayPath m root) matches in
        addToRoot st rels (List.map pickTopLevelName rels)
    | [] => pushIssues st [hasIssue name]
    end
  else
    let abs := Host.resolve2 h root name in
    if Host.existsSync h abs
    then addToRoot st [toDisplayPath abs root] []
    else pushIssues st [hasIssue name].

Definition handleHas (names : list string) (st : LintState) : LintState :=
  fold_left handleHasName names st.

(** [names] is the array of the rule as the loop finds it: for the first
    [allow] rule, with the names the grouping has pushed ([runRules]). *)
Definition handleAllow (names : list string) (st : LintState) : LintState :=
  removeIssues k_no (matchedFiles names) st.

Definition handleOptional (names : list string) (st : LintState) : LintState :=
  let optionalPaths :=
    flat_map (fun name =>
                Host.resolve2 h root name
                :: List.map (Host.resolve2 h root) (scanOne name root true))
             names in
  removeIssues k_has optionalPaths st.

(** *** Naming rules *)

Definition truthy (o : option string) : bool :=
  match o with
  | Some v => negb (Str.isEmpty v)
  | None => false
  end.

Definition isSome {A} (o : option A) : bool :=
  match o with Some _ => true | None => false end.

Definition isConditional (r : NamingRule) : bool :=
  truthy (n_ifContains r) || isSome (n_ifParentStyle r).

Definition skipsByFileType (ft : option FileType) (isDir : bool) : bool :=
  match ft with
  | Some files => isDir
  | Some dirs => negb isDir
  | None => false
  end.

Definition exceptIncludes (r : NamingRule) (name : string) : bool :=
  match n_except r with
  | Some l => Str.mem name l
  | None => false
  end.

(** The two loops over the naming rules of an entry: whether some rule lets
    the entry pass, and the last rule that failed with its result.
    [applies r] is the condition of a conditional rule. *)
Fixpoint tryRules (applies : NamingRule -> bool) (name : string) (isDir : bool)
    (rules : list NamingRule)
    (lastFailedRule : option (NamingRule * NamingCheckResult))
  : bool * option (NamingRule * NamingCheckResult) :=
  match rules with
  | [] => (false, lastFailedRule)
  | r :: rules' =>
      if skipsByFileType (n_fileType r) isDir
      then tryRules applies name isDir rules' lastFailedRule
      else if negb (applies r)
      then tryRules applies name isDir rules' lastFailedRule
      else if exceptIncludes r name then (true, lastFailedRule)
      else
        let checkResult :=
          checkStyle name (n_style r) (n_prefix r) (n_suffix r) in
        if valid checkResult then (true, lastFailedRule)
        else tryRules applies name isDir rules' (Some (r, checkResult))
  end.

Definition dirContainsFile (dirAbs : string) (ifContains : option string) : bool :=
  match ifContains with
  | Some f =>
      existsb (fun e => negb (Host.e_isDir e) && String.eqb (Host.e_name e) f)
              (Host.listTopLevel h dirAbs)
  | None => false
  end.

Definition parentHasStyle (abs : string) (style : option NamingStyle) : bool :=
  match style with
  | Some st =>
      valid (checkStyle (Host.basename h (Host.dirname h abs)) st None None)
  | None => false
  end.

(** the condition of a conditional rule of an [in] target *)
Definition appliesIn (abs : string) (isDir : bool) (r : NamingRule) : bool :=
  (if truthy (n_ifContains r) && isDir && fileType_eqb (n_fileType r) (Some dirs)
   then dirContainsFile abs (n_ifContains r) else true)
  &&
  (if isSome (n_ifParentStyle r) && negb isDir
      && fileType_eqb (n_fileType r) (Some files)
   then parentHasStyle abs (n_ifParentStyle r) else true).

(** the condition of a conditional rule of a [those] target *)
Definition appliesThose (abs : string) (isDir : bool) (r : NamingRule) : bool :=
  (if truthy (n_ifContains r) && isDir
   then dirContainsFile abs (n_ifContains r) else true)
  &&
  (if isSome (n_ifParentStyle r) && negb isDir
   then parentHasStyle abs (n_ifParentStyle r) else true).

Definition namingMessage (rule : NamingRule)
    (conditionalRules defaultRules : list NamingRule)
    (lastFailedRule : option (NamingRule * NamingCheckResult)) : IssueMessage :=
  let fallback :=
    let firstRule :=
      match defaultRules, conditionalRules with
      | r :: _, _ => r
      | [], r :: _ => r
      | [], [] => rule
      end in
    naming_invalid (n_style firstRule) in
  match lastFailedRule with
  | Some (_, InvalidPrefix pattern) => naming_invalidPrefix pattern
  | Some (_, InvalidSuffix pattern) => naming_invalidSuffix pattern
  | Some (_, InvalidStyle style) => naming_invalid style
  | Some (_, Valid) => fallback
  | None => fallback
  end.

(** The check of one candidate against the naming rules that concern it *)
Definition namingIssue (rule : NamingRule) (applies : NamingRule -> bool)
    (candidates : list NamingRule) (name abs : string) (isDir : bool)
  : list Issue :=
  let conditionalRules := filter isConditional candidates in
  let defaultRules := filter (fun r => negb (isConditional r)) candidates in
  let '(passes1, failed1) := tryRules applies name isDir conditionalRules None in
  let '(passesAnyRule, lastFailedRule) :=
    if passes1 then (true, failed1)
    else tryRules (fun _ => true) name isDir defaultRules failed1 in
  if passesAnyRule then []
  else [mkIssue k_naming abs (toDisplayPath abs root)
          (namingMessage rule conditionalRules defaultRules lastFailedRule)
          forbidden error].

Definition namingRules (target : NamingTarget) (rules : list Rule)
  : list NamingRule :=
  flat_map (fun r =>
              match r with
              | NamingR n =>
                  match n_target n, target with
                  | target_in, target_in => [n]
                  | target_those, target_those => [n]
                  | _, _ => []
                  end
              | _ => []
              end) rules.

Definition hasStar (s : string) : bool :=
  Str.includes s "*" || Str.includes s "**".

Definition exactExcept (name relPath exceptPattern : string) : bool :=
  String.eqb name exceptPattern || String.eqb relPath exceptPattern
  || Str.endsWith relPath ("/" ++ exceptPattern).

(** whether an entry is in the [except] list of one of the rules: every glob
    entry of a list is scanned from [scanDir r] *)
Definition inExceptList (scanDir : NamingRule -> string) (rules : list NamingRule)
    (name abs relPath : string) (isDir : bool) : bool :=
  existsb (fun r =>
             match n_except r with
             | None => false
             | Some l =>
                 existsb (fun exceptPattern =>
                            if hasStar exceptPattern
                            then existsb (fun m => String.eqb (Host.resolve2 h root m) abs)
                                   (scanOne exceptPattern (scanDir r) (negb isDir))
                            else exactExcept name relPath exceptPattern) l
             end) rules.

(** [s.indexOf(c)] for a one-character needle *)
Fixpoint indexOf (x : ascii) (s : string) (i : nat) : option nat :=
  match s with
  | EmptyString => None
  | String y s' => if Ascii.eqb x y then Some i else indexOf x s' (S i)
  end.

Definition dirsToCheck (rule : NamingRule) : list string :=
  let pattern := n_pattern rule in
  if hasStar pattern
  then
    if fileType_eqb (n_fileType rule) (Some dirs)
    then
      match indexOf "*" pattern 0 with
      | Some (S globIndex') =>
          let parentDirPattern :=
            Regex.replace reTrailingSlashes (Str.take (S globIndex') pattern) "" in
          let parentDirAbs := Host.resolve2 h root parentDirPattern in
          if Host.isDirectory h parentDirAbs then [parentDirAbs] else []
      | _ => []
      end
    else filter (Host.isDirectory h) (scanOne pattern root false)
  else
    let dirAbs := Host.resolve2 h root pattern in
    if Host.isDirectory h dirAbs then [dirAbs] else [].

Definition allowedNamesSet (groups : Groups) (rule : NamingRule) (dirAbs : string)
  : list string :=
  let allowRulesForDir :=
    match mapGet String.eqb (n_pattern rule) groups with
    | Some g => filter isPermissive g
    | None => []
    end in
  flat_map (fun allowRule =>
              flat_map (fun allowedPattern =>
                          if negb (Str.includes allowedPattern "*")
                             && negb (Str.includes allowedPattern "?")
                          then [allowedPattern]
                          else List.map (Host.basename h)
                                 (scanOne allowedPattern dirAbs false))
                       (d_only allowRule))
           allowRulesForDir.

Definition handleNamingIn (rules : list Rule) (groups : Groups)
    (rule : NamingRule) (st : LintState) : LintState :=
  let namingRulesForPattern :=
    filter (fun r => String.eqb (n_pattern r) (n_pattern rule))
           (namingRules target_in rules) in
  pushIssues st
    (flat_map (fun dirAbs =>
       let entries := Host.listTopLevel h dirAbs in
       let allowedNames := allowedNamesSet groups rule dirAbs in
       flat_map (fun entry =>
          let name := Host.e_name entry in
          let abs := Host.e_abs entry in
          let isDir := Host.e_isDir entry in
          if skipsByFileType (n_fileType rule) isDir then []
          else if Str.mem name allowedNames then []
          else if inExceptList (fun _ => Host.resolve2 h root (n_pattern rule))
                    namingRulesForPattern name abs (toDisplayPath abs root) isDir
          then []
          else namingIssue rule (appliesIn abs isDir) namingRulesForPattern
                 name abs isDir)
         entries)
      (dirsToCheck rule)).

Definition onlyFilesOf (r : NamingRule) : bool :=
  negb (fileType_eqb (n_fileType r) (Some dirs)).

Definition exceptScanDir (r : NamingRule) : string :=
  if negb (Str.startsWith (n_pattern r) "**")
  then
    let patternParts := Str.split "/" (n_pattern r) in
    let patternDir := Str.join "/" (removelast patternParts) in
    if negb (Str.isEmpty patternDir) && negb (hasStar patternDir)
    then Host.resolve2 h root patternDir
    else root
  else root.

Definition handleNamingThose (rules : list Rule) (rule : NamingRule)
    (st : LintState) : LintState :=
  let matches := scanOne (n_pattern rule) root (onlyFilesOf rule) in
  let allNamingRules := namingRules target_those rules in
  pushIssues st
    (flat_map (fun abs =>
       let isDir := Host.isDirectory h abs in
       if skipsByFileType (n_fileType rule) isDir then []
       else
         let base := Host.basename h abs in
         let matchingRules :=
           filter (fun r => Str.mem abs (scanOne (n_pattern r) root (onlyFilesOf r)))
                  allNamingRules in
         if inExceptList exceptScanDir matchingRules base abs
              (Host.relative h root abs) isDir then []
         else namingIssue rule (appliesThose abs isDir) matchingRules base abs isDir)
      matches).

Definition handleNaming (rules : list Rule) (groups : Groups)
    (rule : NamingRule) (st : LintState) : LintState :=
  match n_target rule with
  | target_in => handleNamingIn rules groups rule st
  | target_those => handleNamingThose rules rule st
  end.

(** *** The engine *)

Definition handleRule (rules : list Rule) (groups : Groups) (st : LintState)
    (rule : Rule) : LintState :=
  match rule with
  | InDirOnly _ => st
  | Move from toDir => handleMove from toDir st
  | ThoseOnly pattern only => handleThoseOnly pattern only st
  | RenameDir fromNames toName => handleRenameDir fromNames toName st
  | RenameGlob from to => handleRenameGlob from to st
  | NoFiles names => handleNo names st
  | HasFile names => handleHas names st
  | Allow names => handleAllow names st
  | Optional names => handleOptional names st
  | NamingR r => handleNaming rules groups r st
  end.

(** the key of the final deduplication *)
Definition issueKey (i : Issue) : string :=
  (kindName (ruleKind i) ++ ":" ++ path i)%string.

(** The final filter: ignored paths are dropped and of the issues with one
    key the first is kept. *)
Fixpoint finalFilter (raw : list Issue) (seen : list string) : list Issue :=
  match raw with
  | [] => []
  | i :: raw' =>
      let rel := Host.relative h root (path i) in
      if Host.ignores h rel then finalFilter raw' seen
      else
        let key := issueKey i in
        if Str.mem key seen then finalFilter raw' seen
        else i :: finalFilter raw' (key :: seen)
  end.

(** The state after the loop over the directory groups *)
Definition stateAfterGroups (config : FsLintConfig) (forceStrict : bool)
  : LintState :=
  let rules := cfg_rules config in
  let moved := filesMatchedByMoveRules rules in
  let '(groupIssues, ra) :=
    processGroups forceStrict moved (buildGroups rules) None in
  mkState groupIssues [] ra [].

(** *** The names array an [allow] rule shares with the root group

    The rule the group of the root directory makes of an [allow] rule holds
    the [names] array of the [allow] rule itself, and the required names are
    pushed to the list of the first permissive rule of that group.  When no
    permissive [inDirOnly] rule of the root directory comes before it there,
    that rule is the one made of the first [allow] rule, and the loop over the
    rules then finds the names of that [allow] rule with the required names
    at their end. *)
Definition sharedNames (rules : list Rule) : list string :=
  match hasRules rules, requiredNamesOf rules with
  | _ :: _, _ :: _ =>
      if existsb (fun r => String.eqb (d_dir r) "." && isPermissive r)
           (inDirRules rules)
      then []
      else requiredNamesOf rules
  | _, _ => []
  end.

(** the rules [rs] with [extra] at the end of the names of the first [allow]
    rule among them *)
Fixpoint extendFirstAllow (extra : list string) (rs : list Rule) : list Rule :=
  match rs with
  | [] => []
  | Allow names :: rs' => Allow (names ++ extra) :: rs'
  | r :: rs' => r :: extendFirstAllow extra rs'
  end.

(** The loop over the rules, run on the first rules [rs] of the configuration
    from the state [st]: the handlers see the names of the first [allow] rule
    as the grouping has left them. *)
Definition runRules (config : FsLintConfig) (rs : list Rule) (st : LintState)
  : LintState :=
  fold_left (handleRule (cfg_rules config) (buildGroups (cfg_rules config)))
    (extendFirstAllow (sharedNames (cfg_rules config)) rs) st.

(** The raw issues before the final filter *)
Definition rawIssuesOf (config : FsLintConfig) (forceStrict : bool)
  : list Issue :=
  rawIssues (runRules config (cfg_rules config)
               (stateAfterGroups config forceStrict)).

(** [lintWorkspace(...).issues]: the issues of the result of a run that
    returns one *)
Definition lintWorkspace (config : FsLintConfig) (forceStrict : bool)
  : list Issue :=
  finalFilter (rawIssuesOf config forceStrict) [].

(** The loop before the final filter asks [ig.ignores] about the path of
    every raw issue, ignored or not, repeated or not; a call that throws ends
    the run. *)
Definition ignoreCheck (raw : list Issue) : bool :=
  forallb (fun i => negb (Host.ignoresThrows h (Host.relative h root (path i))))
          raw.

(** The run of [lintWorkspace] once its scans have returned: its issues, or
    [None] when [ig.ignores] throws for the path of a raw issue and the run
    ends without a result. *)
Definition lintRun (config : FsLintConfig) (forceStrict : bool)
  : option (list Issue) :=
  if ignoreCheck (rawIssuesOf config forceStrict)
  then Some (lintWorkspace config forceStrict)
  else None.

End WithHost.

End Lint.

(** ** Rules-language parser (src/parser.ts) *)

Module Parser.
Import Regex Types.

Definition nonEmpty (s : string) : bool := negb (Str.isEmpty s).

Fixpoint splitCsvLoop (input : string) (current_rev : string) (braceLevel : Z)
  : list string :=
  match input with
  | EmptyString =>
      if nonEmpty (Str.trim (Str.rev current_rev))
      then [Str.trim (Str.rev current_rev)] else []
  | String char input' =>
      let braceLevel' :=
        if Ascii.eqb char "{" then (braceLevel + 1)%Z
        else if Ascii.eqb char "}" then (braceLevel - 1)%Z
        else braceLevel in
      if Ascii.eqb char "," && Z.eqb braceLevel' 0
      then Str.trim (Str.rev current_rev) :: splitCsvLoop input' EmptyString braceLevel'
      else splitCsvLoop input' (String char current_rev) braceLevel'
  end.

Definition splitCsvLike (input : string) : list string :=
  filter nonEmpty (splitCsvLoop input EmptyString 0%Z).

Definition looksLikeGlob (s : string) : bool :=
  test Lint.reGlobMeta s || Str.includes s "**" || Str.includes s "/".

Definition styleOfName (s : string) : option NamingStyle :=
  if String.eqb s "PascalCase" then Some PascalCase
  else if String.eqb s "camelCase" then Some camelCase
  else if String.eqb s "kebab-case" then Some kebab_case
  else if String.eqb s "snake_case" then Some snake_case
  else if String.eqb s "SCREAMING_SNAKE_CASE" then Some SCREAMING_SNAKE_CASE
  else if String.eqb s "flatcase" then Some flatcase
  else None.

Definition isNamingStyle (s : string) : bool :=
  match styleOfName s with Some _ => true | None => false end.

Fixpoint leadingSpaces (s : string) : nat :=
  match s with
  | String x s' => if Str.is_space x then S (leadingSpaces s') else 0
  | EmptyString => 0
  end.

Definition getIndentLevel (line : string) : nat := leadingSpaces line.


(** [raw.split] at every line feed, with the carriage return before it *)
Fixpoint splitLinesLoop (s : string) (cur_rev : string) : list string :=
  match s with
  | EmptyString => [Str.rev cur_rev]
  | String x s' =>
      if Ascii.eqb x "010" then Str.rev cur_rev :: splitLinesLoop s' EmptyString
      else if Ascii.eqb x "013" && Str.startsWith s' (String "010" EmptyString)
      then splitLinesLoop s' cur_rev
      else splitLinesLoop s' (String x cur_rev)
  end.

Definition splitLines (raw : string) : list string :=
  splitLinesLoop raw EmptyString.

Definition isBlankOrComment (trimmed : string) : bool :=
  Str.isEmpty trimmed || Str.startsWith trimmed "#".

Fixpoint countChar (x : ascii) (s : string) : Z :=
  match s with
  | EmptyString => 0%Z
  | String y s' => ((if Ascii.eqb x y then 1 else 0) + countChar x s')%Z
  end.

(** The inner [while] loop of the folding of a multi-line array: the index it
    stops at and the combined text. *)
Fixpoint gatherArray (fuel : nat) (lines : list string) (j : nat)
    (bracketCount : Z) (combined : string) : nat * string :=
  match fuel with
  | O => (j, combined)
  | S fuel' =>
      if Nat.ltb j (List.length lines) && Z.ltb 0 bracketCount
      then
        let nextTrimmed := Str.trim (nth j lines EmptyString) in
        if isBlankOrComment nextTrimmed
        then gatherArray fuel' lines (S j) bracketCount combined
        else
          let combined' := (combined ++ " " ++ nextTrimmed)%string in
          let bracketCount' :=
            (bracketCount + (countChar "[" nextTrimmed - countChar "]" nextTrimmed))%Z in
          if Z.eqb bracketCount' 0 then (j, combined')
          else gatherArray fuel' lines (S j) bracketCount' combined'
      else (j, combined)
  end.

Definition opensArray (trimmed : string) : bool :=
  Str.includes trimmed "[" && negb (Str.includes trimmed "]").

(** The replacement patterns of [String.prototype.replace] with a string to
    search for: in the replacement, [$$] stands for a dollar sign, [$&] for
    the text found, [$`] for the text before it and [$'] for the text after
    it; there are no capture groups, so every other [$] stands for itself. *)
Fixpoint expandReplacement (matched before after replacement : string) : string :=
  match replacement with
  | EmptyString => EmptyString
  | String x rest =>
      if Ascii.eqb x "$"
      then
        match rest with
        | String y rest' =>
            if Ascii.eqb y "$"
            then String "$" (expandReplacement matched before after rest')
            else if Ascii.eqb y "&"
            then (matched ++ expandReplacement matched before after rest')%string
            else if Ascii.eqb y "`"
            then (before ++ expandReplacement matched before after rest')%string
            else if Ascii.eqb y "'"
            then (after ++ expandReplacement matched before after rest')%string
            else String x (expandReplacement matched before after rest)
        | EmptyString => String x EmptyString
        end
      else String x (expandReplacement matched before after rest)
  end.

(** [rawLine.replace(trimmed, combined)]: [trimmed] is [rawLine] without the
    white space around it, so it is found after the leading white space *)
Definition replaceTrimmed (rawLine combined : string) : string :=
  let lead := Str.take (leadingSpaces rawLine) rawLine in
  let trail := Str.rev (Str.take (leadingSpaces (Str.rev rawLine)) (Str.rev rawLine)) in
  (lead ++ expandReplacement (Str.trim rawLine) lead trail combined ++ trail)%string.

(** First pass of [preprocessNestedBlocks]: multi-line arrays become one line *)
Fixpoint foldArrays (fuel : nat) (lines : list string) (i : nat)
    (processedLines : list string) : list string :=
  match fuel with
  | O => processedLines
  | S fuel' =>
      if Nat.ltb i (List.length lines)
      then
        let rawLine := nth i lines EmptyString in
        let trimmed := Str.trim rawLine in
        if isBlankOrComment trimmed
        then foldArrays fuel' lines (S i) (processedLines ++ [rawLine])
        else if opensArray trimmed
        then
          let '(j, combined) :=
            gatherArray (List.length lines) lines (S i) (countChar "[" trimmed)
              trimmed in
          foldArrays fuel' lines (S j)
            (processedLines ++ [replaceTrimmed rawLine combined])
        else foldArrays fuel' lines (S i) (processedLines ++ [rawLine])
      else processedLines
  end.

Definition sp1 : re := plus true space.
Definition sp0 : re := Star true space.
Definition lazyDots : re := plus false dot.
Definition nonsp1 : re := plus true nonspace.
Definition notOneOf (l : list string) (x : ascii) : bool :=
  negb (Str.mem (String x EmptyString) l).
Definition filesOrDirs : re := Alt (lit "files") (lit "dirs").
Definition allowWord : re := alts [lit "allow"; lit "yes"; lit "ohyes"].

(** regex "/^in\s+([^\s:{}]+)\s*[:{]\s*$/" *)
Definition reBlockStart : re :=
  seqs [Bol; lit "in"; sp1;
        Grp 1 (plus true (Chr (fun x => negb (Str.is_space x)
                                          && notOneOf [":"; "{"; "}"] x)));
        sp0; Chr (fun x => Str.ch ":" x || Str.ch "{" x); sp0; Eol].

(** regex "/^move\s+(.+?)\s+to\s+(.+?)\s*$/" *)
Definition reBlockMove : re :=
  seqs [Bol; lit "move"; sp1; Grp 1 lazyDots; sp1; lit "to"; sp1; Grp 2 lazyDots;
        sp0; Eol].

(** regex "/^(allow|yes|ohyes)\s+(.+?)(?:\s+in\s+(.+?))?\s*$/" *)
Definition reBlockAllow : re :=
  seqs [Bol; Grp 1 allowWord; sp1; Grp 2 lazyDots;
        opt (seqs [sp1; lit "in"; sp1; Grp 3 lazyDots]); sp0; Eol].

(** regex "/^strict(?:\s+(files|dirs))?(?:\s+in\s+(.+?))?\s*$/" *)
Definition reBlockStrict : re :=
  seqs [Bol; lit "strict"; opt (Seq sp1 (Grp 1 filesOrDirs));
        opt (seqs [sp1; lit "in"; sp1; Grp 2 lazyDots]); sp0; Eol].

(** regex "/^no\s+(.+?)\s*$/" *)
Definition reBlockNo : re := seqs [Bol; lit "no"; sp1; Grp 1 lazyDots; sp0; Eol].

(** regex "/^must\s+have\s+(.+?)\s*$/" *)
Definition reMustHave : re :=
  seqs [Bol; lit "must"; sp1; lit "have"; sp1; Grp 1 lazyDots; sp0; Eol].

(** regex "/^has\s+(.+?)\s*$/" *)
Definition reHas : re := seqs [Bol; lit "has"; sp1; Grp 1 lazyDots; sp0; Eol].

Definition clauseWord : re :=
  alts [lit "if-contains"; lit "if-parent-matches"; lit "except"; lit "prefix:";
        lit "suffix:"].

(** regex "/^use\s+(.+?)\s+for\s+(?:(files|dirs)\s+)?([^\s]+(?:\s+[^\s]+)*?)(?=\s+(?:if-contains|if-parent-matches|except|prefix:|suffix:)|$)/" *)
Definition reBlockUse : re :=
  seqs [Bol; lit "use"; sp1; Grp 1 lazyDots; sp1; lit "for"; sp1;
        opt (Seq (Grp 2 filesOrDirs) sp1);
        Grp 3 (Seq nonsp1 (Star false (Seq sp1 nonsp1)));
        Ahead (Alt (Seq sp1 clauseWord) Eol)].

Definition grp (m : rmatch) (n : nat) : string :=
  match group m n with Some v => v | None => EmptyString end.

Definition prefixUnlessPathLike (currentDir : string) (p : string) : string :=
  let trimmed := Str.trim p in
  if Str.includes trimmed "/" || Str.startsWith trimmed "**" then trimmed
  else if Str.startsWith trimmed (currentDir ++ "/") then trimmed
  else (currentDir ++ "/" ++ trimmed)%string.

(** The rewriting of one statement inside a block of directory [currentDir] *)
Definition rewriteInBlock (currentDir : string) (processedLine : string) : string :=
  match exec reBlockMove processedLine with
  | Some moveMatch =>
      let from := Str.trim (grp moveMatch 1) in
      let toDir := Str.trim (grp moveMatch 2) in
      let prefixedFrom :=
        if Str.startsWith from currentDir then from
        else (currentDir ++ "/" ++ from)%string in
      let prefixedTo :=
        if Str.startsWith toDir currentDir then toDir
        else (currentDir ++ "/" ++ toDir)%string in
      ("move " ++ prefixedFrom ++ " to " ++ prefixedTo)%string
  | None =>
  match exec reBlockAllow processedLine with
  | Some allowMatch =>
      let patternsStr0 := Str.trim (grp allowMatch 2) in
      let originalWasArray := Str.startsWith patternsStr0 "[" in
      let patternsStr :=
        if originalWasArray
        then Str.trim (Str.dropEnd 1 (Str.drop 1 patternsStr0))
        else patternsStr0 in
      let patterns := splitCsvLike patternsStr in
      let prefixedPatterns :=
        List.map (fun pattern =>
                    let trimmed := Str.trim pattern in
                    if Str.startsWith trimmed (currentDir ++ "/") then trimmed
                    else if Str.startsWith trimmed "**" then trimmed
                    else if originalWasArray && negb (looksLikeGlob trimmed)
                    then trimmed
                    else (currentDir ++ "/" ++ trimmed)%string) patterns in
      let patternsStrResult :=
        if originalWasArray
        then ("[" ++ Str.join ", " prefixedPatterns ++ "]")%string
        else Str.join ", " prefixedPatterns in
      match group allowMatch 3 with
      | None =>
          (grp allowMatch 1 ++ " " ++ patternsStrResult ++ " in " ++ currentDir)%string
      | Some dir3 =>
          let targetDir :=
            if Str.startsWith dir3 currentDir then dir3
            else (currentDir ++ "/" ++ dir3)%string in
          (grp allowMatch 1 ++ " " ++ grp allowMatch 2 ++ " in " ++ targetDir)%string
      end
  | None =>
  match exec reBlockStrict processedLine with
  | Some strictMatch =>
      let fileTypePart :=
        match group strictMatch 1 with
        | Some fileType => ("strict " ++ fileType)%string
        | None => "strict"
        end in
      match group strictMatch 2 with
      | None => (fileTypePart ++ " in " ++ currentDir)%string
      | Some targetDir =>
          let resolvedDir :=
            if Str.startsWith targetDir currentDir then targetDir
            else (currentDir ++ "/" ++ targetDir)%string in
          (fileTypePart ++ " in " ++ resolvedDir)%string
      end
  | None =>
  match exec reBlockNo processedLine with
  | Some noMatch =>
      let patterns := splitCsvLike (Str.trim (grp noMatch 1)) in
      ("no " ++ Str.join ", " (List.map (prefixUnlessPathLike currentDir) patterns))%string
  | None =>
  match exec reMustHave processedLine, exec reHas processedLine with
  | Some mustHaveMatch, _ =>
      let patterns := splitCsvLike (Str.trim (grp mustHaveMatch 1)) in
      ("must have " ++ Str.join ", " (List.map (prefixUnlessPathLike currentDir) patterns))%string
  | None, Some hasMatch =>
      let patterns := splitCsvLike (Str.trim (grp hasMatch 1)) in
      ("has " ++ Str.join ", " (List.map (prefixUnlessPathLike currentDir) patterns))%string
  | None, None =>
  match exec reBlockUse processedLine with
  | Some usePatternMatch =>
      match group usePatternMatch 3 with
      | Some g3 =>
          let patternPart := Str.trim g3 in
          if nonEmpty g3 && nonEmpty patternPart
             && negb (Str.startsWith patternPart currentDir)
             && negb (Str.startsWith patternPart "/")
          then
            let prefixedPattern := (currentDir ++ "/" ++ patternPart)%string in
            let patternStart :=
              m_index usePatternMatch
              + Str.indexOf (m_text usePatternMatch) patternPart in
            (Str.take patternStart processedLine ++ prefixedPattern
             ++ Str.drop (patternStart + String.length patternPart) processedLine)%string
          else processedLine
      | None => processedLine
      end
  | None => processedLine
  end end end end end end.

Record Frame : Type := mkFrame { f_dir : string; f_indent : nat }.

Fixpoint popFrames (indent : nat) (indentStack : list Frame) : list Frame :=
  match indentStack with
  | top :: below =>
      if Nat.leb indent (f_indent top) then popFrames indent below
      else indentStack
  | [] => []
  end.

(** Second pass of [preprocessNestedBlocks]: the blocks are flattened; the
    head of [indentStack] is the innermost frame. *)
Fixpoint expandBlocks (processedLines : list string) (indentStack : list Frame)
  : list string :=
  match processedLines with
  | [] => []
  | rawLine :: more =>
      let trimmed := Str.trim rawLine in
      if isBlankOrComment trimmed then rawLine :: expandBlocks more indentStack
      else
        let indent := getIndentLevel rawLine in
        let indentStack' := popFrames indent indentStack in
        let currentDir :=
          match indentStack' with
          | top :: _ => f_dir top
          | [] => EmptyString
          end in
        match exec reBlockStart trimmed with
        | Some inDirMatch =>
            let dir := Str.trim (grp inDirMatch 1) in
            let fullDir :=
              if nonEmpty currentDir then (currentDir ++ "/" ++ dir)%string
              else dir in
            expandBlocks more (mkFrame fullDir indent :: indentStack')
        | None =>
            if String.eqb trimmed "}" then expandBlocks more indentStack'
            else
              (if nonEmpty currentDir then rewriteInBlock currentDir trimmed
               else trimmed)
              :: expandBlocks more indentStack'
        end
  end.

Definition preprocessNestedBlocks (raw : string) : string :=
  let lines := splitLines raw in
  let processedLines := foldArrays (List.length lines) lines 0 [] in
  Str.join (String "010" EmptyString) (expandBlocks processedLines []).

(** *** Lines and their numbers *)

Record Line : Type := mkLine { content : string; lineNum : nat }.

(** the loop of the backslash continuation *)
Fixpoint joinContinued (fuel : nat) (rawLines : list string) (i : nat)
    (line : string) : nat * string :=
  match fuel with
  | O => (i, line)
  | S fuel' =>
      if Str.endsWith line "\" && Nat.ltb (i + 1) (List.length rawLines)
      then
        let nextLine := nth (S i) rawLines EmptyString in
        joinContinued fuel' rawLines (S i)
          (Str.trim (Str.dropEnd 1 line) ++ " " ++ Str.trim nextLine)%string
      else (i, line)
  end.

Fixpoint collectLines (fuel : nat) (rawLines : list string) (i : nat)
    (processedLines : list Line) : list Line :=
  match fuel with
  | O => processedLines
  | S fuel' =>
      if Nat.ltb i (List.length rawLines)
      then
        let startLineNum := i + 1 in
        let line0 := Str.trim (nth i rawLines EmptyString) in
        if isBlankOrComment line0
        then collectLines fuel' rawLines (S i) processedLines
        else
          let '(i1, line1) :=
            joinContinued (List.length rawLines) rawLines i line0 in
          let '(i2, line2) :=
            if opensArray line1
            then gatherArray (List.length rawLines) rawLines (S i1)
                   (countChar "[" line1) line1
            else (i1, line1) in
          collectLines fuel' rawLines (S i2)
            (processedLines ++ [mkLine line2 startLineNum])
      else processedLines
  end.

(** the processed lines of the text of a rules file *)
Definition linesOf (raw : string) : list Line :=
  let rawLines := splitLines (preprocessNestedBlocks raw) in
  collectLines (List.length rawLines) rawLines 0 [].

(** *** Statement shapes *)

(** regex "/^(.+?)\s*\[([\s\S]+?)\]\s*(.{0,})$/" *)
Definition reArray : re :=
  seqs [Bol; Grp 1 lazyDots; sp0; c "["; Grp 2 (plus false any); c "]"; sp0;
        Grp 3 (Star true dot); Eol].

(** regex "/^\[where:(.*?)\]$/" *)
Definition reWhere : re :=
  seqs [Bol; lit "[where:"; Grp 1 (Star false dot); c "]"; Eol].

(** regex "/^\[(.+?)\]$/" *)
Definition rePath : re := seqs [Bol; c "["; Grp 1 lazyDots; c "]"; Eol].

(** regex "/^import\s+(.+?)\s*$/" *)
Definition reImport : re :=
  seqs [Bol; lit "import"; sp1; Grp 1 lazyDots; sp0; Eol].

(** regex "/^move\s+(.+?)\s+to\s+([^\s#]+)\s*$/" *)
Definition reMove : re :=
  seqs [Bol; lit "move"; sp1; Grp 1 lazyDots; sp1; lit "to"; sp1;
        Grp 2 (plus true (Chr (fun x => negb (Str.is_space x) && negb (Str.ch "#" x))));
        sp0; Eol].

(** regex "/^strict\s+(files|dirs)?\s+for\s+(.+?)\s*$/" *)
Definition reStrictFor : re :=
  seqs [Bol; lit "strict"; sp1; opt (Grp 1 filesOrDirs); sp1; lit "for"; sp1;
        Grp 2 lazyDots; sp0; Eol].

(** regex "/^strict\s+in\s+([^\s]+)\s*$/" *)
Definition reStrictInOnly : re :=
  seqs [Bol; lit "strict"; sp1; lit "in"; sp1; Grp 1 nonsp1; sp0; Eol].

(** regex "/^strict\s+(files|dirs)\s+in\s+([^\s]+)\s*$/" *)
Definition reStrictIn : re :=
  seqs [Bol; lit "strict"; sp1; Grp 1 filesOrDirs; sp1; lit "in"; sp1;
        Grp 2 nonsp1; sp0; Eol].

(** regex "/^(allow|yes|ohyes)\s+(.+?)\s+in\s+([^\s]+)\s*$/" *)
Definition reAllowIn : re :=
  seqs [Bol; Grp 1 allowWord; sp1; Grp 2 lazyDots; sp1; lit "in"; sp1;
        Grp 3 nonsp1; sp0; Eol].

(** regex "/^(allow|yes|ohyes)\s+(.+?)\s*$/" *)
Definition reAllow : re :=
  seqs [Bol; Grp 1 allowWord; sp1; Grp 2 lazyDots; sp0; Eol].

(** regex "/^in\s+([^\s]+)\s+(allow|yes|ohyes)\s+(.+?)\s*$/" *)
Definition reInAllow : re :=
  seqs [Bol; lit "in"; sp1; Grp 1 nonsp1; sp1; Grp 2 allowWord; sp1;
        Grp 3 lazyDots; sp0; Eol].

(** regex "\/[^\/]+\/[gimuy]*", the shape of a prefix: or suffix: argument *)
Definition reSlashed : re :=
  seqs [c "/"; plus true (Chr (fun x => negb (Str.ch "/" x))); c "/";
        Star true (Chr Naming.is_flag)].

Definition namingTail : list re :=
  [lit "naming"; sp1; Grp 3 nonsp1;
   opt (seqs [sp1; lit "prefix:"; sp1; Grp 4 reSlashed]);
   opt (seqs [sp1; lit "suffix:"; sp1; Grp 5 reSlashed]);
   opt (seqs [sp1; lit "except"; sp1; Grp 6 lazyDots]);
   sp0; Eol].

(** regex "/^in\s+([^\s]+)\s+(?:(files|dirs)\s+)?naming\s+([^\s]+)(?:\s+prefix:\s+(\/[^\/]+\/[gimuy]{0,}))?(?:\s+suffix:\s+(\/[^\/]+\/[gimuy]{0,}))?(?:\s+except\s+(.+?))?\s*$/" *)
Definition reInNaming : re :=
  seqs ([Bol; lit "in"; sp1; Grp 1 nonsp1; sp1;
         opt (Seq (Grp 2 filesOrDirs) sp1)] ++ namingTail).

(** regex "/^those\s+(.+?)\s+(?:(files|dirs)\s+)?naming\s+([^\s]+)(?:\s+prefix:\s+(\/[^\/]+\/[gimuy]{0,}))?(?:\s+suffix:\s+(\/[^\/]+\/[gimuy]{0,}))?(?:\s+except\s+(.+?))?\s*$/" *)
Definition reThoseNaming : re :=
  seqs ([Bol; lit "those"; sp1; Grp 1 lazyDots; sp1;
         opt (Seq (Grp 2 filesOrDirs) sp1)] ++ namingTail).

(** regex "/^(no|deny|reject)\s+(.+?)\s*$/" *)
Definition reNo : re :=
  seqs [Bol; Grp 1 (alts [lit "no"; lit "deny"; lit "reject"]); sp1;
        Grp 2 lazyDots; sp0; Eol].

(** regex "/^optional\s+(.+?)\s*$/" *)
Definition reOptional : re :=
  seqs [Bol; lit "optional"; sp1; Grp 1 lazyDots; sp0; Eol].

(** regex "/^rename\s+(.+?)\s+to\s+(.+?)\s*$/" *)
Definition reRename : re :=
  seqs [Bol; lit "rename"; sp1; Grp 1 lazyDots; sp1; lit "to"; sp1;
        Grp 2 lazyDots; sp0; Eol].

(** regex "/^(.+\/)(.+)$/" *)
Definition reSourceDir : re :=
  seqs [Bol; Grp 1 (Seq (plus true dot) (c "/")); Grp 2 (plus true dot); Eol].

(** regex "/^(.+\*\*\/)(.+)$/" *)
Definition reDoubleStar : re :=
  seqs [Bol; Grp 1 (Seq (plus true dot) (lit "**/")); Grp 2 (plus true dot); Eol].

(** regex "/\s+if-parent-matches\s+([^\s]+)\s*$/" *)
Definition reIfParent : re :=
  seqs [sp1; lit "if-parent-matches"; sp1; Grp 1 nonsp1; sp0; Eol].

(** regex "/\s+if-contains\s+([^\s]+)\s*$/" *)
Definition reIfContains : re :=
  seqs [sp1; lit "if-contains"; sp1; Grp 1 nonsp1; sp0; Eol].

(** regex "/\s+except\s+([^\s]+(?:\s+[^\s]+)*?)(?=\s+(?:prefix:|suffix:)|$)/" *)
Definition reExcept : re :=
  seqs [sp1; lit "except"; sp1;
        Grp 1 (Seq nonsp1 (Star false (Seq sp1 nonsp1)));
        Ahead (Alt (Seq sp1 (Alt (lit "prefix:") (lit "suffix:"))) Eol)].

(** regex "/\s+suffix:\s+(\/[^\/]+\/[gimuy]{0,})\s*/" *)
Definition reSuffix : re :=
  seqs [sp1; lit "suffix:"; sp1; Grp 1 reSlashed; sp0].

(** regex "/\s+prefix:\s+(\/[^\/]+\/[gimuy]{0,})\s*/" *)
Definition rePrefix : re :=
  seqs [sp1; lit "prefix:"; sp1; Grp 1 reSlashed; sp0].

(** regex "/^use\s+(.+?)\s+for\s+(?:(files|dirs)\s+)?(.+?)\s*$/" *)
Definition reUseMain : re :=
  seqs [Bol; lit "use"; sp1; Grp 1 lazyDots; sp1; lit "for"; sp1;
        opt (Seq (Grp 2 filesOrDirs) sp1); Grp 3 lazyDots; sp0; Eol].

(** *** Errors and parser state *)

Inductive FsLintErrorKey : Type :=
| invalidWhereDirective (lineNum : nat)
| invalidPathDirective (lineNum : nat)
| ruleFormatError (rule line : string) (lineNum : nat)
| renameMissingSources (line : string) (lineNum : nat)
| unknownPreset (name : string) (lineNum : nat)
| cannotParseLine (line : string) (lineNum : nat).

(** The outcomes of a parse: a value, an [FsLintError] with the path of the
    rules file it arose in, a failure of the host to read an imported file,
    and an import chain deeper than the fuel. *)
Inductive Outcome (A : Type) : Type :=
| Ok (a : A)
| Throw (info : FsLintErrorKey) (configPath : option string)
| HostFailure
| OutOfFuel.
Arguments Ok {A} a.
Arguments Throw {A} info configPath.
Arguments HostFailure {A}.
Arguments OutOfFuel {A}.

Definition Deps : Type := list (string * list string).

(** A rule of the list under construction comes with the identity of its
    [only] array: [strict ... in] shares the array of the permissive rule it
    finds and pushes to it, which every rule sharing the array observes. *)
Record PState : Type := mkPState {
  p_where : WhereDirective;
  p_rules : list (nat * Rule);
  p_imports : list string;
  p_deps : Deps;
  p_next : nat
}.

Definition pushRule (st : PState) (r : Rule) : PState :=
  mkPState (p_where st) (p_rules st ++ [(p_next st, r)]) (p_imports st)
    (p_deps st) (S (p_next st)).

Definition setWhere (st : PState) (w : WhereDirective) : PState :=
  mkPState w (p_rules st) (p_imports st) (p_deps st) (p_next st).

(** [array.push(...items)] on the array [id], seen by every rule that holds it *)
Definition pushToArray (id : nat) (items : list string) (rules : list (nat * Rule))
  : list (nat * Rule) :=
  List.map (fun '(i, r) =>
              match r with
              | InDirOnly d =>
                  if Nat.eqb i id
                  then (i, InDirOnly (mkInDirOnly (d_dir d) (d_only d ++ items)
                                        (d_mode d) (d_fileType d)))
                  else (i, r)
              | _ => (i, r)
              end) rules.

Definition fileTypeOf (o : option string) : option FileType :=
  match o with
  | Some v => if String.eqb v "files" then Some files
              else if String.eqb v "dirs" then Some dirs else None
  | None => None
  end.

(** the last permissive [inDirOnly] rule of directory [dir] *)
Definition findPrevAllow (dir : string) (rules : list (nat * Rule))
  : option (nat * InDirOnlyRule) :=
  fold_left (fun acc '(i, r) =>
               match r with
               | InDirOnly d =>
                   if String.eqb (d_dir d) dir && Lint.isPermissive d
                   then Some (i, d) else acc
               | _ => acc
               end) rules None.

Definition rootAllowNames (rules : list (nat * Rule)) : list string :=
  flat_map (fun '(_, r) => match r with Allow names => names | _ => [] end) rules.

Definition strictIn (st : PState) (dir : string) (fileType : option FileType)
  : PState :=
  let names := rootAllowNames (p_rules st) in
  match findPrevAllow dir (p_rules st) with
  | Some (id, prev) =>
      match d_only prev with
      | _ :: _ =>
          mkPState (p_where st)
            (pushToArray id names (p_rules st)
             ++ [(id, InDirOnly (mkInDirOnly dir (d_only prev ++ names)
                                   (Some strict) fileType))])
            (p_imports st) (p_deps st) (p_next st)
      | [] => pushRule st (InDirOnly (mkInDirOnly dir names (Some strict) fileType))
      end
  | None => pushRule st (InDirOnly (mkInDirOnly dir names (Some strict) fileType))
  end.

Definition quote : string := String "034" EmptyString.

Definition styleHint : string :=
  "(must be PascalCase/camelCase/kebab-case/snake_case/SCREAMING_SNAKE_CASE/flatcase)".

(** *** The statements *)

(** The array syntax: the items between the brackets become a comma
    separated list. *)
Definition normalizeArray (line : string) : string :=
  match exec reArray line with
  | Some arrayMatch =>
      let beforeBracket := Str.trim (grp arrayMatch 1) in
      let arrayContent := grp arrayMatch 2 in
      let afterBracket := Str.trim (grp arrayMatch 3) in
      let arrayItems :=
        Str.join ", "
          (filter nonEmpty
             (List.map Str.trim
                (flat_map (Str.split "010") (Str.split "," arrayContent)))) in
      (beforeBracket ++ " " ++ arrayItems
       ++ (if nonEmpty afterBracket then " " ++ afterBracket else ""))%string
  | None => line
  end.

Section Statements.
Variable h : Host.t.
(** the parse of an imported file: its text, its path, the dependency map
    and the next array identity *)
Variable parseImported :
  string -> option string -> Deps -> nat -> Outcome PState.
Variable configPath : option string.

Definition throw {A} (info : FsLintErrorKey) : Outcome A := Throw info configPath.

Definition truthyPath : option string :=
  match configPath with
  | Some cp => if nonEmpty cp then Some cp else None
  | None => None
  end.

Definition tryWhere (st : PState) (line : string) (lineNum : nat)
  : option (Outcome PState) :=
  match exec reWhere line with
  | None => None
  | Some whereMatch =>
      let v := Str.trim (grp whereMatch 1) in
      Some (if Str.isEmpty v then throw (invalidWhereDirective lineNum)
            else if String.eqb v "cwd" then Ok (setWhere st w_cwd)
            else Ok (setWhere st (w_glob [v])))
  end.

Definition tryPath (st : PState) (line : string) (lineNum : nat)
  : option (Outcome PState) :=
  match exec rePath line with
  | None => None
  | Some pathMatch =>
      let v := Str.trim (grp pathMatch 1) in
      Some (if Str.isEmpty v then throw (invalidPathDirective lineNum)
            else if negb (Str.startsWith v "where:")
            then Ok (setWhere st (w_paths [v]))
            else Ok st)
  end.

Definition findPresetPath (name : string) : option string :=
  let candidate := Host.presetCandidate h (name ++ ".chous") in
  if Host.existsSync h candidate then Some candidate else None.

Definition resolveImport (importName : string) : option string :=
  let local :=
    match truthyPath with
    | Some cp =>
        let localCandidate := Host.resolve2 h (Host.dirname h cp) importName in
        if Host.existsSync h localCandidate then Some localCandidate
        else if Host.existsSync h (localCandidate ++ ".chous")
        then Some (localCandidate ++ ".chous")%string
        else None
    | None => None
    end in
  match local with
  | Some p => if nonEmpty p then Some p else findPresetPath importName
  | None => findPresetPath importName
  end.

(** an imported [thoseOnly] rule is filled again by the importing file *)
Definition resetThoseOnly (r : nat * Rule) : nat * Rule :=
  match r with
  | (i, ThoseOnly pattern (_ :: _)) => (i, ThoseOnly pattern [])
  | _ => r
  end.

Definition addDependency (deps : Deps) (importing importPath : string) : Deps :=
  match Lint.mapGet String.eqb importing deps with
  | Some l => Lint.mapSet String.eqb importing (l ++ [importPath]) deps
  | None => Lint.mapSet String.eqb importing [importPath] deps
  end.

Definition tryImport (st : PState) (line : string) (lineNum : nat)
  : option (Outcome PState) :=
  match exec reImport line with
  | None => None
  | Some importMatch =>
      let importName := Str.trim (grp importMatch 1) in
      Some
        (if Str.isEmpty importName
         then throw (ruleFormatError "import" line lineNum)
         else
           match resolveImport importName with
           | None => throw (unknownPreset importName lineNum)
           | Some importPath =>
               if match truthyPath with
                  | Some cp =>
                      String.eqb (Host.resolve h importPath) (Host.resolve h cp)
                  | None => false
                  end
               then Ok st
               else
                 match Host.readFileSync h importPath with
                 | None => HostFailure
                 | Some importRaw =>
                     match parseImported importRaw (Some importPath)
                             (p_deps st) (p_next st) with
                     | Ok imported =>
                         let deps :=
                           match truthyPath with
                           | Some cp =>
                               addDependency (p_deps imported)
                                 (Host.resolve h cp) importPath
                           | None => p_deps imported
                           end in
                         Ok (mkPState (p_where st)
                               (p_rules st
                                ++ List.map resetThoseOnly (p_rules imported))
                               (p_imports st ++ importPath :: p_imports imported)
                               deps (p_next imported))
                     | Throw e p => Throw e p
                     | HostFailure => HostFailure
                     | OutOfFuel => OutOfFuel
                     end
                 end
           end)
  end.

Definition tryMove (st : PState) (line : string) (lineNum : nat)
  : option (Outcome PState) :=
  match exec reMove line with
  | None => None
  | Some moveMatch =>
      Some (Ok (pushRule st (Move (Str.trim (grp moveMatch 1))
                               (Str.trim (grp moveMatch 2)))))
  end.

Definition tryStrictFor (st : PState) (line : string) (lineNum : nat)
  : option (Outcome PState) :=
  match exec reStrictFor line with
  | None => None
  | Some strictForMatch =>
      Some (Ok (pushRule st (ThoseOnly (Str.trim (grp strictForMatch 2)) [])))
  end.

Definition tryStrictInOnly (st : PState) (line : string) (lineNum : nat)
  : option (Outcome PState) :=
  match exec reStrictInOnly line with
  | None => None
  | Some strictInOnlyMatch =>
      Some (Ok (strictIn st (Str.trim (grp strictInOnlyMatch 1)) None))
  end.

Definition tryStrictIn (st : PState) (line : string) (lineNum : nat)
  : option (Outcome PState) :=
  match exec reStrictIn line with
  | None => None
  | Some strictInMatch =>
      Some (Ok (strictIn st (Str.trim (grp strictInMatch 2))
                  (fileTypeOf (group strictInMatch 1))))
  end.

Definition permissiveRule (dir only : string) : Rule :=
  InDirOnly (mkInDirOnly (Str.trim dir) (splitCsvLike only) (Some permissive) None).

Definition tryAllowIn (st : PState) (line : string) (lineNum : nat)
  : option (Outcome PState) :=
  match exec reAllowIn line with
  | None => None
  | Some allowInMatch =>
      Some (Ok (pushRule st (permissiveRule (grp allowInMatch 3) (grp allowInMatch 2))))
  end.

Definition tryAllow (st : PState) (line : string) (lineNum : nat)
  : option (Outcome PState) :=
  match exec reAllow line with
  | None => None
  | Some allowMatch =>
      Some (Ok (pushRule st (Allow (splitCsvLike (grp allowMatch 2)))))
  end.

Definition tryInAllow (st : PState) (line : string) (lineNum : nat)
  : option (Outcome PState) :=
  match exec reInAllow line with
  | None => None
  | Some inAllowMatch =>
      Some (Ok (pushRule st (permissiveRule (grp inAllowMatch 1) (grp inAllowMatch 3))))
  end.

Definition exceptOf (o : option string) : option (list string) :=
  match o with
  | Some v => if nonEmpty v then Some (splitCsvLike v) else None
  | None => None
  end.

Definition legacyNaming (target : NamingTarget) (hint : string) (m : rmatch)
    (st : PState) (lineNum : nat) : Outcome PState :=
  let style := grp m 3 in
  match styleOfName style with
  | None => throw (ruleFormatError hint style lineNum)
  | Some sty =>
      Ok (pushRule st
            (NamingR (mkNamingRule target (Str.trim (grp m 1)) sty
                        (fileTypeOf (group m 2)) (group m 4) (group m 5)
                        (exceptOf (group m 6)) None None)))
  end.

Definition tryInNaming (st : PState) (line : string) (lineNum : nat)
  : option (Outcome PState) :=
  match exec reInNaming line with
  | None => None
  | Some inNamingMatch =>
      Some (legacyNaming target_in ("naming style " ++ styleHint) inNamingMatch
              st lineNum)
  end.

Definition tryThoseNaming (st : PState) (line : string) (lineNum : nat)
  : option (Outcome PState) :=
  match exec reThoseNaming line with
  | None => None
  | Some thoseNamingMatch =>
      Some (legacyNaming target_those "naming style" thoseNamingMatch st lineNum)
  end.

Definition tryNames (r : re) (n : nat) (mk : list string -> Rule) (st : PState)
    (line : string) : option (Outcome PState) :=
  match exec r line with
  | None => None
  | Some m => Some (Ok (pushRule st (mk (splitCsvLike (grp m n)))))
  end.

Definition tryRename (st : PState) (line : string) (lineNum : nat)
  : option (Outcome PState) :=
  match exec reRename line with
  | None => None
  | Some renameMatch =>
      let left := Str.trim (grp renameMatch 1) in
      let right0 := Str.trim (grp renameMatch 2) in
      let right :=
        if looksLikeGlob left && Str.includes right0 "*"
           && negb (Str.includes right0 "/") && negb (Str.includes right0 "**")
        then
          match exec reSourceDir left with
          | Some sourceDirMatch => (grp sourceDirMatch 1 ++ right0)%string
          | None =>
              match exec reDoubleStar left with
              | Some doubleStarMatch => (grp doubleStarMatch 1 ++ right0)%string
              | None => right0
              end
          end
        else right0 in
      Some
        (if looksLikeGlob left || looksLikeGlob right
         then Ok (pushRule st (RenameGlob left right))
         else
           match splitCsvLike left with
           | [] => throw (renameMissingSources line lineNum)
           | fromNames => Ok (pushRule st (RenameDir fromNames right))
           end)
  end.

(** The trailing clauses of a [use] statement, taken off the line from the
    right: what is left of the line and the clauses found. *)
Record Clauses : Type := mkClauses {
  c_line : string;
  c_ifParentStyle : option string;
  c_ifContains : option string;
  c_except : option string;
  c_suffix : option string;
  c_prefix : option string
}.

Definition stripClauses (line : string) : Clauses :=
  let '(line1, ifParentStyle) :=
    match exec reIfParent line with
    | Some m => (Regex.replace reIfParent line "", group m 1)
    | None => (line, None)
    end in
  let '(line2, ifContains) :=
    match exec reIfContains line1 with
    | Some m => (Regex.replace reIfContains line1 "", group m 1)
    | None => (line1, None)
    end in
  let '(line3, except) :=
    match exec reExcept line2 with
    | Some m =>
        if nonEmpty (grp m 1)
        then (Regex.replace reExcept line2 "", Some (Str.trim (grp m 1)))
        else (line2, None)
    | None => (line2, None)
    end in
  let '(line4, suffix) :=
    match exec reSuffix line3 with
    | Some m => (Regex.replace reSuffix line3 " ", group m 1)
    | None => (line3, None)
    end in
  let '(line5, prefix) :=
    match exec rePrefix line4 with
    | Some m => (Regex.replace rePrefix line4 " ", group m 1)
    | None => (line4, None)
    end in
  mkClauses line5 ifParentStyle ifContains except suffix prefix.

Definition truthyStr (o : option string) : bool :=
  match o with Some v => nonEmpty v | None => false end.

Definition grpOpt (o : option string) : string :=
  match o with Some v => v | None => EmptyString end.

Definition trimmedOf (o : option string) : option string :=
  match o with
  | Some v => if nonEmpty v then Some (Str.trim v) else None
  | None => None
  end.

Fixpoint stylesOfNames (names : list string) : string + list NamingStyle :=
  match names with
  | [] => inr []
  | n :: names' =>
      match styleOfName n with
      | None => inl n
      | Some sty =>
          match stylesOfNames names' with
          | inl bad => inl bad
          | inr l => inr (sty :: l)
          end
      end
  end.

Definition useRule (cl : Clauses) (fileType : option FileType)
    (trimmedPattern : string) (style : NamingStyle) : Rule :=
  let ifParent :=
    match trimmedOf (c_ifParentStyle cl) with
    | Some v => styleOfName v
    | None => None
    end in
  if Lint.fileType_eqb fileType (Some dirs)
  then NamingR (mkNamingRule target_in trimmedPattern style fileType
                  (c_prefix cl) (c_suffix cl) (exceptOf (c_except cl))
                  (trimmedOf (c_ifContains cl)) None)
  else if looksLikeGlob trimmedPattern || Str.includes trimmedPattern "**"
          || Str.includes trimmedPattern "*"
  then NamingR (mkNamingRule target_those trimmedPattern style fileType
                  (c_prefix cl) (c_suffix cl) (exceptOf (c_except cl))
                  None ifParent)
  else NamingR (mkNamingRule target_in trimmedPattern style fileType
                  (c_prefix cl) (c_suffix cl) (exceptOf (c_except cl))
                  None ifParent).

Definition useStatement (st : PState) (cl : Clauses) (lineNum : nat)
    (stylesStr : string) (fileType : option FileType) (pattern : string)
  : Outcome PState :=
  let line := c_line cl in
  if truthyStr (c_ifContains cl) && negb (Lint.fileType_eqb fileType (Some dirs))
  then throw (ruleFormatError "if-contains can only be used with 'dirs'" line lineNum)
  else if truthyStr (c_ifParentStyle cl)
          && negb (Lint.fileType_eqb fileType (Some files))
  then throw (ruleFormatError "if-parent-matches can only be used with 'files'"
                line lineNum)
  else if truthyStr (c_ifParentStyle cl)
          && negb (isNamingStyle (Str.trim (grpOpt (c_ifParentStyle cl))))
  then throw (ruleFormatError
                ("if-parent-matches style " ++ quote ++ grpOpt (c_ifParentStyle cl)
                 ++ quote ++ " " ++ styleHint)
                (grpOpt (c_ifParentStyle cl)) lineNum)
  else
    let styles := filter nonEmpty (List.map Str.trim (Str.split "," stylesStr)) in
    match styles with
    | [] => throw (ruleFormatError "use...for (no styles provided)" line lineNum)
    | _ :: _ =>
        match stylesOfNames styles with
        | inl style =>
            throw (ruleFormatError
                     ("naming style " ++ quote ++ style ++ quote ++ " " ++ styleHint)
                     style lineNum)
        | inr stys =>
            Ok (fold_left (fun acc style =>
                             pushRule acc (useRule cl fileType (Str.trim pattern) style))
                          stys st)
        end
    end.

Definition tryUse (st : PState) (cl : Clauses) (lineNum : nat)
  : option (Outcome PState) :=
  match exec reUseMain (c_line cl) with
  | None => None
  | Some mainMatch =>
      let stylesStr := grp mainMatch 1 in
      let pattern := grp mainMatch 3 in
      if nonEmpty stylesStr && nonEmpty pattern
      then Some (useStatement st cl lineNum stylesStr
                   (fileTypeOf (group mainMatch 2)) pattern)
      else None
  end.

(** One statement; the first shape that matches decides. *)
Definition parseStatement (st : PState) (pl : Line) : Outcome PState :=
  if Str.isEmpty (content pl) then Ok st
  else
    let line := normalizeArray (content pl) in
    let lineNum := lineNum pl in
    match tryWhere st line lineNum with Some r => r | None =>
    match tryPath st line lineNum with Some r => r | None =>
    match tryImport st line lineNum with Some r => r | None =>
    match tryMove st line lineNum with Some r => r | None =>
    match tryStrictFor st line lineNum with Some r => r | None =>
    match tryStrictInOnly st line lineNum with Some r => r | None =>
    match tryStrictIn st line lineNum with Some r => r | None =>
    match tryAllowIn st line lineNum with Some r => r | None =>
    match tryAllow st line lineNum with Some r => r | None =>
    match tryInAllow st line lineNum with Some r => r | None =>
    match tryInNaming st line lineNum with Some r => r | None =>
    match tryThoseNaming st line lineNum with Some r => r | None =>
    match tryNames reNo 2 NoFiles st line with Some r => r | None =>
    match tryNames reMustHave 1 HasFile st line with Some r => r | None =>
    match tryNames reHas 1 HasFile st line with Some r => r | None =>
    match tryNames reOptional 1 Optional st line with Some r => r | None =>
    match tryRename st line lineNum with Some r => r | None =>
    match tryUse st (stripClauses line) lineNum with Some r => r | None =>
    throw (cannotParseLine (c_line (stripClauses line)) lineNum)
    end end end end end end end end end end end end end end end end end end.

Fixpoint parseLines (st : PState) (lines : list Line) : Outcome PState :=
  match lines with
  | [] => Ok st
  | pl :: more =>
      match parseStatement st pl with
      | Ok st' => parseLines st' more
      | other => other
      end
  end.

(** The statement shapes of the language, in the order of their priority:
    the directives, [import], [move], [strict ... for], [strict in],
    [strict files|dirs in], [allow ... in], [allow], the legacy [in ... allow],
    [in ... naming] and [those ... naming], [no], [must have], [has],
    [optional] and [rename]; the [use] shape is matched after its trailing
    clauses are taken off. *)
Definition statementShapes : list re :=
  [reWhere; rePath; reImport; reMove; reStrictFor; reStrictInOnly; reStrictIn;
   reAllowIn; reAllow; reInAllow; reInNaming; reThoseNaming; reNo; reMustHave;
   reHas; reOptional; reRename].

Definition matchesKnownShape (line : string) : bool :=
  existsb (fun r => test r line) statementShapes
  || test reUseMain (c_line (stripClauses line)).

(** a line without the array syntax and without a trailing clause of [use] *)
Definition isPlainLine (line : string) : bool :=
  negb (existsb (fun r => test r line)
          [reArray; reIfParent; reIfContains; reExcept; reSuffix; rePrefix]).

(** *** Ordering of the imports *)

Definition Graph : Type := list (string * list string).
Definition Degrees : Type := list (string * Z).

Definition hasKey {V} (k : string) (m : list (string * V)) : bool :=
  match Lint.mapGet String.eqb k m with Some _ => true | None => false end.

Definition successors (graph : Graph) (node : string) : list string :=
  match Lint.mapGet String.eqb node graph with Some l => l | None => [] end.

Definition degreeOf (inDegree : Degrees) (node : string) : Z :=
  match Lint.mapGet String.eqb node inDegree with Some d => d | None => 0%Z end.

Definition initGraph (importPaths : list string) : Graph :=
  fold_left (fun g path => Lint.mapSet String.eqb (Host.resolve h path) [] g)
            importPaths [].

Definition initDegrees (importPaths : list string) : Degrees :=
  fold_left (fun d path => Lint.mapSet String.eqb (Host.resolve h path) 0%Z d)
            importPaths [].

Definition initOriginals (importPaths : list string) : list (string * string) :=
  fold_left (fun m path => Lint.mapSet String.eqb (Host.resolve h path) path m)
            importPaths [].

(** the edge from a dependency to the file that imports it *)
Definition addEdge (resolvedImporting : string) (acc : Graph * Degrees)
    (dep : string) : Graph * Degrees :=
  let '(graph, inDegree) := acc in
  let resolvedDep := Host.resolve h dep in
  if hasKey resolvedDep graph
     && negb (Str.mem resolvedImporting (successors graph resolvedDep))
  then (Lint.mapSet String.eqb resolvedDep
          (successors graph resolvedDep ++ [resolvedImporting]) graph,
        Lint.mapSet String.eqb resolvedImporting
          (degreeOf inDegree resolvedImporting + 1)%Z inDegree)
  else acc.

Definition addEdges (acc : Graph * Degrees) (entry : string * list string)
  : Graph * Degrees :=
  let '(importingPath, deps) := entry in
  let resolvedImporting := Host.resolve h importingPath in
  if hasKey resolvedImporting (fst acc)
  then fold_left (addEdge resolvedImporting) deps acc
  else acc.

Definition relax (acc : Degrees * list string) (neighbor : string)
  : Degrees * list string :=
  let '(inDegree, queue) := acc in
  let newDegree := (degreeOf inDegree neighbor - 1)%Z in
  let inDegree' := Lint.mapSet String.eqb neighbor newDegree inDegree in
  if Z.eqb newDegree 0 then (inDegree', queue ++ [neighbor])
  else (inDegree', queue).

(** The [while] loop of Kahn's algorithm; [None] when [fuel] iterations do not
    empty the queue. *)
Fixpoint kahnLoop (fuel : nat) (graph : Graph) (inDegree : Degrees)
    (queue sorted : list string) : option (list string) :=
  match queue with
  | [] => Some sorted
  | current :: queue' =>
      match fuel with
      | O => None
      | S fuel' =>
          let '(inDegree', queue'') :=
            fold_left relax (successors graph current) (inDegree, queue') in
          kahnLoop fuel' graph inDegree' queue'' (sorted ++ [current])
      end
  end.

Definition toOriginals (originals : list (string * string)) (sorted : list string)
  : list string :=
  fold_left (fun result resolved =>
               match Lint.mapGet String.eqb resolved originals with
               | Some original =>
                   if nonEmpty original && negb (Str.mem original result)
                   then result ++ [original] else result
               | None => result
               end) sorted [].

Definition topologicalSort (importPaths : list string) (dependencies : Deps)
  : option (list string) :=
  let '(graph, inDegree) :=
    fold_left addEdges dependencies
      (initGraph importPaths, initDegrees importPaths) in
  let queue :=
    List.map fst (filter (fun '(_, degree) => Z.eqb degree 0) inDegree) in
  match kahnLoop (S (List.length importPaths)) graph inDegree queue [] with
  | Some sorted =>
      let result := toOriginals (initOriginals importPaths) sorted in
      Some (result
            ++ filter (fun path => negb (Str.mem path result)) importPaths)
  | None => None
  end.

(** [Array.from(new Set(imports))] *)
Definition unique (l : list string) : list string :=
  fold_left (fun acc x => if Str.mem x acc then acc else acc ++ [x]) l [].

End Statements.

(** *** Deferred fill-in of the [strict ... for] rules *)

Definition allAllowedItems (rules : list Rule) : list string :=
  flat_map (fun r => match r with Allow names => names | _ => [] end) rules
  ++ flat_map (fun r =>
                 match r with
                 | InDirOnly d =>
                     if Lint.isPermissive d
                     then List.map (fun pattern =>
                                      if Str.includes pattern "/"
                                         || Str.startsWith pattern "**"
                                      then pattern
                                      else
                                        let dir := if String.eqb (d_dir d) "."
                                                   then EmptyString else d_dir d in
                                        if nonEmpty dir
                                        then (dir ++ "/" ++ pattern)%string
                                        else pattern)
                                   (d_only d)
                     else []
                 | _ => []
                 end) rules.

(** regex "/\.([a-z0-9]+)(\*|$)/i" *)
Definition reExtension : re :=
  seqs [c "."; Grp 1 (plus true (Chr Str.is_alnum)); Grp 2 (Alt (c "*") Eol)].

Definition keepsForExtension (ext item : string) : bool :=
  let itemLower := Str.toLowerCase item in
  if Str.includes itemLower ("." ++ ext) || Str.includes itemLower ("*." ++ ext)
     || Str.includes itemLower ("*" ++ ext)
  then true
  else if Str.includes itemLower ext
          && (Str.includes itemLower "*" || Str.endsWith itemLower ("." ++ ext))
  then true
  else
    let hasExtension := test reExtension itemLower in
    negb hasExtension && Str.includes itemLower "*".

(** the list that fills the empty [only] of a rule of pattern [pattern] *)
Definition filledOnly (items : list string) (pattern : string) : list string :=
  let filteredItems := filter (fun item => negb (String.eqb item "*")) items in
  match exec reExtension pattern with
  | Some patternExtMatch =>
      if nonEmpty (grp patternExtMatch 1)
      then filter (keepsForExtension (Str.toLowerCase (grp patternExtMatch 1)))
             filteredItems
      else filteredItems
  | None => filteredItems
  end.

Definition fillRule (items : list string) (r : Rule) : Rule :=
  match r with
  | ThoseOnly pattern [] => ThoseOnly pattern (filledOnly items pattern)
  | _ => r
  end.

Definition fillThoseOnly (rules : list Rule) : list Rule :=
  List.map (fillRule (allAllowedItems rules)) rules.

(** *** The parser *)

Definition finish (h : Host.t) (st : PState) : Outcome PState :=
  let uniqueImports := unique (p_imports st) in
  match topologicalSort h uniqueImports (p_deps st) with
  | Some sortedImports =>
      let filled := fillThoseOnly (List.map snd (p_rules st)) in
      Ok (mkPState (p_where st) (combine (List.map fst (p_rules st)) filled)
            sortedImports (p_deps st) (p_next st))
  | None => OutOfFuel
  end.

Definition parseBody (h : Host.t)
    (parseImported : string -> option string -> Deps -> nat -> Outcome PState)
    (raw : string) (configPath : option string) (deps : Deps) (next : nat)
  : Outcome PState :=
  match parseLines h parseImported configPath
          (mkPState w_config [] [] deps next) (linesOf raw) with
  | Ok st => finish h st
  | other => other
  end.

(** [parseFsLintConfigInternal]; [fuel] bounds the depth of the imports *)
Fixpoint parseFsLintConfigInternal (h : Host.t) (fuel : nat) (raw : string)
    (configPath : option string) (importDependencies : Deps) (next : nat)
  : Outcome PState :=
  match fuel with
  | O => OutOfFuel
  | S fuel' =>
      parseBody h (parseFsLintConfigInternal h fuel') raw configPath
        importDependencies next
  end.

Definition configOf (st : PState) : FsLintConfig :=
  mkConfig (p_where st) (List.map snd (p_rules st)) (p_imports st).

Definition parseFsLintConfig (h : Host.t) (fuel : nat) (raw : string)
    (configPath : option string) : Outcome FsLintConfig :=
  match parseFsLintConfigInternal h fuel raw configPath [] 0 with
  | Ok st => Ok (configOf st)
  | Throw e p => Throw e p
  | HostFailure => HostFailure
  | OutOfFuel => OutOfFuel
  end.

End Parser.

(** * Vocabulary of the statements *)

Module Props.
Import Types Lint Parser.

(** the keys of a [Map], in insertion order *)
Definition keys {V : Type} (m : list (string * V)) : list string :=
  List.map fst m.

(** [d] comes before [a] in [l] *)
Definition before (d a : string) (l : list string) : Prop :=
  exists l1 l2 l3, l = l1 ++ d :: l2 ++ a :: l3.

(** the initial queue of the sort: the paths of in-degree zero, in the order
    of the map *)
Definition zeroDegree (D : Degrees) : list string :=
  List.map fst (filter (fun '(_, degree) => Z.eqb degree 0) D).

Section Order.
Variable h : Host.t.
Variable N : list string.
Variable R : string -> string -> Prop.

(** the number of predecessors of [v] that are not in [done] *)
Definition cnt (G : Graph) (done : list string) (v : string) : nat :=
  List.length
    (filter (fun u => Str.mem v (successors G u) && negb (Str.mem u done)) N).

(** The graph and the in-degrees built from the dependencies: the nodes are
    the import paths, every edge is in the relation [R], the in-degree of a
    node counts its predecessors. *)
Record wfGraph (G : Graph) (D : Degrees) : Prop := mkWf {
  wf_keysG : keys G = N;
  wf_keysD : keys D = N;
  wf_nodup : forall u, NoDup (successors G u);
  wf_closed : forall u v, In v (successors G u) -> In u N /\ In v N;
  wf_edges : forall u v, In v (successors G u) -> R u v;
  wf_deg : forall v, In v N -> degreeOf D v = Z.of_nat (cnt G [] v)
}.

(** every dependency between two listed files is in the relation [R] *)
Definition related (es : Deps) : Prop :=
  forall a ds d, In (a, ds) es -> In d ds ->
    In (Host.resolve h a) N -> In (Host.resolve h d) N ->
    R (Host.resolve h d) (Host.resolve h a).

(** The invariant of the loop of Kahn's algorithm *)
Record loopInv (G : Graph) (D : Degrees) (queue sorted : list string) : Prop :=
  mkLoopInv {
  li_keysD : keys D = N;
  li_nodup : NoDup (sorted ++ queue);
  li_nodes : forall v, In v (sorted ++ queue) -> In v N;
  li_deg : forall v, In v N -> degreeOf D v = Z.of_nat (cnt G sorted v);
  li_zero : forall v, In v N -> (In v (sorted ++ queue) <-> degreeOf D v = 0%Z);
  li_order : forall l1 v l2, sorted = l1 ++ v :: l2 ->
             forall u, In v (successors G u) -> In u l1
}.

End Order.

(** The dependencies between the listed files are acyclic: a file has a
    greater [rank] than each file it imports. *)
Definition ranked (h : Host.t) (N : list string) (rank : string -> nat)
    (es : Deps) : Prop :=
  related h N (fun d a => rank d < rank a) es.

(** The items of the deferred fill-in in the specification's words: the names
    of the [allow] rules and the patterns of the permissive [inDirOnly] rules,
    each prefixed with its directory unless it has a path separator or starts
    with two stars. *)
Definition claimedItems (rules : list Rule) : list string :=
  flat_map (fun r => match r with Allow names => names | _ => [] end) rules
  ++ flat_map (fun r =>
                 match r with
                 | InDirOnly d =>
                     if isPermissive d
                     then List.map (fun pattern =>
                                      if Str.includes pattern "/"
                                         || Str.startsWith pattern "**"
                                      then pattern
                                      else (d_dir d ++ "/" ++ pattern)%string)
                                   (d_only d)
                     else []
                 | _ => []
                 end) rules.

(** the pattern of a permissive rule of the directory [dir], as the fill-in
    scopes it: the patterns of the root directory stay as they are *)
Definition scopedPattern (dir pattern : string) : string :=
  if Str.includes pattern "/" || Str.startsWith pattern "**"
     || String.eqb dir "." || Str.isEmpty dir
  then pattern
  else (dir ++ "/" ++ pattern)%string.

(** the candidates of the fill-in *)
Definition candidateItem (rules : list Rule) (item : string) : Prop :=
  (exists names, In (Allow names) rules /\ In item names)
  \/ (exists d pattern,
        In (InDirOnly d) rules /\ d_mode d = Some permissive
        /\ In pattern (d_only d) /\ item = scopedPattern (d_dir d) pattern).

Section Provenance.
Variable h : Host.t.
Variable root : string.

(** the issues the handler of a [no] or of a [thoseOnly] rule adds *)
Definition producedBy (r : Rule) (i : Issue) : Prop :=
  match r with
  | NoFiles names => In i (noIssuesOf h root names)
  | ThoseOnly pattern only => In i (thoseOnlyIssuesOf h root pattern only)
  | _ => True
  end.

End Provenance.

End Props.

(** * A small workspace for the worked cases

    The directory [/repo] with two log files, a note and five configuration
    files; the paths are normalised already, so [path.resolve] leaves them as
    they are, and the glob scanner answers from a table. *)

Module Example.
Import Types.

Definition nl : string := String "010" EmptyString.

Definition root : string := "/repo".

Definition resolve2 (r p : string) : string :=
  if Str.startsWith p "/" then p
  else if String.eqb p "." then (if Str.isEmpty r then "/" else r)
  else (r ++ "/" ++ p)%string.

Definition relative (r p : string) : string :=
  if Str.startsWith p (r ++ "/") then Str.drop (String.length r + 1) p else p.

Definition basename (p : string) : string :=
  List.last (Str.split "/" p) EmptyString.

Definition dirname (p : string) : string :=
  Str.join "/" (List.removelast (Str.split "/" p)).

(** the files of the workspace and their sizes *)
Definition files : list (string * Z) :=
  [("/repo/a.log", 10%Z); ("/repo/b.log", 2048%Z); ("/repo/notes.md", 5%Z)].

Definition directories : list string := ["/repo"].

(** the configuration files and their texts *)
Definition configs : list (string * string) :=
  [("/repo/.chous", ("import base" ++ nl ++ "import common")%string);
   ("/repo/base.chous", ("import common" ++ nl ++ "no *.log")%string);
   ("/repo/common.chous", "allow *.md");
   ("/repo/a.chous", "import main");
   ("/repo/main.chous", "allow *.md")].

Definition globTable : list (string * list string) :=
  [("*.log", ["/repo/a.log"; "/repo/b.log"]);
   ("a.log", ["/repo/a.log"]);
   ("*.md", ["/repo/notes.md"])].

Definition glob (patterns : list string) (cwd : string) (onlyFiles : bool)
  : list string :=
  if String.eqb cwd root
  then flat_map (fun p => match Lint.mapGet String.eqb p globTable with
                          | Some l => l
                          | None => []
                          end) patterns
  else [].

Definition existsSync (p : string) : bool :=
  Parser.hasKey p files || Parser.hasKey p configs || Str.mem p directories.

Definition listTopLevel (d : string) : list Host.Entry :=
  if String.eqb d root
  then List.map (fun '(p, _) => Host.mkEntry (basename p) p false) files
  else [].

(** the paths the ignore matcher does not take: the empty path, a path that
    starts at the root of the file system or with a dot segment *)
Definition notRelative (p : string) : bool :=
  Str.isEmpty p || Str.startsWith p "/" || Str.startsWith p "./"
  || Str.startsWith p "../" || String.eqb p "." || String.eqb p "..".

Definition host : Host.t :=
  Host.mk (fun p => p) resolve2 relative basename dirname
    existsSync (fun p => Str.mem p directories) listTopLevel
    (fun _ => []) (fun d => negb (String.eqb d root))
    (fun p => Lint.mapGet String.eqb p files)
    (fun p => Lint.mapGet String.eqb p configs)
    (fun n => ("/presets/" ++ n)%string)
    glob (fun _ => false) notRelative
    unit (fun _ _ => None) (fun _ _ => false) (fun _ s => s).

Definition configOfRules (rules : list Rule) : FsLintConfig :=
  mkConfig w_config rules [].

End Example.

(** * The rest of the result of a run and the vocabulary of its properties *)

From Stdlib Require Import Sorted.

(** ** The required names of the result (src/rules/lint.ts) *)

Module Required.
Import Types.

(** [Set.prototype.add] and [Set.prototype.delete] on a [Set] in insertion
    order *)
Definition setAdd (x : string) (s : list string) : list string :=
  if Str.mem x s then s else s ++ [x].

Definition setDelete (x : string) (s : list string) : list string :=
  filter (fun y => negb (String.eqb y x)) s.

(** the two sets the loop over the rules collects *)
Definition collectNames (rules : list Rule) : list string * list string :=
  fold_left (fun '(required, optional) r =>
               match r with
               | HasFile names =>
                   (fold_left (fun required name =>
                                 if negb (Lint.isGlobPattern name)
                                 then setAdd (Lint.pickTopLevelName name) required
                                 else required) names required,
                    optional)
               | Optional names =>
                   (required,
                    fold_left (fun optional name =>
                                 setAdd (Lint.pickTopLevelName name) optional)
                              names optional)
               | _ => (required, optional)
               end) rules ([], []).

Definition computeRequiredTopLevelNames (config : FsLintConfig) : list string :=
  let '(required, optional) := collectNames (cfg_rules config) in
  let required1 := fold_left (fun required opt => setDelete opt required)
                             optional required in
  Lint.sortStrings (setDelete "." required1).

(** [finalRequiredTopLevelNames]: the required names and the top-level names
    of the files the glob patterns of the [has] rules matched *)
Definition finalRequiredTopLevelNames (h : Host.t) (root : string)
    (config : FsLintConfig) (forceStrict : bool) : list string :=
  let final := Lint.runRules h root config (cfg_rules config)
                 (Lint.stateAfterGroups h root config forceStrict) in
  Lint.sortStrings
    (Parser.unique (computeRequiredTopLevelNames config
                    ++ Lint.matchedGlobFiles final)).

End Required.

(** ** What is said of issues and of errors *)

Module Shapes.
Import Types Lint.

(** the rule kind whose handler writes a message *)
Definition messageKind (m : IssueMessage) : RuleKind :=
  match m with
  | move_shouldMoveToDir _ | move_destMustBeDir _ _ | move_unsafeManual _ => k_move
  | thoseOnly_forbiddenOnlyAllowed _ _ => k_thoseOnly
  | renameDir_shouldRenameTo _ | renameDir_shouldMigrateTo _
  | renameDir_removeEmptyDir _ _ => k_renameDir
  | renameGlob_shouldRenameTo _ | renameGlob_targetExistsManual _
  | renameGlob_cannotInferTarget => k_renameGlob
  | inDirOnly_dirMustExist _ | inDirOnly_forbiddenOnlyAllowed _ _ => k_inDirOnly
  | no_forbidden _ => k_no
  | has_mustExist _ => k_has
  | naming_invalid _ | naming_invalidPrefix _ | naming_invalidSuffix _ => k_naming
  end.

(** the category that goes with a message: [missing] for the two messages
    that ask for something to exist *)
Definition messageCategory (m : IssueMessage) : Category :=
  match m with
  | inDirOnly_dirMustExist _ | has_mustExist _ => missing
  | _ => forbidden
  end.

(** the kinds whose issues can be warnings: the ones with a fix to apply *)
Definition mayWarn (k : RuleKind) : bool :=
  match k with
  | k_move | k_renameDir | k_renameGlob => true
  | _ => false
  end.

Section WithHost.
Variable h : Host.t.
Variable root : string.

Definition wellFormed (i : Issue) : Prop :=
  displayPath i = toDisplayPath h (path i) root
  /\ messageKind (message i) = ruleKind i
  /\ category i = messageCategory (message i)
  /\ (severity i = warn -> mayWarn (ruleKind i) = true).

(** a name of a [has] rule that nothing satisfies *)
Definition missingName (name : string) : bool :=
  if isGlobPattern name
  then match scanOne h name root true with [] => true | _ :: _ => false end
  else negb (Host.existsSync h (Host.resolve2 h root name)).

(** the paths an [optional] rule covers *)
Definition optionalPaths (names : list string) : list string :=
  flat_map (fun name =>
              Host.resolve2 h root name
              :: List.map (Host.resolve2 h root) (scanOne h name root true))
           names.

(** the issues the handler of [r] takes out of the record: the ones of a
    kind the rule overrides, for a path the rule matches; the names of an
    [allow] rule count with [extra], the names its array may have got from
    the grouping *)
Definition removes (extra : list string) (r : Rule) (i : Issue) : Prop :=
  path i <> EmptyString
  /\ match r with
     | ThoseOnly pattern _ =>
         ruleKind i = k_thoseOnly
         /\ In (Host.resolve h (path i)) (matchedFiles h root [pattern])
     | NoFiles names =>
         ruleKind i = k_no
         /\ In (Host.resolve h (path i)) (matchedFiles h root names)
     | Allow names =>
         ruleKind i = k_no
         /\ In (Host.resolve h (path i)) (matchedFiles h root (names ++ extra))
     | Optional names =>
         ruleKind i = k_has
         /\ In (Host.resolve h (path i)) (optionalPaths names)
     | _ => False
     end.

(** the issues the handler of a rule raises: the ones it adds to an empty
    record *)
Definition raised (rules : list Rule) (groups : Groups) (r : Rule) : list Issue :=
  rawIssues (handleRule h root rules groups (mkState [] [] None []) r).

End WithHost.

(** an issue of another kind than [inDirOnly] *)
Definition notOfGroups (i : Issue) : bool :=
  negb (kind_eqb (ruleKind i) k_inDirOnly).

(** the states of two runs that differ in issues of kind [inDirOnly] only,
    the second having all issues of the first *)
Definition upTo (st st' : LintState) : Prop :=
  (forall i, In i (rawIssues st) -> In i (rawIssues st'))
  /\ filter notOfGroups (rawIssues st) = filter notOfGroups (rawIssues st')
  /\ processedThoseOnlyPatterns st = processedThoseOnlyPatterns st'
  /\ rootAllowedSet st = rootAllowedSet st'
  /\ matchedGlobFiles st = matchedGlobFiles st'.

(** the line number an error carries *)
Definition errorLine (e : Parser.FsLintErrorKey) : nat :=
  match e with
  | Parser.invalidWhereDirective n | Parser.invalidPathDirective n
  | Parser.ruleFormatError _ _ n | Parser.renameMissingSources _ n
  | Parser.unknownPreset _ n | Parser.cannotParseLine _ n => n
  end.

End Shapes.

(** * Theorems *)

Import Types.

(** ** Shared facts *)

Lemma mem_In (x : string) (l : list string) : Str.mem x l = true <-> In x l.
Proof.
  unfold Str.mem. rewrite existsb_exists. split.
  - intros (y & Hy & E). apply String.eqb_eq in E. subst. exact Hy.
  - intros H. exists x. split; [exact H|apply String.eqb_refl].
Qed.

Lemma mem_false (x : string) (l : list string) : Str.mem x l = false <-> ~ In x l.
Proof.
  rewrite <- mem_In. destruct (Str.mem x l); split; intros; congruence.
Qed.

Section FinalFilterFacts.
Import Types Lint.
Variable h : Host.t.
Variable root : string.

Lemma finalFilter_incl raw : forall seen i,
  In i (finalFilter h root raw seen) -> In i raw.
Proof.
  induction raw as [|a raw IH]; intros seen i Hi; [destruct Hi|].
  cbn [finalFilter] in Hi.
  destruct (Host.ignores h (Host.relative h root (path a))); [right; eauto|].
  destruct (Str.mem (issueKey a) seen); [right; eauto|].
  destruct Hi as [<-|Hi]; [left; reflexivity|right; eauto].
Qed.

Lemma finalFilter_not_ignored raw : forall seen i,
  In i (finalFilter h root raw seen) ->
  Host.ignores h (Host.relative h root (path i)) = false.
Proof.
  induction raw as [|a raw IH]; intros seen i Hi; [destruct Hi|].
  cbn [finalFilter] in Hi.
  destruct (Host.ignores h (Host.relative h root (path a))) eqn:Eig; [eauto|].
  destruct (Str.mem (issueKey a) seen); [eauto|].
  destruct Hi as [<-|Hi]; [exact Eig|eauto].
Qed.

Lemma finalFilter_fresh raw : forall seen i,
  In i (finalFilter h root raw seen) -> ~ In (issueKey i) seen.
Proof.
  induction raw as [|a raw IH]; intros seen i Hi; [destruct Hi|].
  cbn [finalFilter] in Hi.
  destruct (Host.ignores h (Host.relative h root (path a))); [eauto|].
  destruct (Str.mem (issueKey a) seen) eqn:Em; [eauto|].
  destruct Hi as [<-|Hi]; [apply mem_false; exact Em|].
  intros Hin. apply (IH _ _ Hi). right. exact Hin.
Qed.

Lemma finalFilter_NoDup raw : forall seen,
  NoDup (List.map issueKey (finalFilter h root raw seen)).
Proof.
  induction raw as [|a raw IH]; intros seen; [constructor|].
  cbn [finalFilter].
  destruct (Host.ignores h (Host.relative h root (path a))); [apply IH|].
  destruct (Str.mem (issueKey a) seen); [apply IH|].
  cbn [List.map]. constructor; [|apply IH].
  intros Hin. apply in_map_iff in Hin as (j & Ej & Hj).
  apply finalFilter_fresh in Hj. apply Hj. left. symmetry. exact Ej.
Qed.

Lemma NoDup_map_weaken {A B C} (f : A -> B) (g : A -> C) (l : list A) :
  (forall x y, g x = g y -> f x = f y) -> NoDup (List.map f l) -> NoDup (List.map g l).
Proof.
  intros Hfg. induction l as [|a l IH]; intros Hnd; [constructor|].
  cbn [List.map] in *. inversion Hnd as [|? ? Hnotin Hnd']; subst.
  constructor; [|apply IH; exact Hnd'].
  intros Hin. apply Hnotin. apply in_map_iff in Hin as (y & Ey & Hy).
  apply in_map_iff. exists y. split; [apply Hfg; exact Ey|exact Hy].
Qed.

End FinalFilterFacts.

(** ** The names of the first [allow] rule *)

Section SharedNamesFacts.
Import Types Lint.

Lemma extendFirstAllow_other (e : list string) (r : Rule) (rs : list Rule) :
  (forall ns, r <> Allow ns) ->
  extendFirstAllow e (r :: rs) = r :: extendFirstAllow e rs.
Proof.
  intros Hr. destruct r; try reflexivity. exfalso. eapply Hr. reflexivity.
Qed.

(** the rules after the first [allow] rule are left as they are *)
Lemma extendFirstAllow_app (e : list string) (l1 l2 : list Rule) :
  exists l2',
    extendFirstAllow e (l1 ++ l2) = extendFirstAllow e l1 ++ l2'
    /\ (l2' = l2
        \/ ((forall ns, ~ In (Allow ns) l1) /\ l2' = extendFirstAllow e l2)).
Proof.
  induction l1 as [|r l1 IH]; cbn [app].
  - exists (extendFirstAllow e l2). split; [reflexivity|]. right.
    split; [intros ns []|reflexivity].
  - destruct IH as (l2' & E & Hl2).
    destruct r;
      try (exists l2'; cbn [extendFirstAllow]; rewrite E; split; [reflexivity|];
           destruct Hl2 as [->|[Hno ->]]; [left; reflexivity|right];
           split; [intros ns [Hx|Hx]; [discriminate Hx|eapply Hno, Hx]|reflexivity]).
    exists l2. cbn [extendFirstAllow]. split; [reflexivity|left; reflexivity].
Qed.

Lemma extendFirstAllow_In (e : list string) (rs : list Rule) (r : Rule) :
  In r (extendFirstAllow e rs) ->
  In r rs \/ exists names, r = Allow (names ++ e) /\ In (Allow names) rs.
Proof.
  induction rs as [|a rs IH]; [intros []|].
  destruct a; cbn [extendFirstAllow];
    try (intros [<-|H]; [left; left; reflexivity|];
         destruct (IH H) as [H'|(ns & -> & H')];
         [left; right; exact H'|right; exists ns; split; [reflexivity|right; exact H']]).
  intros [<-|H].
  - right. exists names. split; [reflexivity|left; reflexivity].
  - left. right. exact H.
Qed.

Lemma extendFirstAllow_keeps (e : list string) (rs : list Rule) (r : Rule) :
  In r rs -> (forall ns, r <> Allow ns) -> In r (extendFirstAllow e rs).
Proof.
  intros Hin Hr. induction rs as [|a rs IH]; [destruct Hin|].
  destruct Hin as [->|Hin].
  - rewrite extendFirstAllow_other by exact Hr. left. reflexivity.
  - destruct a; cbn [extendFirstAllow]; try (right; apply IH; exact Hin).
    right. exact Hin.
Qed.

(** a rule that is not an [allow] rule is found as the configuration has it *)
Lemma extendFirstAllow_In_other (e : list string) (rs : list Rule) (r : Rule) :
  In r (extendFirstAllow e rs) -> (forall ns, r <> Allow ns) -> In r rs.
Proof.
  intros Hin Hr. apply extendFirstAllow_In in Hin as [Hin|(ns & -> & _)];
    [exact Hin|]. exfalso. eapply Hr. reflexivity.
Qed.

End SharedNamesFacts.

(** ** The naming style checker *)

Section RegexFacts.
Import Regex.

(** A greedy star over a character class runs to the end of a string made of
    characters of the class. *)
Lemma run_Chr_cons (p : ascii -> bool) k i x s cs :
  run (Chr p) k (MState i (String x s) cs)
  = if p x then k (MState (S i) s cs) else None.
Proof. reflexivity. Qed.

Lemma starLoop_class_to_end (p : ascii -> bool) (s : string) :
  Str.all p s = true ->
  forall n i cs, String.length s < n ->
  starLoop (run (Chr p)) true (run Eol (fun st => Some st)) n (MState i s cs)
  = Some (MState (i + String.length s) EmptyString cs).
Proof.
  induction s as [|x s IH]; intros Hall n i cs Hn.
  - destruct n as [|n]; [simpl in Hn; lia|].
    simpl. rewrite Nat.add_0_r. reflexivity.
  - destruct n as [|n]; [simpl in Hn; lia|].
    simpl in Hall. apply andb_true_iff in Hall as [Hx Hs].
    cbn [starLoop]. rewrite run_Chr_cons, Hx. cbn [pos].
    assert (Hlt : Nat.ltb i (S i) = true) by (apply Nat.ltb_lt; lia).
    rewrite Hlt.
    rewrite (IH Hs n (S i) cs) by (simpl in Hn; lia).
    simpl. f_equal. f_equal. lia.
Qed.

Lemma run_Seq a b k st : run (Seq a b) k st = run a (fun st' => run b k st') st.
Proof. reflexivity. Qed.

Lemma run_Star g a k st :
  run (Star g a) k st = starLoop (run a) g k (S (String.length (rest st))) st.
Proof. reflexivity. Qed.

Lemma run_Bol_start k s cs : run Bol k (MState 0 s cs) = k (MState 0 s cs).
Proof. reflexivity. Qed.

Lemma test_reNumeric_digits (s : string) :
  s <> EmptyString -> Str.all Str.is_digit s = true ->
  test Naming.reNumeric s = true.
Proof.
  intros Hne Hall. destruct s as [|x s]; [congruence|].
  simpl in Hall. apply andb_true_iff in Hall as [Hx Hs].
  unfold test, exec, Naming.reNumeric, plus, digit.
  cbn [seqs search].
  rewrite run_Seq, run_Bol_start, !run_Seq, run_Chr_cons, Hx, run_Star.
  cbn [rest].
  rewrite (starLoop_class_to_end Str.is_digit s Hs) by lia.
  reflexivity.
Qed.

End RegexFacts.

Section NamingFacts.
Import Naming.
Variable HostRe : Type.
Variable hostRegExp : string -> string -> option HostRe.
Variable hostTest : HostRe -> string -> bool.
Variable hostStrip : HostRe -> string -> string.

(** C7: a name whose stem, after the extension, the suffix and the prefix are
    taken off, is made of one or more digits is valid for each of the six
    naming styles. *)
Theorem numeric_stem_is_valid_in_every_style
    (name : string) (prefix suffix : option string) (stem : string) :
  remainingStem HostRe hostRegExp hostTest hostStrip name prefix suffix = Some stem ->
  stem <> EmptyString ->
  Str.all Str.is_digit stem = true ->
  forall style : NamingStyle,
    checkNamingStyle HostRe hostRegExp hostTest hostStrip name style prefix suffix
    = Valid.
Proof.
  intros Hstem Hne Hdigits style.
  unfold checkNamingStyle. unfold remainingStem in Hstem.
  destruct (negb (Regex.test rePlainName (getNameWithoutExtension name)));
    [reflexivity|].
  destruct (stripAffix HostRe hostRegExp hostTest hostStrip InvalidSuffix suffix
              (getNameWithoutExtension name)) as [f|afterSuffix]; [discriminate|].
  destruct (stripAffix HostRe hostRegExp hostTest hostStrip InvalidPrefix prefix
              afterSuffix) as [f|stem']; [discriminate|].
  injection Hstem as ->.
  rewrite (test_reNumeric_digits stem Hne Hdigits). reflexivity.
Qed.

End NamingFacts.

(** The page [404.vue]: its stem is [404], and it is valid PascalCase and valid
    kebab-case alike. *)
Lemma numeric_stem_witness :
  let check := Naming.checkNamingStyle unit (fun _ _ => None) (fun _ _ => false)
                 (fun _ s => s) "404.vue" in
  Naming.remainingStem unit (fun _ _ => None) (fun _ _ => false) (fun _ s => s)
    "404.vue" None None = Some "404"
  /\ check Naming.PascalCase None None = Naming.Valid
  /\ check Naming.kebab_case None None = Naming.Valid.
Proof.
  pose proof (numeric_stem_is_valid_in_every_style unit (fun _ _ => None)
                (fun _ _ => false) (fun _ s => s) "404.vue" None None "404"
                eq_refl ltac:(discriminate) eq_refl) as Hvalid.
  split; [reflexivity|]. split; apply Hvalid.
Defined.

(** ** The condition evaluator *)

Section ConditionFacts.
Import Conditions.
Variable h : Host.t.
Variable root : string.

Lemma allConditions_forallb (when : list Condition) (targetPath : string) :
  allConditions h root when targetPath
  = forallb (fun condition => evaluateCondition h root condition targetPath) when.
Proof.
  induction when as [|condition when IH]; [reflexivity|].
  cbn [allConditions forallb].
  destruct (evaluateCondition h root condition targetPath); [exact IH|reflexivity].
Qed.

(** C8: [evaluateWhenConditions] is the conjunction of the conditions of the
    list: it answers [true] exactly when every condition of the list
    evaluates to [true] for the path, and so it answers [true] for the empty
    list and for an absent list. *)
Theorem evaluateWhenConditions_is_conjunction
    (when : option (list Condition)) (targetPath : string) :
  let conditions := match when with Some l => l | None => [] end in
  evaluateWhenConditions h root when targetPath
  = forallb (fun condition => evaluateCondition h root condition targetPath)
      conditions
  /\ (evaluateWhenConditions h root when targetPath = true
      <-> forall condition, In condition conditions ->
            evaluateCondition h root condition targetPath = true)
  /\ evaluateWhenConditions h root None targetPath = true
  /\ evaluateWhenConditions h root (Some []) targetPath = true.
Proof.
  intros conditions.
  assert (E : evaluateWhenConditions h root when targetPath
              = forallb (fun condition =>
                           evaluateCondition h root condition targetPath)
                  conditions).
  { subst conditions. destruct when as [[|condition l]|]; try reflexivity.
    unfold evaluateWhenConditions. cbn [List.length Nat.eqb].
    apply allConditions_forallb. }
  split; [exact E|]. split; [|split; reflexivity].
  rewrite E. apply forallb_forall.
Qed.

(** C10: a condition evaluated against a path of the wrong type answers
    [false]: [isEmpty] and [contains] against a path that is not a directory,
    [fileSize] against a directory, [fileSize] against a file whose size
    cannot be read, and [fileSize] with a size literal that is not a number
    followed by one of the units B, KB, MB, GB, TB. *)
Theorem mismatched_condition_is_false (targetPath : string) :
  (Host.isDirectory h targetPath = false ->
     evaluateCondition h root isEmpty targetPath = false
     /\ forall pattern,
          evaluateCondition h root (contains pattern) targetPath = false)
  /\ (Host.isDirectory h targetPath = true ->
        forall op value,
          evaluateCondition h root (fileSize op value) targetPath = false)
  /\ (Host.statSize h targetPath = None ->
        forall op value,
          evaluateCondition h root (fileSize op value) targetPath = false)
  /\ (forall op value,
        Regex.test reSize (Str.toUpperCase value) = false ->
        evaluateCondition h root (fileSize op value) targetPath = false).
Proof.
  repeat split.
  - cbn [evaluateCondition]. rewrite H. reflexivity.
  - intros pattern. cbn [evaluateCondition]. rewrite H. reflexivity.
  - intros Hdir op value. cbn [evaluateCondition]. rewrite Hdir. reflexivity.
  - intros Hstat op value. cbn [evaluateCondition]. rewrite Hstat.
    destruct (Host.isDirectory h targetPath); reflexivity.
  - intros op value Hlit. cbn [evaluateCondition].
    destruct (Host.isDirectory h targetPath); [reflexivity|].
    destruct (Host.statSize h targetPath); [|reflexivity].
    unfold parseSizeLiteral. unfold Regex.test in Hlit.
    destruct (Regex.exec reSize (Str.toUpperCase value)); [discriminate|].
    reflexivity.
Qed.

End ConditionFacts.

(** The four cases in the example workspace: a file is neither empty nor a
    container, the root directory has no size, a missing file has no size,
    and [12 bytes] is not a size. *)
Lemma mismatched_condition_witness :
  Conditions.evaluateCondition Example.host Example.root Conditions.isEmpty
    "/repo/a.log" = false
  /\ Conditions.evaluateCondition Example.host Example.root
       (Conditions.contains "*.ts") "/repo/a.log" = false
  /\ Conditions.evaluateCondition Example.host Example.root
       (Conditions.fileSize ">" "1KB") "/repo" = false
  /\ Conditions.evaluateCondition Example.host Example.root
       (Conditions.fileSize ">" "1KB") "/repo/missing.bin" = false
  /\ Conditions.evaluateCondition Example.host Example.root
       (Conditions.fileSize ">" "12 bytes") "/repo/b.log" = false.
Proof.
  destruct (mismatched_condition_is_false Example.host Example.root "/repo/a.log")
    as (Hfile & _).
  destruct (mismatched_condition_is_false Example.host Example.root "/repo")
    as (_ & Hdir & _).
  destruct (mismatched_condition_is_false Example.host Example.root
              "/repo/missing.bin") as (_ & _ & Hstat & _).
  destruct (mismatched_condition_is_false Example.host Example.root "/repo/b.log")
    as (_ & _ & _ & Hliteral).
  split; [|split; [|split; [|split]]].
  - apply Hfile. reflexivity.
  - apply Hfile. reflexivity.
  - apply Hdir. reflexivity.
  - apply Hstat. reflexivity.
  - apply Hliteral. reflexivity.
Defined.

(** The size comparison itself does answer [true] where it applies: the file
    [b.log] of 2048 bytes is larger than one kilobyte. *)
Example fileSize_applies :
  Conditions.evaluateCondition Example.host Example.root
    (Conditions.fileSize ">" "1kb") "/repo/b.log" = true
  /\ Conditions.evaluateCondition Example.host Example.root
       (Conditions.fileSize "<" "1.5 KB") "/repo/a.log" = true.
Proof. split; vm_compute; reflexivity. Qed.

(** ** The final list of issues *)

Section FinalFilter.
Import Types Lint.
Variable h : Host.t.
Variable root : string.

(** C9: the final list of issues has at most one issue for each pair of a
    rule kind and an absolute path, and no issue whose path relative to the
    root is matched by the ignore rules. *)
Theorem final_issues_deduplicated_and_not_ignored
    (config : FsLintConfig) (forceStrict : bool) :
  NoDup (List.map (fun i => (ruleKind i, path i))
           (lintWorkspace h root config forceStrict))
  /\ (forall i, In i (lintWorkspace h root config forceStrict) ->
        Host.ignores h (Host.relative h root (path i)) = false).
Proof.
  unfold lintWorkspace. split.
  - apply (NoDup_map_weaken issueKey).
    + intros x y E. injection E as E1 E2. unfold issueKey. rewrite E1, E2.
      reflexivity.
    + apply finalFilter_NoDup.
  - intros i Hi. eapply finalFilter_not_ignored. exact Hi.
Qed.

End FinalFilter.

(** The two [no] rules of the example workspace leave one issue for each of
    the two log files. *)
Lemma final_issues_witness :
  NoDup (List.map (fun i => (ruleKind i, path i))
           (Lint.lintWorkspace Example.host Example.root
              (Example.configOfRules [NoFiles ["*.log"]; NoFiles ["a.log"]])
              false)).
Proof.
  apply (final_issues_deduplicated_and_not_ignored Example.host Example.root
           (Example.configOfRules [NoFiles ["*.log"]; NoFiles ["a.log"]]) false).
Defined.

(** ** The override laws *)

Section Overrides.
Import Types Lint Props.
Variable h : Host.t.
Variable root : string.
Local Abbreviation producedBy := (Props.producedBy h root).
Local Abbreviation loop config :=
  (fold_left (handleRule h root (cfg_rules config)
                (buildGroups h root (cfg_rules config)))).
Local Abbreviation shared config := (sharedNames h root (cfg_rules config)).

Ltac in_new H :=
  repeat (cbv zeta in H;
          match type of H with
          | In _ (_ ++ _) => apply in_app_or in H as [H|H]
          | In _ (flat_map _ _) => apply in_flat_map in H as (? & ? & H)
          | In _ (List.map _ _) => apply in_map_iff in H as (? & H & ?)
          | In _ (if ?c then _ else _) => destruct c
          | In _ (match ?c with _ => _ end) => destruct c
          | In _ (let '(_, _) := ?c in _) => destruct c
          | In _ [] => destruct H
          | In _ (_ :: _) => destruct H as [H|H]
          end).

Lemma noIssuesOf_kind names i :
  In i (noIssuesOf h root names) -> ruleKind i = k_no.
Proof. unfold noIssuesOf. intros H. in_new H. subst. reflexivity. Qed.

Lemma noIssuesOf_path names i :
  In i (noIssuesOf h root names) -> In (path i) (matchedFiles h root names).
Proof.
  unfold noIssuesOf, matchedFiles. intros H.
  apply in_flat_map in H as (name & Hname & H).
  apply in_flat_map in H as (m & Hm & H).
  destruct (negb (Host.existsSync h (Host.resolve2 h root m))); [destruct H|].
  destruct H as [<-|[]]. cbn [path noIssue].
  apply in_flat_map. exists name. split; [exact Hname|].
  apply in_map. exact Hm.
Qed.

Lemma thoseOnlyIssuesOf_kind pattern only i :
  In i (thoseOnlyIssuesOf h root pattern only) -> ruleKind i = k_thoseOnly.
Proof. unfold thoseOnlyIssuesOf. intros H. in_new H. subst. reflexivity. Qed.

Lemma handleHas_issues names : forall st i,
  In i (rawIssues (handleHas h root names st)) ->
  In i (rawIssues st) \/ ruleKind i = k_has.
Proof.
  unfold handleHas. induction names as [|n names IH]; intros st i Hi.
  - left. exact Hi.
  - cbn [fold_left] in Hi. apply IH in Hi as [Hi|Hi]; [|right; exact Hi].
    unfold handleHasName in Hi.
    destruct (isGlobPattern n).
    + destruct (scanOne _ _ _ _).
      * cbn in Hi. apply in_app_or in Hi as [Hi|[<-|[]]]; [left; exact Hi|right; reflexivity].
      * left. exact Hi.
    + destruct (Host.existsSync h (Host.resolve2 h root n)).
      * left. exact Hi.
      * cbn in Hi. apply in_app_or in Hi as [Hi|[<-|[]]]; [left; exact Hi|right; reflexivity].
Qed.

Lemma removeIssues_In k paths st i :
  In i (rawIssues (removeIssues h k paths st)) ->
  In i (rawIssues st)
  /\ ~ (ruleKind i = k /\ path i <> EmptyString
        /\ In (Host.resolve h (path i)) paths).
Proof.
  unfold removeIssues. cbn [rawIssues]. intros Hi.
  apply filter_In in Hi as [Hi Hkeep]. split; [exact Hi|].
  intros (Hk & Hne & Hin).
  apply negb_true_iff in Hkeep.
  assert (E1 : kind_eqb (ruleKind i) k = true)
    by (unfold kind_eqb; rewrite Hk; apply String.eqb_refl).
  assert (E2 : negb (Str.isEmpty (path i)) = true)
    by (destruct (path i); [congruence|reflexivity]).
  assert (E3 : Str.mem (Host.resolve h (path i)) paths = true)
    by (apply mem_In; exact Hin).
  rewrite E1, E2, E3 in Hkeep. discriminate.
Qed.

Lemma namingIssue_kind rule applies candidates name abs isDir i :
  In i (namingIssue h root rule applies candidates name abs isDir) ->
  ruleKind i = k_naming.
Proof.
  unfold namingIssue. intros H.
  destruct (tryRules _ _ _ _ _ _) as [p1 f1].
  destruct p1.
  - destruct H.
  - destruct (tryRules _ _ _ _ _ _) as [p2 f2]. destruct p2; [destruct H|].
    destruct H as [<-|[]]. reflexivity.
Qed.

(** Every issue a handler leaves is an old one or a new one of the kind of
    its rule, produced by the rule. *)
Lemma handleRule_issues rules groups st r i :
  In i (rawIssues (handleRule h root rules groups st r)) ->
  In i (rawIssues st) \/ (ruleKind i = kindOf r /\ producedBy r i).
Proof.
  destruct r as [from toDir|pattern only|fromNames toName|from to|d|n|names
                |names|names|names]; cbn [handleRule kindOf Props.producedBy]; intros Hi.
  - unfold handleMove in Hi. cbn [rawIssues pushIssues] in Hi.
    apply in_app_or in Hi as [Hi|Hi]; [left; exact Hi|right].
    in_new Hi; subst; split; (reflexivity || exact I).
  - unfold handleThoseOnly in Hi. cbn [rawIssues pushIssues markProcessed] in Hi.
    apply in_app_or in Hi as [Hi|Hi].
    + left. destruct (Str.mem pattern (processedThoseOnlyPatterns st)).
      * apply removeIssues_In in Hi. tauto.
      * exact Hi.
    + right. split; [eapply thoseOnlyIssuesOf_kind; exact Hi|exact Hi].
  - unfold handleRenameDir in Hi. cbn [rawIssues pushIssues] in Hi.
    apply in_app_or in Hi as [Hi|Hi]; [left; exact Hi|right].
    in_new Hi; subst; split; (reflexivity || exact I).
  - unfold handleRenameGlob in Hi. cbn [rawIssues pushIssues] in Hi.
    apply in_app_or in Hi as [Hi|Hi]; [left; exact Hi|right].
    apply in_map_iff in Hi as (abs & <- & _).
    destruct (computeRenameDest _ _ _ _ _); split; (reflexivity || exact I).
  - left. exact Hi.
  - unfold handleNaming, handleNamingIn, handleNamingThose in Hi.
    destruct (n_target n); cbn [rawIssues pushIssues] in Hi;
      (apply in_app_or in Hi as [Hi|Hi]; [left; exact Hi|right]);
      (split; [|exact I]).
    + apply in_flat_map in Hi as (dirAbs & _ & Hi).
      apply in_flat_map in Hi as (entry & _ & Hi).
      repeat match type of Hi with
             | In _ (if ?c then _ else _) => destruct c; [destruct Hi|]
             end.
      eapply namingIssue_kind. exact Hi.
    + apply in_flat_map in Hi as (abs & _ & Hi).
      repeat match type of Hi with
             | In _ (if ?c then _ else _) => destruct c; [destruct Hi|]
             end.
      eapply namingIssue_kind. exact Hi.
  - unfold handleNo in Hi. cbn [rawIssues pushIssues] in Hi.
    apply in_app_or in Hi as [Hi|Hi].
    + left. apply removeIssues_In in Hi. tauto.
    + right. split; [eapply noIssuesOf_kind; exact Hi|exact Hi].
  - apply handleHas_issues in Hi as [Hi|Hi]; [left; exact Hi|right; split; [exact Hi|exact I]].
  - left. unfold handleAllow in Hi. apply removeIssues_In in Hi. tauto.
  - left. unfold handleOptional in Hi. apply removeIssues_In in Hi. tauto.
Qed.


(** a handler that is not the one of a [thoseOnly] rule leaves the processed
    patterns alone; the one of a [thoseOnly] rule records its pattern *)
Lemma handleHas_processed names : forall st,
  processedThoseOnlyPatterns (handleHas h root names st)
  = processedThoseOnlyPatterns st.
Proof.
  unfold handleHas. induction names as [|n names IH]; intros st; [reflexivity|].
  cbn [fold_left]. rewrite IH. unfold handleHasName.
  destruct (isGlobPattern n).
  - destruct (scanOne _ _ _ _); reflexivity.
  - destruct (Host.existsSync h _); reflexivity.
Qed.

Lemma handleRule_processed rules groups st r p :
  In p (processedThoseOnlyPatterns st) ->
  In p (processedThoseOnlyPatterns (handleRule h root rules groups st r)).
Proof.
  intros Hp.
  destruct r as [from toDir|pattern only|fromNames toName|from to|d|n|names
                |names|names|names]; cbn [handleRule];
    try exact Hp.
  - unfold handleThoseOnly. cbn [pushIssues processedThoseOnlyPatterns markProcessed].
    destruct (Str.mem pattern (processedThoseOnlyPatterns st)) eqn:E.
    + cbn [removeIssues processedThoseOnlyPatterns]. rewrite E. exact Hp.
    + rewrite E. apply in_or_app. left. exact Hp.
  - unfold handleNaming, handleNamingIn, handleNamingThose.
    destruct (n_target n); exact Hp.
  - rewrite handleHas_processed. exact Hp.
Qed.

Lemma fold_processed rules groups rs : forall st p,
  In p (processedThoseOnlyPatterns st) ->
  In p (processedThoseOnlyPatterns (fold_left (handleRule h root rules groups) rs st)).
Proof.
  induction rs as [|r rs IH]; intros st p Hp; [exact Hp|].
  cbn [fold_left]. apply IH. apply handleRule_processed. exact Hp.
Qed.

Lemma handleThoseOnly_records pattern only st :
  In pattern (processedThoseOnlyPatterns (handleThoseOnly h root pattern only st)).
Proof.
  unfold handleThoseOnly. cbn [pushIssues processedThoseOnlyPatterns markProcessed].
  destruct (Str.mem pattern (processedThoseOnlyPatterns st)) eqn:E.
  - cbn [removeIssues processedThoseOnlyPatterns]. rewrite E.
    apply mem_In. exact E.
  - rewrite E. apply in_or_app. right. left. reflexivity.
Qed.

Lemma fold_records rules groups rs : forall st pattern only,
  In (ThoseOnly pattern only) rs ->
  In pattern
    (processedThoseOnlyPatterns (fold_left (handleRule h root rules groups) rs st)).
Proof.
  induction rs as [|r rs IH]; intros st pattern only Hin; [destruct Hin|].
  cbn [fold_left]. destruct Hin as [->|Hin].
  - apply fold_processed. cbn [handleRule]. apply handleThoseOnly_records.
  - eapply IH. exact Hin.
Qed.

(** Provenance: an issue that survives a run of handlers was there before or
    was produced by one of the rules of its kind. *)
Lemma fold_provenance rules groups rs : forall st i,
  In i (rawIssues (fold_left (handleRule h root rules groups) rs st)) ->
  In i (rawIssues st)
  \/ exists r, In r rs /\ ruleKind i = kindOf r /\ producedBy r i.
Proof.
  induction rs as [|r rs IH]; intros st i Hi; [left; exact Hi|].
  cbn [fold_left] in Hi. apply IH in Hi as [Hi|(r' & Hr' & Hk & Hp)].
  - apply handleRule_issues in Hi as [Hi|[Hk Hp]].
    + left. exact Hi.
    + right. exists r. split; [left; reflexivity|split; assumption].
  - right. exists r'. split; [right; exact Hr'|split; assumption].
Qed.

Lemma processGroups_kind forceStrict moved groups : forall ra i,
  In i (fst (processGroups h root forceStrict moved groups ra)) ->
  ruleKind i = k_inDirOnly.
Proof.
  induction groups as [|[dir group] groups IH]; intros ra i Hi; [destruct Hi|].
  cbn [processGroups] in Hi.
  destruct (processGroup h root forceStrict moved ra dir group) as [issues ra1] eqn:E1.
  destruct (processGroups h root forceStrict moved groups ra1) as [issues' ra2] eqn:E2.
  cbn [fst] in Hi. apply in_app_or in Hi as [Hi|Hi].
  - unfold processGroup in E1.
    repeat match type of E1 with
           | (if ?c then _ else _) = _ => destruct c
           | (let '(_, _) := ?c in _) = _ => destruct c
           end; injection E1 as <- _; try (destruct Hi; fail).
    + destruct Hi as [<-|[]]. reflexivity.
    + apply in_flat_map in Hi as (rel & _ & Hi). unfold checkEntry in Hi.
      repeat match type of Hi with
             | In _ (if ?c then _ else _) => destruct c; [destruct Hi|]
             end.
      destruct Hi as [<-|[]]. reflexivity.
  - apply (IH ra1 i). rewrite E2. exact Hi.
Qed.


Lemma stateAfterGroups_kind config forceStrict i :
  In i (rawIssues (stateAfterGroups h root config forceStrict)) ->
  ruleKind i = k_inDirOnly.
Proof.
  unfold stateAfterGroups. intros Hi.
  destruct (processGroups h root forceStrict _ _ None) as [gi ra] eqn:E.
  cbn [rawIssues] in Hi. eapply processGroups_kind. rewrite E. exact Hi.
Qed.

Lemma matchedFiles_single pattern :
  matchedFiles h root [pattern]
  = List.map (Host.resolve2 h root) (scanOne h pattern root true).
Proof. unfold matchedFiles. cbn [flat_map]. apply app_nil_r. Qed.

(** the two facts about [path.resolve] the override laws rest on: it is
    idempotent and never yields the empty path *)
Hypothesis resolve_resolved :
  forall r p, Host.resolve h (Host.resolve2 h r p) = Host.resolve2 h r p.
Hypothesis resolve2_nonempty : forall r p, Host.resolve2 h r p <> EmptyString.

Lemma matchedFiles_resolved names F :
  In F (matchedFiles h root names) ->
  Host.resolve h F = F /\ F <> EmptyString.
Proof.
  unfold matchedFiles. intros H. apply in_flat_map in H as (name & _ & H).
  apply in_map_iff in H as (m & <- & _). split; [apply resolve_resolved|apply resolve2_nonempty].
Qed.

(** An issue of kind [k] for [F] found after the rules [rs] have run from a
    state whose issues of that kind for [F] are all in [new] is in [new] or was
    produced by one of the rules [rs]. *)
Lemma provenance_after config rs st1 k F (new : list Issue) i :
  (forall j, In j (rawIssues st1) -> ruleKind j = k -> path j = F -> In j new) ->
  In i (rawIssues (loop config rs st1)) ->
  ruleKind i = k -> path i = F ->
  In i new \/ exists r, In r rs /\ kindOf r = k /\ producedBy r i.
Proof.
  intros Hst Hi Hk Hp.
  apply fold_provenance in Hi as [Hi|(r & Hr & Hkr & Hprod)].
  - left. apply Hst; assumption.
  - right. exists r. split; [exact Hr|split; [congruence|exact Hprod]].
Qed.

(** what is left after the removal of the issues of kind [k] for [paths] and
    the addition of [new] *)
Lemma removed_then_new k paths st0 st1 (new : list Issue) F :
  rawIssues st1 = rawIssues (removeIssues h k paths st0) ++ new ->
  Host.resolve h F = F -> F <> EmptyString -> In F paths ->
  forall j, In j (rawIssues st1) -> ruleKind j = k -> path j = F -> In j new.
Proof.
  intros E Hres Hne HF j Hj Hk Hp. rewrite E in Hj.
  apply in_app_or in Hj as [Hj|Hj]; [|exact Hj].
  apply removeIssues_In in Hj as [_ Hnot]. exfalso. apply Hnot.
  rewrite Hp, Hres. auto.
Qed.

Lemma removeIssues_keeps k paths st i :
  In i (rawIssues st) ->
  ~ (ruleKind i = k /\ path i <> EmptyString
     /\ In (Host.resolve h (path i)) paths) ->
  In i (rawIssues (removeIssues h k paths st)).
Proof.
  intros Hi Hnot. unfold removeIssues. cbn [rawIssues].
  apply filter_In. split; [exact Hi|]. apply negb_true_iff.
  destruct (kind_eqb (ruleKind i) k) eqn:E1; [|reflexivity].
  destruct (Str.isEmpty (path i)) eqn:E2; [reflexivity|].
  destruct (Str.mem (Host.resolve h (path i)) paths) eqn:E3; [|reflexivity].
  exfalso. apply Hnot. split; [|split].
  - unfold kind_eqb in E1. apply String.eqb_eq in E1.
    destruct (ruleKind i), k; cbn in E1; congruence.
  - intros E. rewrite E in E2. discriminate.
  - apply mem_In. exact E3.
Qed.

Lemma NoDup_map_eq {A B} (f : A -> B) (l : list A) :
  NoDup (List.map f l) ->
  forall x y, In x l -> In y l -> f x = f y -> x = y.
Proof.
  induction l as [|a l IH]; intros Hnd x y Hx Hy E; [destruct Hx|].
  cbn [List.map] in Hnd. inversion Hnd as [|? ? Hnotin Hnd']; subst.
  destruct Hx as [<-|Hx], Hy as [<-|Hy].
  - reflexivity.
  - exfalso. apply Hnotin. rewrite E. apply in_map. exact Hy.
  - exfalso. apply Hnotin. rewrite <- E. apply in_map. exact Hx.
  - apply IH; assumption.
Qed.

Lemma matchedFiles_app names extra F :
  In F (matchedFiles h root names) -> In F (matchedFiles h root (names ++ extra)).
Proof.
  unfold matchedFiles. rewrite flat_map_app. intros H. apply in_or_app. left.
  exact H.
Qed.

(** The run of the rules [pre ++ r :: post] is the run of [pre], the handler
    of [r] and the run of [post]; the handlers find [r] and the rules of
    [post] as the configuration has them, but for the names of the first
    [allow] rule. *)
Lemma runRules_split config pre r post st :
  exists r' post',
    runRules h root config (pre ++ r :: post) st
    = loop config post'
        (handleRule h root (cfg_rules config) (buildGroups h root (cfg_rules config))
           (runRules h root config pre st) r')
    /\ (r' = r
        \/ exists names, r = Allow names /\ r' = Allow (names ++ shared config))
    /\ (forall x, In x post' -> (forall ns, x <> Allow ns) -> In x post)
    /\ (forall x, In x post -> (forall ns, x <> Allow ns) -> In x post')
    /\ (forall ns', In (Allow ns') post' ->
          exists ns, In (Allow ns) post
                     /\ (ns' = ns \/ ns' = ns ++ shared config)).
Proof.
  unfold runRules.
  destruct (extendFirstAllow_app (shared config) pre (r :: post))
    as (tail & E & Htail).
  rewrite E, fold_left_app.
  assert (Hplain : forall ns', In (Allow ns') post ->
            exists ns, In (Allow ns) post
                       /\ (ns' = ns \/ ns' = ns ++ shared config)).
  { intros ns' H. exists ns'. auto. }
  destruct Htail as [->|[_ ->]].
  - exists r, post. cbn [fold_left]. repeat split; auto.
  - destruct r;
      try (eexists _, (extendFirstAllow (shared config) post);
           cbn [extendFirstAllow fold_left];
           split; [reflexivity|]; split; [left; reflexivity|];
           split; [intros x; apply extendFirstAllow_In_other|];
           split; [intros x; apply extendFirstAllow_keeps|];
           intros ns' H; apply extendFirstAllow_In in H as [H|(ns & H1 & H2)];
           [exists ns'; auto|injection H1 as ->; exists ns; auto]).
    exists (Allow (names ++ shared config)), post.
    cbn [extendFirstAllow fold_left]. split; [reflexivity|].
    split; [right; exists names; auto|]. repeat split; auto.
Qed.

(** provenance through a run of the first rules of the configuration *)
Lemma runRules_provenance config rs st i :
  In i (rawIssues (runRules h root config rs st)) ->
  In i (rawIssues st)
  \/ exists r, In r rs /\ ruleKind i = kindOf r /\ producedBy r i.
Proof.
  unfold runRules. intros Hi.
  apply fold_provenance in Hi as [Hi|(r & Hr & Hk & Hp)]; [left; exact Hi|right].
  apply extendFirstAllow_In in Hr as [Hr|(ns & -> & Hr)].
  - exists r. auto.
  - exists (Allow ns). split; [exact Hr|]. split; [exact Hk|exact I].
Qed.

(** one issue per kind and path in the final list *)
Lemma final_issue_unique config forceStrict i j :
  In i (lintWorkspace h root config forceStrict) ->
  In j (lintWorkspace h root config forceStrict) ->
  ruleKind j = ruleKind i -> path j = path i -> j = i.
Proof.
  intros Hi Hj Hk Hp. unfold lintWorkspace in *.
  apply (NoDup_map_eq issueKey _ (finalFilter_NoDup h root _ _) j i Hj Hi).
  unfold issueKey. rewrite Hk, Hp. reflexivity.
Qed.

(** C3, amended: a file that matches the pattern of an [allow] rule has no
    forbidden issue of a [no] rule in the final result when no [no] rule
    declared after the [allow] rule matches it: the [allow] rule removes the
    issues recorded before it. *)
Theorem allow_after_no_leaves_no_issue
    (config : FsLintConfig) (forceStrict : bool)
    (pre post : list Rule) (names : list string) (F : string) :
  cfg_rules config = pre ++ Allow names :: post ->
  In F (matchedFiles h root names) ->
  (forall ns, In (NoFiles ns) post -> ~ In F (matchedFiles h root ns)) ->
  forall i, In i (lintWorkspace h root config forceStrict) ->
            ruleKind i = k_no -> path i <> F.
Proof.
  intros Hrules HF Hpost i Hi Hk Hp.
  destruct (matchedFiles_resolved names F HF) as [Hres Hne].
  unfold lintWorkspace in Hi. apply finalFilter_incl in Hi.
  unfold rawIssuesOf in Hi. rewrite Hrules in Hi at 1.
  destruct (runRules_split config pre (Allow names) post
              (stateAfterGroups h root config forceStrict))
    as (r' & post' & E & Hr' & Hback & _).
  rewrite E in Hi. clear E.
  assert (Hfound : exists names', r' = Allow names'
                                  /\ In F (matchedFiles h root names')).
  { destruct Hr' as [->|(ns & Ens & ->)].
    - exists names. auto.
    - injection Ens as <-. eexists. split; [reflexivity|].
      apply matchedFiles_app, HF. }
  destruct Hfound as (names' & -> & HF'). cbn [handleRule] in Hi.
  apply (provenance_after config post' _ k_no F [] i) in Hi;
    [|eapply removed_then_new with (paths := matchedFiles h root names');
      [unfold handleAllow; symmetry; apply app_nil_r|assumption..]
     |exact Hk|exact Hp].
  destruct Hi as [[]|(r & Hr & Hkr & Hprod)].
  destruct r; cbn [kindOf] in Hkr; try discriminate. cbn [Props.producedBy] in Hprod.
  apply (Hpost names0); [apply Hback; [exact Hr|discriminate]|].
  rewrite <- Hp. apply noIssuesOf_path. exact Hprod.
Qed.

(** C2: the override law of the rules of one kind.  Of two [no] rules that
    match a file, an issue of kind [no] for the file in the final result is
    an issue of the later rule or of a [no] rule after it, never one only the
    earlier rule raised, and there is at most one.  Of two [thoseOnly] rules
    with the same pattern the later one first removes every recorded
    [thoseOnly] issue for a file its pattern matches, keeps all others, and
    then adds its own; the final result then has, for such a file, only
    issues of that rule or of later ones. *)
Theorem later_rule_supersedes_earlier
    (config : FsLintConfig) (forceStrict : bool) (pre post : list Rule) :
  (forall ns1 ns2 F,
      cfg_rules config = pre ++ NoFiles ns2 :: post ->
      In (NoFiles ns1) pre ->
      In F (matchedFiles h root ns1) -> In F (matchedFiles h root ns2) ->
      forall i, In i (lintWorkspace h root config forceStrict) ->
                ruleKind i = k_no -> path i = F ->
                (exists ns, In (NoFiles ns) (NoFiles ns2 :: post)
                            /\ In i (noIssuesOf h root ns))
                /\ forall j, In j (lintWorkspace h root config forceStrict) ->
                             ruleKind j = k_no -> path j = F -> j = i)
  /\
  (forall pattern only1 only2,
      cfg_rules config = pre ++ ThoseOnly pattern only2 :: post ->
      In (ThoseOnly pattern only1) pre ->
      let before :=
        runRules h root config pre (stateAfterGroups h root config forceStrict) in
      let superseded i :=
        ruleKind i = k_thoseOnly /\ path i <> EmptyString
        /\ In (Host.resolve h (path i)) (matchedFiles h root [pattern]) in
      (exists kept,
          rawIssues (handleThoseOnly h root pattern only2 before)
          = kept ++ thoseOnlyIssuesOf h root pattern only2
          /\ forall i, In i kept <-> (In i (rawIssues before) /\ ~ superseded i))
      /\ forall F i,
          In F (matchedFiles h root [pattern]) ->
          In i (lintWorkspace h root config forceStrict) ->
          ruleKind i = k_thoseOnly -> path i = F ->
          exists p o, In (ThoseOnly p o) (ThoseOnly pattern only2 :: post)
                      /\ In i (thoseOnlyIssuesOf h root p o)).
Proof.
  split.
  - intros ns1 ns2 F Hrules _ _ HF i Hi Hk Hp.
    destruct (matchedFiles_resolved ns2 F HF) as [Hres Hne].
    split.
    + unfold lintWorkspace in Hi. apply finalFilter_incl in Hi.
      unfold rawIssuesOf in Hi. rewrite Hrules in Hi at 1.
      destruct (runRules_split config pre (NoFiles ns2) post
                  (stateAfterGroups h root config forceStrict))
        as (r' & post' & E & Hr' & Hback & _).
      rewrite E in Hi. clear E.
      destruct Hr' as [->|(ns & Ens & _)]; [|discriminate Ens].
      cbn [handleRule] in Hi.
      apply (provenance_after config post' _ k_no F (noIssuesOf h root ns2) i) in Hi;
        [|eapply removed_then_new with (paths := matchedFiles h root ns2);
          [reflexivity|assumption..]
         |exact Hk|exact Hp].
      destruct Hi as [Hi|(r & Hr & Hkr & Hprod)].
      * exists ns2. split; [left; reflexivity|exact Hi].
      * destruct r; cbn [kindOf] in Hkr; try discriminate.
        exists names. split; [right; apply Hback; [exact Hr|discriminate]
                             |exact Hprod].
    + intros j Hj Hkj Hpj. apply (final_issue_unique config forceStrict); congruence.
  - intros pattern only1 only2 Hrules Hin before superseded.
    assert (Hproc : Str.mem pattern (processedThoseOnlyPatterns before) = true).
    { apply mem_In. unfold before, runRules. eapply fold_records.
      apply extendFirstAllow_keeps; [exact Hin|discriminate]. }
    assert (Hraw : rawIssues (handleThoseOnly h root pattern only2 before)
                   = rawIssues (removeIssues h k_thoseOnly
                                  (matchedFiles h root [pattern]) before)
                     ++ thoseOnlyIssuesOf h root pattern only2).
    { unfold handleThoseOnly. rewrite Hproc. rewrite matchedFiles_single.
      reflexivity. }
    split.
    + eexists. split; [exact Hraw|].
      intros i. split.
      * intros Hi. apply removeIssues_In in Hi. exact Hi.
      * intros [Hi Hnot]. apply removeIssues_keeps; assumption.
    + intros F i HF Hi Hk Hp.
      destruct (matchedFiles_resolved [pattern] F HF) as [Hres Hne].
      unfold lintWorkspace in Hi. apply finalFilter_incl in Hi.
      unfold rawIssuesOf in Hi. rewrite Hrules in Hi at 1.
      destruct (runRules_split config pre (ThoseOnly pattern only2) post
                  (stateAfterGroups h root config forceStrict))
        as (r' & post' & E & Hr' & Hback & _).
      rewrite E in Hi. clear E.
      destruct Hr' as [->|(ns & Ens & _)]; [|discriminate Ens].
      cbn [handleRule] in Hi.
      apply (provenance_after config post' _ k_thoseOnly F
               (thoseOnlyIssuesOf h root pattern only2) i) in Hi;
        [|eapply removed_then_new with (paths := matchedFiles h root [pattern]);
          [exact Hraw|assumption..]
         |exact Hk|exact Hp].
      destruct Hi as [Hi|(r & Hr & Hkr & Hprod)].
      * exists pattern, only2. split; [left; reflexivity|exact Hi].
      * destruct r; cbn [kindOf] in Hkr; try discriminate.
        exists pattern0, only. split; [right; apply Hback; [exact Hr|discriminate]
                                      |exact Hprod].
Qed.

End Overrides.
Lemma example_resolve2_nonempty (r p : string) :
  Host.resolve2 Example.host r p <> EmptyString.
Proof.
  cbn [Host.resolve2 Example.host]. unfold Example.resolve2.
  destruct (Str.startsWith p "/") eqn:E.
  - destruct p; [discriminate E|discriminate].
  - destruct (String.eqb p ".").
    + destruct r; discriminate.
    + destruct r; discriminate.
Qed.

(** In the example workspace [a.log] matches [*.log] and [a.log]: with the
    [allow] after the [no] the file has no issue. *)
Lemma allow_after_no_witness :
  In "/repo/a.log" (Lint.matchedFiles Example.host Example.root ["a.log"])
  /\ In "/repo/a.log" (Lint.matchedFiles Example.host Example.root ["*.log"])
  /\ forall i,
       In i (Lint.lintWorkspace Example.host Example.root
               (Example.configOfRules [NoFiles ["*.log"]; Allow ["a.log"]])
               false) ->
       ruleKind i = k_no -> path i <> "/repo/a.log".
Proof.
  split; [left; reflexivity|]. split; [left; reflexivity|].
  apply (allow_after_no_leaves_no_issue Example.host Example.root
           (fun _ _ => eq_refl) example_resolve2_nonempty
           (Example.configOfRules [NoFiles ["*.log"]; Allow ["a.log"]]) false
           [NoFiles ["*.log"]] [] ["a.log"] "/repo/a.log").
  - reflexivity.
  - left. reflexivity.
  - intros ns [].
Defined.

(** With the [allow] before the [no] the issue of [a.log] stays. *)
Lemma allow_before_no_keeps_the_issue :
  In "/repo/a.log" (Lint.matchedFiles Example.host Example.root ["a.log"])
  /\ In "/repo/a.log" (Lint.matchedFiles Example.host Example.root ["*.log"])
  /\ In (mkIssue k_no "/repo/a.log" "a.log" (no_forbidden "*.log") forbidden error)
        (Lint.lintWorkspace Example.host Example.root
           (Example.configOfRules [Allow ["a.log"]; NoFiles ["*.log"]]) false).
Proof. repeat split; vm_compute; auto. Qed.

(** In the example workspace: of the rules [no *.log] and [no a.log] the
    issue of [a.log] is the one of the later rule; of two [thoseOnly] rules
    for [*.log] the later one allows [a.log], and no issue of the earlier one
    for [a.log] is left. *)
Lemma later_rule_witness :
  (forall i,
      In i (Lint.lintWorkspace Example.host Example.root
              (Example.configOfRules [NoFiles ["*.log"]; NoFiles ["a.log"]])
              false) ->
      ruleKind i = k_no -> path i = "/repo/a.log" ->
      message i = no_forbidden "a.log")
  /\ (forall i,
        In i (Lint.lintWorkspace Example.host Example.root
                (Example.configOfRules
                   [ThoseOnly "*.log" []; ThoseOnly "*.log" ["a.log"]])
                false) ->
        ruleKind i = k_thoseOnly -> path i <> "/repo/a.log").
Proof.
  split.
  - intros i Hi Hk Hp.
    destruct (later_rule_supersedes_earlier Example.host Example.root
                (fun _ _ => eq_refl) example_resolve2_nonempty
                (Example.configOfRules [NoFiles ["*.log"]; NoFiles ["a.log"]])
                false [NoFiles ["*.log"]] []) as [Hno _].
    destruct (Hno ["*.log"] ["a.log"] "/repo/a.log" eq_refl
                (or_introl eq_refl) (or_introl eq_refl) (or_introl eq_refl)
                i Hi Hk Hp) as [(ns & Hns & Hprod) _].
    destruct Hns as [E|[]]. injection E as <-.
    vm_compute in Hprod. destruct Hprod as [<-|[]]. reflexivity.
  - intros i Hi Hk Hp.
    destruct (later_rule_supersedes_earlier Example.host Example.root
                (fun _ _ => eq_refl) example_resolve2_nonempty
                (Example.configOfRules
                   [ThoseOnly "*.log" []; ThoseOnly "*.log" ["a.log"]])
                false [ThoseOnly "*.log" []] []) as [_ Hthose].
    destruct (Hthose "*.log" [] ["a.log"] eq_refl (or_introl eq_refl))
      as [_ Hfinal].
    destruct (Hfinal "/repo/a.log" i (or_introl eq_refl) Hi Hk Hp)
      as (p & o & Hrule & Hprod).
    destruct Hrule as [E|[]]. injection E as <- <-.
    vm_compute in Hprod. destruct Hprod as [<-|[]]. discriminate.
Defined.

(** ** Issues that stay on the record *)

Section RecordFacts.
Import Types Lint.
Variable h : Host.t.
Variable root : string.

(** the handler of a [has] rule takes no issue off the record *)
Lemma handleHas_keeps names : forall st i,
  In i (rawIssues st) -> In i (rawIssues (handleHas h root names st)).
Proof.
  unfold handleHas. induction names as [|name names IH]; intros st i Hi;
    [exact Hi|].
  cbn [fold_left]. apply IH. unfold handleHasName.
  destruct (isGlobPattern name).
  - destruct (scanOne h name root true); cbn [rawIssues pushIssues addToRoot];
      [apply in_or_app; left|]; exact Hi.
  - destruct (Host.existsSync h (Host.resolve2 h root name));
      cbn [rawIssues pushIssues addToRoot]; [|apply in_or_app; left]; exact Hi.
Qed.

(** the key of the deduplication determines the kind and the path *)
Lemma issueKey_inj (i j : Issue) :
  issueKey i = issueKey j -> ruleKind i = ruleKind j /\ path i = path j.
Proof.
  unfold issueKey.
  destruct (ruleKind i), (ruleKind j); cbn [kindName append]; intros E;
    repeat match type of E with
           | String _ _ = String _ _ => injection E as ? E; try discriminate
           end;
    try discriminate; split; congruence.
Qed.

(** an issue whose path is not ignored, or one with its key, passes the final
    filter *)
Lemma finalFilter_keeps raw : forall seen i,
  In i raw ->
  Host.ignores h (Host.relative h root (path i)) = false ->
  In (issueKey i) seen
  \/ exists j, In j (finalFilter h root raw seen) /\ issueKey j = issueKey i.
Proof.
  induction raw as [|a raw IH]; intros seen i Hi Hig; [destruct Hi|].
  cbn [finalFilter]. destruct Hi as [->|Hi].
  - rewrite Hig. destruct (Str.mem (issueKey i) seen) eqn:Em.
    + left. apply mem_In. exact Em.
    + right. exists i. split; [left; reflexivity|reflexivity].
  - destruct (Host.ignores h (Host.relative h root (path a))); [apply IH; assumption|].
    destruct (Str.mem (issueKey a) seen) eqn:Em; [apply IH; assumption|].
    destruct (IH (issueKey a :: seen) i Hi Hig) as [[E|Hseen]|(j & Hj & Ej)].
    + right. exists a. split; [left; reflexivity|exact E].
    + left. exact Hseen.
    + right. exists j. split; [right; exact Hj|exact Ej].
Qed.

End RecordFacts.

(** ** A strict group whose directory is missing *)

(** C1: the directory [src] does not exist in the example workspace and the
    configuration [strict in src] makes its group strict; the loop over the
    groups raises [dirMustExist] for the directory and the run returns it as
    its one issue, where the validator of the [inDirOnly] rules
    (rules/validators/inDirOnly.ts) skips a directory that does not exist. *)
Lemma missing_strict_directory_is_reported :
  Host.isDirectory Example.host (Host.resolve2 Example.host Example.root "src")
  = false
  /\ Parser.parseFsLintConfig Example.host 1 "strict in src" None
     = Parser.Ok (Example.configOfRules
                    [InDirOnly (mkInDirOnly "src" [] (Some strict) None)])
  /\ Lint.processGroup Example.host Example.root false [] None "src"
       [mkInDirOnly "src" [] (Some strict) None]
     = ([mkIssue k_inDirOnly "/repo/src" "src" (inDirOnly_dirMustExist [])
           missing error], None)
  /\ Lint.lintRun Example.host Example.root
       (Example.configOfRules
          [InDirOnly (mkInDirOnly "src" [] (Some strict) None)]) false
     = Some [mkIssue k_inDirOnly "/repo/src" "src" (inDirOnly_dirMustExist [])
               missing error].
Proof. repeat split; vm_compute; reflexivity. Qed.

(** ** Unrecognized lines *)

Section Fatal.
Import Regex Types Parser.
Variable h : Host.t.

Lemma test_false_exec (r : re) (s : string) : test r s = false -> exec r s = None.
Proof. unfold test. destruct (exec r s); [discriminate|reflexivity]. Qed.

Lemma parseLines_app parseImported configPath (l1 l2 : list Line) : forall st,
  parseLines h parseImported configPath st (l1 ++ l2)
  = match parseLines h parseImported configPath st l1 with
    | Ok st' => parseLines h parseImported configPath st' l2
    | other => other
    end.
Proof.
  induction l1 as [|pl l1 IH]; intros st; [reflexivity|].
  cbn [app parseLines].
  destruct (parseStatement h parseImported configPath st pl); try reflexivity.
  apply IH.
Qed.

(** A statement that has none of the known shapes throws. *)
Lemma parseStatement_unrecognized parseImported configPath st (pl : Line) :
  content pl <> EmptyString ->
  matchesKnownShape (normalizeArray (content pl)) = false ->
  parseStatement h parseImported configPath st pl
  = Throw (cannotParseLine (c_line (stripClauses (normalizeArray (content pl))))
             (lineNum pl)) configPath.
Proof.
  intros Hne Hshape. unfold matchesKnownShape in Hshape.
  apply orb_false_iff in Hshape as [Hshapes Huse].
  unfold statementShapes in Hshapes. cbn [existsb] in Hshapes.
  repeat match type of Hshapes with
         | (_ || _)%bool = false =>
             let H := fresh "H" in
             apply orb_false_iff in Hshapes as [H Hshapes];
             apply test_false_exec in H
         end.
  apply test_false_exec in Huse.
  unfold parseStatement.
  destruct (content pl) eqn:Ec; [congruence|]. cbn [Str.isEmpty].
  unfold tryWhere, tryPath, tryImport, tryMove, tryStrictFor, tryStrictInOnly,
    tryStrictIn, tryAllowIn, tryAllow, tryInAllow, tryInNaming, tryThoseNaming,
    tryNames, tryRename, tryUse.
  rewrite H, H0, H1, H2, H3, H4, H5, H6, H7, H8, H9, H10, H11, H12, H13, H14,
    H15, Huse.
  reflexivity.
Qed.

Lemma stripClauses_plain (line : string) :
  isPlainLine line = true ->
  normalizeArray line = line /\ c_line (stripClauses line) = line.
Proof.
  unfold isPlainLine. intros Hp. apply negb_true_iff in Hp.
  cbn [existsb] in Hp.
  repeat match type of Hp with
         | (_ || _)%bool = false =>
             let H := fresh "H" in
             apply orb_false_iff in Hp as [H Hp];
             apply test_false_exec in H
         end.
  split.
  - unfold normalizeArray. rewrite H. reflexivity.
  - unfold stripClauses. rewrite H0, H1, H2, H3, H4. reflexivity.
Qed.

(** C6, amended: a text with a line that, after preprocessing, is neither
    blank nor a comment and matches no statement shape never parses to a
    configuration; when the lines before it parse, the parse throws the error
    [cannotParseLine] with the number of that line and with its text, the
    text being the line itself when it has no array and no trailing clause of
    [use]. *)
Theorem unrecognized_line_is_fatal
    (fuel : nat) (raw : string) (configPath : option string)
    (before after : list Line) (pl : Line) :
  linesOf raw = before ++ pl :: after ->
  content pl <> EmptyString ->
  matchesKnownShape (normalizeArray (content pl)) = false ->
  (forall config, parseFsLintConfig h fuel raw configPath <> Ok config)
  /\ (forall fuel' st,
        fuel = S fuel' ->
        parseLines h (parseFsLintConfigInternal h fuel') configPath
          (mkPState w_config [] [] [] 0) before = Ok st ->
        exists text,
          parseFsLintConfig h fuel raw configPath
          = Throw (cannotParseLine text (lineNum pl)) configPath
          /\ (isPlainLine (content pl) = true -> text = content pl)).
Proof.
  intros Hlines Hne Hshape. split.
  - intros config. unfold parseFsLintConfig.
    destruct fuel as [|fuel']; [discriminate|].
    cbn [parseFsLintConfigInternal]. unfold parseBody.
    rewrite Hlines, parseLines_app.
    destruct (parseLines h _ configPath _ before); try discriminate.
    cbn [parseLines]. rewrite parseStatement_unrecognized by assumption.
    discriminate.
  - intros fuel' st -> Hbefore.
    exists (c_line (stripClauses (normalizeArray (content pl)))). split.
    + unfold parseFsLintConfig. cbn [parseFsLintConfigInternal]. unfold parseBody.
      rewrite Hlines, parseLines_app, Hbefore.
      cbn [parseLines]. rewrite parseStatement_unrecognized by assumption.
      reflexivity.
    + intros Hplain. destruct (stripClauses_plain _ Hplain) as [E1 E2].
      rewrite E1. exact E2.
Qed.

End Fatal.

(** The second line of the text is no statement: the parse of the text throws
    for that line. *)
Lemma unrecognized_line_witness :
  Parser.parseFsLintConfig Example.host 1
    ("allow *.md" ++ Example.nl ++ "bogus line") None
  = Parser.Throw (Parser.cannotParseLine "bogus line" 2) None.
Proof.
  destruct (unrecognized_line_is_fatal Example.host 1
              ("allow *.md" ++ Example.nl ++ "bogus line") None
              [Parser.mkLine "allow *.md" 1] [] (Parser.mkLine "bogus line" 2)
              eq_refl ltac:(discriminate) eq_refl) as [_ Hthrow].
  destruct (Hthrow 0 (Parser.mkPState w_config [(0, Allow ["*.md"])] [] [] 1)
              eq_refl eq_refl) as (text & Hparse & Htext).
  rewrite Hparse, (Htext eq_refl). reflexivity.
Defined.

(** Two texts with a line that is no statement.  In the first the error is
    the one of the directive of the first line, not of the line [bogus line];
    in the second the error carries the line without its trailing clause. *)
Lemma unrecognized_line_error_of_another_text :
  Parser.linesOf ("[where:]" ++ Example.nl ++ "bogus line")
  = [Parser.mkLine "[where:]" 1; Parser.mkLine "bogus line" 2]
  /\ Parser.matchesKnownShape (Parser.normalizeArray "bogus line") = false
  /\ Parser.parseFsLintConfig Example.host 1
       ("[where:]" ++ Example.nl ++ "bogus line") None
     = Parser.Throw (Parser.invalidWhereDirective 1) None
  /\ Parser.linesOf "frobnicate foo if-contains bar"
     = [Parser.mkLine "frobnicate foo if-contains bar" 1]
  /\ Parser.matchesKnownShape
       (Parser.normalizeArray "frobnicate foo if-contains bar") = false
  /\ Parser.parseFsLintConfig Example.host 1 "frobnicate foo if-contains bar"
       None
     = Parser.Throw (Parser.cannotParseLine "frobnicate foo" 1) None.
Proof. repeat split; vm_compute; reflexivity. Qed.

(** ** The deferred fill-in *)

Section FillIn.
Import Regex Parser Props.

Lemma scopedPattern_code (dir pattern : string) :
  (if Str.includes pattern "/" || Str.startsWith pattern "**"
   then pattern
   else
     let dir' := if String.eqb dir "." then EmptyString else dir in
     if nonEmpty dir' then (dir' ++ "/" ++ pattern)%string else pattern)
  = scopedPattern dir pattern.
Proof.
  unfold scopedPattern.
  destruct (Str.includes pattern "/" || Str.startsWith pattern "**");
    [reflexivity|].
  cbn [orb]. destruct (String.eqb dir "."); [reflexivity|].
  destruct dir; reflexivity.
Qed.

Lemma isPermissive_mode (d : InDirOnlyRule) :
  Lint.isPermissive d = true <-> d_mode d = Some permissive.
Proof.
  unfold Lint.isPermissive. destruct (d_mode d) as [[|]|]; split;
    intros; congruence.
Qed.

Lemma allAllowedItems_candidates (rules : list Rule) (item : string) :
  In item (allAllowedItems rules) <-> candidateItem rules item.
Proof.
  unfold allAllowedItems, candidateItem. rewrite in_app_iff, !in_flat_map.
  split.
  - intros [(r & Hr & Hi)|(r & Hr & Hi)].
    + destruct r; try destruct Hi. left. exists names. auto.
    + destruct r; try destruct Hi.
      destruct (Lint.isPermissive r) eqn:Ep; [|destruct Hi].
      apply in_map_iff in Hi as (pattern & <- & Hp).
      right. exists r, pattern. rewrite scopedPattern_code.
      repeat split; try assumption. apply isPermissive_mode, Ep.
  - intros [(names & Hr & Hi)|(d & pattern & Hr & Hm & Hp & ->)].
    + left. exists (Allow names). auto.
    + right. exists (InDirOnly d). split; [exact Hr|].
      rewrite (proj2 (isPermissive_mode d) Hm).
      apply in_map_iff. exists pattern. split; [apply scopedPattern_code|exact Hp].
Qed.

Lemma filledOnly_from (items : list string) (pattern item : string) :
  In item (filledOnly items pattern) -> In item items /\ item <> "*".
Proof.
  assert (Hbase : forall x,
             In x (filter (fun item => negb (String.eqb item "*")) items) ->
             In x items /\ x <> "*").
  { intros x Hx. apply filter_In in Hx as [Hin Hne]. split; [exact Hin|].
    intros ->. discriminate. }
  unfold filledOnly. intros Hi.
  destruct (exec reExtension pattern) as [m|]; [|apply Hbase, Hi].
  destruct (nonEmpty (grp m 1)); [|apply Hbase, Hi].
  apply filter_In in Hi as [Hi _]. apply Hbase, Hi.
Qed.

Lemma filledOnly_no_extension (items : list string) (pattern item : string) :
  exec reExtension pattern = None ->
  In item items -> item <> "*" -> In item (filledOnly items pattern).
Proof.
  intros Hext Hin Hne. unfold filledOnly. rewrite Hext.
  apply filter_In. split; [exact Hin|].
  apply negb_true_iff. apply String.eqb_neq. exact Hne.
Qed.

Lemma map_snd_combine {A B} (f : B -> B) (l : list (A * B)) :
  List.map snd (combine (List.map fst l) (List.map f (List.map snd l)))
  = List.map f (List.map snd l).
Proof.
  induction l as [|[a b] l IH]; [reflexivity|]. cbn. f_equal. exact IH.
Qed.

Lemma finish_rules (h : Host.t) (st st' : PState) :
  finish h st = Ok st' ->
  List.map snd (p_rules st') = fillThoseOnly (List.map snd (p_rules st)).
Proof.
  unfold finish. destruct (topologicalSort h _ _); [|discriminate].
  intros E. injection E as <-. cbn [p_rules]. unfold fillThoseOnly.
  apply map_snd_combine.
Qed.

(** C4, amended: when the parse of a file succeeds, the rules it returns are
    the rules collected from the whole file, imports included, with every
    [thoseOnly] rule whose [only] is empty filled.  The candidates are the
    names of the [allow] rules and the patterns of the permissive [inDirOnly]
    rules, a pattern being prefixed with its directory unless it has a path
    separator, starts with two stars, or the directory is the root directory
    [.]; the filled list holds candidates only and never the bare star; for
    a pattern without a recognizable extension it holds every candidate but
    the bare star; every other rule is left as it is. *)
Theorem deferred_fill_in
    (h : Host.t) (fuel : nat) (raw : string) (configPath : option string)
    (deps : Deps) (next : nat) (st' : PState) :
  parseFsLintConfigInternal h (S fuel) raw configPath deps next = Ok st' ->
  exists st,
    parseLines h (parseFsLintConfigInternal h fuel) configPath
      (mkPState w_config [] [] deps next) (linesOf raw) = Ok st
    /\ let rules := List.map snd (p_rules st) in
       let items := allAllowedItems rules in
       (forall item, In item items <-> candidateItem rules item)
       /\ (forall n pattern,
             nth_error rules n = Some (ThoseOnly pattern []) ->
             nth_error (List.map snd (p_rules st')) n
             = Some (ThoseOnly pattern (filledOnly items pattern)))
       /\ (forall n r,
             nth_error rules n = Some r ->
             (forall pattern, r <> ThoseOnly pattern []) ->
             nth_error (List.map snd (p_rules st')) n = Some r)
       /\ (forall pattern item,
             In item (filledOnly items pattern) ->
             In item items /\ item <> "*")
       /\ (forall pattern item,
             exec reExtension pattern = None ->
             In item items -> item <> "*" ->
             In item (filledOnly items pattern)).
Proof.
  cbn [parseFsLintConfigInternal]. unfold parseBody. intros Hparse.
  destruct (parseLines h (parseFsLintConfigInternal h fuel) configPath
              (mkPState w_config [] [] deps next) (linesOf raw)) as [st| | |];
    try discriminate.
  exists st. split; [reflexivity|]. cbv zeta.
  pose proof (finish_rules h st st' Hparse) as Hrules. unfold fillThoseOnly in Hrules.
  split; [apply allAllowedItems_candidates|].
  split; [|split; [|split]].
  - intros n pattern Hn. rewrite Hrules, nth_error_map, Hn. reflexivity.
  - intros n r Hn Hr. rewrite Hrules, nth_error_map, Hn. cbn [option_map].
    f_equal. destruct r; try reflexivity.
    destruct only; [exfalso; apply (Hr pattern); reflexivity|reflexivity].
  - intros pattern item. apply filledOnly_from.
  - intros pattern item. apply filledOnly_no_extension.
Qed.

End FillIn.

(** A file with a permissive rule for [docs], an [allow] with the bare star
    and two [strict files for] statements: the rule of the pattern without an
    extension gets every candidate but the star, with the pattern of [docs]
    prefixed. *)
Lemma deferred_fill_in_witness :
  let raw := ("allow *.md in docs" ++ Example.nl ++ "allow LICENSE, *"
              ++ Example.nl ++ "strict files for src/*"
              ++ Example.nl ++ "strict files for *.md")%string in
  let docs := InDirOnly (mkInDirOnly "docs" ["*.md"] (Some permissive) None) in
  let st' :=
    Parser.mkPState w_config
      [(0, docs); (1, Allow ["LICENSE"; "*"]);
       (2, ThoseOnly "src/*" ["LICENSE"; "docs/*.md"]);
       (3, ThoseOnly "*.md" ["docs/*.md"])] [] [] 4 in
  Parser.parseFsLintConfigInternal Example.host 1 raw None [] 0 = Parser.Ok st'
  /\ exists st,
       Parser.parseLines Example.host
         (Parser.parseFsLintConfigInternal Example.host 0) None
         (Parser.mkPState w_config [] [] [] 0) (Parser.linesOf raw)
       = Parser.Ok st
       /\ List.map snd (Parser.p_rules st)
          = [docs; Allow ["LICENSE"; "*"]; ThoseOnly "src/*" [];
             ThoseOnly "*.md" []]
       /\ nth_error (List.map snd (Parser.p_rules st')) 2
          = Some (ThoseOnly "src/*"
                    (Parser.filledOnly
                       (Parser.allAllowedItems (List.map snd (Parser.p_rules st)))
                       "src/*")).
Proof.
  intros raw docs st'.
  assert (Hparse : Parser.parseFsLintConfigInternal Example.host 1 raw None [] 0
                   = Parser.Ok st') by reflexivity.
  split; [exact Hparse|].
  destruct (deferred_fill_in Example.host 0 raw None [] 0 st' Hparse)
    as (st & Hst & _ & Hfill & _).
  exists st. split; [exact Hst|].
  assert (Hrules : List.map snd (Parser.p_rules st)
                   = [docs; Allow ["LICENSE"; "*"]; ThoseOnly "src/*" [];
                      ThoseOnly "*.md" []]).
  { vm_compute in Hst. injection Hst as <-. reflexivity. }
  split; [exact Hrules|].
  apply Hfill. rewrite Hrules. reflexivity.
Defined.

(** A permissive rule of the root directory: its pattern enters the filled
    list as it is, where the prefix of the directory would give
    [./README.md]. *)
Lemma fill_in_leaves_root_patterns_unprefixed :
  let readme :=
    InDirOnly (mkInDirOnly "." ["README.md"] (Some permissive) None) in
  Parser.parseFsLintConfig Example.host 1
    ("allow README.md in ." ++ Example.nl ++ "strict files for *.md") None
  = Parser.Ok (Example.configOfRules [readme; ThoseOnly "*.md" ["README.md"]])
  /\ Parser.filledOnly (Props.claimedItems [readme; ThoseOnly "*.md" []]) "*.md"
     = ["./README.md"].
Proof. split; vm_compute; reflexivity. Qed.

(** ** The order of the imports *)

(** *** Maps in insertion order *)

Section MapFacts.
Import Lint Props.
Context {V : Type}.
Implicit Types (m : list (string * V)) (k : string) (v : V).

Lemma mapGet_set_same k v m : mapGet String.eqb k (mapSet String.eqb k v m) = Some v.
Proof.
  induction m as [|[k' v'] m IH]; cbn.
  - rewrite String.eqb_refl. reflexivity.
  - destruct (String.eqb k k') eqn:E; cbn; rewrite E; [reflexivity|exact IH].
Qed.

Lemma mapGet_set_other k k' v m :
  k' <> k -> mapGet String.eqb k' (mapSet String.eqb k v m) = mapGet String.eqb k' m.
Proof.
  intros Hne. induction m as [|[k0 v0] m IH]; cbn.
  - destruct (String.eqb k' k) eqn:E; [apply String.eqb_eq in E; congruence|reflexivity].
  - destruct (String.eqb k k0) eqn:E; cbn.
    + apply String.eqb_eq in E. subst k0.
      destruct (String.eqb k' k) eqn:E'; [apply String.eqb_eq in E'; congruence|reflexivity].
    + destruct (String.eqb k' k0); [reflexivity|exact IH].
Qed.

Lemma keys_set_in k v m : In k (keys m) -> keys (mapSet String.eqb k v m) = keys m.
Proof.
  induction m as [|[k' v'] m IH]; intros Hin; [destruct Hin|].
  cbn. destruct (String.eqb k k') eqn:E; cbn.
  - reflexivity.
  - f_equal. apply IH. destruct Hin as [Hin|Hin]; [|exact Hin].
    cbn in Hin. subst. rewrite String.eqb_refl in E. discriminate.
Qed.

Lemma keys_set_notin k v m :
  ~ In k (keys m) -> keys (mapSet String.eqb k v m) = keys m ++ [k].
Proof.
  induction m as [|[k' v'] m IH]; intros Hin; [reflexivity|].
  cbn. destruct (String.eqb k k') eqn:E; cbn.
  - apply String.eqb_eq in E. subst. exfalso. apply Hin. left. reflexivity.
  - f_equal. apply IH. intros H. apply Hin. right. exact H.
Qed.

Lemma mapGet_key k m : In k (keys m) <-> mapGet String.eqb k m <> None.
Proof.
  induction m as [|[k' v'] m IH]; cbn.
  - split; [intros []|congruence].
  - destruct (String.eqb k k') eqn:E.
    + apply String.eqb_eq in E. subst. split; [discriminate|auto].
    + rewrite <- IH. split; [intros [H|H]; [|exact H]|auto].
      subst. rewrite String.eqb_refl in E. discriminate.
Qed.

Lemma mapGet_In k v m :
  NoDup (keys m) -> (In (k, v) m <-> mapGet String.eqb k m = Some v).
Proof.
  induction m as [|[k' v'] m IH]; intros Hnd; cbn.
  - split; [intros []|discriminate].
  - cbn in Hnd. inversion Hnd as [|? ? Hnotin Hnd']; subst.
    destruct (String.eqb k k') eqn:E.
    + apply String.eqb_eq in E. subst k'. split.
      * intros [H|H]; [congruence|]. exfalso. apply Hnotin.
        apply in_map_iff. exists (k, v). auto.
      * intros H. left. congruence.
    + rewrite <- (IH Hnd'). split; [intros [H|H]; [|exact H]|auto].
      injection H as -> ->. rewrite String.eqb_refl in E. discriminate.
Qed.

End MapFacts.

Section InitMaps.
Import Lint Props.
Context {V : Type}.
Variable resolve : string -> string.
Variable f : string -> V.

Lemma fold_set_fresh (l : list string) : forall (m : list (string * V)),
  (forall p, In p l -> resolve p = p) ->
  NoDup l -> (forall p, In p l -> ~ In p (keys m)) ->
  keys (fold_left (fun g path => mapSet String.eqb (resolve path) (f path) g) l m)
  = keys m ++ l
  /\ forall k,
      mapGet String.eqb k
        (fold_left (fun g path => mapSet String.eqb (resolve path) (f path) g) l m)
      = if Str.mem k l then Some (f k) else mapGet String.eqb k m.
Proof.
  induction l as [|p l IH]; intros m Hres Hnd Hfresh.
  - cbn. rewrite app_nil_r. auto.
  - cbn [fold_left]. inversion Hnd as [|? ? Hnotin Hnd']; subst.
    rewrite (Hres p (or_introl eq_refl)).
    assert (Hk : keys (mapSet String.eqb p (f p) m) = keys m ++ [p])
      by (apply keys_set_notin, Hfresh; left; reflexivity).
    destruct (IH (mapSet String.eqb p (f p) m)) as [IHk IHg].
    + intros q Hq. apply Hres. right. exact Hq.
    + exact Hnd'.
    + intros q Hq. rewrite Hk. intros Hin. apply in_app_or in Hin as [Hin|[<-|[]]].
      * apply (Hfresh q); [right; exact Hq|exact Hin].
      * exact (Hnotin Hq).
    + split.
      * rewrite IHk, Hk, <- app_assoc. reflexivity.
      * intros k. rewrite IHg. cbn [Str.mem existsb].
        fold (Str.mem k l).
        destruct (Str.mem k l) eqn:Ekl.
        -- rewrite orb_true_r. reflexivity.
        -- rewrite orb_false_r. destruct (String.eqb k p) eqn:E.
           ++ apply String.eqb_eq in E. subst. apply mapGet_set_same.
           ++ apply mapGet_set_other. intros ->. rewrite String.eqb_refl in E.
              discriminate.
Qed.

End InitMaps.

Lemma filter_length_flip (f g : string -> bool) (l : list string) (u : string) :
  NoDup l -> In u l -> f u = false -> g u = true ->
  (forall x, x <> u -> g x = f x) ->
  List.length (filter g l) = S (List.length (filter f l)).
Proof.
  intros Hnd Hin Hf Hg Hsame. induction l as [|a l IH]; [destruct Hin|].
  inversion Hnd as [|? ? Hnotin Hnd']; subst. cbn [filter].
  destruct Hin as [->|Hin].
  - rewrite Hf, Hg. cbn [List.length]. f_equal.
    f_equal. apply filter_ext_in. intros x Hx. apply Hsame. intros ->. contradiction.
  - assert (Hau : a <> u) by (intros ->; contradiction).
    rewrite (Hsame a Hau). destruct (f a); cbn [List.length]; rewrite (IH Hnd' Hin); reflexivity.
Qed.

Lemma filter_false_nil {A} (l : list A) : filter (fun _ => false) l = [].
Proof. induction l; [reflexivity|assumption]. Qed.

(** *** The graph of the dependencies *)

Section Kahn.
Import Lint Parser Props.
Variable h : Host.t.
Variable N : list string.
Hypothesis N_nodup : NoDup N.
Variable R : string -> string -> Prop.

Local Abbreviation cnt := (Props.cnt N).
Local Abbreviation wfGraph := (Props.wfGraph N R).
Local Abbreviation wf_keysG := (Props.wf_keysG N R).
Local Abbreviation wf_keysD := (Props.wf_keysD N R).
Local Abbreviation wf_nodup := (Props.wf_nodup N R).
Local Abbreviation wf_closed := (Props.wf_closed N R).
Local Abbreviation wf_edges := (Props.wf_edges N R).
Local Abbreviation wf_deg := (Props.wf_deg N R).
Local Abbreviation related := (Props.related h N R).
Local Abbreviation loopInv := (Props.loopInv N).
Local Abbreviation li_keysD := (Props.li_keysD N).
Local Abbreviation li_nodup := (Props.li_nodup N).
Local Abbreviation li_nodes := (Props.li_nodes N).
Local Abbreviation li_deg := (Props.li_deg N).
Local Abbreviation li_zero := (Props.li_zero N).
Local Abbreviation li_order := (Props.li_order N).

Lemma hasKey_In {V} (m : list (string * V)) k : hasKey k m = true <-> In k (keys m).
Proof.
  unfold hasKey. rewrite mapGet_key.
  destruct (mapGet String.eqb k m); split; congruence.
Qed.

Lemma successors_set G u l x :
  successors (mapSet String.eqb u l G) x
  = if String.eqb x u then l else successors G x.
Proof.
  unfold successors. destruct (String.eqb x u) eqn:E.
  - apply String.eqb_eq in E. subst. rewrite mapGet_set_same. reflexivity.
  - rewrite mapGet_set_other; [reflexivity|].
    intros ->. rewrite String.eqb_refl in E. discriminate.
Qed.

Lemma degreeOf_set D v d x :
  degreeOf (mapSet String.eqb v d D) x
  = if String.eqb x v then d else degreeOf D x.
Proof.
  unfold degreeOf. destruct (String.eqb x v) eqn:E.
  - apply String.eqb_eq in E. subst. rewrite mapGet_set_same. reflexivity.
  - rewrite mapGet_set_other; [reflexivity|].
    intros ->. rewrite String.eqb_refl in E. discriminate.
Qed.

Lemma mem_app_single x l y :
  Str.mem x (l ++ [y]) = Str.mem x l || String.eqb x y.
Proof.
  unfold Str.mem. rewrite existsb_app. cbn. rewrite orb_false_r. reflexivity.
Qed.

Lemma addEdge_wf G D v dep :
  In v N ->
  (In (Host.resolve h dep) N -> R (Host.resolve h dep) v) ->
  wfGraph G D ->
  wfGraph (fst (addEdge h v (G, D) dep)) (snd (addEdge h v (G, D) dep))
  /\ (forall u w, In w (successors G u) ->
                  In w (successors (fst (addEdge h v (G, D) dep)) u))
  /\ (In (Host.resolve h dep) N ->
      In v (successors (fst (addEdge h v (G, D) dep)) (Host.resolve h dep))).
Proof.
  intros Hv Hrank Hwf. unfold addEdge. set (u := Host.resolve h dep) in *.
  destruct (hasKey u G) eqn:Eu; cbn [andb].
  2:{ cbn [fst snd]. split; [exact Hwf|]. split; [auto|].
      intros Hu. exfalso. rewrite <- (wf_keysG _ _ Hwf) in Hu.
      apply hasKey_In in Hu. congruence. }
  apply hasKey_In in Eu. rewrite (wf_keysG _ _ Hwf) in Eu.
  destruct (Str.mem v (successors G u)) eqn:Emem; cbn [negb fst snd].
  { split; [exact Hwf|]. split; [auto|]. intros _. apply mem_In. exact Emem. }
  apply mem_false in Emem.
  split; [|split].
  - constructor.
    + rewrite keys_set_in; [apply Hwf|]. rewrite (wf_keysG _ _ Hwf). exact Eu.
    + rewrite keys_set_in; [apply Hwf|]. rewrite (wf_keysD _ _ Hwf). exact Hv.
    + intros x. rewrite successors_set. destruct (String.eqb x u); [|apply Hwf].
      apply NoDup_app; [apply Hwf|repeat constructor; intros []|].
      intros y Hy [<-|[]]. contradiction.
    + intros x w. rewrite successors_set. destruct (String.eqb x u) eqn:E.
      * apply String.eqb_eq in E. subst x. intros Hw.
        apply in_app_or in Hw as [Hw|[<-|[]]]; [eapply Hwf; exact Hw|auto].
      * apply Hwf.
    + intros x w. rewrite successors_set. destruct (String.eqb x u) eqn:E.
      * apply String.eqb_eq in E. subst x. intros Hw.
        apply in_app_or in Hw as [Hw|[<-|[]]]; [eapply Hwf; exact Hw|auto].
      * apply Hwf.
    + intros w Hw. rewrite degreeOf_set. unfold Props.cnt.
      destruct (String.eqb w v) eqn:E.
      * apply String.eqb_eq in E. subst w.
        rewrite (wf_deg _ _ Hwf v Hv). unfold Props.cnt.
        rewrite (filter_length_flip
                   (fun x => Str.mem v (successors G x) && negb (Str.mem x []))
                   (fun x => Str.mem v (successors (mapSet String.eqb u
                                                      (successors G u ++ [v]) G) x)
                             && negb (Str.mem x [])) N u N_nodup Eu).
        -- lia.
        -- cbn. rewrite andb_true_r. apply mem_false. exact Emem.
        -- rewrite successors_set, String.eqb_refl, mem_app_single, String.eqb_refl.
           rewrite orb_true_r. reflexivity.
        -- intros x Hx. rewrite successors_set.
           destruct (String.eqb x u) eqn:E; [|reflexivity].
           apply String.eqb_eq in E. contradiction.
      * rewrite (wf_deg _ _ Hwf w Hw). unfold Props.cnt. f_equal. f_equal.
        apply filter_ext. intros x. rewrite successors_set.
        destruct (String.eqb x u) eqn:Ex; [|reflexivity].
        apply String.eqb_eq in Ex. subst x.
        rewrite mem_app_single, E, orb_false_r. reflexivity.
  - intros x w Hw. rewrite successors_set. destruct (String.eqb x u) eqn:E; [|exact Hw].
    apply String.eqb_eq in E. subst x. apply in_or_app. left. exact Hw.
  - intros _. rewrite successors_set, String.eqb_refl. apply in_or_app. right.
    left. reflexivity.
Qed.


Lemma addEdge_fold_wf v (ds : list string) : forall G D,
  In v N ->
  (forall d, In d ds -> In (Host.resolve h d) N -> R (Host.resolve h d) v) ->
  wfGraph G D ->
  let r := fold_left (addEdge h v) ds (G, D) in
  wfGraph (fst r) (snd r)
  /\ (forall u w, In w (successors G u) -> In w (successors (fst r) u))
  /\ (forall d, In d ds -> In (Host.resolve h d) N ->
                In v (successors (fst r) (Host.resolve h d))).
Proof.
  induction ds as [|d ds IH]; intros G D Hv Hrank Hwf; cbn [fold_left].
  - cbn. split; [exact Hwf|]. split; [auto|intros ? []].
  - destruct (addEdge_wf G D v d Hv (Hrank d (or_introl eq_refl)) Hwf)
      as (Hwf1 & Hmono1 & Hadd1).
    destruct (addEdge h v (G, D) d) as [G1 D1] eqn:E1. cbn [fst snd] in *.
    destruct (IH G1 D1 Hv (fun d' Hd' => Hrank d' (or_intror Hd')) Hwf1)
      as (Hwf2 & Hmono2 & Hadd2).
    split; [exact Hwf2|]. split.
    + intros u w Hw. apply Hmono2, Hmono1, Hw.
    + intros d' [<-|Hd'] HdN.
      * apply Hmono2, Hadd1, HdN.
      * apply Hadd2; assumption.
Qed.

Lemma addEdges_fold_wf (es : Deps) : forall G D,
  related es -> wfGraph G D ->
  let r := fold_left (addEdges h) es (G, D) in
  wfGraph (fst r) (snd r)
  /\ (forall u w, In w (successors G u) -> In w (successors (fst r) u))
  /\ (forall a ds d, In (a, ds) es -> In d ds ->
        In (Host.resolve h a) N -> In (Host.resolve h d) N ->
        In (Host.resolve h a) (successors (fst r) (Host.resolve h d))).
Proof.
  induction es as [|[a ds] es IH]; intros G D Hrk Hwf; cbn [fold_left].
  - cbn. split; [exact Hwf|]. split; [auto|intros ? ? ? []].
  - assert (Hrk' : related es)
      by (intros a' ds' d' Hin; apply Hrk; right; exact Hin).
    assert (Estep : addEdges h (G, D) (a, ds)
                    = if hasKey (Host.resolve h a) G
                      then fold_left (addEdge h (Host.resolve h a)) ds (G, D)
                      else (G, D)) by reflexivity.
    rewrite Estep. clear Estep.
    destruct (hasKey (Host.resolve h a) G) eqn:Ea.
    + assert (HaN : In (Host.resolve h a) N)
        by (rewrite <- (wf_keysG _ _ Hwf); apply hasKey_In; exact Ea).
      destruct (addEdge_fold_wf (Host.resolve h a) ds G D HaN
                  (fun d Hd HdN => Hrk a ds d (or_introl eq_refl) Hd HaN HdN) Hwf)
        as (Hwf1 & Hmono1 & Hadd1).
      destruct (fold_left (addEdge h (Host.resolve h a)) ds (G, D)) as [G1 D1].
      cbn [fst snd] in *.
      destruct (IH G1 D1 Hrk' Hwf1) as (Hwf2 & Hmono2 & Hadd2).
      split; [exact Hwf2|]. split.
      * intros u w Hw. apply Hmono2, Hmono1, Hw.
      * intros a' ds' d' [E|Hin] Hd' Ha' HdN.
        -- injection E as <- <-. apply Hmono2, Hadd1; assumption.
        -- eapply Hadd2; eassumption.
    + destruct (IH G D Hrk' Hwf) as (Hwf2 & Hmono2 & Hadd2).
      split; [exact Hwf2|]. split; [exact Hmono2|].
      intros a' ds' d' [E|Hin] Hd' Ha' HdN.
      * injection E as <- <-. exfalso.
        rewrite <- (wf_keysG _ _ Hwf) in Ha'. apply hasKey_In in Ha'. congruence.
      * eapply Hadd2; eassumption.
Qed.

Hypothesis N_resolved : forall p, In p N -> Host.resolve h p = p.

Lemma init_wf : wfGraph (initGraph h N) (initDegrees h N).
Proof.
  unfold initGraph, initDegrees.
  destruct (fold_set_fresh (Host.resolve h) (fun _ : string => @nil string) N []
              N_resolved N_nodup (fun _ _ H => H)) as [HkG HgG].
  destruct (fold_set_fresh (Host.resolve h) (fun _ : string => 0%Z) N []
              N_resolved N_nodup (fun _ _ H => H)) as [HkD HgD].
  assert (Hsucc : forall u, successors
                    (fold_left (fun g path => mapSet String.eqb (Host.resolve h path) [] g) N [])
                    u = []).
  { intros u. unfold successors. rewrite HgG. destruct (Str.mem u N); reflexivity. }
  constructor.
  - exact HkG.
  - exact HkD.
  - intros u. rewrite Hsucc. constructor.
  - intros u v. rewrite Hsucc. intros [].
  - intros u v. rewrite Hsucc. intros [].
  - intros v Hv. unfold degreeOf. rewrite HgD. unfold Props.cnt.
    rewrite (filter_ext _ (fun _ => false))
      by (intros u; rewrite Hsucc; reflexivity).
    rewrite filter_false_nil. destruct (Str.mem v N); reflexivity.
Qed.


(** *** The loop *)

Lemma relax_fold (l : list string) : forall (D : Degrees) (q : list string),
  NoDup l -> (forall x, In x l -> In x (keys D)) ->
  keys (fst (fold_left relax l (D, q))) = keys D
  /\ (forall x, degreeOf (fst (fold_left relax l (D, q))) x
                = if Str.mem x l then (degreeOf D x - 1)%Z else degreeOf D x)
  /\ snd (fold_left relax l (D, q))
     = q ++ filter (fun nb => Z.eqb (degreeOf D nb - 1) 0) l.
Proof.
  induction l as [|nb l IH]; intros D q Hnd Hin; cbn [fold_left].
  - cbn. rewrite app_nil_r. auto.
  - inversion Hnd as [|? ? Hnotin Hnd']; subst.
    set (D1 := mapSet String.eqb nb (degreeOf D nb - 1)%Z D).
    assert (HkD1 : keys D1 = keys D)
      by (apply keys_set_in, Hin; left; reflexivity).
    assert (Hd1 : forall x, In x l -> degreeOf D1 x = degreeOf D x).
    { intros x Hx. unfold D1. rewrite degreeOf_set.
      destruct (String.eqb x nb) eqn:E; [|reflexivity].
      apply String.eqb_eq in E. subst. contradiction. }
    assert (Estep : relax (D, q) nb
                    = (D1, if Z.eqb (degreeOf D nb - 1) 0 then q ++ [nb] else q)).
    { unfold relax. fold D1. destruct (Z.eqb (degreeOf D nb - 1) 0); reflexivity. }
    rewrite Estep.
    destruct (IH D1 (if Z.eqb (degreeOf D nb - 1) 0 then q ++ [nb] else q) Hnd')
      as (Hk & Hd & Hq).
    { intros x Hx. rewrite HkD1. apply Hin. right. exact Hx. }
    split; [exact (eq_trans Hk HkD1)|]. split.
    + intros x. etransitivity; [apply Hd|]. cbn [Str.mem existsb]. fold (Str.mem x l).
      unfold D1. rewrite degreeOf_set.
      destruct (String.eqb x nb) eqn:E.
      * apply String.eqb_eq in E. subst x.
        destruct (Str.mem nb l) eqn:Em; [|reflexivity].
        apply mem_In in Em. contradiction.
      * reflexivity.
    + etransitivity; [apply Hq|]. cbn [filter].
      rewrite (filter_ext_in _ (fun nb0 => Z.eqb (degreeOf D nb0 - 1) 0) l)
        by (intros x Hx; rewrite (Hd1 x Hx); reflexivity).
      destruct (Z.eqb (degreeOf D nb - 1) 0); [rewrite <- app_assoc|]; reflexivity.
Qed.

Lemma cnt_zero G done v :
  cnt G done v = 0 ->
  forall u, In u N -> In v (successors G u) -> In u done.
Proof.
  unfold Props.cnt. intros Hc u Hu Hv.
  apply length_zero_iff_nil in Hc.
  destruct (Str.mem u done) eqn:E; [apply mem_In; exact E|].
  exfalso.
  assert (Hin : In u (filter (fun u0 => Str.mem v (successors G u0)
                                         && negb (Str.mem u0 done)) N)).
  { apply filter_In. split; [exact Hu|]. rewrite E.
    rewrite (proj2 (mem_In _ _) Hv). reflexivity. }
  rewrite Hc in Hin. destruct Hin.
Qed.

Lemma cnt_zero_intro G done v :
  (forall u, In u N -> In v (successors G u) -> In u done) -> cnt G done v = 0.
Proof.
  intros Hall. unfold Props.cnt.
  rewrite (filter_ext_in _ (fun _ => false)); [rewrite filter_false_nil; reflexivity|].
  intros u Hu. destruct (Str.mem v (successors G u)) eqn:E; [|reflexivity].
  apply mem_In in E. rewrite (proj2 (mem_In _ _) (Hall u Hu E)). reflexivity.
Qed.

Lemma loop_step G D current queue sorted :
  (forall u, NoDup (successors G u)) ->
  (forall u v, In v (successors G u) -> In u N /\ In v N) ->
  loopInv G D (current :: queue) sorted ->
  loopInv G (fst (fold_left relax (successors G current) (D, queue)))
    (snd (fold_left relax (successors G current) (D, queue)))
    (sorted ++ [current]).
Proof.
  intros Gnodup Gclosed Hinv.
  set (l := successors G current).
  assert (HcurN : In current N)
    by (apply (li_nodes _ _ _ _ Hinv); apply in_or_app; right; left; reflexivity).
  assert (HlN : forall x, In x l -> In x N) by (intros x Hx; eapply Gclosed; exact Hx).
  destruct (relax_fold l D queue (Gnodup current)) as (Hk & Hd & Hq).
  { intros x Hx. rewrite (li_keysD _ _ _ _ Hinv). apply HlN, Hx. }
  fold l.
  destruct (fold_left relax l (D, queue)) as [D' q''] eqn:Efold.
  cbn [fst snd] in *. subst q''.
  set (pushed := filter (fun nb => Z.eqb (degreeOf D nb - 1) 0) l).
  assert (Hcur_notsorted : ~ In current sorted).
  { intros Hin. pose proof (li_nodup _ _ _ _ Hinv) as Hnd.
    apply NoDup_remove_2 in Hnd. apply Hnd. apply in_or_app. left. exact Hin. }
  (* an old member is no successor of [current] *)
  assert (Hold : forall v, In v (sorted ++ current :: queue) -> ~ In v l).
  { intros v Hv Hvl.
    assert (HvN : In v N) by (apply (li_nodes _ _ _ _ Hinv), Hv).
    pose proof (proj1 (li_zero _ _ _ _ Hinv v HvN) Hv) as Hz.
    rewrite (li_deg _ _ _ _ Hinv v HvN) in Hz.
    apply Hcur_notsorted. apply (cnt_zero G sorted v); [lia|exact HcurN|exact Hvl]. }
  assert (Hperm_in : forall v, In v ((sorted ++ [current]) ++ queue ++ pushed)
                               <-> In v (sorted ++ current :: queue) \/ In v pushed).
  { intros v. repeat (rewrite in_app_iff || cbn [In]). tauto. }
  constructor.
  - rewrite Hk. apply Hinv.
  - (* no duplicates *)
    rewrite <- app_assoc. cbn [app].
    pose proof (li_nodup _ _ _ _ Hinv) as Hnd.
    change (sorted ++ current :: queue ++ pushed)
      with (sorted ++ (current :: queue) ++ pushed).
    rewrite app_assoc. apply NoDup_app; [exact Hnd|apply NoDup_filter, Gnodup|].
    intros v Hv Hp. apply (Hold v Hv). apply filter_In in Hp. apply Hp.
  - intros v Hv. apply Hperm_in in Hv as [Hv|Hv].
    + apply (li_nodes _ _ _ _ Hinv), Hv.
    + apply HlN. apply filter_In in Hv. apply Hv.
  - (* remaining in-degrees *)
    intros v HvN. rewrite Hd, (li_deg _ _ _ _ Hinv v HvN).
    destruct (Str.mem v l) eqn:Evl.
    + unfold Props.cnt.
      rewrite (filter_length_flip
                 (fun u => Str.mem v (successors G u)
                           && negb (Str.mem u (sorted ++ [current])))
                 (fun u => Str.mem v (successors G u) && negb (Str.mem u sorted))
                 N current N_nodup HcurN).
      * lia.
      * rewrite mem_app_single, String.eqb_refl, orb_true_r, andb_false_r. reflexivity.
      * fold l. rewrite Evl. rewrite (proj2 (mem_false _ _) Hcur_notsorted). reflexivity.
      * intros x Hx. rewrite mem_app_single.
        destruct (String.eqb x current) eqn:E;
          [apply String.eqb_eq in E; contradiction|].
        rewrite orb_false_r. reflexivity.
    + unfold Props.cnt. f_equal. f_equal. apply filter_ext. intros u.
      rewrite mem_app_single. destruct (String.eqb u current) eqn:E.
      * apply String.eqb_eq in E. subst u. fold l. rewrite Evl. reflexivity.
      * rewrite orb_false_r. reflexivity.
  - (* the members are the nodes of in-degree zero *)
    intros v HvN. rewrite Hperm_in, Hd. split.
    + intros [Hv|Hv].
      * rewrite (proj2 (mem_false _ _) (Hold v Hv)).
        apply (li_zero _ _ _ _ Hinv v HvN), Hv.
      * apply filter_In in Hv as [Hvl Hz].
        rewrite (proj2 (mem_In _ _) Hvl). apply Z.eqb_eq, Hz.
    + destruct (Str.mem v l) eqn:Evl.
      * intros Hz. right. apply filter_In. split; [apply mem_In, Evl|].
        apply Z.eqb_eq, Hz.
      * intros Hz. left. apply (li_zero _ _ _ _ Hinv v HvN), Hz.
  - (* predecessors come first *)
    intros l1 v l2 Hsplit u Hu.
    destruct l2 as [|x l2'] using rev_ind.
    + apply app_inj_tail in Hsplit as [-> ->].
      apply (cnt_zero G l1 v); [|exact (proj1 (Gclosed u v Hu))|exact Hu].
      assert (Hz : degreeOf D v = 0%Z).
      { apply (li_zero _ _ _ _ Hinv v HcurN). apply in_or_app. right. left.
        reflexivity. }
      rewrite (li_deg _ _ _ _ Hinv v HcurN) in Hz. lia.
    + clear IHl2'. rewrite app_comm_cons, app_assoc in Hsplit.
      apply app_inj_tail in Hsplit as [Hs _].
      apply (li_order _ _ _ _ Hinv l1 v l2' Hs u Hu).
Qed.


Lemma NoDup_incl_length_le (l : list string) :
  NoDup l -> (forall x, In x l -> In x N) -> List.length l <= List.length N.
Proof. intros Hnd Hin. apply NoDup_incl_length; assumption. Qed.

(** The loop ends within the fuel, and keeps its invariant. *)
Lemma kahnLoop_runs G (fuel : nat) : forall D queue sorted,
  (forall u, NoDup (successors G u)) ->
  (forall u v, In v (successors G u) -> In u N /\ In v N) ->
  loopInv G D queue sorted ->
  List.length N + 1 <= fuel + List.length sorted ->
  exists sorted' D',
    kahnLoop fuel G D queue sorted = Some sorted'
    /\ loopInv G D' [] sorted'
    /\ exists rest, sorted' = sorted ++ queue ++ rest.
Proof.
  induction fuel as [|fuel IH]; intros D queue sorted Gnodup Gclosed Hinv Hfuel.
  - destruct queue as [|current queue].
    + exists sorted, D. cbn. split; [reflexivity|]. split; [exact Hinv|].
      exists []. rewrite app_nil_r. reflexivity.
    + exfalso.
      pose proof (NoDup_incl_length_le _ (li_nodup _ _ _ _ Hinv)
                    (li_nodes _ _ _ _ Hinv)) as Hlen.
      rewrite length_app in Hlen. cbn in Hlen, Hfuel. lia.
  - destruct queue as [|current queue].
    + exists sorted, D. cbn. split; [reflexivity|]. split; [exact Hinv|].
      exists []. rewrite app_nil_r. reflexivity.
    + cbn [kahnLoop].
      pose proof (loop_step G D current queue sorted Gnodup Gclosed Hinv) as Hstep.
      destruct (fold_left relax (successors G current) (D, queue)) as [D1 q1] eqn:E.
      cbn [fst snd] in Hstep.
      assert (Hq1 : exists pushed, q1 = queue ++ pushed).
      { destruct (relax_fold (successors G current) D queue (Gnodup current))
          as (_ & _ & Hq).
        - intros x Hx. rewrite (li_keysD _ _ _ _ Hinv). eapply Gclosed. exact Hx.
        - rewrite E in Hq. cbn [snd] in Hq. eexists. exact Hq. }
      destruct Hq1 as [pushed ->].
      destruct (IH D1 (queue ++ pushed) (sorted ++ [current]) Gnodup Gclosed Hstep)
        as (sorted' & D' & Hrun & Hinv' & rest & Hrest).
      { rewrite length_app. cbn. lia. }
      exists sorted', D'. split; [exact Hrun|]. split; [exact Hinv'|].
      exists (pushed ++ rest). rewrite Hrest. rewrite <- !app_assoc. reflexivity.
Qed.

Lemma NoDup_map_fst_filter {V} (f : string * V -> bool) (m : list (string * V)) :
  NoDup (keys m) -> NoDup (List.map fst (filter f m)).
Proof.
  induction m as [|[k v] m IH]; intros Hnd; [constructor|].
  cbn in Hnd. inversion Hnd as [|? ? Hnotin Hnd']; subst. cbn [filter].
  destruct (f (k, v)); [|apply IH, Hnd'].
  cbn. constructor; [|apply IH, Hnd'].
  intros Hin. apply Hnotin. apply in_map_iff in Hin as ([k' v'] & Ek & Hin).
  cbn in Ek. subst k'. apply filter_In in Hin as [Hin _].
  apply in_map_iff. exists (k, v'). auto.
Qed.

Lemma zeroDegree_In D v :
  NoDup (keys D) -> In v (keys D) ->
  (In v (zeroDegree D) <-> degreeOf D v = 0%Z).
Proof.
  intros Hnd Hv. unfold zeroDegree, degreeOf. split.
  - intros Hin. apply in_map_iff in Hin as ([k d] & Ek & Hin). cbn in Ek. subst k.
    apply filter_In in Hin as [Hin Hz]. apply Z.eqb_eq in Hz. subst d.
    apply (mapGet_In v 0%Z D Hnd) in Hin. rewrite Hin. reflexivity.
  - intros Hz. apply mapGet_key in Hv.
    destruct (Lint.mapGet String.eqb v D) as [d|] eqn:E; [|congruence]. subst d.
    apply (mapGet_In v 0%Z D Hnd) in E.
    apply in_map_iff. exists (v, 0%Z). split; [reflexivity|].
    apply filter_In. split; [exact E|reflexivity].
Qed.

Lemma zeroDegree_filter D :
  NoDup (keys D) ->
  zeroDegree D = filter (fun p => Z.eqb (degreeOf D p) 0) (keys D).
Proof.
  unfold zeroDegree. induction D as [|[k d] D IH]; intros Hnd; [reflexivity|].
  cbn in Hnd. inversion Hnd as [|? ? Hnotin Hnd']; subst.
  cbn [filter keys List.map fst]. unfold degreeOf at 1. cbn [Lint.mapGet].
  rewrite String.eqb_refl.
  assert (Etail : filter (fun p => Z.eqb (degreeOf ((k, d) :: D) p) 0) (List.map fst D)
                  = filter (fun p => Z.eqb (degreeOf D p) 0) (keys D)).
  { apply filter_ext_in. intros p Hp. unfold degreeOf. cbn [Lint.mapGet].
    destruct (String.eqb p k) eqn:E; [|reflexivity].
    apply String.eqb_eq in E. subst p. contradiction. }
  rewrite Etail, <- (IH Hnd').
  destruct (Z.eqb d 0); reflexivity.
Qed.

Lemma init_loopInv G D : wfGraph G D -> loopInv G D (zeroDegree D) [].
Proof.
  intros Hwf.
  assert (HndD : NoDup (keys D)) by (rewrite (wf_keysD _ _ Hwf); exact N_nodup).
  constructor; cbn [app].
  - apply Hwf.
  - apply NoDup_map_fst_filter, HndD.
  - intros v Hv. rewrite <- (wf_keysD _ _ Hwf).
    unfold zeroDegree in Hv. apply in_map_iff in Hv as (kv & <- & Hin).
    apply filter_In in Hin as [Hin _]. apply in_map. exact Hin.
  - apply Hwf.
  - intros v Hv. apply zeroDegree_In; [exact HndD|].
    rewrite (wf_keysD _ _ Hwf). exact Hv.
  - intros l1 v l2 Hsplit. destruct l1; discriminate.
Qed.

(** With the edges ranked, the loop leaves no node out. *)
Lemma loop_complete (rank : string -> nat) G D sorted :
  (forall u v, In v (successors G u) -> rank u < rank v) ->
  loopInv G D [] sorted ->
  forall v, In v N -> In v sorted.
Proof.
  intros Hranked Hinv.
  assert (Hall : forall n v, rank v < n -> In v N -> In v sorted).
  { induction n as [|n IHn]; intros v Hr Hv; [lia|].
    rewrite <- (app_nil_r sorted). apply (li_zero _ _ _ _ Hinv v Hv).
    rewrite (li_deg _ _ _ _ Hinv v Hv).
    rewrite cnt_zero_intro; [reflexivity|].
    intros u Hu Hvu. apply IHn; [|exact Hu].
    pose proof (Hranked u v Hvu). lia. }
  intros v Hv. apply (Hall (S (rank v))); [lia|exact Hv].
Qed.

Hypothesis N_nonempty : forall p, In p N -> p <> EmptyString.

Lemma toOriginals_id (l : list string) : forall acc,
  NoDup l -> (forall x, In x l -> In x N) -> (forall x, In x l -> ~ In x acc) ->
  fold_left (fun result resolved =>
               match Lint.mapGet String.eqb resolved (initOriginals h N) with
               | Some original =>
                   if nonEmpty original && negb (Str.mem original result)
                   then result ++ [original] else result
               | None => result
               end) l acc
  = acc ++ l.
Proof.
  destruct (fold_set_fresh (Host.resolve h) (fun p : string => p) N []
              N_resolved N_nodup (fun _ _ H => H)) as [_ Hget].
  induction l as [|x l IH]; intros acc Hnd HinN Hfresh; cbn [fold_left].
  - rewrite app_nil_r. reflexivity.
  - inversion Hnd as [|? ? Hnotin Hnd']; subst.
    unfold initOriginals at 1. rewrite Hget.
    rewrite (proj2 (mem_In _ _) (HinN x (or_introl eq_refl))).
    assert (Hne : nonEmpty x = true).
    { pose proof (N_nonempty x (HinN x (or_introl eq_refl))).
      destruct x; [congruence|reflexivity]. }
    rewrite Hne, (proj2 (mem_false _ _) (Hfresh x (or_introl eq_refl))).
    cbn [andb negb]. rewrite IH.
    + rewrite <- app_assoc. reflexivity.
    + exact Hnd'.
    + intros y Hy. apply HinN. right. exact Hy.
    + intros y Hy Hin. apply in_app_or in Hin as [Hin|[<-|[]]].
      * apply (Hfresh y (or_intror Hy) Hin).
      * contradiction.
Qed.

Lemma filter_none {A} (f : A -> bool) (l : list A) :
  (forall x, In x l -> f x = false) -> filter f l = [].
Proof.
  induction l as [|a l IH]; intros Hall; [reflexivity|].
  cbn. rewrite (Hall a (or_introl eq_refl)). apply IH.
  intros x Hx. apply Hall. right. exact Hx.
Qed.

(** The sort ends; its result is the list the loop has sorted followed by
    the paths the loop has left out. *)
Lemma topologicalSort_runs (dependencies : Deps) :
  related dependencies ->
  exists G D D' sorted,
    fold_left (addEdges h) dependencies (initGraph h N, initDegrees h N) = (G, D)
    /\ topologicalSort h N dependencies
       = Some (sorted ++ filter (fun path => negb (Str.mem path sorted)) N)
    /\ wfGraph G D
    /\ loopInv G D' [] sorted
    /\ (exists rest, sorted = zeroDegree D ++ rest)
    /\ (forall a ds d,
          In (a, ds) dependencies -> In d ds ->
          In (Host.resolve h a) N -> In (Host.resolve h d) N ->
          In (Host.resolve h a) (successors G (Host.resolve h d))).
Proof.
  intros Hrel. unfold topologicalSort.
  destruct (addEdges_fold_wf dependencies (initGraph h N) (initDegrees h N)
              Hrel init_wf) as (Hwf & _ & Hcomplete).
  destruct (fold_left (addEdges h) dependencies (initGraph h N, initDegrees h N))
    as [G D] eqn:EG. cbn [fst snd] in *.
  destruct (kahnLoop_runs G (S (List.length N)) D (zeroDegree D) []
              (wf_nodup _ _ Hwf) (wf_closed _ _ Hwf) (init_loopInv G D Hwf))
    as (sorted & D' & Hrun & Hinv & rest & Hrest).
  { cbn. lia. }
  fold (zeroDegree D). rewrite Hrun.
  assert (Hnd : NoDup sorted)
    by (pose proof (li_nodup _ _ _ _ Hinv) as H0; rewrite app_nil_r in H0; exact H0).
  assert (HinN : forall x, In x sorted -> In x N).
  { intros x Hx. apply (li_nodes _ _ _ _ Hinv). rewrite app_nil_r. exact Hx. }
  unfold toOriginals. rewrite (toOriginals_id sorted [] Hnd HinN (fun _ _ H => H)).
  cbn [app]. exists G, D, D', sorted.
  split; [reflexivity|]. split; [reflexivity|]. split; [exact Hwf|].
  split; [exact Hinv|]. split; [exists rest; exact Hrest|exact Hcomplete].
Qed.

Lemma NoDup_filter {A} (f : A -> bool) (l : list A) :
  NoDup l -> NoDup (filter f l).
Proof.
  induction l as [|a l IH]; intros Hnd; [constructor|].
  inversion Hnd as [|? ? Hnotin Hnd']; subst. cbn [filter].
  destruct (f a); [|apply IH, Hnd'].
  constructor; [|apply IH, Hnd'].
  intros Hin. apply filter_In in Hin as [Hin _]. contradiction.
Qed.

(** Whatever the dependencies are, the result of the sort has every path of
    the list once, and it starts with the paths of in-degree zero in the order
    of the list. *)
Lemma topologicalSort_total (dependencies : Deps) :
  related dependencies ->
  exists result,
    topologicalSort h N dependencies = Some result
    /\ NoDup result
    /\ (forall p, In p result <-> In p N)
    /\ (exists rest,
          result
          = filter (fun p =>
                      Z.eqb (degreeOf
                               (snd (fold_left (addEdges h) dependencies
                                       (initGraph h N, initDegrees h N))) p) 0) N
            ++ rest).
Proof.
  intros Hrel.
  destruct (topologicalSort_runs dependencies Hrel)
    as (G & D & D' & sorted & EG & Hsort & Hwf & Hinv & (rest & Hrest) & _).
  assert (Hnd : NoDup sorted)
    by (pose proof (li_nodup _ _ _ _ Hinv) as H0; rewrite app_nil_r in H0; exact H0).
  assert (HinN : forall x, In x sorted -> In x N).
  { intros x Hx. apply (li_nodes _ _ _ _ Hinv). rewrite app_nil_r. exact Hx. }
  eexists. split; [exact Hsort|]. split; [|split].
  - apply NoDup_app; [exact Hnd|apply NoDup_filter, N_nodup|].
    intros x Hx Hf. apply filter_In in Hf as [_ Hf].
    apply negb_true_iff, mem_false in Hf. contradiction.
  - intros p. rewrite in_app_iff, filter_In. split.
    + intros [Hp|[Hp _]]; [apply HinN, Hp|exact Hp].
    + intros Hp. destruct (Str.mem p sorted) eqn:Em.
      * left. apply mem_In, Em.
      * right. split; [exact Hp|reflexivity].
  - exists (rest ++ filter (fun path => negb (Str.mem path sorted)) N).
    rewrite Hrest, EG. cbn [snd]. rewrite <- app_assoc. f_equal.
    rewrite zeroDegree_filter, (wf_keysD _ _ Hwf); [reflexivity|].
    rewrite (wf_keysD _ _ Hwf). exact N_nodup.
Qed.

End Kahn.

(** *** Acyclic dependencies *)

Section KahnOrder.
Import Lint Parser Props.
Variable h : Host.t.
Variable N : list string.
Hypothesis N_nodup : NoDup N.
Hypothesis N_resolved : forall p, In p N -> Host.resolve h p = p.
Hypothesis N_nonempty : forall p, In p N -> p <> EmptyString.
Variable rank : string -> nat.

(** With acyclic dependencies the loop sorts every path, and a file comes
    after each file it imports. *)
Lemma topologicalSort_orders (dependencies : Deps) :
  ranked h N rank dependencies ->
  exists result,
    topologicalSort h N dependencies = Some result
    /\ forall a ds d,
         In (a, ds) dependencies -> In d ds ->
         In (Host.resolve h a) N -> In (Host.resolve h d) N ->
         before (Host.resolve h d) (Host.resolve h a) result.
Proof.
  intros Hrk.
  destruct (topologicalSort_runs h N N_nodup (fun d a => rank d < rank a)
              N_resolved N_nonempty dependencies Hrk)
    as (G & D & D' & sorted & EG & Hsort & Hwf & Hinv & _ & Hcomplete).
  pose proof (loop_complete N rank G D' sorted
                (Props.wf_edges _ _ _ _ Hwf) Hinv) as Hall.
  eexists. split; [exact Hsort|].
  intros a ds d Hin Hd Ha HdN.
  pose proof (Hcomplete a ds d Hin Hd Ha HdN) as Hedge.
  destruct (in_split _ _ (Hall _ Ha)) as (l1 & l3 & Hs).
  pose proof (Props.li_order _ _ _ _ _ Hinv l1 _ l3 Hs _ Hedge) as Hbefore.
  destruct (in_split _ _ Hbefore) as (l1a & l1b & ->).
  exists l1a, l1b, (l3 ++ filter (fun path => negb (Str.mem path sorted)) N).
  rewrite Hs. repeat (rewrite <- app_assoc; cbn [app]). reflexivity.
Qed.

End KahnOrder.

(** *** The import list of the parser *)

Section Imports.
Import Lint Parser Props.

Lemma unique_fold (l : list string) : forall acc,
  NoDup acc ->
  NoDup (fold_left (fun acc x => if Str.mem x acc then acc else acc ++ [x]) l acc)
  /\ forall x,
       In x (fold_left (fun acc x => if Str.mem x acc then acc else acc ++ [x])
               l acc)
       <-> In x acc \/ In x l.
Proof.
  induction l as [|a l IH]; intros acc Hnd; cbn [fold_left].
  - split; [exact Hnd|]. intros x. cbn [In]. tauto.
  - destruct (Str.mem a acc) eqn:Em.
    + destruct (IH acc Hnd) as [H1 H2]. split; [exact H1|].
      intros x. rewrite H2. cbn [In]. apply mem_In in Em.
      split; [tauto|]. intros [H|[<-|H]]; auto.
    + apply mem_false in Em.
      assert (Hnd' : NoDup (acc ++ [a])).
      { apply NoDup_app; [exact Hnd|repeat constructor; intros []|].
        intros x Hx [<-|[]]. exact (Em Hx). }
      destruct (IH (acc ++ [a]) Hnd') as [H1 H2]. split; [exact H1|].
      intros x. rewrite H2, in_app_iff. cbn [In]. tauto.
Qed.

Lemma unique_NoDup (l : list string) : NoDup (unique l).
Proof. apply (unique_fold l []). constructor. Qed.

Lemma unique_In (l : list string) (x : string) : In x (unique l) <-> In x l.
Proof.
  unfold unique. rewrite (proj2 (unique_fold l [] (NoDup_nil _))). cbn [In]. tauto.
Qed.

(** C5: when the paths of the imports are resolved paths, the parser ends
    with an import list that has every imported path once and that starts
    with the files that import none of the listed files, in the order of
    their discovery; and when the recorded dependencies between the listed
    files are acyclic, a file that another one imports comes before its
    importer. *)
Theorem imports_deduplicated_and_sorted (h : Host.t) (st : PState) :
  (forall p, In p (p_imports st) -> Host.resolve h p = p /\ p <> EmptyString) ->
  exists st',
    finish h st = Ok st'
    /\ NoDup (p_imports st')
    /\ (forall p, In p (p_imports st') <-> In p (p_imports st))
    /\ (exists rest,
          p_imports st'
          = filter (fun p =>
                      Z.eqb (degreeOf
                               (snd (fold_left (addEdges h) (p_deps st)
                                       (initGraph h (unique (p_imports st)),
                                        initDegrees h (unique (p_imports st)))))
                               p) 0)
              (unique (p_imports st))
            ++ rest)
    /\ (forall rank : string -> nat,
          ranked h (p_imports st) rank (p_deps st) ->
          forall a ds d,
            In (a, ds) (p_deps st) -> In d ds ->
            In (Host.resolve h a) (p_imports st) ->
            In (Host.resolve h d) (p_imports st) ->
            before (Host.resolve h d) (Host.resolve h a) (p_imports st')).
Proof.
  intros Hpaths.
  assert (Hres : forall p, In p (unique (p_imports st)) -> Host.resolve h p = p)
    by (intros p Hp; apply Hpaths, unique_In, Hp).
  assert (Hne : forall p, In p (unique (p_imports st)) -> p <> EmptyString)
    by (intros p Hp; apply Hpaths, unique_In, Hp).
  destruct (topologicalSort_total h (unique (p_imports st)) (unique_NoDup _)
              (fun _ _ => True) Hres Hne (p_deps st))
    as (result & Hsort & Hnd & Hmem & Hfirst).
  { intros a ds d _ _ _ _. exact I. }
  unfold finish. rewrite Hsort. eexists. split; [reflexivity|].
  cbn [p_imports]. split; [exact Hnd|]. split; [|split; [exact Hfirst|]].
  - intros p. rewrite Hmem. apply unique_In.
  - intros rank Hranked a ds d Hin Hd Ha HdN.
    destruct (topologicalSort_orders h (unique (p_imports st)) (unique_NoDup _)
                Hres Hne rank (p_deps st))
      as (result' & Hsort' & Horder).
    { intros a' ds' d' Hin' Hd' Ha' HdN'.
      apply (proj1 (unique_In _ _)) in Ha'.
      apply (proj1 (unique_In _ _)) in HdN'.
      exact (Hranked a' ds' d' Hin' Hd' Ha' HdN'). }
    rewrite Hsort in Hsort'. injection Hsort' as <-.
    apply Horder with (ds := ds); try assumption;
      apply (proj2 (unique_In _ _)); assumption.
Qed.

End Imports.

(** The imports of the file [/repo/.chous] of the example workspace: it
    imports [base] and [common], and [base] imports [common], so [common]
    comes first. *)
Lemma imports_sorted_witness :
  let st :=
    Parser.mkPState w_config []
      ["/repo/base.chous"; "/repo/common.chous"; "/repo/common.chous"]
      [("/repo/base.chous", ["/repo/common.chous"]);
       ("/repo/.chous", ["/repo/base.chous"; "/repo/common.chous"])] 0 in
  exists st',
    Parser.finish Example.host st = Parser.Ok st'
    /\ NoDup (Parser.p_imports st')
    /\ Props.before "/repo/common.chous" "/repo/base.chous" (Parser.p_imports st').
Proof.
  intros st.
  destruct (imports_deduplicated_and_sorted Example.host st)
    as (st' & Hfinish & Hnodup & _ & _ & Horder).
  - intros p Hp. split; [reflexivity|].
    cbn in Hp. destruct Hp as [<-|[<-|[<-|[]]]]; discriminate.
  - exists st'. split; [exact Hfinish|]. split; [exact Hnodup|].
    assert (Hranked : Props.ranked Example.host (Parser.p_imports st)
                        (fun p => if String.eqb p "/repo/common.chous"
                                  then 0 else 1)
                        (Parser.p_deps st)).
    { intros a ds d Hin Hd Ha HdN. cbn in Hin.
      destruct Hin as [E|[E|[]]]; injection E as <- <-.
      - cbn in Hd. destruct Hd as [<-|[]]. cbn. lia.
      - cbn in Ha. destruct Ha as [E|[E|[E|[]]]]; discriminate. }
    apply (Horder _ Hranked "/repo/base.chous" ["/repo/common.chous"]
             "/repo/common.chous"); cbn; auto.
Defined.

(** The parser run on that file gives the same order. *)
Example imports_of_the_example :
  Parser.parseFsLintConfig Example.host 3
    ("import base" ++ Example.nl ++ "import common") (Some "/repo/.chous")
  = Parser.Ok
      (mkConfig w_config [Allow ["*.md"]; NoFiles ["*.log"]; Allow ["*.md"]]
         ["/repo/common.chous"; "/repo/base.chous"]).
Proof. vm_compute. reflexivity. Qed.

(** A text for the path [/repo/main.chous] that imports [a], while the file
    [a.chous] imports the file [main.chous] of the disk: the dependencies
    recorded are cyclic, the sort leaves both files in the order of their
    discovery, and [a.chous] comes before the file it imports. *)
Lemma imports_of_a_cycle :
  Host.readFileSync Example.host "/repo/a.chous" = Some "import main"
  /\ Host.readFileSync Example.host "/repo/main.chous" = Some "allow *.md"
  /\ Parser.parseFsLintConfigInternal Example.host 3 "import a"
       (Some "/repo/main.chous") [] 0
     = Parser.Ok
         (Parser.mkPState w_config [(0, Allow ["*.md"])]
            ["/repo/a.chous"; "/repo/main.chous"]
            [("/repo/a.chous", ["/repo/main.chous"]);
             ("/repo/main.chous", ["/repo/a.chous"])] 1)
  /\ Parser.parseFsLintConfig Example.host 3 "import a" (Some "/repo/main.chous")
     = Parser.Ok
         (mkConfig w_config [Allow ["*.md"]]
            ["/repo/a.chous"; "/repo/main.chous"])
  /\ ~ Props.before "/repo/main.chous" "/repo/a.chous"
         ["/repo/a.chous"; "/repo/main.chous"].
Proof.
  repeat split; try (vm_compute; reflexivity).
  intros (l1 & l2 & l3 & E).
  destruct l1 as [|x l1]; cbn [app] in E; [discriminate|].
  apply (f_equal (@List.length string)) in E.
  cbn [List.length] in E. rewrite length_app in E. cbn [List.length] in E.
  rewrite length_app in E. cbn [List.length] in E. lia.
Qed.
(** ** What the regular expressions of the code match *)

Section RegexFacts.
Import Regex.

Local Abbreviation done := (fun st : mstate => Some st).

Lemma search_bol_none (a : re) (s : string) : forall i b,
  0 < i -> search (Seq Bol a) i b s = None.
Proof.
  induction s as [|ch s IH]; intros i b Hi; cbn [search run pos].
  - destruct (Nat.eqb_spec i 0); [lia|reflexivity].
  - destruct (Nat.eqb_spec i 0); [lia|]. apply IH. lia.
Qed.

(** an expression that starts with [^] matches at the start or nowhere *)
Lemma test_bol (a : re) (s : string) :
  test (Seq Bol a) s
  = match run a done (MState 0 s []) with Some _ => true | None => false end.
Proof.
  unfold test, exec. destruct s as [|ch s]; cbn [search run pos Nat.eqb].
  - destruct (run a done (MState 0 "" [])); reflexivity.
  - destruct (run a done (MState 0 (String ch s) [])); [reflexivity|].
    rewrite search_bol_none by lia. reflexivity.
Qed.

Lemma exec_bol (a : re) (s : string) :
  exec (Seq Bol a) s
  = match run a done (MState 0 s []) with
    | Some st => Some (RMatch 0 "" (Str.take (pos st - 0) s) (rest st) (caps st))
    | None => None
    end.
Proof.
  unfold exec. destruct s as [|ch s]; cbn [search run pos Nat.eqb].
  - destruct (run a done (MState 0 "" [])); reflexivity.
  - destruct (run a done (MState 0 (String ch s) [])); [reflexivity|].
    rewrite search_bol_none by lia. reflexivity.
Qed.

(** a greedy [[p]*] before [$]: all of the rest is in the class or there is
    no match *)
Lemma starLoop_class_eol (p : ascii -> bool) (k : mstate -> option mstate) :
  (forall st, k st = match rest st with EmptyString => Some st | _ => None end) ->
  forall s n i cs,
    String.length s < n ->
    starLoop (run (Chr p)) true k n (MState i s cs)
    = if Str.all p s then Some (MState (i + String.length s) "" cs) else None.
Proof.
  intros Hk. induction s as [|ch s IH]; intros n i cs Hn;
    (destruct n as [|n]; [cbn in Hn; lia|]); cbn [starLoop run rest pos caps].
  - rewrite Hk. cbn. rewrite Nat.add_0_r. reflexivity.
  - cbn [Str.all String.length]. destruct (p ch); cbn [andb].
    + assert (Hlt : Nat.ltb i (S i) = true) by (apply Nat.ltb_lt; lia).
      rewrite Hlt, IH by (cbn in Hn; lia).
      destruct (Str.all p s).
      * f_equal. f_equal. lia.
      * rewrite Hk. reflexivity.
    + rewrite Hk. reflexivity.
Qed.

(** a greedy [[p]*] over a rest that is all in the class goes to the end
    when what follows matches there *)
Lemma starLoop_class_all (p : ascii -> bool) (k : mstate -> option mstate) x :
  forall s n i cs,
    String.length s <= n ->
    Str.all p s = true ->
    k (MState (i + String.length s) "" cs) = Some x ->
    starLoop (run (Chr p)) true k n (MState i s cs) = Some x.
Proof.
  induction s as [|ch s IH]; intros n i cs Hn Hall Hend.
  - cbn in Hend. rewrite Nat.add_0_r in Hend.
    destruct n; cbn [starLoop run rest]; [exact Hend|]. exact Hend.
  - cbn in Hn. destruct n as [|n]; [lia|]. cbn [starLoop run rest pos caps].
    cbn [Str.all] in Hall. apply andb_prop in Hall as [Hc Hall]. rewrite Hc. cbn [pos].
    assert (Hlt : Nat.ltb i (S i) = true) by (apply Nat.ltb_lt; lia).
    assert (IH' : starLoop (run (Chr p)) true k n (MState (S i) s cs) = Some x).
    { apply IH; [lia|exact Hall|].
      cbn [String.length] in Hend. rewrite <- Hend. f_equal. f_equal. lia. }
    rewrite Hlt.
    change (match starLoop (run (Chr p)) true k n (MState (S i) s cs) with
            | Some x0 => Some x0
            | None => k (MState i (String ch s) cs)
            end = Some x).
    rewrite IH'. reflexivity.
Qed.

(** [/^[p]+$/] *)
Lemma test_all_of_class (p : ascii -> bool) (s : string) :
  test (seqs [Bol; plus true (Chr p); Eol]) s
  = negb (Str.isEmpty s) && Str.all p s.
Proof.
  cbn [seqs]. rewrite test_bol. unfold plus.
  destruct s as [|ch s]; cbn [run rest pos caps Str.isEmpty negb andb Str.all];
    [reflexivity|].
  destruct (p ch); cbn [andb]; [|reflexivity].
  rewrite (starLoop_class_eol p) by (auto; cbn; lia).
  destruct (Str.all p s); reflexivity.
Qed.

(** [/^[p][q]*$/] *)
Lemma test_head_and_class (p q : ascii -> bool) (s : string) :
  test (seqs [Bol; Chr p; Star true (Chr q); Eol]) s
  = match s with
    | String ch s' => p ch && Str.all q s'
    | EmptyString => false
    end.
Proof.
  cbn [seqs]. rewrite test_bol.
  destruct s as [|ch s]; cbn [run rest pos caps]; [reflexivity|].
  destruct (p ch); cbn [andb]; [|reflexivity].
  rewrite (starLoop_class_eol q) by (auto; cbn; lia).
  destruct (Str.all q s); reflexivity.
Qed.

(** [/[p]/]: some character is in the class *)
Lemma test_some_of_class (p : ascii -> bool) (s : string) :
  test (Chr p) s = negb (Str.all (fun x => negb (p x)) s).
Proof.
  unfold test, exec. generalize 0 as i, EmptyString as b.
  induction s as [|ch s IH]; intros i b; cbn [search run rest Str.all].
  - reflexivity.
  - destruct (p ch); cbn [negb andb]; [reflexivity|]. apply IH.
Qed.

End RegexFacts.

(** ** The issues of a run *)

Section IssueFacts.
Import Types Lint Props Shapes.
Variable h : Host.t.
Variable root : string.
Local Abbreviation wellFormed := (Shapes.wellFormed h root).
Local Abbreviation loop config :=
  (fold_left (handleRule h root (cfg_rules config)
                (buildGroups h root (cfg_rules config)))).
Local Abbreviation shared config := (sharedNames h root (cfg_rules config)).

Ltac in_new H :=
  repeat (cbv zeta in H;
          match type of H with
          | In _ (_ ++ _) => apply in_app_or in H as [H|H]
          | In _ (flat_map _ _) => apply in_flat_map in H as (? & ? & H)
          | In _ (List.map _ _) => apply in_map_iff in H as (? & H & ?)
          | In _ (if ?c then _ else _) => destruct c
          | In _ (match ?c with _ => _ end) => destruct c
          | In _ (let '(_, _) := ?c in _) => destruct c
          | In _ [] => destruct H
          | In _ (_ :: _) => destruct H as [H|H]
          end).

Ltac shape :=
  subst; unfold Shapes.wellFormed;
  cbn [displayPath path message ruleKind category severity messageKind
       messageCategory mayWarn];
  repeat match goal with
         | |- context [if ?c then _ else _] => destruct c
         end;
  cbn [displayPath path message ruleKind category severity messageKind
       messageCategory mayWarn];
  repeat split; try reflexivity; try discriminate.

Lemma namingIssue_shape rule applies candidates name abs isDir i :
  In i (namingIssue h root rule applies candidates name abs isDir) ->
  wellFormed i.
Proof.
  unfold namingIssue, namingMessage. intros H.
  destruct (tryRules _ _ _ _ _ _) as [p1 f1].
  destruct p1; [destruct H|].
  destruct (tryRules _ _ _ _ _ _) as [p2 f2]. destruct p2; [destruct H|].
  destruct H as [<-|[]].
  destruct f2 as [[r [ | | | ]]|]; shape.
Qed.

Lemma handleHas_shape names : forall st,
  (forall i, In i (rawIssues st) -> wellFormed i) ->
  forall i, In i (rawIssues (handleHas h root names st)) -> wellFormed i.
Proof.
  unfold handleHas. induction names as [|n names IH]; intros st Hst; [exact Hst|].
  cbn [fold_left]. apply IH. intros i Hi. unfold handleHasName in Hi.
  destruct (isGlobPattern n).
  - destruct (scanOne _ _ _ _).
    + cbn in Hi. apply in_app_or in Hi as [Hi|[<-|[]]]; [apply Hst, Hi|shape].
    + apply Hst, Hi.
  - destruct (Host.existsSync h (Host.resolve2 h root n)).
    + apply Hst, Hi.
    + cbn in Hi. apply in_app_or in Hi as [Hi|[<-|[]]]; [apply Hst, Hi|shape].
Qed.

Lemma handleRule_shape rules groups st r :
  (forall i, In i (rawIssues st) -> wellFormed i) ->
  forall i, In i (rawIssues (handleRule h root rules groups st r)) -> wellFormed i.
Proof.
  intros Hst i.
  destruct r as [from toDir|pattern only|fromNames toName|from to|d|n|names
                |names|names|names]; cbn [handleRule]; intros Hi.
  - unfold handleMove in Hi. cbn [rawIssues pushIssues] in Hi.
    apply in_app_or in Hi as [Hi|Hi]; [apply Hst, Hi|].
    in_new Hi; shape.
  - unfold handleThoseOnly in Hi. cbn [rawIssues pushIssues markProcessed] in Hi.
    apply in_app_or in Hi as [Hi|Hi].
    + apply Hst. destruct (Str.mem pattern (processedThoseOnlyPatterns st)).
      * apply removeIssues_In in Hi. tauto.
      * exact Hi.
    + unfold thoseOnlyIssuesOf in Hi. in_new Hi; shape.
  - unfold handleRenameDir in Hi. cbn [rawIssues pushIssues] in Hi.
    apply in_app_or in Hi as [Hi|Hi]; [apply Hst, Hi|].
    in_new Hi; shape.
  - unfold handleRenameGlob in Hi. cbn [rawIssues pushIssues] in Hi.
    apply in_app_or in Hi as [Hi|Hi]; [apply Hst, Hi|].
    apply in_map_iff in Hi as (abs & <- & _).
    destruct (computeRenameDest _ _ _ _ _); shape.
  - apply Hst, Hi.
  - unfold handleNaming, handleNamingIn, handleNamingThose in Hi.
    destruct (n_target n); cbn [rawIssues pushIssues] in Hi;
      (apply in_app_or in Hi as [Hi|Hi]; [apply Hst, Hi|]).
    + apply in_flat_map in Hi as (dirAbs & _ & Hi).
      apply in_flat_map in Hi as (entry & _ & Hi).
      repeat match type of Hi with
             | In _ (if ?c then _ else _) => destruct c; [destruct Hi|]
             end.
      eapply namingIssue_shape. exact Hi.
    + apply in_flat_map in Hi as (abs & _ & Hi).
      repeat match type of Hi with
             | In _ (if ?c then _ else _) => destruct c; [destruct Hi|]
             end.
      eapply namingIssue_shape. exact Hi.
  - unfold handleNo in Hi. cbn [rawIssues pushIssues] in Hi.
    apply in_app_or in Hi as [Hi|Hi].
    + apply Hst. apply removeIssues_In in Hi. tauto.
    + unfold noIssuesOf in Hi. in_new Hi; shape.
  - revert i Hi. apply handleHas_shape. exact Hst.
  - apply Hst. unfold handleAllow in Hi. apply removeIssues_In in Hi. tauto.
  - apply Hst. unfold handleOptional in Hi. apply removeIssues_In in Hi. tauto.
Qed.

Lemma processGroups_shape forceStrict moved groups : forall ra i,
  In i (fst (processGroups h root forceStrict moved groups ra)) -> wellFormed i.
Proof.
  induction groups as [|[dir group] groups IH]; intros ra i Hi; [destruct Hi|].
  cbn [processGroups] in Hi.
  destruct (processGroup h root forceStrict moved ra dir group) as [issues ra1] eqn:E1.
  destruct (processGroups h root forceStrict moved groups ra1) as [issues' ra2] eqn:E2.
  cbn [fst] in Hi. apply in_app_or in Hi as [Hi|Hi].
  - unfold processGroup in E1.
    repeat match type of E1 with
           | (if ?c then _ else _) = _ => destruct c
           | (let '(_, _) := ?c in _) = _ => destruct c
           end; injection E1 as <- _; try (destruct Hi; fail).
    + destruct Hi as [<-|[]]. shape.
    + apply in_flat_map in Hi as (rel & _ & Hi). unfold checkEntry in Hi.
      repeat match type of Hi with
             | In _ (if ?c then _ else _) => destruct c; [destruct Hi|]
             end.
      destruct Hi as [<-|[]]. shape.
  - apply (IH ra1 i). rewrite E2. exact Hi.
Qed.

Lemma loop_shape config rs : forall st,
  (forall i, In i (rawIssues st) -> wellFormed i) ->
  forall i, In i (rawIssues (loop config rs st)) -> wellFormed i.
Proof.
  induction rs as [|r rs IH]; intros st Hst; [exact Hst|].
  cbn [fold_left]. apply IH. apply handleRule_shape. exact Hst.
Qed.

(** X1: every issue of a run is well formed: its display path is the path
    relative to the root, its message is one of the messages of its kind,
    its category is [missing] exactly for the messages [dirMustExist] and
    [mustExist], and it is a warning only if its kind is [move],
    [renameDir] or [renameGlob]. *)
Theorem issues_are_well_formed (config : FsLintConfig) (forceStrict : bool)
    (i : Issue) :
  In i (lintWorkspace h root config forceStrict) -> Shapes.wellFormed h root i.
Proof.
  unfold lintWorkspace, rawIssuesOf, runRules. intros Hi.
  apply finalFilter_incl in Hi. revert i Hi. apply loop_shape.
  unfold stateAfterGroups. intros i Hi.
  destruct (processGroups h root forceStrict _ _ None) as [gi ra] eqn:E.
  cbn [rawIssues] in Hi. eapply processGroups_shape. rewrite E. exact Hi.
Qed.

(** without a rule of kind [inDirOnly], [allow] or [has] there is no group *)
Lemma buildGroups_rules rules :
  buildGroups h root rules <> [] ->
  exists r, In r rules
            /\ (kindOf r = k_inDirOnly \/ kindOf r = k_allow \/ kindOf r = k_has).
Proof.
  intros Hne.
  destruct (inDirRules rules) as [|d l1] eqn:E1.
  2:{ assert (Hd : In d (inDirRules rules)) by (rewrite E1; left; reflexivity).
      unfold inDirRules in Hd. apply in_flat_map in Hd as (r & Hr & Hd).
      exists r. split; [exact Hr|]. destruct r; try (destruct Hd; fail); cbn [kindOf]; auto. }
  destruct (allowRules rules) as [|a l2] eqn:E2.
  2:{ assert (Ha : In a (allowRules rules)) by (rewrite E2; left; reflexivity).
      unfold allowRules in Ha. apply in_flat_map in Ha as (r & Hr & Ha).
      exists r. split; [exact Hr|]. destruct r; try (destruct Ha; fail); cbn [kindOf]; auto. }
  destruct (hasRules rules) as [|b l3] eqn:E3.
  2:{ assert (Hb : In b (hasRules rules)) by (rewrite E3; left; reflexivity).
      unfold hasRules in Hb. apply in_flat_map in Hb as (r & Hr & Hb).
      exists r. split; [exact Hr|]. destruct r; try (destruct Hb; fail); cbn [kindOf]; auto. }
  exfalso. apply Hne. unfold buildGroups. rewrite E1, E2, E3. reflexivity.
Qed.

(** X2: an issue of a run has the kind of a rule of the configuration, or it
    is an issue of kind [inDirOnly] of the group of the root directory that
    an [allow] or a [has] rule opens; a configuration without rules has no
    issue. *)
Theorem issue_kinds_come_from_rules (config : FsLintConfig) (forceStrict : bool)
    (i : Issue) :
  In i (lintWorkspace h root config forceStrict) ->
  exists r, In r (cfg_rules config)
            /\ (kindOf r = ruleKind i
                \/ (ruleKind i = k_inDirOnly
                    /\ (kindOf r = k_allow \/ kindOf r = k_has))).
Proof.
  unfold lintWorkspace, rawIssuesOf. intros Hi.
  apply finalFilter_incl in Hi.
  apply runRules_provenance in Hi as [Hi|(r & Hr & Hk & _)].
  - pose proof (stateAfterGroups_kind h root config forceStrict i Hi) as Hk.
    unfold stateAfterGroups in Hi.
    destruct (buildGroups h root (cfg_rules config)) as [|g gs] eqn:E.
    + destruct Hi.
    + destruct (buildGroups_rules (cfg_rules config)) as (r & Hr & Hkind).
      { rewrite E. discriminate. }
      exists r. split; [exact Hr|]. rewrite Hk.
      destruct Hkind as [Hkind|Hkind]; [left; exact Hkind|right; auto].
  - exists r. split; [exact Hr|left; symmetry; exact Hk].
Qed.

(** *** What stays on the record *)

Lemma handleRule_keeps rules groups st r i :
  In i (rawIssues st) -> ~ Shapes.removes h root [] r i ->
  In i (rawIssues (handleRule h root rules groups st r)).
Proof.
  intros Hi Hrem.
  assert (Hkeep : forall k paths,
             ~ (ruleKind i = k /\ In (Host.resolve h (path i)) paths
                /\ path i <> EmptyString) ->
             In i (rawIssues (removeIssues h k paths st))).
  { intros k paths Hnot. apply removeIssues_keeps; [exact Hi|]. tauto. }
  destruct r as [from toDir|pattern only|fromNames toName|from to|d|r
                |names|names|names|names]; cbn [handleRule].
  - unfold handleMove. cbn [rawIssues pushIssues]. apply in_or_app. left. exact Hi.
  - unfold handleThoseOnly, markProcessed.
    cbn [rawIssues pushIssues]. apply in_or_app. left.
    destruct (Str.mem pattern (processedThoseOnlyPatterns st)); [|exact Hi].
    apply Hkeep. intros (Hk & Hin & Hne). apply Hrem. unfold Shapes.removes.
    split; [exact Hne|]. split; [exact Hk|]. rewrite matchedFiles_single. exact Hin.
  - unfold handleRenameDir. cbn [rawIssues pushIssues]. apply in_or_app. left.
    exact Hi.
  - unfold handleRenameGlob. cbn [rawIssues pushIssues]. apply in_or_app. left.
    exact Hi.
  - exact Hi.
  - unfold handleNaming, handleNamingIn, handleNamingThose.
    destruct (n_target r); cbn [rawIssues pushIssues]; apply in_or_app; left;
      exact Hi.
  - unfold handleNo. cbn [rawIssues pushIssues]. apply in_or_app. left.
    apply Hkeep. intros (Hk & Hin & Hne). apply Hrem. unfold Shapes.removes. auto.
  - apply handleHas_keeps. exact Hi.
  - unfold handleAllow. apply Hkeep. intros (Hk & Hin & Hne). apply Hrem.
    unfold Shapes.removes. rewrite app_nil_r. auto.
  - unfold handleOptional. apply Hkeep. intros (Hk & Hin & Hne). apply Hrem.
    unfold Shapes.removes. auto.
Qed.

Lemma loop_keeps config rs : forall st i,
  In i (rawIssues st) -> (forall r, In r rs -> ~ Shapes.removes h root [] r i) ->
  In i (rawIssues (loop config rs st)).
Proof.
  induction rs as [|r rs IH]; intros st i Hi Hrs; [exact Hi|].
  cbn [fold_left]. apply IH.
  - apply handleRule_keeps; [exact Hi|]. apply Hrs. left. reflexivity.
  - intros r' Hr'. apply Hrs. right. exact Hr'.
Qed.

(** what a rule takes out as the loop finds it, it takes out with the names
    of the grouping counted *)
Lemma removes_found extra r r' i :
  r' = r \/ (exists ns, r = Allow ns /\ r' = Allow (ns ++ extra)) ->
  Shapes.removes h root [] r' i -> Shapes.removes h root extra r i.
Proof.
  intros [->|(ns & -> & ->)]; unfold Shapes.removes; intros [Hne Hrem];
    (split; [exact Hne|]).
  - destruct r; try exact Hrem. destruct Hrem as [Hk Hin]. split; [exact Hk|].
    rewrite app_nil_r in Hin. apply matchedFiles_app. exact Hin.
  - rewrite app_nil_r in Hrem. exact Hrem.
Qed.

(** the rules after the first ones, as the loop finds them *)
Lemma rawIssuesOf_split config forceStrict pre post :
  cfg_rules config = pre ++ post ->
  exists post',
    rawIssuesOf h root config forceStrict
    = rawIssues (loop config post'
                   (runRules h root config pre
                      (stateAfterGroups h root config forceStrict)))
    /\ forall r', In r' post' ->
         exists r, In r post
                   /\ (r' = r
                       \/ exists ns, r = Allow ns /\ r' = Allow (ns ++ shared config)).
Proof.
  intros Hrules.
  destruct (extendFirstAllow_app (shared config) pre post) as (post' & E & Hpost').
  exists post'. split.
  { unfold rawIssuesOf. rewrite Hrules at 1. unfold runRules.
    rewrite E, fold_left_app. reflexivity. }
  intros r' Hr'. destruct Hpost' as [->|[_ ->]].
  - exists r'. auto.
  - apply extendFirstAllow_In in Hr' as [Hr'|(ns & -> & Hr')].
    + exists r'. auto.
    + exists (Allow ns). split; [exact Hr'|]. right. exists ns. auto.
Qed.

(** a rule that is not an [allow] rule runs as the configuration has it *)
Lemma runRules_snoc config pre r st :
  (forall ns, r <> Allow ns) ->
  runRules h root config (pre ++ [r]) st
  = handleRule h root (cfg_rules config) (buildGroups h root (cfg_rules config))
      (runRules h root config pre st) r.
Proof.
  intros Hr. unfold runRules.
  destruct (extendFirstAllow_app (shared config) pre [r]) as (tail & E & Htail).
  rewrite E, fold_left_app.
  assert (Et : tail = [r]).
  { destruct Htail as [->|[_ ->]]; [reflexivity|].
    rewrite extendFirstAllow_other by exact Hr. reflexivity. }
  rewrite Et. reflexivity.
Qed.

Lemma recorded_issue_survives
    (config : FsLintConfig) (forceStrict : bool) (pre post : list Rule)
    (i : Issue) :
  cfg_rules config = pre ++ post ->
  In i (rawIssues (runRules h root config pre
                     (stateAfterGroups h root config forceStrict))) ->
  (forall r, In r post -> ~ Shapes.removes h root (shared config) r i) ->
  Host.ignores h (Host.relative h root (path i)) = false ->
  forall issues,
    lintRun h root config forceStrict = Some issues ->
    exists j, In j issues /\ ruleKind j = ruleKind i /\ path j = path i.
Proof.
  intros Hrules Hi Hpost Hig issues Hrun.
  assert (Hraw : In i (rawIssuesOf h root config forceStrict)).
  { destruct (rawIssuesOf_split config forceStrict pre post Hrules)
      as (post' & -> & Hpost').
    apply loop_keeps; [exact Hi|]. intros r' Hr' Hrem.
    destruct (Hpost' r' Hr') as (r & Hr & Hfound).
    apply (Hpost r Hr). eapply removes_found; eassumption. }
  unfold lintRun in Hrun.
  destruct (ignoreCheck h root (rawIssuesOf h root config forceStrict));
    [|discriminate].
  injection Hrun as <-. unfold lintWorkspace.
  destruct (finalFilter_keeps h root _ [] i Hraw Hig) as [[]|(j & Hj & Ej)].
  exists j. split; [exact Hj|]. apply issueKey_inj in Ej. exact Ej.
Qed.

(** X3: when the run returns a result, an issue that is on the record after
    the first rules have run is in the result, or an issue of its kind for
    its path is, unless a later rule takes it out (a [thoseOnly] rule of a
    pattern that matches its path, a [no] rule or an [allow] rule for an
    issue of kind [no], an [optional] rule for one of kind [has]) or its path
    is ignored.  The names of a later [allow] rule count with the names the
    grouping may have added to its array: the required names of the [has]
    rules. *)
Theorem recorded_issue_stays
    (config : FsLintConfig) (forceStrict : bool) (pre post : list Rule)
    (i : Issue) (issues : list Issue) :
  cfg_rules config = pre ++ post ->
  In i (rawIssues (runRules h root config pre
                     (stateAfterGroups h root config forceStrict))) ->
  (forall r, In r post ->
             ~ Shapes.removes h root (sharedNames h root (cfg_rules config)) r i) ->
  Host.ignores h (Host.relative h root (path i)) = false ->
  lintRun h root config forceStrict = Some issues ->
  exists j, In j issues /\ ruleKind j = ruleKind i /\ path j = path i.
Proof.
  intros Hrules Hin Hpost Hign Hrun.
  exact (recorded_issue_survives config forceStrict pre post i Hrules Hin Hpost
           Hign issues Hrun).
Qed.

(** *** Rules that report and rules that excuse *)

Lemma handleHas_exact names : forall st,
  rawIssues (handleHas h root names st)
  = rawIssues st
    ++ List.map (hasIssue h root) (filter (Shapes.missingName h root) names).
Proof.
  unfold handleHas. induction names as [|n names IH]; intros st.
  - cbn. rewrite app_nil_r. reflexivity.
  - cbn [fold_left filter]. rewrite IH. unfold handleHasName, Shapes.missingName.
    destruct (isGlobPattern n).
    + destruct (scanOne h n root true); cbn [rawIssues pushIssues addToRoot List.map].
      * rewrite <- app_assoc. reflexivity.
      * reflexivity.
    + destruct (Host.existsSync h (Host.resolve2 h root n));
        cbn [negb rawIssues pushIssues addToRoot List.map].
      * reflexivity.
      * rewrite <- app_assoc. reflexivity.
Qed.

(** X4: when the run returns a result, a file that exists and that a pattern
    of a [no] rule matches is reported as forbidden in it, unless a [no] rule
    declared later matches the file, an [allow] rule declared later matches
    it (by one of its names or by a required name of the [has] rules, which
    the grouping may have added to its array), or the path is ignored. *)
Theorem no_rule_reports
    (config : FsLintConfig) (forceStrict : bool) (pre post : list Rule)
    (names : list string) (name m : string) (issues : list Issue) :
  cfg_rules config = pre ++ NoFiles names :: post ->
  In name names -> In m (scanOne h name root true) ->
  Host.existsSync h (Host.resolve2 h root m) = true ->
  (forall ns, In (NoFiles ns) post ->
              ~ In (Host.resolve h (Host.resolve2 h root m))
                   (matchedFiles h root ns)) ->
  (forall ns, In (Allow ns) post ->
              ~ In (Host.resolve h (Host.resolve2 h root m))
                   (matchedFiles h root
                      (ns ++ sharedNames h root (cfg_rules config)))) ->
  Host.ignores h (Host.relative h root (Host.resolve2 h root m)) = false ->
  lintRun h root config forceStrict = Some issues ->
  exists j, In j issues /\ ruleKind j = k_no /\ path j = Host.resolve2 h root m.
Proof.
  intros Hrules Hname Hm Hex Hlater Hallow Hig Hrun.
  apply (recorded_issue_survives config forceStrict (pre ++ [NoFiles names]) post
           (noIssue h root name (Host.resolve2 h root m)));
    [| | |exact Hig|exact Hrun].
  - rewrite Hrules, <- app_assoc. reflexivity.
  - rewrite runRules_snoc by discriminate. cbn [handleRule].
    unfold handleNo. cbn [rawIssues pushIssues]. apply in_or_app. right.
    unfold noIssuesOf. apply in_flat_map. exists name. split; [exact Hname|].
    apply in_flat_map. exists m. split; [exact Hm|].
    rewrite Hex. left. reflexivity.
  - intros r Hr (_ & Hrem). cbn [path ruleKind noIssue] in Hrem.
    destruct r; try (destruct Hrem as [Hk _]; discriminate); try contradiction.
    + destruct Hrem as [_ Hin]. apply (Hlater names0); auto.
    + destruct Hrem as [_ Hin]. apply (Hallow names0); auto.
Qed.

(** X5: when the run returns a result, a name of a [has] rule that nothing
    satisfies (no file of that name, no match of that pattern) is reported as
    missing in it, unless an [optional] rule declared later covers its path
    or the path is ignored. *)
Theorem has_rule_reports
    (config : FsLintConfig) (forceStrict : bool) (pre post : list Rule)
    (names : list string) (name : string) (issues : list Issue) :
  cfg_rules config = pre ++ HasFile names :: post ->
  In name names -> Shapes.missingName h root name = true ->
  (forall ns, In (Optional ns) post ->
              ~ In (Host.resolve h (Host.resolve2 h root name))
                   (Shapes.optionalPaths h root ns)) ->
  Host.ignores h (Host.relative h root (Host.resolve2 h root name)) = false ->
  lintRun h root config forceStrict = Some issues ->
  exists j, In j issues
            /\ ruleKind j = k_has /\ path j = Host.resolve2 h root name.
Proof.
  intros Hrules Hname Hmiss Hlater Hig Hrun.
  apply (recorded_issue_survives config forceStrict (pre ++ [HasFile names]) post
           (hasIssue h root name));
    [| | |exact Hig|exact Hrun].
  - rewrite Hrules, <- app_assoc. reflexivity.
  - rewrite runRules_snoc by discriminate. cbn [handleRule].
    rewrite handleHas_exact. apply in_or_app. right.
    apply in_map. apply filter_In. split; assumption.
  - intros r Hr (_ & Hrem). cbn [path ruleKind hasIssue] in Hrem.
    destruct r; try (destruct Hrem as [Hk _]; discriminate); try contradiction.
    destruct Hrem as [_ Hin]. apply (Hlater names0); auto.
Qed.

(** no issue of kind [k] for [F] comes up while rules run that raise none *)
Lemma none_raised config k F rs : forall st,
  (forall j, In j (rawIssues st) -> ruleKind j = k -> path j <> F) ->
  (forall r, In r rs ->
     forall st' j, In j (rawIssues (handleRule h root (cfg_rules config)
                                      (buildGroups h root (cfg_rules config)) st' r)) ->
                   ruleKind j = k -> path j = F -> In j (rawIssues st')) ->
  forall j, In j (rawIssues (loop config rs st)) ->
            ruleKind j = k -> path j <> F.
Proof.
  induction rs as [|r rs IH]; intros st Hst Hrs; [exact Hst|].
  cbn [fold_left]. apply IH.
  - intros j Hj Hk Hp. apply (Hst j); try assumption.
    apply (Hrs r (or_introl eq_refl) st j Hj Hk Hp).
  - intros r' Hr'. apply Hrs. right. exact Hr'.
Qed.

(** X6: a path that an [optional] rule covers has no issue of kind [has] in
    the result when no [has] rule declared later names it: the [optional]
    rule takes the issues recorded before it off the record. *)
Theorem optional_after_has_leaves_no_issue
    (config : FsLintConfig) (forceStrict : bool) (pre post : list Rule)
    (names : list string) (F : string) :
  cfg_rules config = pre ++ Optional names :: post ->
  In F (Shapes.optionalPaths h root names) ->
  Host.resolve h F = F -> F <> EmptyString ->
  (forall ns n, In (HasFile ns) post -> In n ns -> Host.resolve2 h root n <> F) ->
  forall i, In i (lintWorkspace h root config forceStrict) ->
            ruleKind i = k_has -> path i <> F.
Proof.
  intros Hrules HF Hres Hne Hpost i Hi.
  unfold lintWorkspace in Hi. apply finalFilter_incl in Hi.
  unfold rawIssuesOf in Hi. rewrite Hrules in Hi at 1.
  destruct (runRules_split h root config pre (Optional names) post
              (stateAfterGroups h root config forceStrict))
    as (r' & post' & E & Hr' & Hback & _).
  rewrite E in Hi. clear E.
  destruct Hr' as [->|(ns & Ens & _)]; [|discriminate Ens].
  revert i Hi. apply none_raised.
  - intros j Hj Hk Hp. cbn [handleRule] in Hj.
    unfold handleOptional in Hj. apply removeIssues_In in Hj as [_ Hnot].
    apply Hnot. rewrite Hp, Hres. auto.
  - intros r Hr st' j Hj Hk Hp.
    destruct (handleRule_issues h root _ _ st' r j Hj) as [Hold|[Hkind _]];
      [exact Hold|].
    rewrite Hk in Hkind. destruct r; cbn [kindOf] in Hkind; try discriminate.
    cbn [handleRule] in Hj. rewrite handleHas_exact in Hj.
    apply in_app_or in Hj as [Hj|Hj]; [exact Hj|].
    apply in_map_iff in Hj as (n & <- & Hn). apply filter_In in Hn as [Hn _].
    exfalso. apply (Hpost names0 n); [apply Hback; [exact Hr|discriminate]
                                     |exact Hn|exact Hp].
Qed.

(** X7: a [thoseOnly] issue of the result is the issue of a [thoseOnly] rule
    of the configuration for a file the pattern of the rule matches and none
    of its allowed patterns matches. *)
Theorem thoseOnly_issue_is_not_allowed
    (config : FsLintConfig) (forceStrict : bool) (i : Issue) :
  In i (lintWorkspace h root config forceStrict) ->
  ruleKind i = k_thoseOnly ->
  exists pattern only,
    In (ThoseOnly pattern only) (cfg_rules config)
    /\ In (path i) (List.map (Host.resolve2 h root) (scanOne h pattern root true))
    /\ ~ In (path i) (List.map (Host.resolve2 h root)
                        (scanMany h only root true))
    /\ message i = thoseOnly_forbiddenOnlyAllowed (sortStrings only) pattern.
Proof.
  unfold lintWorkspace, rawIssuesOf. intros Hi Hk.
  apply finalFilter_incl in Hi.
  apply runRules_provenance in Hi as [Hi|(r & Hr & Hkr & Hprod)].
  - apply stateAfterGroups_kind in Hi. congruence.
  - rewrite Hk in Hkr. destruct r; cbn [kindOf] in Hkr; try discriminate.
    cbn [Props.producedBy] in Hprod. exists pattern, only.
    split; [exact Hr|]. unfold thoseOnlyIssuesOf in Hprod.
    apply in_flat_map in Hprod as (abs & Habs & Hprod).
    destruct (Str.mem (Host.resolve2 h root abs)
                (List.map (Host.resolve2 h root) (scanMany h only root true)))
      eqn:Em; [destruct Hprod|].
    destruct Hprod as [<-|[]]. cbn [path message thoseOnlyIssue].
    split; [apply in_map; exact Habs|]. split; [|reflexivity].
    apply mem_false. exact Em.
Qed.

(** *** The strict override *)

Lemma filter_comm {A} (f g : A -> bool) (l : list A) :
  filter f (filter g l) = filter g (filter f l).
Proof.
  induction l as [|a l IH]; [reflexivity|]. cbn [filter].
  destruct (f a) eqn:Ef, (g a) eqn:Eg; cbn [filter]; rewrite ?Ef, ?Eg, IH;
    reflexivity.
Qed.

Lemma pushIssues_upTo st st' new :
  upTo st st' -> upTo (pushIssues st new) (pushIssues st' new).
Proof.
  intros (Hin & Hf & Hp & Hr & Hm). unfold upTo. cbn [pushIssues rawIssues
    processedThoseOnlyPatterns rootAllowedSet matchedGlobFiles].
  repeat split; try assumption.
  - intros i Hi. apply in_app_or in Hi as [Hi|Hi]; apply in_or_app; auto.
  - rewrite !filter_app, Hf. reflexivity.
Qed.

Lemma removeIssues_upTo k paths st st' :
  upTo st st' -> upTo (removeIssues h k paths st) (removeIssues h k paths st').
Proof.
  intros (Hin & Hf & Hp & Hr & Hm). unfold upTo, removeIssues. cbn [rawIssues
    processedThoseOnlyPatterns rootAllowedSet matchedGlobFiles].
  repeat split; try assumption.
  - intros i Hi. apply filter_In in Hi as [Hi Hq]. apply filter_In. auto.
  - rewrite filter_comm, Hf, filter_comm. reflexivity.
Qed.

Lemma handleHas_upTo names : forall st st',
  upTo st st' -> upTo (handleHas h root names st) (handleHas h root names st').
Proof.
  unfold handleHas. induction names as [|n names IH]; intros st st' Hup;
    [exact Hup|].
  cbn [fold_left]. apply IH. unfold handleHasName.
  assert (Hadd : forall rels tops, upTo (addToRoot st rels tops)
                                        (addToRoot st' rels tops)).
  { intros rels tops. destruct Hup as (Hin & Hf & Hp & Hr & Hm).
    unfold upTo, addToRoot. cbn [rawIssues processedThoseOnlyPatterns
      rootAllowedSet matchedGlobFiles]. rewrite Hr, Hm. auto. }
  destruct (isGlobPattern n).
  - destruct (scanOne h n root true); [apply pushIssues_upTo, Hup|apply Hadd].
  - destruct (Host.existsSync h (Host.resolve2 h root n));
      [apply Hadd|apply pushIssues_upTo, Hup].
Qed.

Lemma handleRule_upTo rules groups st st' r :
  upTo st st' ->
  upTo (handleRule h root rules groups st r) (handleRule h root rules groups st' r).
Proof.
  intros Hup.
  destruct r as [from toDir|pattern only|fromNames toName|from to|d|r
                |names|names|names|names]; cbn [handleRule].
  - apply pushIssues_upTo, Hup.
  - unfold handleThoseOnly. apply pushIssues_upTo.
    assert (Hp : processedThoseOnlyPatterns st = processedThoseOnlyPatterns st')
      by apply Hup.
    rewrite Hp.
    assert (Hmark : forall s s', upTo s s' ->
                      upTo (markProcessed pattern s) (markProcessed pattern s')).
    { intros s s' (Hin & Hf & Hp' & Hr & Hm). unfold upTo, markProcessed.
      cbn [rawIssues processedThoseOnlyPatterns rootAllowedSet matchedGlobFiles].
      rewrite Hp'. auto. }
    apply Hmark.
    destruct (Str.mem pattern (processedThoseOnlyPatterns st'));
      [apply removeIssues_upTo, Hup|exact Hup].
  - apply pushIssues_upTo, Hup.
  - apply pushIssues_upTo, Hup.
  - exact Hup.
  - unfold handleNaming, handleNamingIn, handleNamingThose.
    destruct (n_target r); apply pushIssues_upTo, Hup.
  - unfold handleNo. apply pushIssues_upTo, removeIssues_upTo, Hup.
  - apply handleHas_upTo, Hup.
  - apply removeIssues_upTo, Hup.
  - apply removeIssues_upTo, Hup.
Qed.

Lemma loop_upTo config rs : forall st st',
  upTo st st' -> upTo (loop config rs st) (loop config rs st').
Proof.
  induction rs as [|r rs IH]; intros st st' Hup; [exact Hup|].
  cbn [fold_left]. apply IH, handleRule_upTo, Hup.
Qed.

Lemma runRules_upTo config rs st st' :
  upTo st st' ->
  upTo (runRules h root config rs st) (runRules h root config rs st').
Proof. unfold runRules. apply loop_upTo. Qed.

Lemma processGroup_strict moved ra dir group :
  (forall i, In i (fst (processGroup h root false moved ra dir group)) ->
             In i (fst (processGroup h root true moved ra dir group)))
  /\ snd (processGroup h root false moved ra dir group)
     = snd (processGroup h root true moved ra dir group).
Proof.
  unfold processGroup. cbn [orb].
  destruct (negb (Host.isDirectory h (Host.resolve2 h root dir))
            && existsb isStrictOrUnset group); [auto|].
  destruct (negb (Host.isDirectory h (Host.resolve2 h root dir))); [auto|].
  destruct (mergedAllowedSets h dir _ _ ra) as [sets0 ra'].
  destruct (existsb isStrictOrUnset group); cbn [fst snd]; [auto|].
  split; [intros i []|reflexivity].
Qed.

Lemma processGroups_strict moved groups : forall ra,
  (forall i, In i (fst (processGroups h root false moved groups ra)) ->
             In i (fst (processGroups h root true moved groups ra)))
  /\ snd (processGroups h root false moved groups ra)
     = snd (processGroups h root true moved groups ra).
Proof.
  induction groups as [|[dir group] groups IH]; intros ra; [auto|].
  cbn [processGroups].
  destruct (processGroup_strict moved ra dir group) as [Hin Hra].
  destruct (processGroup h root false moved ra dir group) as [i1 r1].
  destruct (processGroup h root true moved ra dir group) as [i2 r2].
  cbn [fst snd] in Hin, Hra. subst r2.
  destruct (IH r1) as [Hin' Hra'].
  destruct (processGroups h root false moved groups r1) as [i1' r1'].
  destruct (processGroups h root true moved groups r1) as [i2' r2'].
  cbn [fst snd] in *. split; [|exact Hra'].
  intros i Hi. apply in_app_or in Hi as [Hi|Hi]; apply in_or_app; auto.
Qed.

Lemma filter_none_of_kind (l : list Issue) :
  (forall i, In i l -> ruleKind i = k_inDirOnly) -> filter notOfGroups l = [].
Proof.
  induction l as [|a l IH]; intros Hall; [reflexivity|]. cbn [filter].
  unfold notOfGroups at 1. rewrite (Hall a (or_introl eq_refl)). cbn.
  apply IH. intros i Hi. apply Hall. right. exact Hi.
Qed.

Lemma stateAfterGroups_upTo config :
  upTo (stateAfterGroups h root config false) (stateAfterGroups h root config true).
Proof.
  pose proof (stateAfterGroups_kind h root config false) as Hk1.
  pose proof (stateAfterGroups_kind h root config true) as Hk2.
  unfold stateAfterGroups in *.
  destruct (processGroups_strict (filesMatchedByMoveRules h root (cfg_rules config))
              (buildGroups h root (cfg_rules config)) None) as [Hin Hra].
  destruct (processGroups h root false _ _ None) as [i1 r1].
  destruct (processGroups h root true _ _ None) as [i2 r2].
  cbn [fst snd rawIssues] in *. subst r2. unfold upTo.
  cbn [rawIssues processedThoseOnlyPatterns rootAllowedSet matchedGlobFiles].
  repeat split; try assumption.
  rewrite (filter_none_of_kind i1 Hk1), (filter_none_of_kind i2 Hk2). reflexivity.
Qed.

Lemma notOfGroups_key (i j : Issue) :
  issueKey i = issueKey j -> notOfGroups i = notOfGroups j.
Proof.
  intros E. apply issueKey_inj in E as [Ek _]. unfold notOfGroups.
  rewrite Ek. reflexivity.
Qed.

(** the final filter and the selection of the other kinds commute *)
Lemma finalFilter_notOfGroups raw : forall seen seen',
  (forall i, notOfGroups i = true ->
             Str.mem (issueKey i) seen = Str.mem (issueKey i) seen') ->
  filter notOfGroups (finalFilter h root raw seen)
  = finalFilter h root (filter notOfGroups raw) seen'.
Proof.
  induction raw as [|a raw IH]; intros seen seen' Hseen; [reflexivity|].
  cbn [finalFilter filter].
  destruct (notOfGroups a) eqn:Ea.
  - cbn [finalFilter]. destruct (Host.ignores h _); [apply IH, Hseen|].
    rewrite <- (Hseen a Ea).
    destruct (Str.mem (issueKey a) seen); [apply IH, Hseen|].
    cbn [filter]. rewrite Ea. f_equal. apply IH.
    intros i Hi. cbn [Str.mem existsb]. fold (Str.mem (issueKey i) seen).
    fold (Str.mem (issueKey i) seen'). rewrite (Hseen i Hi). reflexivity.
  - destruct (Host.ignores h _); [apply IH, Hseen|].
    destruct (Str.mem (issueKey a) seen); [apply IH, Hseen|].
    cbn [filter]. rewrite Ea. apply IH.
    intros i Hi. cbn [Str.mem existsb]. fold (Str.mem (issueKey i) seen).
    destruct (String.eqb (issueKey i) (issueKey a)) eqn:E; [|apply Hseen, Hi].
    apply String.eqb_eq, notOfGroups_key in E. congruence.
Qed.

(** X8: when the run with the strict override returns a result, the run
    without it returns one as well, and the override has changed issues of
    kind [inDirOnly] only and hidden none: the issues of the other kinds are
    the same in the two results, in the same order, and every issue of the
    result without the override has an issue of its kind for its path in the
    result with it.  (The run with the override can end without a result
    where the other returns one: it raises more issues, and the check of the
    ignore rules may throw for the path of one of them.) *)
Theorem strict_override_only_adds (config : FsLintConfig)
    (strictIssues : list Issue) :
  lintRun h root config true = Some strictIssues ->
  exists issues,
    lintRun h root config false = Some issues
    /\ filter notOfGroups issues = filter notOfGroups strictIssues
    /\ forall i, In i issues ->
         exists j, In j strictIssues
                   /\ ruleKind j = ruleKind i /\ path j = path i.
Proof.
  pose proof (runRules_upTo config (cfg_rules config) _ _
                (stateAfterGroups_upTo config)) as (Hin & Hf & _).
  unfold lintRun. fold (rawIssuesOf h root config false) in Hin, Hf.
  fold (rawIssuesOf h root config true) in Hin, Hf.
  destruct (ignoreCheck h root (rawIssuesOf h root config true)) eqn:Echeck;
    [|discriminate].
  intros Hrun. injection Hrun as <-.
  assert (Echeck' : ignoreCheck h root (rawIssuesOf h root config false) = true).
  { unfold ignoreCheck in *. apply forallb_forall. intros i Hi.
    apply (proj1 (forallb_forall _ _) Echeck). apply Hin, Hi. }
  rewrite Echeck'. eexists. split; [reflexivity|].
  unfold lintWorkspace. split.
  - rewrite (finalFilter_notOfGroups _ [] [] (fun _ _ => eq_refl)).
    rewrite (finalFilter_notOfGroups _ [] [] (fun _ _ => eq_refl)).
    rewrite Hf. reflexivity.
  - intros i Hi.
    pose proof (finalFilter_not_ignored h root _ _ _ Hi) as Hig.
    apply finalFilter_incl in Hi. apply Hin in Hi.
    destruct (finalFilter_keeps h root _ [] i Hi Hig) as [[]|(j & Hj & Ej)].
    exists j. split; [exact Hj|]. apply issueKey_inj in Ej. exact Ej.
Qed.

(** *** The issues of a directory group *)

Lemma fileType_eqb_eq (a b : option FileType) : fileType_eqb a b = true <-> a = b.
Proof.
  destruct a as [[|]|], b as [[|]|]; cbn; split; intros; congruence.
Qed.

Lemma mapGet_fileType_In {V} ft (v : V) (m : list (option FileType * V)) :
  mapGet fileType_eqb ft m = Some v -> In (ft, v) m.
Proof.
  induction m as [|[k w] m IH]; cbn; [discriminate|].
  destruct (fileType_eqb ft k) eqn:E.
  - apply fileType_eqb_eq in E. subst. intros H. injection H as ->. auto.
  - auto.
Qed.

Lemma mapGet_mapSet_fileType {V} ft ft' (v : V) (m : list (option FileType * V)) :
  mapGet fileType_eqb ft' (mapSet fileType_eqb ft v m)
  = if fileType_eqb ft' ft then Some v else mapGet fileType_eqb ft' m.
Proof.
  induction m as [|[k w] m IH]; cbn.
  - reflexivity.
  - destruct (fileType_eqb ft k) eqn:E; cbn.
    + apply fileType_eqb_eq in E. subst k.
      destruct (fileType_eqb ft' ft); reflexivity.
    + rewrite IH. destruct (fileType_eqb ft' k) eqn:E'; [|reflexivity].
      apply fileType_eqb_eq in E'. subst k.
      destruct (fileType_eqb ft' ft) eqn:E''; [|reflexivity].
      apply fileType_eqb_eq in E''. subst. rewrite (proj2 (fileType_eqb_eq _ _) eq_refl) in E.
      discriminate.
Qed.

(** every rule of a group is in the bucket of its file type *)
Lemma rulesByFileType_In (group : list InDirOnlyRule) (r : InDirOnlyRule) :
  In r group ->
  exists rules, In (d_fileType r, rules) (rulesByFileType group) /\ In r rules.
Proof.
  unfold rulesByFileType.
  assert (Hgen : forall m,
            (In r group \/ exists rules, mapGet fileType_eqb (d_fileType r) m = Some rules
                                         /\ In r rules) ->
            exists rules,
              mapGet fileType_eqb (d_fileType r)
                (fold_left (fun m rule =>
                              mapSet fileType_eqb (d_fileType rule)
                                (match mapGet fileType_eqb (d_fileType rule) m with
                                 | Some l => l
                                 | None => []
                                 end ++ [rule]) m) group m) = Some rules
              /\ In r rules).
  { induction group as [|a group IH]; intros m [Hin|Hm].
    - destruct Hin.
    - exact Hm.
    - cbn [fold_left]. apply IH. destruct Hin as [->|Hin]; [right|left; exact Hin].
      eexists. rewrite mapGet_mapSet_fileType, (proj2 (fileType_eqb_eq _ _) eq_refl).
      split; [reflexivity|]. apply in_or_app. right. left. reflexivity.
    - cbn [fold_left]. apply IH. right. destruct Hm as (rules & Hget & Hr).
      rewrite mapGet_mapSet_fileType.
      destruct (fileType_eqb (d_fileType r) (d_fileType a)) eqn:E.
      + apply fileType_eqb_eq in E. rewrite <- E, Hget. eexists.
        split; [reflexivity|]. apply in_or_app. left. exact Hr.
      + exists rules. auto. }
  intros Hin. destruct (Hgen [] (or_introl Hin)) as (rules & Hget & Hr).
  exists rules. split; [|exact Hr]. apply mapGet_fileType_In. exact Hget.
Qed.

Lemma mergedAllowedSets_sets dir dirAbs buckets : forall ra,
  fst (mergedAllowedSets h dir dirAbs buckets ra)
  = List.map (fun '(ft, rules) => (ft, allowedSetOf h dir dirAbs rules)) buckets.
Proof.
  induction buckets as [|[ft rules] buckets IH]; intros ra; [reflexivity|].
  cbn [mergedAllowedSets List.map]. specialize (IH
    (if String.eqb dir "." && fileType_eqb ft None
     then Some (allowedSetOf h dir dirAbs rules) else ra)).
  destruct (mergedAllowedSets h dir dirAbs buckets _) as [sets ra'].
  cbn [fst] in *. rewrite IH. reflexivity.
Qed.

Lemma mergeRootInto_In dir ra sets ft set :
  In (ft, set) sets ->
  exists set', In (ft, set') (mergeRootInto dir ra sets)
               /\ forall x, In x set -> In x set'.
Proof.
  intros Hin. unfold mergeRootInto.
  destruct ra as [ra|]; [|exists set; auto].
  destruct (String.eqb dir "."); [|exists set; auto].
  destruct ft as [f|].
  - exists (set ++ ra). split.
    + apply in_map_iff. exists (Some f, set). auto.
    + intros x Hx. apply in_or_app. auto.
  - exists set. split; [|auto]. apply in_map_iff. exists (None, set). auto.
Qed.

Lemma existsb_none {A} (f : A -> bool) (l : list A) (x : A) :
  existsb f l = false -> In x l -> f x = false.
Proof.
  induction l as [|a l IH]; intros Hex Hin; [destruct Hin|].
  cbn in Hex. apply orb_false_iff in Hex as [Ha Hl].
  destruct Hin as [->|Hin]; auto.
Qed.

Lemma isAllowedBy_false sets ra rel isDir ft set :
  isAllowedBy sets ra rel isDir = false ->
  In (ft, set) sets -> skipsByFileType ft isDir = false ->
  ~ In rel set.
Proof.
  unfold isAllowedBy. destruct (inRoot ra rel); [discriminate|].
  intros Hex Hin Hcompat Hrel.
  pose proof (existsb_none _ _ _ Hex Hin) as Hfalse. cbn beta iota in Hfalse.
  apply mem_In in Hrel. rewrite Hrel in Hfalse.
  destruct ft as [[|]|], isDir; cbn in Hcompat, Hfalse; discriminate.
Qed.

(** X9: an issue of a directory group whose directory exists is raised only
    when the group is strict (a rule of it is strict or has no mode, or the
    strict override is on), and it is for an entry of the directory whose
    name does not start with a dot, that is not a file a [move] rule moves,
    and that no rule of the group for its file type allows. *)
Theorem group_issue_is_justified
    (forceStrict : bool) (moved : list string) (ra : option (list string))
    (dir : string) (group : list InDirOnlyRule) (i : Issue) :
  Host.isDirectory h (Host.resolve2 h root dir) = true ->
  In i (fst (processGroup h root forceStrict moved ra dir group)) ->
  let dirAbs := Host.resolve2 h root dir in
  (forceStrict = true \/ existsb isStrictOrUnset group = true)
  /\ exists rel,
       path i = Host.resolve2 h dirAbs rel
       /\ Str.startsWith rel "." = false
       /\ (Host.isDirectory h (path i) = false -> ~ In (path i) moved)
       /\ forall r, In r group ->
            skipsByFileType (d_fileType r) (Host.isDirectory h (path i)) = false ->
            ~ In rel (allowedSetOf h dir dirAbs [r]).
Proof.
  intros Hdir Hi dirAbs. unfold processGroup in Hi. rewrite Hdir in Hi.
  cbn [negb andb] in Hi.
  pose proof (mergedAllowedSets_sets dir dirAbs (rulesByFileType group) ra) as Hsets.
  fold dirAbs in Hi.
  destruct (mergedAllowedSets h dir dirAbs (rulesByFileType group) ra)
    as [sets0 ra'] eqn:Em.
  cbn [fst] in Hsets.
  destruct (forceStrict || existsb isStrictOrUnset group) eqn:Estrict;
    [|destruct Hi].
  split; [apply orb_true_iff; exact Estrict|].
  cbn [fst] in Hi. apply in_flat_map in Hi as (rel & _ & Hi).
  unfold checkEntry in Hi.
  destruct (Str.startsWith rel ".") eqn:Edot; [destruct Hi|].
  destruct (negb (Host.isDirectory h (Host.resolve2 h dirAbs rel))
            && Str.mem (Host.resolve2 h dirAbs rel) moved) eqn:Emoved;
    [destruct Hi|].
  repeat match type of Hi with
         | In _ (if ?c then _ else _) =>
             let E := fresh "E" in destruct c eqn:E; [destruct Hi|]
         end.
  destruct Hi as [<-|[]]. cbn [path]. exists rel.
  split; [reflexivity|]. split; [exact Edot|]. split.
  - intros Hfile Hin. rewrite Hfile in Emoved. cbn in Emoved.
    apply mem_In in Hin. congruence.
  - intros r Hr Hcompat Hrel.
    destruct (rulesByFileType_In group r Hr) as (rules & Hbucket & Hrules).
    assert (Hset : In (d_fileType r, allowedSetOf h dir dirAbs rules) sets0).
    { rewrite Hsets. apply in_map_iff. exists (d_fileType r, rules). auto. }
    destruct (mergeRootInto_In dir ra' sets0 _ _ Hset) as (set' & Hset' & Hsub).
    match goal with
    | Hall : isAllowedBy _ _ _ _ = false |- _ =>
        apply (isAllowedBy_false _ _ _ _ _ _ Hall Hset' Hcompat)
    end.
    apply Hsub. unfold allowedSetOf in *. apply in_flat_map. exists r.
    split; [exact Hrules|]. cbn [flat_map] in Hrel. rewrite app_nil_r in Hrel.
    exact Hrel.
Qed.

(** *** What a rule raises *)

Lemma handleRule_raised rules groups st r i :
  In i (rawIssues (handleRule h root rules groups st r)) ->
  In i (rawIssues st) \/ In i (Shapes.raised h root rules groups r).
Proof.
  unfold Shapes.raised.
  destruct r as [from toDir|pattern only|fromNames toName|from to|d|r
                |names|names|names|names]; cbn [handleRule]; intros Hi.
  - unfold handleMove in *. cbn [rawIssues pushIssues app] in *.
    apply in_app_or in Hi. exact Hi.
  - unfold handleThoseOnly in *.
    cbn [rawIssues pushIssues markProcessed processedThoseOnlyPatterns Str.mem
         existsb app] in *.
    apply in_app_or in Hi as [Hi|Hi]; [left|right; exact Hi].
    destruct (Str.mem pattern (processedThoseOnlyPatterns st)); [|exact Hi].
    apply removeIssues_In in Hi. tauto.
  - unfold handleRenameDir in *. cbn [rawIssues pushIssues app] in *.
    apply in_app_or in Hi. exact Hi.
  - unfold handleRenameGlob in *. cbn [rawIssues pushIssues app] in *.
    apply in_app_or in Hi. exact Hi.
  - left. exact Hi.
  - unfold handleNaming, handleNamingIn, handleNamingThose in *.
    destruct (n_target r); cbn [rawIssues pushIssues app] in *;
      apply in_app_or in Hi; exact Hi.
  - unfold handleNo in *. cbn [rawIssues pushIssues] in *.
    apply in_app_or in Hi as [Hi|Hi].
    + left. apply removeIssues_In in Hi. tauto.
    + right. apply in_or_app. right. exact Hi.
  - rewrite handleHas_exact in *. cbn [rawIssues app] in *.
    apply in_app_or in Hi. exact Hi.
  - left. unfold handleAllow in Hi. apply removeIssues_In in Hi. tauto.
  - left. unfold handleOptional in Hi. apply removeIssues_In in Hi. tauto.
Qed.

(** an issue of the result of another kind than [inDirOnly] is raised by a
    rule of the configuration *)
Lemma issue_raised (config : FsLintConfig) (forceStrict : bool) (i : Issue) :
  In i (lintWorkspace h root config forceStrict) ->
  ruleKind i <> k_inDirOnly ->
  exists r, In r (cfg_rules config)
            /\ In i (Shapes.raised h root (cfg_rules config)
                       (buildGroups h root (cfg_rules config)) r).
Proof.
  unfold lintWorkspace, rawIssuesOf, runRules. intros Hi Hk.
  apply finalFilter_incl in Hi.
  assert (Hgen : forall rs st,
            In i (rawIssues (fold_left (handleRule h root (cfg_rules config)
                                          (buildGroups h root (cfg_rules config)))
                               rs st)) ->
            In i (rawIssues st)
            \/ exists r, In r rs
                         /\ In i (Shapes.raised h root (cfg_rules config)
                                    (buildGroups h root (cfg_rules config)) r)).
  { induction rs as [|r rs IH]; intros st H; [left; exact H|].
    cbn [fold_left] in H. apply IH in H as [H|(r' & Hr' & H)].
    - apply handleRule_raised in H as [H|H]; [left; exact H|].
      right. exists r. split; [left; reflexivity|exact H].
    - right. exists r'. split; [right; exact Hr'|exact H]. }
  apply Hgen in Hi as [Hi|(r & Hr & Hi)].
  - apply stateAfterGroups_kind in Hi. contradiction.
  - apply extendFirstAllow_In in Hr as [Hr|(ns & -> & _)].
    + exists r. auto.
    + destruct Hi.
Qed.

(** X10: an issue of a [move] or [rename] rule is an error, which marks it as
    safe to fix, only when the fix has a free target: for [move], no file of
    that name in the destination and no file in the place of the destination
    directory; for [renameDir], nothing at the new name; for [renameGlob], a
    target that could be inferred and does not exist. *)
Theorem error_means_the_target_is_free
    (config : FsLintConfig) (forceStrict : bool) (i : Issue) :
  In i (lintWorkspace h root config forceStrict) ->
  severity i = error ->
  match ruleKind i with
  | k_move =>
      exists from toDir,
        In (Move from toDir) (cfg_rules config)
        /\ In (path i) (scanOne h from root true)
        /\ Host.existsSync h
             (Host.resolve2 h (Host.resolve2 h root toDir)
                (Host.basename h (path i))) = false
        /\ (Host.existsSync h (Host.resolve2 h root toDir) = true ->
            Host.isDirectory h (Host.resolve2 h root toDir) = true)
  | k_renameDir =>
      exists fromNames toName name,
        In (RenameDir fromNames toName) (cfg_rules config)
        /\ In name fromNames /\ path i = Host.resolve2 h root name
        /\ Host.existsSync h (path i) = true
        /\ Host.existsSync h (Host.resolve2 h root toName) = false
  | k_renameGlob =>
      exists from to dest,
        In (RenameGlob from to) (cfg_rules config)
        /\ In (path i) (scanOne h from root true)
        /\ computeRenameDest h root (path i) from to = Some dest
        /\ dest <> EmptyString /\ Host.existsSync h dest = false
  | _ => True
  end.
Proof.
  intros Hi Hsev.
  destruct (ruleKind i) eqn:Hk; try exact I.
  - destruct (issue_raised config forceStrict i Hi) as (r & Hr & Hraised);
      [congruence|].
    pose proof (handleRule_issues h root _ _ _ r i Hraised) as [[]|[Hkr _]].
    rewrite Hk in Hkr. destruct r; cbn [kindOf] in Hkr; try discriminate.
    unfold Shapes.raised in Hraised. cbn [handleRule] in Hraised.
    unfold handleMove in Hraised. cbn [rawIssues pushIssues app] in Hraised.
    apply in_app_or in Hraised as [Hraised|Hraised].
    + destruct (Host.existsSync h (Host.resolve2 h root toDir)
                && negb (Host.isDirectory h (Host.resolve2 h root toDir)));
        [|destruct Hraised].
      destruct Hraised as [<-|[]]. discriminate.
    + apply in_flat_map in Hraised as (abs & Habs & Hraised).
      destruct (Str.startsWith _ _); [destruct Hraised|].
      destruct Hraised as [<-|[]]. cbn [severity path] in *.
      exists from, toDir. split; [exact Hr|]. split; [exact Habs|].
      destruct (Host.isDirectory h (Host.resolve2 h root toDir)) eqn:Ed,
        (Host.existsSync h (Host.resolve2 h root toDir)) eqn:Ee,
        (Host.existsSync h (Host.resolve2 h (Host.resolve2 h root toDir)
                              (Host.basename h abs))) eqn:Et;
        cbn in Hsev; try discriminate; auto.
  - destruct (issue_raised config forceStrict i Hi) as (r & Hr & Hraised);
      [congruence|].
    pose proof (handleRule_issues h root _ _ _ r i Hraised) as [[]|[Hkr _]].
    rewrite Hk in Hkr. destruct r; cbn [kindOf] in Hkr; try discriminate.
    unfold Shapes.raised in Hraised. cbn [handleRule] in Hraised.
    unfold handleRenameDir in Hraised. cbn [rawIssues pushIssues app] in Hraised.
    apply in_flat_map in Hraised as (name & Hname & Hraised).
    destruct (Host.existsSync h (Host.resolve2 h root name)) eqn:Ee;
      cbn [negb] in Hraised; [|destruct Hraised].
    destruct Hraised as [<-|[]]. cbn [severity path] in *.
    exists fromNames, toName, name. repeat split; try assumption.
    destruct (Host.existsSync h (Host.resolve2 h root toName));
      cbn in Hsev; [discriminate|reflexivity].
  - destruct (issue_raised config forceStrict i Hi) as (r & Hr & Hraised);
      [congruence|].
    pose proof (handleRule_issues h root _ _ _ r i Hraised) as [[]|[Hkr _]].
    rewrite Hk in Hkr. destruct r; cbn [kindOf] in Hkr; try discriminate.
    unfold Shapes.raised in Hraised. cbn [handleRule] in Hraised.
    unfold handleRenameGlob in Hraised. cbn [rawIssues pushIssues app] in Hraised.
    apply in_map_iff in Hraised as (abs & <- & Habs).
    destruct (computeRenameDest h root abs from to) as [dest|] eqn:Ed;
      cbn [severity path] in *; [|discriminate].
    exists from, to, dest. split; [exact Hr|]. split; [exact Habs|].
    split; [exact Ed|].
    destruct dest; cbn in Hsev; [discriminate|].
    split; [discriminate|].
    destruct (Host.existsSync h _); cbn in Hsev; [discriminate|reflexivity].
Qed.

(** *** The final filter once more *)

Lemma finalFilter_fixpoint (l : list Issue) : forall seen,
  (forall i, In i l -> Host.ignores h (Host.relative h root (path i)) = false) ->
  NoDup (List.map issueKey l) ->
  (forall i, In i l -> ~ In (issueKey i) seen) ->
  finalFilter h root l seen = l.
Proof.
  induction l as [|a l IH]; intros seen Hig Hnd Hseen; [reflexivity|].
  cbn [finalFilter]. rewrite (Hig a (or_introl eq_refl)).
  rewrite (proj2 (mem_false _ _) (Hseen a (or_introl eq_refl))).
  cbn [List.map] in Hnd. inversion Hnd as [|? ? Hnotin Hnd']; subst.
  f_equal. apply IH.
  - intros i Hi. apply Hig. right. exact Hi.
  - exact Hnd'.
  - intros i Hi [E|Hin].
    + apply Hnotin. rewrite E. apply in_map. exact Hi.
    + apply (Hseen i (or_intror Hi) Hin).
Qed.

Lemma finalFilter_first raw : forall seen i,
  In i (finalFilter h root raw seen) ->
  exists l1 l2, raw = l1 ++ i :: l2
                /\ forall j, In j l1 -> issueKey j <> issueKey i.
Proof.
  induction raw as [|a raw IH]; intros seen i Hi; [destruct Hi|].
  cbn [finalFilter] in Hi.
  destruct (Host.ignores h (Host.relative h root (path a))) eqn:Eig.
  - pose proof (finalFilter_not_ignored h root _ _ _ Hi) as Hig.
    destruct (IH _ _ Hi) as (l1 & l2 & -> & Hl1).
    exists (a :: l1), l2. split; [reflexivity|].
    intros j [<-|Hj]; [|apply Hl1, Hj].
    intros E. apply issueKey_inj in E as [_ Ep]. congruence.
  - destruct (Str.mem (issueKey a) seen) eqn:Em.
    + pose proof (finalFilter_fresh h root _ _ _ Hi) as Hfresh.
      destruct (IH _ _ Hi) as (l1 & l2 & -> & Hl1).
      exists (a :: l1), l2. split; [reflexivity|].
      intros j [<-|Hj]; [|apply Hl1, Hj].
      intros E. apply Hfresh. rewrite <- E. apply mem_In. exact Em.
    + destruct Hi as [<-|Hi].
      * exists [], raw. split; [reflexivity|]. intros j [].
      * pose proof (finalFilter_fresh h root _ _ _ Hi) as Hfresh.
        destruct (IH _ _ Hi) as (l1 & l2 & -> & Hl1).
        exists (a :: l1), l2. split; [reflexivity|].
        intros j [<-|Hj]; [|apply Hl1, Hj].
        intros E. apply Hfresh. left. exact E.
Qed.

(** X11: the final filter keeps, of the issues of one kind for one path, the
    one recorded first, and filtering its result again changes nothing. *)
Theorem final_filter_keeps_the_first (config : FsLintConfig) (forceStrict : bool) :
  finalFilter h root (lintWorkspace h root config forceStrict) []
  = lintWorkspace h root config forceStrict
  /\ forall i, In i (lintWorkspace h root config forceStrict) ->
       exists l1 l2,
         rawIssuesOf h root config forceStrict = l1 ++ i :: l2
         /\ forall j, In j l1 -> ruleKind j <> ruleKind i \/ path j <> path i.
Proof.
  unfold lintWorkspace. split.
  - apply finalFilter_fixpoint.
    + intros i Hi. eapply finalFilter_not_ignored. exact Hi.
    + apply finalFilter_NoDup.
    + intros i _ [].
  - intros i Hi. destruct (finalFilter_first _ _ _ Hi) as (l1 & l2 & E & Hl1).
    exists l1, l2. split; [exact E|]. intros j Hj.
    destruct (kind_eqb (ruleKind j) (ruleKind i)) eqn:Ek.
    + right. intros Ep. apply (Hl1 j Hj). unfold issueKey.
      unfold kind_eqb in Ek. apply String.eqb_eq in Ek. rewrite Ek, Ep.
      reflexivity.
    + left. intros E'. rewrite E' in Ek. unfold kind_eqb in Ek.
      rewrite String.eqb_refl in Ek. discriminate.
Qed.

(** *** The directory groups *)

Local Abbreviation groupOf g dir :=
  (match mapGet String.eqb dir g with Some l => l | None => @nil InDirOnlyRule end).

Lemma keys_mapSet_NoDup {V} (k : string) (v : V) (m : list (string * V)) :
  NoDup (keys m) -> NoDup (keys (mapSet String.eqb k v m)).
Proof.
  intros Hnd. destruct (Str.mem k (keys m)) eqn:E.
  - rewrite keys_set_in; [exact Hnd|apply mem_In, E].
  - apply mem_false in E. rewrite keys_set_notin; [|exact E].
    apply NoDup_app; [exact Hnd|repeat constructor; intros []|].
    intros x Hx [<-|[]]. contradiction.
Qed.

Lemma In_mapSet {V} (k k' : string) (v v' : V) (m : list (string * V)) :
  In (k', v') (mapSet String.eqb k v m) -> (k' = k /\ v' = v) \/ In (k', v') m.
Proof.
  induction m as [|[k0 v0] m IH]; cbn.
  - intros [E|[]]. injection E as <- <-. auto.
  - destruct (String.eqb k k0) eqn:E.
    + apply String.eqb_eq in E. subst k0. intros [E'|Hin].
      * injection E' as <- <-. auto.
      * auto.
    + intros [E'|Hin]; [auto|]. destruct (IH Hin); auto.
Qed.

Lemma groupPush_get r dir (g : Groups) dir' :
  groupOf (groupPush r dir g) dir'
  = if String.eqb dir' dir then groupOf g dir' ++ [r] else groupOf g dir'.
Proof.
  unfold groupPush. destruct (String.eqb dir' dir) eqn:E.
  - apply String.eqb_eq in E. subst dir'. rewrite mapGet_set_same. reflexivity.
  - rewrite mapGet_set_other; [reflexivity|].
    intros ->. rewrite String.eqb_refl in E. discriminate.
Qed.

Lemma groupPush_wf r dir (g : Groups) :
  NoDup (keys g) /\ (forall k l, In (k, l) g -> l <> []) ->
  NoDup (keys (groupPush r dir g))
  /\ (forall k l, In (k, l) (groupPush r dir g) -> l <> []).
Proof.
  intros [Hnd Hne]. unfold groupPush. split; [apply keys_mapSet_NoDup, Hnd|].
  intros k l Hin. apply In_mapSet in Hin as [[_ ->]|Hin]; [|eapply Hne, Hin].
  intros E. apply app_eq_nil in E as [_ E]. discriminate.
Qed.

Lemma fold_inDir_get dir rs : forall g : Groups,
  groupOf (fold_left (fun g r => groupPush r (d_dir r) g) rs g) dir
  = groupOf g dir ++ filter (fun r => String.eqb dir (d_dir r)) rs.
Proof.
  induction rs as [|r rs IH]; intros g; cbn [fold_left filter].
  - rewrite app_nil_r. reflexivity.
  - rewrite IH, groupPush_get. destruct (String.eqb dir (d_dir r)).
    + rewrite <- app_assoc. reflexivity.
    + reflexivity.
Qed.

Lemma fold_allow_get dir ns : forall g : Groups,
  dir <> "." ->
  groupOf (fold_left (fun g names =>
                        groupPush (mkInDirOnly "." names (Some permissive) None)
                          "." g) ns g) dir
  = groupOf g dir.
Proof.
  induction ns as [|n ns IH]; intros g Hdir; [reflexivity|].
  cbn [fold_left]. rewrite IH, groupPush_get; [|exact Hdir].
  destruct (String.eqb dir ".") eqn:E; [|reflexivity].
  apply String.eqb_eq in E. contradiction.
Qed.

Lemma fold_wf {A} (f : Groups -> A -> Groups) (l : list A) :
  (forall g a, NoDup (keys g) /\ (forall k v, In (k, v) g -> v <> []) ->
               NoDup (keys (f g a)) /\ (forall k v, In (k, v) (f g a) -> v <> [])) ->
  forall g, NoDup (keys g) /\ (forall k v, In (k, v) g -> v <> []) ->
            NoDup (keys (fold_left f l g))
            /\ (forall k v, In (k, v) (fold_left f l g) -> v <> []).
Proof.
  intros Hf. induction l as [|a l IH]; intros g Hg; [exact Hg|].
  cbn [fold_left]. apply IH, Hf, Hg.
Qed.

(** X12: the directory groups are one group for each directory, none of them
    empty, and the group of a directory other than the root directory holds
    the [inDirOnly] rules of that directory, in the order of the
    configuration. *)
Theorem groups_are_the_rules_by_directory (rules : list Rule) :
  NoDup (keys (buildGroups h root rules))
  /\ forall dir group,
       In (dir, group) (buildGroups h root rules) ->
       group <> []
       /\ (dir <> "." ->
           group = filter (fun r => String.eqb dir (d_dir r)) (inDirRules rules)).
Proof.
  assert (Hwf1 : NoDup (keys (fold_left (fun g r => groupPush r (d_dir r) g)
                                (inDirRules rules) []))
                 /\ (forall k v,
                       In (k, v) (fold_left (fun g r => groupPush r (d_dir r) g)
                                    (inDirRules rules) []) -> v <> [])).
  { apply fold_wf.
    - intros g a Hg. apply groupPush_wf, Hg.
    - split; [constructor|intros k v []]. }
  assert (Hwf2 : NoDup (keys (fold_left
                   (fun g names =>
                      groupPush (mkInDirOnly "." names (Some permissive) None) "." g)
                   (allowRules rules)
                   (fold_left (fun g r => groupPush r (d_dir r) g)
                      (inDirRules rules) [])))
                 /\ (forall k v,
                       In (k, v) (fold_left
                   (fun g names =>
                      groupPush (mkInDirOnly "." names (Some permissive) None) "." g)
                   (allowRules rules)
                   (fold_left (fun g r => groupPush r (d_dir r) g)
                      (inDirRules rules) [])) -> v <> [])).
  { apply fold_wf; [|exact Hwf1]. intros g a Hg. apply groupPush_wf, Hg. }
  assert (Hget : forall dir, dir <> "." ->
            groupOf (fold_left
                   (fun g names =>
                      groupPush (mkInDirOnly "." names (Some permissive) None) "." g)
                   (allowRules rules)
                   (fold_left (fun g r => groupPush r (d_dir r) g)
                      (inDirRules rules) [])) dir
            = filter (fun r => String.eqb dir (d_dir r)) (inDirRules rules)).
  { intros dir Hdir. rewrite fold_allow_get, fold_inDir_get; [reflexivity|exact Hdir]. }
  unfold buildGroups.
  set (g1 := fold_left _ (allowRules rules) _) in *.
  assert (Hfinal : forall v, v <> [] ->
            NoDup (keys (mapSet String.eqb "." v g1))
            /\ forall dir group,
                 In (dir, group) (mapSet String.eqb "." v g1) ->
                 group <> []
                 /\ (dir <> "." ->
                     group = filter (fun r => String.eqb dir (d_dir r))
                               (inDirRules rules))).
  { intros v Hv. split; [apply keys_mapSet_NoDup, Hwf2|].
    intros dir group Hin. apply In_mapSet in Hin as [[-> ->]|Hin].
    - split; [exact Hv|]. intros Hdir. contradiction.
    - split; [eapply (proj2 Hwf2), Hin|]. intros Hdir.
      rewrite <- (Hget dir Hdir).
      rewrite (proj1 (mapGet_In dir group g1 (proj1 Hwf2)) Hin). reflexivity. }
  assert (Hplain : NoDup (keys g1)
            /\ forall dir group,
                 In (dir, group) g1 ->
                 group <> []
                 /\ (dir <> "." ->
                     group = filter (fun r => String.eqb dir (d_dir r))
                               (inDirRules rules))).
  { split; [apply Hwf2|]. intros dir group Hin.
    split; [eapply (proj2 Hwf2), Hin|]. intros Hdir.
    rewrite <- (Hget dir Hdir).
    rewrite (proj1 (mapGet_In dir group g1 (proj1 Hwf2)) Hin). reflexivity. }
  destruct (hasRules rules); [exact Hplain|].
  destruct (requiredNamesOf h root rules) as [|n ns] eqn:En; [exact Hplain|].
  destruct (existsb isPermissive
              (match mapGet String.eqb "." g1 with Some l => l | None => [] end))
    eqn:Ex.
  - apply Hfinal.
    destruct (match mapGet String.eqb "." g1 with Some l => l | None => [] end)
      as [|r0 rest0]; [discriminate|].
    cbn [pushToFirstPermissive]. destruct (isPermissive r0); discriminate.
  - apply Hfinal. intros E. apply app_eq_nil in E as [_ E]. discriminate.
Qed.

(** *** The naming rules *)

Local Abbreviation fails r name :=
  (exceptIncludes r name = false
   /\ Naming.valid (checkStyle h name (n_style r) (n_prefix r) (n_suffix r)) = false).

Lemma tryRules_fails applies name isDir rules : forall lf,
  fst (tryRules h applies name isDir rules lf) = false ->
  forall r, In r rules ->
            skipsByFileType (n_fileType r) isDir = false ->
            applies r = true -> fails r name.
Proof.
  induction rules as [|a rules IH]; intros lf Hf r Hr Hskip Happ; [destruct Hr|].
  cbn [tryRules] in Hf.
  destruct (skipsByFileType (n_fileType a) isDir) eqn:Es.
  { destruct Hr as [<-|Hr]; [congruence|]. eapply IH; eassumption. }
  destruct (applies a) eqn:Ea; cbn [negb] in Hf.
  2:{ destruct Hr as [<-|Hr]; [congruence|]. eapply IH; eassumption. }
  destruct (exceptIncludes a name) eqn:Ee; [discriminate Hf|].
  destruct (Naming.valid (checkStyle h name (n_style a) (n_prefix a) (n_suffix a)))
    eqn:Ev; [discriminate Hf|].
  destruct Hr as [<-|Hr]; [split; assumption|]. eapply IH; eassumption.
Qed.

Lemma namingIssue_fails rule applies candidates name abs isDir i :
  In i (namingIssue h root rule applies candidates name abs isDir) ->
  path i = abs
  /\ forall r, In r candidates ->
               skipsByFileType (n_fileType r) isDir = false ->
               (isConditional r = true -> applies r = true) ->
               fails r name.
Proof.
  unfold namingIssue. intros H.
  destruct (tryRules h applies name isDir (filter isConditional candidates) None)
    as [p1 f1] eqn:E1.
  destruct p1; [destruct H|].
  destruct (tryRules h (fun _ => true) name isDir
              (filter (fun r => negb (isConditional r)) candidates) f1)
    as [p2 f2] eqn:E2.
  destruct p2; [destruct H|]. destruct H as [<-|[]].
  split; [reflexivity|]. intros r Hr Hskip Happ.
  destruct (isConditional r) eqn:Ec.
  - apply (tryRules_fails applies name isDir (filter isConditional candidates) None);
      [rewrite E1; reflexivity| |exact Hskip|apply Happ; reflexivity].
    apply filter_In. auto.
  - apply (tryRules_fails (fun _ => true) name isDir
             (filter (fun r => negb (isConditional r)) candidates) f1);
      [rewrite E2; reflexivity| |exact Hskip|reflexivity].
    apply filter_In. rewrite Ec. auto.
Qed.

Lemma namingRules_In target rules r :
  In r (namingRules target rules)
  <-> In (NamingR r) rules /\ n_target r = target.
Proof.
  unfold namingRules. rewrite in_flat_map. split.
  - intros (x & Hx & Hin). destruct x; try (destruct Hin; fail).
    destruct (n_target r0) eqn:Et, target; try (destruct Hin; fail);
      destruct Hin as [<-|[]]; auto.
  - intros [Hin Ht]. exists (NamingR r). split; [exact Hin|].
    rewrite Ht. destruct target; left; reflexivity.
Qed.

(** X22: a naming issue of the result is for an entry that no unconditional
    naming rule for it accepts: there is a naming rule of the configuration
    whose handler met the entry (an entry of a directory of an [in] rule, a
    match of the pattern of a [those] rule), and every unconditional rule of
    the same target for the same place (the same directory pattern, or a
    pattern that matches the entry) that does not skip the entry by its file
    type has the name outside its exceptions and rejects it. *)
Theorem naming_issue_passes_no_rule
    (config : FsLintConfig) (forceStrict : bool) (i : Issue) :
  In i (lintWorkspace h root config forceStrict) ->
  ruleKind i = k_naming ->
  exists rule name isDir,
    In (NamingR rule) (cfg_rules config)
    /\ skipsByFileType (n_fileType rule) isDir = false
    /\ match n_target rule with
       | target_in =>
           exists dirAbs entry,
             In dirAbs (dirsToCheck h root rule)
             /\ In entry (Host.listTopLevel h dirAbs)
             /\ Host.e_abs entry = path i /\ Host.e_name entry = name
             /\ Host.e_isDir entry = isDir
       | target_those =>
           In (path i) (scanOne h (n_pattern rule) root (onlyFilesOf rule))
           /\ name = Host.basename h (path i)
           /\ isDir = Host.isDirectory h (path i)
       end
    /\ forall r,
         In (NamingR r) (cfg_rules config) ->
         n_target r = n_target rule ->
         match n_target rule with
         | target_in => n_pattern r = n_pattern rule
         | target_those =>
             In (path i) (scanOne h (n_pattern r) root (onlyFilesOf r))
         end ->
         isConditional r = false ->
         skipsByFileType (n_fileType r) isDir = false ->
         fails r name.
Proof.
  intros Hi Hk.
  destruct (issue_raised config forceStrict i Hi) as (r0 & Hr0 & Hraised);
    [congruence|].
  pose proof (handleRule_issues h root _ _ _ r0 i Hraised) as [[]|[Hkr _]].
  rewrite Hk in Hkr. destruct r0 as [| | | | |rule| | | |];
    cbn [kindOf] in Hkr; try discriminate.
  unfold Shapes.raised in Hraised. cbn [handleRule] in Hraised.
  unfold handleNaming in Hraised.
  destruct (n_target rule) eqn:Et in Hraised.
  - unfold handleNamingIn in Hraised. cbn [rawIssues pushIssues app] in Hraised.
    apply in_flat_map in Hraised as (dirAbs & Hdir & Hraised).
    apply in_flat_map in Hraised as (entry & Hentry & Hraised).
    destruct (skipsByFileType (n_fileType rule) (Host.e_isDir entry)) eqn:Es;
      [destruct Hraised|].
    destruct (Str.mem _ _); [destruct Hraised|].
    destruct (inExceptList _ _ _ _ _ _ _ _); [destruct Hraised|].
    apply namingIssue_fails in Hraised as [Hpath Hall].
    exists rule, (Host.e_name entry), (Host.e_isDir entry). rewrite Et.
    split; [exact Hr0|]. split; [exact Es|]. split.
    + exists dirAbs, entry. auto.
    + intros r Hr Htr Hpat Hc Hskip. apply Hall; [|exact Hskip|congruence].
      apply filter_In. split.
      * apply namingRules_In. auto.
      * apply String.eqb_eq. exact Hpat.
  - unfold handleNamingThose in Hraised. cbn [rawIssues pushIssues app] in Hraised.
    apply in_flat_map in Hraised as (abs & Habs & Hraised).
    destruct (skipsByFileType (n_fileType rule) (Host.isDirectory h abs)) eqn:Es;
      [destruct Hraised|].
    destruct (inExceptList _ _ _ _ _ _ _ _); [destruct Hraised|].
    apply namingIssue_fails in Hraised as [Hpath Hall]. rewrite Hpath.
    exists rule, (Host.basename h abs), (Host.isDirectory h abs). rewrite Et.
    split; [exact Hr0|]. split; [exact Es|]. split; [auto|].
    intros r Hr Htr Hpat Hc Hskip. apply Hall; [|exact Hskip|congruence].
    apply filter_In. split.
    + apply namingRules_In. auto.
    + apply mem_In. exact Hpat.
Qed.

(** *** The target of a [renameGlob] rule *)

(** X24: when the target of a [renameGlob] rule has a glob character and does
    not end with [.test.ts], no target is inferred for any file: every issue
    the rule raises is a warning with the message [cannotInferTarget]. *)
Theorem pattern_target_is_not_inferred rules groups st (from to : string)
    (i : Issue) :
  Str.all (fun x => negb (is_glob_meta x)) to = false ->
  Str.endsWith to ".test.ts" = false ->
  In i (rawIssues (handleRule h root rules groups st (RenameGlob from to))) ->
  In i (rawIssues st)
  \/ (ruleKind i = k_renameGlob
      /\ In (path i) (scanOne h from root true)
      /\ message i = renameGlob_cannotInferTarget /\ severity i = warn).
Proof.
  intros Hmeta Hend Hi. cbn [handleRule] in Hi. unfold handleRenameGlob in Hi.
  cbn [rawIssues pushIssues] in Hi.
  apply in_app_or in Hi as [Hi|Hi]; [left; exact Hi|right].
  apply in_map_iff in Hi as (abs & <- & Habs).
  assert (E : computeRenameDest h root abs from to = None).
  { unfold computeRenameDest. rewrite Hend. cbn [andb].
    unfold reGlobMeta. rewrite test_some_of_class, Hmeta. reflexivity. }
  rewrite E. cbn [ruleKind path message severity]. auto.
Qed.

End IssueFacts.
(** ** The required names of the result *)

Section RequiredNames.
Import Types Lint Required.

Local Abbreviation ordered := (fun a b : string => String.leb a b = true).

Lemma setAdd_In (x y : string) (s : list string) :
  In y (setAdd x s) <-> y = x \/ In y s.
Proof.
  unfold setAdd. destruct (Str.mem x s) eqn:E.
  - apply mem_In in E. split; [auto|]. intros [->|H]; assumption.
  - rewrite in_app_iff. cbn. split.
    + intros [H|[H|[]]]; auto.
    + intros [->|H]; auto.
Qed.

Lemma setAdd_NoDup (x : string) (s : list string) :
  NoDup s -> NoDup (setAdd x s).
Proof.
  intros Hnd. unfold setAdd. destruct (Str.mem x s) eqn:E; [exact Hnd|].
  apply mem_false in E. apply NoDup_app; [exact Hnd|repeat constructor; intros []|].
  intros y Hy [<-|[]]. contradiction.
Qed.

Lemma setDelete_In (x y : string) (s : list string) :
  In y (setDelete x s) <-> In y s /\ y <> x.
Proof.
  unfold setDelete. rewrite filter_In, negb_true_iff, String.eqb_neq. reflexivity.
Qed.

Lemma setDelete_all_In (y : string) (opt : list string) : forall s,
  In y (fold_left (fun required o => setDelete o required) opt s)
  <-> In y s /\ ~ In y opt.
Proof.
  induction opt as [|o opt IH]; intros s; cbn [fold_left].
  - cbn. tauto.
  - rewrite IH, setDelete_In. cbn. split.
    + intros [[H1 H2] H3]. split; [exact H1|]. intros [->|H]; auto.
    + intros [H1 H2]. repeat split; auto.
Qed.

Lemma setDelete_all_NoDup (opt : list string) : forall s,
  NoDup s -> NoDup (fold_left (fun required o => setDelete o required) opt s).
Proof.
  induction opt as [|o opt IH]; intros s Hnd; [exact Hnd|].
  cbn [fold_left]. apply IH. unfold setDelete. apply NoDup_filter, Hnd.
Qed.

Lemma insertSorted_In (x y : string) (l : list string) :
  In y (insertSorted x l) <-> y = x \/ In y l.
Proof.
  induction l as [|z l IH]; cbn.
  - split; [intros [H|[]]; auto|intros [H|[]]; auto].
  - destruct (String.leb x z); cbn.
    + split; [intros [H|H]; auto|intros [H|H]; auto].
    + rewrite IH. split; [intros [H|[H|H]]; auto|intros [H|[H|H]]; auto].
Qed.

Lemma sortStrings_In (y : string) (l : list string) :
  In y (sortStrings l) <-> In y l.
Proof.
  unfold sortStrings. induction l as [|x l IH]; cbn [fold_right]; [reflexivity|].
  rewrite insertSorted_In, IH. cbn. split; intros [H|H]; auto.
Qed.

Lemma insertSorted_NoDup (x : string) (l : list string) :
  ~ In x l -> NoDup l -> NoDup (insertSorted x l).
Proof.
  induction l as [|z l IH]; cbn; intros Hx Hnd.
  - repeat constructor. intros [].
  - destruct (String.leb x z).
    + constructor; [exact Hx|exact Hnd].
    + inversion Hnd as [|? ? Hz Hl]; subst. constructor.
      * rewrite insertSorted_In. intros [->|H]; auto.
      * apply IH; auto.
Qed.

Lemma sortStrings_NoDup (l : list string) :
  NoDup l -> NoDup (sortStrings l).
Proof.
  unfold sortStrings. induction l as [|x l IH]; intros Hnd; cbn [fold_right].
  - constructor.
  - inversion Hnd as [|? ? Hx Hl]; subst. apply insertSorted_NoDup.
    + change (~ In x (sortStrings l)). rewrite sortStrings_In. exact Hx.
    + apply IH, Hl.
Qed.

Lemma insertSorted_Sorted (x : string) (l : list string) :
  Sorted ordered l -> Sorted ordered (insertSorted x l).
Proof.
  induction l as [|z l IH]; cbn; intros Hs.
  - repeat constructor.
  - destruct (String.leb x z) eqn:E.
    + constructor; [exact Hs|constructor; exact E].
    + inversion Hs as [|? ? Hl Hhd]; subst. constructor; [apply IH, Hl|].
      assert (Hzx : String.leb z x = true).
      { destruct (String.leb_total x z) as [H|H]; [congruence|exact H]. }
      destruct l as [|w l]; cbn.
      * constructor. exact Hzx.
      * destruct (String.leb x w); constructor; [exact Hzx|].
        inversion Hhd; subst. assumption.
Qed.

Lemma sortStrings_Sorted (l : list string) : Sorted ordered (sortStrings l).
Proof.
  unfold sortStrings. induction l as [|x l IH]; cbn [fold_right].
  - constructor.
  - apply insertSorted_Sorted, IH.
Qed.

Local Abbreviation requiredBy rules n :=
  (exists names name, In (HasFile names) rules /\ In name names
                      /\ isGlobPattern name = false
                      /\ pickTopLevelName name = n).

Local Abbreviation optionalBy rules n :=
  (exists names name, In (Optional names) rules /\ In name names
                      /\ pickTopLevelName name = n).

Lemma addRequired_spec (names : list string) : forall req,
  let req' := fold_left (fun required name =>
                           if negb (isGlobPattern name)
                           then setAdd (pickTopLevelName name) required
                           else required) names req in
  (forall n, In n req' <-> In n req \/ exists name, In name names
                                        /\ isGlobPattern name = false
                                        /\ pickTopLevelName name = n)
  /\ (NoDup req -> NoDup req').
Proof.
  induction names as [|name names IH]; intros req; cbn [fold_left].
  - split; [|auto]. intros n. split; [auto|]. intros [H|(x & [] & _)]. exact H.
  - destruct (IH (if negb (isGlobPattern name)
                  then setAdd (pickTopLevelName name) req else req)) as [Hin Hnd].
    split.
    + intros n. rewrite Hin. destruct (isGlobPattern name) eqn:Eg; cbn [negb].
      * split.
        -- intros [H|(x & Hx & Hg & Hp)]; [auto|].
           right. exists x. cbn. auto.
        -- intros [H|(x & [<-|Hx] & Hg & Hp)]; [auto|congruence|].
           right. exists x. auto.
      * rewrite setAdd_In. split.
        -- intros [[->|H]|(x & Hx & Hg & Hp)]; [|auto|].
           ++ right. exists name. cbn. auto.
           ++ right. exists x. cbn. auto.
        -- intros [H|(x & [<-|Hx] & Hg & Hp)]; [auto|auto|].
           right. exists x. auto.
    + intros H. apply Hnd. destruct (negb (isGlobPattern name)); [|exact H].
      apply setAdd_NoDup, H.
Qed.

Lemma addOptional_spec (names : list string) : forall opt n,
  In n (fold_left (fun optional name => setAdd (pickTopLevelName name) optional)
          names opt)
  <-> In n opt \/ exists name, In name names /\ pickTopLevelName name = n.
Proof.
  induction names as [|name names IH]; intros opt n; cbn [fold_left].
  - split; [auto|]. intros [H|(x & [] & _)]. exact H.
  - rewrite IH, setAdd_In. split.
    + intros [[->|H]|(x & Hx & Hp)]; [|auto|].
      * right. exists name. cbn. auto.
      * right. exists x. cbn. auto.
    + intros [H|(x & [<-|Hx] & Hp)]; [auto|auto|].
      right. exists x. auto.
Qed.

Lemma collect_spec (rules : list Rule) : forall req opt,
  let step := fun '(required, optional) r =>
               match r with
               | HasFile names =>
                   (fold_left (fun required name =>
                                 if negb (Lint.isGlobPattern name)
                                 then setAdd (Lint.pickTopLevelName name) required
                                 else required) names required,
                    optional)
               | Optional names =>
                   (required,
                    fold_left (fun optional name =>
                                 setAdd (Lint.pickTopLevelName name) optional)
                              names optional)
               | _ => (required, optional)
               end in
  let res := fold_left step rules (req, opt) in
  (forall n, In n (fst res) <-> In n req \/ requiredBy rules n)
  /\ (forall n, In n (snd res) <-> In n opt \/ optionalBy rules n)
  /\ (NoDup req -> NoDup (fst res)).
Proof.
  induction rules as [|r rules IH]; intros req opt; cbn zeta.
  - cbn. repeat split; auto.
    + intros [H|(? & ? & [] & _)]. exact H.
    + intros [H|(? & ? & [] & _)]. exact H.
  - cbn [fold_left].
    assert (Hskip : forall P : list string -> Prop,
              (forall names, r <> HasFile names) ->
              forall n, (In n req \/ requiredBy rules n)
                        <-> (In n req \/ requiredBy (r :: rules) n)).
    { intros _ Hr n. split.
      - intros [H|(ns & x & H1 & H2)]; [auto|]. right. exists ns, x. cbn. tauto.
      - intros [H|(ns & x & [H1|H1] & H2)]; [auto| |].
        + exfalso. eapply Hr, H1.
        + right. exists ns, x. tauto. }
    assert (Hskip' : (forall names, r <> Optional names) ->
              forall n, (In n opt \/ optionalBy rules n)
                        <-> (In n opt \/ optionalBy (r :: rules) n)).
    { intros Hr n. split.
      - intros [H|(ns & x & H1 & H2)]; [auto|]. right. exists ns, x. cbn. tauto.
      - intros [H|(ns & x & [H1|H1] & H2)]; [auto| |].
        + exfalso. eapply Hr, H1.
        + right. exists ns, x. tauto. }
    destruct r as [? ?|? ?|? ?|? ?|?|?|?|l|?|l];
      try (specialize (IH req opt); cbn zeta in IH;
           destruct IH as (I1 & I2 & I3);
           split; [|split]; [| |exact I3];
           intros n; [rewrite I1; apply (Hskip (fun _ => True)); discriminate
                     |rewrite I2; apply Hskip'; discriminate]).
    + (* has *)
      destruct (addRequired_spec l req) as [Hin Hnd]. cbn zeta in Hin, Hnd.
      specialize (IH (fold_left (fun required name =>
                                   if negb (isGlobPattern name)
                                   then setAdd (pickTopLevelName name) required
                                   else required) l req) opt).
      cbn zeta in IH. destruct IH as (I1 & I2 & I3).
      split; [|split].
      * intros n. rewrite I1, Hin. split.
        -- intros [[H|(x & Hx & Hg)]|(ns & x & H1 & H2)]; [auto| |].
           ++ right. exists l, x. cbn. auto.
           ++ right. exists ns, x. cbn. tauto.
        -- intros [H|(ns & x & [H1|H1] & H2)]; [auto| |].
           ++ injection H1 as <-. left. right. exists x. exact H2.
           ++ right. exists ns, x. tauto.
      * intros n. rewrite I2. apply Hskip'. discriminate.
      * intros H. apply I3, Hnd, H.
    + (* optional *)
      specialize (IH req (fold_left (fun optional name =>
                                       setAdd (pickTopLevelName name) optional)
                            l opt)).
      cbn zeta in IH. destruct IH as (I1 & I2 & I3).
      split; [|split]; [| |exact I3].
      * intros n. rewrite I1. apply (Hskip (fun _ => True)). discriminate.
      * intros n. rewrite I2, addOptional_spec. split.
        -- intros [[H|(x & Hx & Hg)]|(ns & x & H1 & H2)]; [auto| |].
           ++ right. exists l, x. cbn. auto.
           ++ right. exists ns, x. cbn. tauto.
        -- intros [H|(ns & x & [H1|H1] & H2)]; [auto| |].
           ++ injection H1 as <-. left. right. exists x. exact H2.
           ++ right. exists ns, x. tauto.
Qed.

(** X13: the required top-level names of a configuration are sorted and
    without repetition, and a name is one of them exactly when it is not
    [.], it is the top-level name of a name without glob characters of a
    [has] rule, and it is the top-level name of no name of an [optional]
    rule. *)
Theorem required_names_are_the_has_names_not_optional (config : FsLintConfig) :
  Sorted ordered (computeRequiredTopLevelNames config)
  /\ NoDup (computeRequiredTopLevelNames config)
  /\ forall n, In n (computeRequiredTopLevelNames config)
               <-> n <> "."
                   /\ requiredBy (cfg_rules config) n
                   /\ ~ optionalBy (cfg_rules config) n.
Proof.
  unfold computeRequiredTopLevelNames, collectNames.
  destruct (collect_spec (cfg_rules config) [] []) as (H1 & H2 & H3).
  cbn zeta in H1, H2, H3.
  destruct (fold_left _ (cfg_rules config) ([], [])) as [required optional].
  cbn [fst snd] in H1, H2, H3.
  split; [apply sortStrings_Sorted|]. split.
  - apply sortStrings_NoDup. unfold setDelete at 1. apply NoDup_filter.
    apply setDelete_all_NoDup, H3. constructor.
  - intros n. rewrite sortStrings_In, setDelete_In, setDelete_all_In, H1, H2.
    cbn [In]. tauto.
Qed.

Section FinalNames.
Variable h : Host.t.
Variable root : string.

Local Abbreviation matchedBy rules n :=
  (exists names name m, In (HasFile names) rules /\ In name names
                        /\ isGlobPattern name = true
                        /\ In m (scanOne h name root true)
                        /\ pickTopLevelName (toDisplayPath h m root) = n).

Lemma handleHas_matched (names : list string) : forall st n,
  In n (matchedGlobFiles (handleHas h root names st))
  <-> In n (matchedGlobFiles st)
      \/ exists name m, In name names /\ isGlobPattern name = true
                        /\ In m (scanOne h name root true)
                        /\ pickTopLevelName (toDisplayPath h m root) = n.
Proof.
  unfold handleHas. induction names as [|name names IH]; intros st n;
    cbn [fold_left].
  - split; [auto|]. intros [H|(? & ? & [] & _)]. exact H.
  - rewrite IH.
    assert (Hhere : In n (matchedGlobFiles (handleHasName h root st name))
              <-> In n (matchedGlobFiles st)
                  \/ (isGlobPattern name = true
                      /\ exists m, In m (scanOne h name root true)
                           /\ pickTopLevelName (toDisplayPath h m root) = n)).
    { unfold handleHasName. destruct (isGlobPattern name).
      - destruct (scanOne h name root true) as [|m0 ms] eqn:Es.
        + cbn. split; [auto|]. intros [H|(_ & m & [] & _)]. exact H.
        + unfold addToRoot. cbn [matchedGlobFiles]. rewrite in_app_iff.
          rewrite map_map, in_map_iff. split.
          * intros [H|(m & Hm & Hin)]; [auto|]. right. split; [reflexivity|].
            exists m. auto.
          * intros [H|(_ & m & Hin & Hm)]; [auto|]. right. exists m. auto.
      - destruct (Host.existsSync h (Host.resolve2 h root name)).
        + unfold addToRoot. cbn [matchedGlobFiles]. rewrite app_nil_r.
          split; [auto|]. intros [H|(H & _)]; [exact H|discriminate].
        + cbn. split; [auto|]. intros [H|(H & _)]; [exact H|discriminate]. }
    rewrite Hhere. split.
    + intros [[H|(Hg & m & Hm)]|(x & m & Hx & Hrest)]; [auto| |].
      * right. exists name, m. cbn. tauto.
      * right. exists x, m. cbn. tauto.
    + intros [H|(x & m & [<-|Hx] & Hg & Hrest)]; [auto| |].
      * left. right. split; [exact Hg|]. exists m. exact Hrest.
      * right. exists x, m. tauto.
Qed.

Lemma handleRule_matched rules groups st r :
  (forall names, r <> HasFile names) ->
  matchedGlobFiles (handleRule h root rules groups st r) = matchedGlobFiles st.
Proof.
  intros Hr.
  destruct r as [from toDir|pattern only|fromNames toName|from to|d|r
                |names|names|names|names]; cbn [handleRule];
    try reflexivity.
  - unfold handleThoseOnly. cbn [pushIssues matchedGlobFiles markProcessed].
    destruct (Str.mem pattern (processedThoseOnlyPatterns st)); reflexivity.
  - unfold handleNaming. destruct (n_target r); reflexivity.
  - exfalso. eapply Hr. reflexivity.
Qed.

Lemma loop_matched config rs : forall st n,
  In n (matchedGlobFiles
          (fold_left (handleRule h root (cfg_rules config)
                        (buildGroups h root (cfg_rules config))) rs st))
  <-> In n (matchedGlobFiles st) \/ matchedBy rs n.
Proof.
  induction rs as [|r rs IH]; intros st n; cbn [fold_left].
  - split; [auto|]. intros [H|(? & ? & ? & [] & _)]. exact H.
  - rewrite IH.
    assert (Hother : (forall names, r <> HasFile names) ->
              (In n (matchedGlobFiles
                       (handleRule h root (cfg_rules config)
                          (buildGroups h root (cfg_rules config)) st r))
               \/ matchedBy rs n)
              <-> (In n (matchedGlobFiles st) \/ matchedBy (r :: rs) n)).
    { intros Hr. rewrite handleRule_matched by exact Hr. split.
      - intros [H|(ns & x & m & H1 & H2)]; [auto|].
        right. exists ns, x, m. cbn. tauto.
      - intros [H|(ns & x & m & [H1|H1] & H2)]; [auto| |].
        + exfalso. eapply Hr, H1.
        + right. exists ns, x, m. tauto. }
    destruct r as [? ?|? ?|? ?|? ?|?|?|?|l|?|?];
      try (apply Hother; discriminate).
    cbn [handleRule]. rewrite handleHas_matched. split.
    + intros [[H|(x & m & Hx)]|(ns & x & m & H1 & H2)]; [auto| |].
      * right. exists l, x, m. cbn. tauto.
      * right. exists ns, x, m. cbn. tauto.
    + intros [H|(ns & x & m & [H1|H1] & H2)]; [auto| |].
      * injection H1 as <-. left. right. exists x, m. exact H2.
      * right. exists ns, x, m. tauto.
Qed.

Lemma runRules_matched config rs st n :
  In n (matchedGlobFiles (runRules h root config rs st))
  <-> In n (matchedGlobFiles st) \/ matchedBy rs n.
Proof.
  unfold runRules. rewrite loop_matched. split.
  - intros [H|(ns & x & m & H1 & H2)]; [auto|]. right. exists ns, x, m.
    split; [|exact H2]. eapply extendFirstAllow_In_other; [exact H1|discriminate].
  - intros [H|(ns & x & m & H1 & H2)]; [auto|]. right. exists ns, x, m.
    split; [|exact H2]. apply extendFirstAllow_keeps; [exact H1|discriminate].
Qed.

(** X14: the required names of the result of a run are sorted and without
    repetition; they are the required names of the configuration together
    with the top-level names of the files that the glob patterns of the
    [has] rules match, whatever the [optional] rules say of those. *)
Theorem final_required_names_add_the_glob_matches (config : FsLintConfig)
    (forceStrict : bool) :
  Sorted ordered (finalRequiredTopLevelNames h root config forceStrict)
  /\ NoDup (finalRequiredTopLevelNames h root config forceStrict)
  /\ forall n, In n (finalRequiredTopLevelNames h root config forceStrict)
               <-> In n (computeRequiredTopLevelNames config)
                   \/ matchedBy (cfg_rules config) n.
Proof.
  unfold finalRequiredTopLevelNames.
  split; [apply sortStrings_Sorted|]. split.
  - apply sortStrings_NoDup, unique_NoDup.
  - intros n. rewrite sortStrings_In, unique_In, in_app_iff, runRules_matched.
    assert (E : matchedGlobFiles (stateAfterGroups h root config forceStrict) = []).
    { unfold stateAfterGroups. destruct (processGroups _ _ _ _ _ _); reflexivity. }
    rewrite E. cbn [In]. tauto.
Qed.

End FinalNames.

End RequiredNames.
(** ** The naming styles *)

Section NamingFacts.
Import Regex Naming.

Local Abbreviation done := (fun st : mstate => Some st).

Local Abbreviation plainChar :=
  (fun x => Str.is_word x || Str.ch "." x || Str.ch "_" x || Str.ch "-" x).

Lemma run_chr_seq (p : ascii -> bool) (b : re) k i ch s cs :
  p ch = true ->
  run (Seq (Chr p) b) k (MState i (String ch s) cs) = run b k (MState (S i) s cs).
Proof. intros H. cbn [run rest pos caps]. rewrite H. reflexivity. Qed.

Lemma run_star_skip (p : ascii -> bool) (b : re) k i ch s cs :
  p ch = false ->
  run (Seq (Star true (Chr p)) b) k (MState i (String ch s) cs)
  = run b k (MState i (String ch s) cs).
Proof.
  intros H. cbn [run rest pos caps starLoop String.length]. rewrite H. reflexivity.
Qed.

Lemma run_star_class_seq (p : ascii -> bool) (b : re) k i s cs x :
  Str.all p s = true ->
  run b k (MState (i + String.length s) "" cs) = Some x ->
  run (Seq (Star true (Chr p)) b) k (MState i s cs) = Some x.
Proof.
  intros Hall Hend.
  change (starLoop (run (Chr p)) true (fun st' => run b k st')
            (S (String.length s)) (MState i s cs) = Some x).
  apply starLoop_class_all; [lia|exact Hall|exact Hend].
Qed.

Lemma lowerOrDigit_plain (ch : ascii) :
  lowerOrDigit ch = true -> Str.ch "." ch = false /\ Str.ch "_" ch = false.
Proof.
  intros H. unfold Str.ch. split.
  - destruct (Ascii.eqb_spec "." ch) as [<-|]; [discriminate H|reflexivity].
  - destruct (Ascii.eqb_spec "_" ch) as [<-|]; [discriminate H|reflexivity].
Qed.

Lemma rev_acc_app (s : string) : forall acc,
  Str.rev_acc s acc = (Str.rev_acc s "" ++ acc)%string.
Proof.
  induction s as [|ch s IH]; intros acc; cbn [Str.rev_acc]; [reflexivity|].
  rewrite IH, (IH (String ch "")). clear IH.
  induction (Str.rev_acc s "") as [|d t IHt]; cbn; [reflexivity|].
  f_equal. exact IHt.
Qed.

Lemma rev_acc_rev_acc (s : string) : forall acc,
  Str.rev_acc (Str.rev_acc s acc) "" = (Str.rev_acc acc "" ++ s)%string.
Proof.
  induction s as [|ch s IH]; intros acc; cbn [Str.rev_acc].
  - induction (Str.rev_acc acc "") as [|d t IHt]; cbn; [reflexivity|].
    f_equal. exact IHt.
  - rewrite IH. cbn [Str.rev_acc]. rewrite (rev_acc_app acc (String ch "")).
    induction (Str.rev_acc acc "") as [|d t IHt]; cbn; [reflexivity|].
    f_equal. exact IHt.
Qed.

Lemma split_none (sep : ascii) (s : string) :
  Str.all (fun x => negb (Str.ch sep x)) s = true ->
  Str.split sep s = [s].
Proof.
  unfold Str.split.
  assert (H : forall cur,
            Str.all (fun x => negb (Str.ch sep x)) s = true ->
            Str.split_acc sep s cur = [Str.rev (Str.rev_acc s cur)]).
  { induction s as [|ch s IH]; intros cur Hall; cbn [Str.split_acc Str.rev_acc].
    - reflexivity.
    - cbn [Str.all] in Hall. apply andb_prop in Hall as [Hc Hall].
      unfold Str.ch in Hc. apply negb_true_iff in Hc. rewrite Hc.
      apply IH, Hall. }
  intros Hall. rewrite (H "" Hall). unfold Str.rev.
  rewrite rev_acc_rev_acc. reflexivity.
Qed.

(** X15: a name whose part before the extension is empty, or has a character
    other than a letter, a digit, [_], [.] and [-], passes every naming
    style, whatever the prefix and the suffix of the rule. *)
Theorem unusual_name_passes_every_style
    (HostRe : Type) (hostRegExp : string -> string -> option HostRe)
    (hostTest : HostRe -> string -> bool) (hostStrip : HostRe -> string -> string)
    (name : string) (style : NamingStyle) (prefix suffix : option string) :
  Str.isEmpty (getNameWithoutExtension name) = true
  \/ Str.all plainChar (getNameWithoutExtension name) = false ->
  checkNamingStyle HostRe hostRegExp hostTest hostStrip name style prefix suffix
  = Valid.
Proof.
  intros H. unfold checkNamingStyle, rePlainName.
  rewrite (test_all_of_class plainChar).
  destruct H as [H|H]; rewrite H; [reflexivity|].
  rewrite andb_false_r. reflexivity.
Qed.

(** X16: what the styles written as one character class ask of a stem:
    [PascalCase] an upper-case letter and then letters and digits,
    [camelCase] a lower-case letter and then letters and digits, [flatcase]
    one or more lower-case letters and digits. *)
Theorem one_word_styles_by_characters (stem : string) :
  checkStem stem PascalCase
  = match stem with
    | String ch s => Str.is_upper ch && Str.all Str.is_alnum s
    | EmptyString => false
    end
  /\ checkStem stem camelCase
     = match stem with
       | String ch s => Str.is_lower ch && Str.all Str.is_alnum s
       | EmptyString => false
       end
  /\ checkStem stem flatcase
     = negb (Str.isEmpty stem) && Str.all lowerOrDigit stem.
Proof.
  cbn [checkStem]. unfold rePascal, reCamel, reFlat.
  rewrite !test_head_and_class, test_all_of_class. auto.
Qed.

(** X17: a stem that passes [flatcase] passes [kebab-case] and [snake_case]
    as well. *)
Theorem flatcase_stem_is_kebab_and_snake (stem : string) :
  checkStem stem flatcase = true ->
  checkStem stem kebab_case = true /\ checkStem stem snake_case = true.
Proof.
  cbn [checkStem]. unfold reFlat. rewrite test_all_of_class.
  destruct stem as [|ch s]; [discriminate|]. cbn [Str.isEmpty negb andb Str.all].
  intros H. apply andb_prop in H as [Hc Hall].
  destruct (lowerOrDigit_plain ch Hc) as [Hdot Hus].
  split.
  - rewrite split_none.
    + cbn [forallb]. rewrite andb_true_r.
      destruct (Nat.eqb (String.length (String ch s)) 1
                && test reKebabSingle (String ch s)); [reflexivity|].
      unfold kebabCasePattern. cbn [seqs]. rewrite test_bol.
      rewrite run_chr_seq by exact Hc.
      erewrite run_star_class_seq; [reflexivity|exact Hall|reflexivity].
    + cbn [Str.all]. rewrite Hdot. cbn [negb andb].
      clear - Hall. induction s as [|d s IH]; [reflexivity|].
      cbn [Str.all] in *. apply andb_prop in Hall as [Hd Hall].
      rewrite (proj1 (lowerOrDigit_plain d Hd)), (IH Hall). reflexivity.
  - destruct (test reDunder (String ch s)); [reflexivity|].
    unfold reSnake. cbn [seqs]. rewrite test_bol.
    unfold c at 1. rewrite run_star_skip by exact Hus.
    unfold plus at 1.
    change (match run (Seq (Chr lowerOrDigit)
                         (Seq (Star true (Chr lowerOrDigit))
                            (Seq (Star true
                                    (Chr (fun x => lowerOrDigit x || Str.ch "_" x)))
                               Eol)))
                    done (MState 0 (String ch s) [])
            with Some _ => true | None => false end = true).
    rewrite run_chr_seq by exact Hc.
    erewrite run_star_class_seq; [reflexivity|exact Hall|reflexivity].
Qed.

End NamingFacts.

Lemma unusual_name_witness :
  Naming.checkNamingStyle unit (fun _ _ => None) (fun _ _ => false)
    (fun _ s => s) ".gitignore" Naming.PascalCase None (Some "/x$/")
  = Naming.Valid
  /\ Naming.checkNamingStyle unit (fun _ _ => None) (fun _ _ => false)
       (fun _ s => s) "[slug].vue" Naming.kebab_case None None
     = Naming.Valid.
Proof.
  split.
  - apply unusual_name_passes_every_style. left. reflexivity.
  - apply unusual_name_passes_every_style. right. reflexivity.
Defined.

Lemma flatcase_stem_witness :
  Naming.checkStem "utils2" Naming.kebab_case = true
  /\ Naming.checkStem "utils2" Naming.snake_case = true.
Proof. apply flatcase_stem_is_kebab_and_snake. reflexivity. Defined.
(** ** Glob patterns and top-level names *)

Section NameFacts.
Import Regex Lint.

Local Abbreviation noSlash := (fun x => negb (Str.ch "/" x)).

Lemma includes_stars (s : string) :
  Str.includes s "**" = true ->
  Str.all (fun x => negb (is_glob_meta x)) s = false.
Proof.
  induction s as [|a s IH]; cbn [Str.includes Str.all].
  - cbn. discriminate.
  - destruct (String.prefix "**" (String a s)) eqn:E.
    + intros _. cbn [String.prefix] in E.
      destruct (Ascii.ascii_dec "*" a) as [<-|]; [reflexivity|discriminate].
    + intros H. rewrite (IH H). apply andb_false_r.
Qed.

(** X18: a name counts as a glob pattern exactly when one of its characters
    is [*], [?], a brace or a square bracket; the test for two stars adds
    nothing to the test for the characters. *)
Theorem glob_pattern_by_characters (name : string) :
  isGlobPattern name = negb (Str.all (fun x => negb (is_glob_meta x)) name)
  /\ Parser.looksLikeGlob name
     = negb (Str.all (fun x => negb (is_glob_meta x || Str.ch "/" x)) name).
Proof.
  assert (H1 : isGlobPattern name
               = negb (Str.all (fun x => negb (is_glob_meta x)) name)).
  { unfold isGlobPattern, reGlobMeta. rewrite test_some_of_class.
    destruct (Str.includes name "**") eqn:E.
    - rewrite (includes_stars name E). reflexivity.
    - apply orb_false_r. }
  split; [exact H1|].
  change (Parser.looksLikeGlob name) with (isGlobPattern name || Str.includes name "/").
  rewrite H1. clear H1.
  induction name as [|a s IH]; [reflexivity|].
  cbn [Str.all Str.includes String.prefix].
  set (m := is_glob_meta a) in *.
  destruct (Ascii.ascii_dec "/" a) as [<-|Hne].
  - unfold Str.ch. rewrite Ascii.eqb_refl, orb_true_r. cbn [negb andb].
    assert (Hp : String.prefix "" s = true) by (destruct s; reflexivity).
    rewrite Hp. apply orb_true_r.
  - assert (Ea : Str.ch "/" a = false).
    { unfold Str.ch. apply Ascii.eqb_neq. exact Hne. }
    rewrite Ea, orb_false_r.
    destruct m; cbn [negb andb orb]; [reflexivity|exact IH].
Qed.

Lemma replace_dotSlash (rel : string) :
  replace reDotSlash rel ""
  = match rel with
    | String "." (String "/" t) => t
    | _ => rel
    end.
Proof.
  unfold replace, reDotSlash. cbn [seqs]. rewrite exec_bol.
  destruct rel as [|a [|b t]]; cbn [run rest pos caps c]; unfold Str.ch.
  - reflexivity.
  - destruct (Ascii.eqb_spec "." a) as [<-|]; [reflexivity|].
    destruct a as [[] [] [] [] [] [] [] []]; reflexivity.
  - destruct (Ascii.eqb_spec "." a) as [<-|Ha].
    + destruct (Ascii.eqb_spec "/" b) as [<-|Hb]; [reflexivity|].
      destruct b as [[] [] [] [] [] [] [] []]; try reflexivity. contradiction.
    + destruct a as [[] [] [] [] [] [] [] []]; try reflexivity. contradiction.
Qed.

Lemma all_rev_acc (p : ascii -> bool) (s : string) : forall acc,
  Str.all p (Str.rev_acc s acc) = Str.all p s && Str.all p acc.
Proof.
  induction s as [|a s IH]; intros acc; cbn [Str.rev_acc Str.all]; [reflexivity|].
  rewrite IH. cbn [Str.all]. destruct (p a), (Str.all p s); reflexivity.
Qed.

Lemma split_head (sep : ascii) (s : string) : forall cur,
  Str.all (fun x => negb (Str.ch sep x)) cur = true ->
  exists seg tl, Str.split_acc sep s cur = seg :: tl
                 /\ Str.all (fun x => negb (Str.ch sep x)) seg = true.
Proof.
  induction s as [|a s IH]; intros cur Hcur; cbn [Str.split_acc].
  - exists (Str.rev cur), []. split; [reflexivity|].
    unfold Str.rev. rewrite all_rev_acc. cbn [Str.all]. rewrite andb_true_r.
    exact Hcur.
  - destruct (Ascii.eqb sep a) eqn:E.
    + exists (Str.rev cur), (Str.split_acc sep s ""). split; [reflexivity|].
      unfold Str.rev. rewrite all_rev_acc. cbn [Str.all]. rewrite andb_true_r.
    exact Hcur.
    + apply IH. cbn [Str.all]. change (Str.ch sep a) with (Ascii.eqb sep a).
      rewrite E, Hcur. reflexivity.
Qed.

(** X19: the top-level name of a path is never empty and has no [/], and
    taking the top-level name once more changes nothing. *)
Theorem top_level_name_is_one_segment (rel : string) :
  pickTopLevelName rel <> EmptyString
  /\ Str.all noSlash (pickTopLevelName rel) = true
  /\ pickTopLevelName (pickTopLevelName rel) = pickTopLevelName rel.
Proof.
  assert (Hseg : forall seg, seg <> EmptyString -> Str.all noSlash seg = true ->
                             pickTopLevelName seg = seg).
  { intros seg Hne Hall. unfold pickTopLevelName. rewrite replace_dotSlash.
    assert (E : match seg with String "." (String "/" t) => t | _ => seg end = seg).
    { destruct seg as [|a [|b t]];
        [reflexivity|destruct a as [[] [] [] [] [] [] [] []]; reflexivity|].
      cbn [Str.all] in Hall. apply andb_prop in Hall as [_ Hall].
      apply andb_prop in Hall as [Hb _]. unfold Str.ch in Hb.
      destruct (Ascii.eqb_spec "/" b) as [<-|Hb']; [discriminate|].
      destruct a as [[] [] [] [] [] [] [] []]; try reflexivity.
      destruct b as [[] [] [] [] [] [] [] []]; try reflexivity. contradiction. }
    rewrite E, (split_none "/" seg Hall).
    destruct seg as [|a t]; [contradiction|]. cbn [Str.isEmpty negb andb].
    destruct (String.eqb_spec (String a t) ".") as [->|]; reflexivity. }
  assert (Hpick : pickTopLevelName rel <> EmptyString
                  /\ Str.all noSlash (pickTopLevelName rel) = true).
  { unfold pickTopLevelName. unfold Str.split.
    destruct (split_head "/" (replace reDotSlash rel "") "" eq_refl)
      as (seg & tl & -> & Hall).
    destruct seg as [|a t]; cbn [Str.isEmpty negb andb].
    - split; [discriminate|reflexivity].
    - destruct (String.eqb (String a t) "."); cbn [negb].
      + split; [discriminate|reflexivity].
      + split; [discriminate|exact Hall]. }
  destruct Hpick as [Hne Hall]. repeat split; auto.
Qed.

End NameFacts.
(** ** The errors of the parser *)

Section ParseErrors.
Import Types Regex Parser.

Variable h : Host.t.

Ltac thrown H :=
  repeat match type of H with
         | context [match ?x with _ => _ end] => destruct x eqn:?
         end;
  try discriminate H;
  unfold throw in H;
  try (injection H; intros; subst; cbn [Shapes.errorLine]; auto; fail).

Section OneFile.
Variable parseImported : string -> option string -> Deps -> nat -> Outcome PState.
Variable configPath : option string.

Local Abbreviation here e p n := (Shapes.errorLine e = n /\ p = configPath).

Local Abbreviation imported e p :=
  (exists importPath importRaw deps next,
     Host.readFileSync h importPath = Some importRaw
     /\ parseImported importRaw (Some importPath) deps next = Throw e p).

Lemma tryWhere_throw st line n e p :
  tryWhere configPath st line n = Some (Throw e p) -> here e p n.
Proof. unfold tryWhere. intros H. thrown H. Qed.

Lemma tryPath_throw st line n e p :
  tryPath configPath st line n = Some (Throw e p) -> here e p n.
Proof. unfold tryPath. intros H. thrown H. Qed.

Lemma tryImport_throw st line n e p :
  tryImport h parseImported configPath st line n = Some (Throw e p) ->
  here e p n \/ imported e p.
Proof.
  unfold tryImport. intros H.
  destruct (exec reImport line) as [importMatch|]; [|discriminate].
  injection H as H.
  destruct (Str.isEmpty (Str.trim (grp importMatch 1))).
  { unfold throw in H. injection H as <- <-. left. auto. }
  destruct (resolveImport h configPath (Str.trim (grp importMatch 1)))
    as [importPath|].
  2:{ unfold throw in H. injection H as <- <-. left. auto. }
  destruct (match truthyPath configPath with
            | Some cp => String.eqb (Host.resolve h importPath) (Host.resolve h cp)
            | None => false
            end); [discriminate|].
  destruct (Host.readFileSync h importPath) as [importRaw|] eqn:Eread;
    [|discriminate].
  destruct (parseImported importRaw (Some importPath) (p_deps st) (p_next st))
    as [imp|e0 p0| |] eqn:Eimp; try discriminate.
  injection H as <- <-. right.
  exists importPath, importRaw, (p_deps st), (p_next st). auto.
Qed.

Lemma legacyNaming_throw target hint m st n e p :
  legacyNaming configPath target hint m st n = Throw e p -> here e p n.
Proof. unfold legacyNaming. intros H. thrown H. Qed.

Lemma tryRename_throw st line n e p :
  tryRename configPath st line n = Some (Throw e p) -> here e p n.
Proof.
  unfold tryRename. intros H.
  destruct (exec reRename line) as [renameMatch|]; [|discriminate].
  injection H as H.
  destruct (looksLikeGlob _ || looksLikeGlob _); [discriminate|].
  destruct (splitCsvLike _); [|discriminate].
  unfold throw in H. injection H as <- <-. auto.
Qed.

Lemma useStatement_throw st cl n stylesStr fileType pattern e p :
  useStatement configPath st cl n stylesStr fileType pattern = Throw e p ->
  here e p n.
Proof.
  unfold useStatement. intros H.
  destruct (truthyStr (c_ifContains cl) && _).
  { unfold throw in H. injection H as <- <-. auto. }
  destruct (truthyStr (c_ifParentStyle cl) && negb (Lint.fileType_eqb _ _)).
  { unfold throw in H. injection H as <- <-. auto. }
  destruct (truthyStr (c_ifParentStyle cl) && negb (isNamingStyle _)).
  { unfold throw in H. injection H as <- <-. auto. }
  destruct (filter nonEmpty _) as [|s0 styles].
  { unfold throw in H. injection H as <- <-. auto. }
  destruct (stylesOfNames (s0 :: styles)); [|discriminate].
  unfold throw in H. injection H as <- <-. auto.
Qed.

Lemma tryUse_throw st cl n e p :
  tryUse configPath st cl n = Some (Throw e p) -> here e p n.
Proof.
  unfold tryUse. intros H.
  destruct (exec reUseMain (c_line cl)) as [mainMatch|]; [|discriminate].
  destruct (nonEmpty _ && nonEmpty _); [|discriminate].
  injection H as H. eapply useStatement_throw, H.
Qed.

Lemma parseStatement_throw st pl e p :
  parseStatement h parseImported configPath st pl = Throw e p ->
  here e p (lineNum pl) \/ imported e p.
Proof.
  unfold parseStatement.
  destruct (Str.isEmpty (content pl)); [discriminate|].
  set (line := normalizeArray (content pl)).
  destruct (tryWhere configPath st line (lineNum pl)) as [r|] eqn:E1.
  { intros ->. left. eapply tryWhere_throw, E1. }
  destruct (tryPath configPath st line (lineNum pl)) as [r|] eqn:E2.
  { intros ->. left. eapply tryPath_throw, E2. }
  destruct (tryImport h parseImported configPath st line (lineNum pl))
    as [r|] eqn:E3.
  { intros ->. eapply tryImport_throw, E3. }
  destruct (tryMove st line (lineNum pl)) as [r|] eqn:E4.
  { intros ->. unfold tryMove in E4. thrown E4. }
  destruct (tryStrictFor st line (lineNum pl)) as [r|] eqn:E5.
  { intros ->. unfold tryStrictFor in E5. thrown E5. }
  destruct (tryStrictInOnly st line (lineNum pl)) as [r|] eqn:E6.
  { intros ->. unfold tryStrictInOnly in E6. thrown E6. }
  destruct (tryStrictIn st line (lineNum pl)) as [r|] eqn:E7.
  { intros ->. unfold tryStrictIn in E7. thrown E7. }
  destruct (tryAllowIn st line (lineNum pl)) as [r|] eqn:E8.
  { intros ->. unfold tryAllowIn in E8. thrown E8. }
  destruct (tryAllow st line (lineNum pl)) as [r|] eqn:E9.
  { intros ->. unfold tryAllow in E9. thrown E9. }
  destruct (tryInAllow st line (lineNum pl)) as [r|] eqn:E10.
  { intros ->. unfold tryInAllow in E10. thrown E10. }
  destruct (tryInNaming configPath st line (lineNum pl)) as [r|] eqn:E11.
  { intros ->. left. unfold tryInNaming in E11.
    destruct (exec reInNaming line); [|discriminate].
    injection E11 as E11. eapply legacyNaming_throw, E11. }
  destruct (tryThoseNaming configPath st line (lineNum pl)) as [r|] eqn:E12.
  { intros ->. left. unfold tryThoseNaming in E12.
    destruct (exec reThoseNaming line); [|discriminate].
    injection E12 as E12. eapply legacyNaming_throw, E12. }
  destruct (tryNames reNo 2 NoFiles st line) as [r|] eqn:E13.
  { intros ->. unfold tryNames in E13. thrown E13. }
  destruct (tryNames reMustHave 1 HasFile st line) as [r|] eqn:E14.
  { intros ->. unfold tryNames in E14. thrown E14. }
  destruct (tryNames reHas 1 HasFile st line) as [r|] eqn:E15.
  { intros ->. unfold tryNames in E15. thrown E15. }
  destruct (tryNames reOptional 1 Optional st line) as [r|] eqn:E16.
  { intros ->. unfold tryNames in E16. thrown E16. }
  destruct (tryRename configPath st line (lineNum pl)) as [r|] eqn:E17.
  { intros ->. left. eapply tryRename_throw, E17. }
  destruct (tryUse configPath st (stripClauses line) (lineNum pl)) as [r|] eqn:E18.
  { intros ->. left. eapply tryUse_throw, E18. }
  unfold throw. intros H. injection H as <- <-. left. auto.
Qed.

Lemma parseLines_throw (lines : list Line) : forall st e p,
  parseLines h parseImported configPath st lines = Throw e p ->
  (exists pl, In pl lines /\ lineNum pl = Shapes.errorLine e /\ p = configPath)
  \/ imported e p.
Proof.
  induction lines as [|pl more IH]; intros st e p; cbn [parseLines];
    [discriminate|].
  destruct (parseStatement h parseImported configPath st pl)
    as [st'|e0 p0| |] eqn:E; try discriminate.
  - intros H. destruct (IH st' e p H) as [(pl' & Hin & Hrest)|Himp]; [|auto].
    left. exists pl'. split; [right; exact Hin|exact Hrest].
  - intros H. injection H as <- <-.
    destruct (parseStatement_throw st pl e0 p0 E) as [[Hl Hp]|Himp]; [|auto].
    left. exists pl. split; [left; reflexivity|]. auto.
Qed.

End OneFile.

Local Abbreviation namesALine raw configPath e p :=
  (exists text,
     ((p = configPath /\ text = raw)
      \/ exists path, p = Some path /\ Host.readFileSync h path = Some text)
     /\ exists pl, In pl (linesOf text) /\ lineNum pl = Shapes.errorLine e).

Lemma internal_throw (fuel : nat) : forall raw configPath deps next e p,
  parseFsLintConfigInternal h fuel raw configPath deps next = Throw e p ->
  namesALine raw configPath e p.
Proof.
  induction fuel as [|fuel IH]; intros raw configPath deps next e p;
    cbn [parseFsLintConfigInternal]; [discriminate|].
  unfold parseBody.
  destruct (parseLines h (parseFsLintConfigInternal h fuel) configPath
              (mkPState w_config [] [] deps next) (linesOf raw))
    as [st|e0 p0| |] eqn:E; try discriminate.
  - unfold finish. destruct (topologicalSort h _ _); discriminate.
  - intros H. injection H as <- <-.
    destruct (parseLines_throw _ _ _ _ _ _ E)
      as [(pl & Hin & Hn & Hp)|(ip & iraw & d & n & Hread & Himp)].
    + exists raw. split; [left; auto|]. exists pl. auto.
    + destruct (IH _ _ _ _ _ _ Himp) as (text & [[Hp ->]|Hfile] & Hline).
      * exists iraw. split; [|exact Hline]. right. exists ip. auto.
      * exists text. split; [|exact Hline]. right. exact Hfile.
Qed.

(** X20: an error of the parser names a statement of the file it names: the
    path it carries is the path of the file being parsed, with the number of
    one of the lines the given text is processed into, or the path of an
    imported file that was read, with the number of one of the processed
    lines of that file. *)
Theorem error_names_a_line_of_its_file (fuel : nat) (raw : string)
    (configPath : option string) (e : FsLintErrorKey) (p : option string) :
  parseFsLintConfig h fuel raw configPath = Throw e p ->
  namesALine raw configPath e p.
Proof.
  unfold parseFsLintConfig.
  destruct (parseFsLintConfigInternal h fuel raw configPath [] 0)
    as [st|e0 p0| |] eqn:E; try discriminate.
  intros H. injection H as <- <-. eapply internal_throw, E.
Qed.

End ParseErrors.

Lemma error_names_a_line_witness :
  exists text,
    ((@None string = None /\ text = ("[where:]" ++ Example.nl ++ "bogus line")%string)
     \/ exists path, @None string = Some path
                     /\ Host.readFileSync Example.host path = Some text)
    /\ exists pl, In pl (Parser.linesOf text) /\ Parser.lineNum pl = 1.
Proof.
  apply (error_names_a_line_of_its_file Example.host 1
           ("[where:]" ++ Example.nl ++ "bogus line") None
           (Parser.invalidWhereDirective 1) None).
  vm_compute. reflexivity.
Defined.

(** ** [strict ... in] and the permissive rule before it *)

Section StrictIn.
Import Types Parser.

Lemma findPrevAllow_found (dir : string) (rules : list (nat * Rule)) :
  forall acc id prev,
    fold_left (fun acc '(i, r) =>
                 match r with
                 | InDirOnly d =>
                     if String.eqb (d_dir d) dir && Lint.isPermissive d
                     then Some (i, d) else acc
                 | _ => acc
                 end) rules acc = Some (id, prev) ->
    acc = Some (id, prev)
    \/ (In (id, InDirOnly prev) rules /\ d_dir prev = dir
        /\ d_mode prev = Some permissive).
Proof.
  induction rules as [|[i r] rules IH]; intros acc id prev; cbn [fold_left].
  - auto.
  - intros H. apply IH in H as [H|(Hin & Hrest)].
    + destruct r as [? ?|? ?|? ?|? ?|d|?|?|?|?|?]; auto.
      destruct (String.eqb (d_dir d) dir && Lint.isPermissive d) eqn:E; [|auto].
      injection H as -> ->. apply andb_prop in E as [Ed Ep].
      apply String.eqb_eq in Ed. right. split; [left; reflexivity|].
      split; [exact Ed|]. unfold Lint.isPermissive in Ep.
      destruct (d_mode prev) as [[]|]; try discriminate. reflexivity.
    + right. split; [right; exact Hin|exact Hrest].
Qed.

(** X21: when [strict ... in] finds a permissive rule of its directory with
    a list that is not empty, the names of the [allow] rules so far are
    added to the list of that rule as well: the permissive rule and the new
    strict rule, which comes last, end with the same list. *)
Theorem strict_in_extends_the_permissive_rule (st : PState) (dir : string)
    (fileType : option FileType) (id : nat) (prev : InDirOnlyRule) :
  findPrevAllow dir (p_rules st) = Some (id, prev) ->
  d_only prev <> [] ->
  let extended := d_only prev ++ rootAllowNames (p_rules st) in
  let rules' := List.map snd (p_rules (strictIn st dir fileType)) in
  d_dir prev = dir /\ d_mode prev = Some permissive
  /\ (exists n, nth_error (p_rules st) n = Some (id, InDirOnly prev))
  /\ (forall n, nth_error (p_rules st) n = Some (id, InDirOnly prev) ->
                nth_error rules' n
                = Some (InDirOnly (mkInDirOnly dir extended (Some permissive)
                                     (d_fileType prev))))
  /\ nth_error rules' (length (p_rules st))
     = Some (InDirOnly (mkInDirOnly dir extended (Some strict) fileType))
  /\ length rules' = S (length (p_rules st)).
Proof.
  intros Hfind Hne extended rules'.
  pose proof Hfind as Hfound. unfold findPrevAllow in Hfound.
  apply findPrevAllow_found in Hfound as [Hfound|(Hin & Hdir & Hmode)];
    [discriminate|].
  assert (Erules : rules'
            = List.map snd (pushToArray id (rootAllowNames (p_rules st)) (p_rules st))
              ++ [InDirOnly (mkInDirOnly dir extended (Some strict) fileType)]).
  { unfold rules', strictIn. rewrite Hfind.
    destruct (d_only prev) as [|o os] eqn:Eo; [contradiction|].
    cbn [p_rules]. rewrite map_app. reflexivity. }
  assert (Elen : length (List.map snd (pushToArray id (rootAllowNames (p_rules st))
                                         (p_rules st)))
                 = length (p_rules st)).
  { unfold pushToArray. rewrite !length_map. reflexivity. }
  split; [exact Hdir|]. split; [exact Hmode|]. split; [|split; [|split]].
  - apply In_nth_error, Hin.
  - intros n Hn. rewrite Erules, nth_error_app1.
    + unfold pushToArray. rewrite !nth_error_map, Hn. cbn [option_map snd].
      rewrite Nat.eqb_refl. cbn [snd]. rewrite Hdir, Hmode. reflexivity.
    + rewrite Elen. apply nth_error_Some. rewrite Hn. discriminate.
  - rewrite Erules, nth_error_app2 by (rewrite Elen; lia).
    rewrite Elen, Nat.sub_diag. reflexivity.
  - rewrite Erules, length_app, Elen. cbn. lia.
Qed.

End StrictIn.

(** ** The numbers of the processed lines *)

Section LineNumbers.
Import Parser.

Lemma joinContinued_ge (fuel : nat) (rawLines : list string) : forall i line,
  i <= fst (joinContinued fuel rawLines i line).
Proof.
  induction fuel as [|fuel IH]; intros i line; cbn [joinContinued]; [cbn; lia|].
  destruct (Str.endsWith line "\" && Nat.ltb (i + 1) (length rawLines));
    [|cbn; lia].
  specialize (IH (S i) (Str.trim (Str.dropEnd 1 line) ++ " "
                        ++ Str.trim (nth (S i) rawLines ""))%string).
  lia.
Qed.

Lemma gatherArray_ge (fuel : nat) (lines : list string) : forall j bc combined,
  j <= fst (gatherArray fuel lines j bc combined).
Proof.
  induction fuel as [|fuel IH]; intros j bc combined; cbn [gatherArray];
    [cbn; lia|].
  destruct (Nat.ltb j (length lines) && Z.ltb 0 bc); [|cbn; lia].
  destruct (isBlankOrComment (Str.trim (nth j lines ""))).
  - specialize (IH (S j) bc combined). lia.
  - destruct (Z.eqb _ 0); [cbn; lia|].
    match goal with
    | |- _ <= fst (gatherArray fuel lines (S j) ?b ?c) =>
        specialize (IH (S j) b c)
    end. lia.
Qed.

Lemma sorted_snoc (l : list nat) (x : nat) :
  StronglySorted lt l -> (forall y, In y l -> y < x) ->
  StronglySorted lt (l ++ [x]).
Proof.
  induction l as [|a l IH]; intros Hs Hlt; cbn.
  - repeat constructor.
  - inversion Hs as [|? ? Hl Ha]; subst. constructor.
    + apply IH; [exact Hl|]. intros y Hy. apply Hlt. right. exact Hy.
    + apply Forall_app. split; [exact Ha|]. constructor; [|constructor].
      apply Hlt. left. reflexivity.
Qed.

Lemma collectLines_numbers (rawLines : list string) (fuel : nat) :
  forall i acc,
    StronglySorted lt (List.map lineNum acc) ->
    (forall pl, In pl acc ->
       1 <= lineNum pl <= i /\ lineNum pl <= length rawLines
       /\ isBlankOrComment (Str.trim (nth (lineNum pl - 1) rawLines "")) = false) ->
    StronglySorted lt (List.map lineNum (collectLines fuel rawLines i acc))
    /\ forall pl, In pl (collectLines fuel rawLines i acc) ->
         1 <= lineNum pl <= length rawLines
         /\ isBlankOrComment (Str.trim (nth (lineNum pl - 1) rawLines "")) = false.
Proof.
  induction fuel as [|fuel IH]; intros i acc Hs Hacc; cbn [collectLines].
  - split; [exact Hs|]. intros pl Hpl. destruct (Hacc pl Hpl) as (H1 & H2 & H3).
    split; [lia|exact H3].
  - destruct (Nat.ltb i (length rawLines)) eqn:Ei.
    2:{ split; [exact Hs|]. intros pl Hpl.
        destruct (Hacc pl Hpl) as (H1 & H2 & H3). split; [lia|exact H3]. }
    apply Nat.ltb_lt in Ei.
    destruct (isBlankOrComment (Str.trim (nth i rawLines ""))) eqn:Eb.
    + apply IH; [exact Hs|]. intros pl Hpl.
      destruct (Hacc pl Hpl) as (H1 & H2 & H3). repeat split; try lia. exact H3.
    + pose proof (joinContinued_ge (length rawLines) rawLines i
                    (Str.trim (nth i rawLines ""))) as Hj.
      destruct (joinContinued (length rawLines) rawLines i
                  (Str.trim (nth i rawLines ""))) as [i1 line1].
      cbn [fst] in Hj.
      assert (Hi2 : i <= fst (if opensArray line1
                              then gatherArray (length rawLines) rawLines (S i1)
                                     (countChar "[" line1) line1
                              else (i1, line1))).
      { destruct (opensArray line1); [|cbn; lia].
        pose proof (gatherArray_ge (length rawLines) rawLines (S i1)
                      (countChar "[" line1) line1). lia. }
      destruct (if opensArray line1
                then gatherArray (length rawLines) rawLines (S i1)
                       (countChar "[" line1) line1
                else (i1, line1)) as [i2 line2].
      cbn [fst] in Hi2. apply IH.
      * rewrite map_app. cbn [List.map lineNum]. apply sorted_snoc; [exact Hs|].
        intros y Hy. apply in_map_iff in Hy as (pl & <- & Hpl).
        destruct (Hacc pl Hpl) as (H1 & _). lia.
      * intros pl Hpl. apply in_app_or in Hpl as [Hpl|[<-|[]]].
        -- destruct (Hacc pl Hpl) as (H1 & H2 & H3). repeat split; try lia.
           exact H3.
        -- cbn [lineNum]. repeat split; try lia.
           replace (i + 1 - 1) with i by lia. exact Eb.
Qed.

(** X25: the processed lines of a text come with increasing numbers, each the
    number of a line of the preprocessed text that is neither blank nor a
    comment: the line the statement starts on. *)
Theorem line_numbers_increase (raw : string) :
  let rawLines := splitLines (preprocessNestedBlocks raw) in
  StronglySorted lt (List.map lineNum (linesOf raw))
  /\ forall pl, In pl (linesOf raw) ->
       1 <= lineNum pl <= length rawLines
       /\ isBlankOrComment (Str.trim (nth (lineNum pl - 1) rawLines "")) = false.
Proof.
  intros rawLines. unfold linesOf. fold rawLines.
  apply collectLines_numbers; [constructor|intros pl []].
Qed.

End LineNumbers.
(** ** The size comparison of a condition *)

Section SizeFacts.
Import Conditions.
Variable h : Host.t.
Variable root : string.

Lemma Qlt_bool_asym (a b : Q) : Qlt_bool a b = true -> Qlt_bool b a = false.
Proof.
  unfold Qlt_bool. intros H. apply negb_true_iff in H. apply negb_false_iff.
  apply Qle_bool_iff. apply Qlt_le_weak, Qnot_le_lt. intros Hle.
  apply Qle_bool_iff in Hle. congruence.
Qed.

(** X23: a [fileSize] condition compares strictly and knows two operators:
    with an operator other than [>] and [<] it answers [false], and for one
    path and one size it never answers [true] both with [>] and with [<]. *)
Theorem fileSize_operators (targetPath value : string) :
  (forall op, op <> ">" -> op <> "<" ->
              evaluateCondition h root (fileSize op value) targetPath = false)
  /\ (evaluateCondition h root (fileSize ">" value) targetPath = true ->
      evaluateCondition h root (fileSize "<" value) targetPath = false).
Proof.
  split.
  - intros op Hgt Hlt. cbn [evaluateCondition].
    destruct (Host.isDirectory h targetPath); [reflexivity|].
    destruct (Host.statSize h targetPath); [|reflexivity].
    destruct (parseSizeLiteral value); [|reflexivity].
    destruct (String.eqb_spec op ">"); [contradiction|].
    destruct (String.eqb_spec op "<"); [contradiction|]. reflexivity.
  - cbn [evaluateCondition].
    destruct (Host.isDirectory h targetPath); [discriminate|].
    destruct (Host.statSize h targetPath); [|discriminate].
    destruct (parseSizeLiteral value); [|discriminate].
    change (String.eqb ">" ">") with true. change (String.eqb "<" ">") with false.
    change (String.eqb "<" "<") with true. cbv iota.
    apply Qlt_bool_asym.
Qed.

End SizeFacts.
(** ** The properties of the run in the example workspace

    The workspace of [/repo] has the files [a.log], [b.log] and [notes.md]. *)

(** The issue of [no *.log] for [a.log] is well formed. *)
Lemma issues_are_well_formed_witness :
  Shapes.wellFormed Example.host Example.root
    (mkIssue k_no "/repo/a.log" "a.log" (no_forbidden "*.log") forbidden error).
Proof.
  apply (issues_are_well_formed Example.host Example.root
           (Example.configOfRules [NoFiles ["*.log"]]) false).
  vm_compute. auto.
Defined.

(** Its kind is the kind of the one rule. *)
Lemma issue_kinds_witness :
  exists r, In r [NoFiles ["*.log"]]
            /\ (kindOf r = k_no
                \/ (k_no = k_inDirOnly /\ (kindOf r = k_allow \/ kindOf r = k_has))).
Proof.
  apply (issue_kinds_come_from_rules Example.host Example.root
           (Example.configOfRules [NoFiles ["*.log"]]) false
           (mkIssue k_no "/repo/a.log" "a.log" (no_forbidden "*.log")
              forbidden error)).
  vm_compute. auto.
Defined.

(** The issue of [a.log] recorded by [no *.log] stays when [allow *.md] and
    [has notes.md] follow: the names of the [allow] rule have got [notes.md]
    from the grouping, and neither name matches [a.log]. *)
Lemma recorded_issue_witness :
  let aLog := mkIssue k_no "/repo/a.log" "a.log" (no_forbidden "*.log")
                forbidden error in
  let bLog := mkIssue k_no "/repo/b.log" "b.log" (no_forbidden "*.log")
                forbidden error in
  Lint.sharedNames Example.host Example.root
    [NoFiles ["*.log"]; Allow ["*.md"]; HasFile ["notes.md"]] = ["notes.md"]
  /\ exists j, In j [aLog; bLog] /\ ruleKind j = k_no /\ path j = "/repo/a.log".
Proof.
  intros aLog bLog. split; [reflexivity|].
  apply (recorded_issue_stays Example.host Example.root
           (Example.configOfRules
              [NoFiles ["*.log"]; Allow ["*.md"]; HasFile ["notes.md"]]) false
           [NoFiles ["*.log"]] [Allow ["*.md"]; HasFile ["notes.md"]]
           aLog [aLog; bLog]).
  - reflexivity.
  - vm_compute. auto.
  - intros r [<-|[<-|[]]] (_ & Hrem).
    + destruct Hrem as [_ Hin]. vm_compute in Hin.
      destruct Hin as [Hin|[]]. discriminate Hin.
    + exact Hrem.
  - reflexivity.
  - reflexivity.
Defined.

(** [a.log] matches [*.log] and is reported: the [allow] rule after the [no]
    rule matches [notes.md] only, also with the name of the [has] rule. *)
Lemma no_rule_witness :
  let aLog := mkIssue k_no "/repo/a.log" "a.log" (no_forbidden "*.log")
                forbidden error in
  let bLog := mkIssue k_no "/repo/b.log" "b.log" (no_forbidden "*.log")
                forbidden error in
  exists j, In j [aLog; bLog] /\ ruleKind j = k_no /\ path j = "/repo/a.log".
Proof.
  intros aLog bLog.
  apply (no_rule_reports Example.host Example.root
           (Example.configOfRules
              [NoFiles ["*.log"]; Allow ["*.md"]; HasFile ["notes.md"]]) false
           [] [Allow ["*.md"]; HasFile ["notes.md"]] ["*.log"] "*.log"
           "/repo/a.log" [aLog; bLog]).
  - reflexivity.
  - left. reflexivity.
  - vm_compute. auto.
  - reflexivity.
  - intros ns [E|[E|[]]]; discriminate E.
  - intros ns [E|[E|[]]]; [|discriminate E].
    injection E as <-. vm_compute. intros [Hin|[]]. discriminate Hin.
  - reflexivity.
  - reflexivity.
Defined.

(** With [has a.log] in the place of [has notes.md] the [allow] rule finds
    [a.log] among its names and takes the issue of [a.log] out. *)
Example allow_rule_with_a_required_name :
  Lint.lintRun Example.host Example.root
    (Example.configOfRules [NoFiles ["*.log"]; Allow ["*.md"]; HasFile ["a.log"]])
    false
  = Some [mkIssue k_no "/repo/b.log" "b.log" (no_forbidden "*.log")
            forbidden error].
Proof. vm_compute. reflexivity. Qed.

(** There is no [README.md], so [has README.md] reports it. *)
Lemma has_rule_witness :
  let readme := mkIssue k_has "/repo/README.md" "README.md"
                  (has_mustExist "README.md") missing error in
  exists j, In j [readme] /\ ruleKind j = k_has /\ path j = "/repo/README.md".
Proof.
  intros readme.
  apply (has_rule_reports Example.host Example.root
           (Example.configOfRules [HasFile ["README.md"]]) false
           [] [] ["README.md"] "README.md" [readme]).
  - reflexivity.
  - left. reflexivity.
  - reflexivity.
  - intros ns [].
  - reflexivity.
  - reflexivity.
Defined.

(** The name [../x] of a [has] rule is a path outside the root: the issue
    raised for it has a path the ignore rules do not take, and the run ends
    without a result. *)
Example run_without_result :
  Lint.rawIssuesOf Example.host Example.root
    (Example.configOfRules [HasFile ["../x"]]) false
  = [mkIssue k_has "/repo/../x" "../x" (has_mustExist "../x") missing error]
  /\ Lint.lintRun Example.host Example.root
       (Example.configOfRules [HasFile ["../x"]]) false = None.
Proof. split; vm_compute; reflexivity. Qed.

(** For the permissive rule [allow *.md in .] the run with the strict
    override reports the two log files and the run without it nothing. *)
Lemma strict_override_witness :
  let rule := InDirOnly (mkInDirOnly "." ["*.md"] (Some permissive) None) in
  let strictIssues :=
    [mkIssue k_inDirOnly "/repo/a.log" "a.log"
       (inDirOnly_forbiddenOnlyAllowed "./" ["*.md"]) forbidden error;
     mkIssue k_inDirOnly "/repo/b.log" "b.log"
       (inDirOnly_forbiddenOnlyAllowed "./" ["*.md"]) forbidden error] in
  exists issues,
    Lint.lintRun Example.host Example.root (Example.configOfRules [rule]) false
    = Some issues
    /\ filter Shapes.notOfGroups issues = filter Shapes.notOfGroups strictIssues
    /\ forall i, In i issues ->
         exists j, In j strictIssues
                   /\ ruleKind j = ruleKind i /\ path j = path i.
Proof.
  intros rule strictIssues.
  apply (strict_override_only_adds Example.host Example.root
           (Example.configOfRules [rule]) strictIssues).
  reflexivity.
Defined.

(** With [optional README.md] after it, nothing is reported for the file. *)
Lemma optional_after_has_witness :
  In "/repo/README.md"
     (Shapes.optionalPaths Example.host Example.root ["README.md"])
  /\ forall i,
       In i (Lint.lintWorkspace Example.host Example.root
               (Example.configOfRules
                  [HasFile ["README.md"]; Optional ["README.md"]])
               false) ->
       ruleKind i = k_has -> path i <> "/repo/README.md".
Proof.
  split; [left; reflexivity|].
  apply (optional_after_has_leaves_no_issue Example.host Example.root
           (Example.configOfRules [HasFile ["README.md"]; Optional ["README.md"]])
           false [HasFile ["README.md"]] [] ["README.md"] "/repo/README.md").
  - reflexivity.
  - left. reflexivity.
  - reflexivity.
  - discriminate.
  - intros ns n [].
Defined.

(** Of the files of [*.log] the rule [strict files for *.log] with [a.log]
    allowed reports [b.log]. *)
Lemma thoseOnly_issue_witness :
  exists pattern only,
    In (ThoseOnly pattern only) [ThoseOnly "*.log" ["a.log"]]
    /\ In "/repo/b.log"
          (List.map (Host.resolve2 Example.host Example.root)
             (Lint.scanOne Example.host pattern Example.root true))
    /\ ~ In "/repo/b.log"
            (List.map (Host.resolve2 Example.host Example.root)
               (Lint.scanMany Example.host only Example.root true))
    /\ thoseOnly_forbiddenOnlyAllowed ["a.log"] "*.log"
       = thoseOnly_forbiddenOnlyAllowed (Lint.sortStrings only) pattern.
Proof.
  apply (thoseOnly_issue_is_not_allowed Example.host Example.root
           (Example.configOfRules [ThoseOnly "*.log" ["a.log"]]) false
           (mkIssue k_thoseOnly "/repo/b.log" "b.log"
              (thoseOnly_forbiddenOnlyAllowed ["a.log"] "*.log") forbidden error)).
  - vm_compute. auto.
  - reflexivity.
Defined.

(** The strict group of the root directory with [*.md] allowed reports
    [a.log]. *)
Lemma group_issue_witness :
  let rule := mkInDirOnly "." ["*.md"] (Some strict) None in
  (false = true \/ existsb Lint.isStrictOrUnset [rule] = true)
  /\ exists rel,
       "/repo/a.log" = Host.resolve2 Example.host "/repo" rel
       /\ Str.startsWith rel "." = false
       /\ (Host.isDirectory Example.host "/repo/a.log" = false ->
           ~ In "/repo/a.log" [])
       /\ forall r, In r [rule] ->
            Lint.skipsByFileType (d_fileType r)
              (Host.isDirectory Example.host "/repo/a.log") = false ->
            ~ In rel (Lint.allowedSetOf Example.host "." "/repo" [r]).
Proof.
  intros rule.
  apply (group_issue_is_justified Example.host Example.root false [] None "."
           [rule]
           (mkIssue k_inDirOnly "/repo/a.log" "a.log"
              (inDirOnly_forbiddenOnlyAllowed "./" ["*.md"]) forbidden error)).
  - reflexivity.
  - vm_compute. auto.
Defined.

(** There is no [logs], so the issue of [move *.log to logs] for [a.log] is
    an error. *)
Lemma error_means_free_witness :
  exists from toDir,
    In (Move from toDir) [Move "*.log" "logs"]
    /\ In "/repo/a.log" (Lint.scanOne Example.host from Example.root true)
    /\ Host.existsSync Example.host
         (Host.resolve2 Example.host
            (Host.resolve2 Example.host Example.root toDir)
            (Host.basename Example.host "/repo/a.log")) = false
    /\ (Host.existsSync Example.host
          (Host.resolve2 Example.host Example.root toDir) = true ->
        Host.isDirectory Example.host
          (Host.resolve2 Example.host Example.root toDir) = true).
Proof.
  apply (error_means_the_target_is_free Example.host Example.root
           (Example.configOfRules [Move "*.log" "logs"]) false
           (mkIssue k_move "/repo/a.log" "a.log" (move_shouldMoveToDir "logs/")
              forbidden error)).
  - vm_compute. auto.
  - reflexivity.
Defined.

(** After [allow *.md in docs] and [allow LICENSE], the statement
    [strict in docs] leaves both rules of [docs] with the two names. *)
Lemma strict_in_witness :
  let prev := mkInDirOnly "docs" ["*.md"] (Some permissive) None in
  let st := Parser.mkPState w_config
              [(0, InDirOnly prev); (1, Allow ["LICENSE"])] [] [] 2 in
  let rules' := List.map snd (Parser.p_rules (Parser.strictIn st "docs" None)) in
  nth_error rules' 0
  = Some (InDirOnly (mkInDirOnly "docs" ["*.md"; "LICENSE"] (Some permissive) None))
  /\ nth_error rules' 2
     = Some (InDirOnly (mkInDirOnly "docs" ["*.md"; "LICENSE"] (Some strict) None)).
Proof.
  intros prev st rules'.
  destruct (strict_in_extends_the_permissive_rule st "docs" None 0 prev
              eq_refl ltac:(discriminate))
    as (_ & _ & _ & Hprev & Hlast & _).
  split; [apply (Hprev 0 eq_refl)|exact Hlast].
Defined.

(** With [use PascalCase for files in .] as the one rule, the issue of
    [a.log] is for an entry of the directory that the rule rejects. *)
Lemma naming_issue_witness :
  let i := mkIssue k_naming "/repo/a.log" "a.log"
             (naming_invalid Naming.PascalCase) forbidden error in
  let config :=
    Example.configOfRules
      [NamingR (mkNamingRule target_in "." Naming.PascalCase None None None None
                  None None)] in
  exists rule name isDir,
    In (NamingR rule) (cfg_rules config)
    /\ Lint.skipsByFileType (n_fileType rule) isDir = false
    /\ match n_target rule with
       | target_in =>
           exists dirAbs entry,
             In dirAbs (Lint.dirsToCheck Example.host Example.root rule)
             /\ In entry (Host.listTopLevel Example.host dirAbs)
             /\ Host.e_abs entry = path i /\ Host.e_name entry = name
             /\ Host.e_isDir entry = isDir
       | target_those =>
           In (path i)
              (Lint.scanOne Example.host (n_pattern rule) Example.root
                 (Lint.onlyFilesOf rule))
           /\ name = Host.basename Example.host (path i)
           /\ isDir = Host.isDirectory Example.host (path i)
       end
    /\ forall r,
         In (NamingR r) (cfg_rules config) ->
         n_target r = n_target rule ->
         match n_target rule with
         | target_in => n_pattern r = n_pattern rule
         | target_those =>
             In (path i)
                (Lint.scanOne Example.host (n_pattern r) Example.root
                   (Lint.onlyFilesOf r))
         end ->
         Lint.isConditional r = false ->
         Lint.skipsByFileType (n_fileType r) isDir = false ->
         Lint.exceptIncludes r name = false
         /\ Naming.valid
              (Lint.checkStyle Example.host name (n_style r) (n_prefix r)
                 (n_suffix r)) = false.
Proof.
  intros i config.
  apply (naming_issue_passes_no_rule Example.host Example.root config false i).
  - vm_compute. auto.
  - reflexivity.
Defined.

(** The rule [rename *.log to *.txt] has a pattern as its target: its issue
    for [a.log] is a warning without a target. *)
Lemma pattern_target_witness :
  let i := mkIssue k_renameGlob "/repo/a.log" "a.log" renameGlob_cannotInferTarget
             forbidden warn in
  In i []
  \/ (ruleKind i = k_renameGlob
      /\ In (path i) (Lint.scanOne Example.host "*.log" Example.root true)
      /\ message i = renameGlob_cannotInferTarget /\ severity i = warn).
Proof.
  intros i.
  apply (pattern_target_is_not_inferred Example.host Example.root [] []
           (Lint.mkState [] [] None []) "*.log" "*.txt" i).
  - reflexivity.
  - reflexivity.
  - vm_compute. auto.
Defined.
